(* ===== verification/_CoqProject ===== *)
-Q . S2P
Prelude.v
Hoare.v
RustStr.v
Proto.v
Models.v
CommonError.v
StateMachine.v
MetadataInvariants.v
StatsInvariant.v
MetadataTheorems.v
TypedState.v
LifeCycles.v
ObjectTheorems.v
Snapshot.v
Raft.v
RaftTheorems.v
MetadataService.v
ServiceTheorems.v
Cluster.v
Vtl.v
HostTools.v
VtlTheorems.v
TapeService.v
TapeTheorems.v
F64.v
CacheBackend.v
Cache.v
CacheInvariants.v
CacheEviction.v
CacheRebuild.v
CacheTheorems.v
CacheRefinement.v
SchedulerProto.v
External.v
Config.v
Workers.v
GatewayProtocol.v
Gateway.v
GatewayTheorems.v
SchedulerClients.v
Scheduler.v
Leases.v
Node.v
SchedulerTraces.v
SchedulerSystem.v
Checksums.v
Histories.v
Interference.v
Claims.v
SchedulerIntegrity.v
Composition.v
Progress.v
SchedulerTheorems.v
SchedulerLimits.v
SchedulerRuns.v
ProgressRuns.v
EndToEnd.v
