(* ===== verification/Prelude.v ===== *)
(** * ColdStore: a verification development

    ColdStore is an object store that keeps cold data on tape. A gateway
    speaks S3 to clients; a metadata service keeps buckets, objects, archive
    bundles and tasks; a cache worker keeps the bytes of objects that wait to
    be archived ("staging") or were recalled ("restored"); a tape worker
    writes bundles of objects to tape and reads them back; a scheduler moves
    objects between cache and tape and reports to the metadata service. The
    sources are Rust crates under [src/crates].

    This development models the gateway, the scheduler, the metadata service,
    the cache worker, the tape worker and the virtual tape library, definition
    by definition, proves what makes each correct against the interfaces of
    the ones it calls, and composes them into the whole store.

    ** Conventions

    - A method that can fail is an [action S E A]: from a state to a state and
      a [result]. An error keeps the state reached when it was raised, since
      an early return undoes nothing. A panic, where the code can panic, is
      the value [Panicked].
    - [u64], [u32], [usize] and [i64] are [Z]; plain [+] wraps (the release
      profile has no overflow checks), saturating operations saturate. Bytes
      are [Z] below 256, strings are their UTF-8 bytes, [f64] is IEEE 754
      binary64.
    - A [HashMap] is a [gmap]; the order in which it is iterated is a
      parameter, [hash_order], of every operation that iterates, so that the
      theorems hold for every order.
    - Code outside the repository is an interface with the laws its
      documentation gives: the protobuf codec ([Prost]), which reads back what
      it wrote of typed values, RocksDB, the JSON
      codec ([Json]), SHA-256, HTTP header values and dates ([External]). A
      concrete instance in the development shows that the laws can hold. The
      clocks are parameters.
    - Locks make a history of a service a sequence of calls: a call runs to
      its end before the next one of the same service starts. The tasks that
      make the calls interleave: between any two calls of a request or a pass,
      other tasks may make calls of their own ([Interference]).

    ** Files

    - [Prelude]: results, actions, machine integers, hash maps, orders and
      sorting, with their lemmas and tactics. [Hoare]: triples for actions.
    - [Proto]: the messages and enumerations of [proto/*.proto] and the
      [Status] of gRPC. [Models], [CommonError]: [models.rs] and [error.rs] of
      [common/src]. [RustStr]: what the sources use of Rust's strings.
    - Metadata, [crates/metadata/src]. [StateMachine]: the tables and
      [apply_command] of [state_machine.rs] and [command.rs], one definition
      per command. [MetadataInvariants], [StatsInvariant]: what every command
      keeps. [TypedState]: which values the fields of the stored messages
      have. [Snapshot]: the binary snapshot format and the replacement of the
      snapshot file. [Raft]: [raft.rs] and [raft_storage.rs], the log, vote
      and snapshot records in RocksDB and the local raft. [MetadataService]:
      [service.rs], the write path and the handlers. [Cluster]: the start-up
      checks of [lib.rs].
    - Tape. [Vtl]: [crates/vtl/src], tapes as records with a cursor, slots,
      drives and the changer. [HostTools]: its commands and their runners
      ([command.rs]), the tool chain ([mhvtl.rs]) and the reader of [lsscsi]
      ([discover.rs]). [TapeService]: [crates/tape/src/service.rs], the backend
      trait as a class, the simulator, the streaming handlers. [Workers]: the
      handlers that forward to the backend, and the start of the tape and the
      cache worker.
    - Cache, [crates/cache/src]. [F64]: doubles. [CacheBackend]: the trait
      of [backend.rs] as a class with its laws, and [hdd.rs] over a file
      system whose operations can fail. [Cache]: [service.rs], the index,
      the budgets, eviction and the handlers. [CacheInvariants],
      [CacheEviction], [CacheRebuild]: what the handlers keep.
      [CacheRefinement]: the abstract store its clients see.
    - [SchedulerProto]: the messages of [scheduler.proto]. [External]: the
      interfaces of the libraries the gateway and the scheduler use.
      [Config]: the sections of [common/src/config.rs] they read. [Node]:
      [node/src/main.rs], the configurations of a node in one process.
    - Gateway, [crates/gateway/src]. [GatewayProtocol]: [protocol.rs].
      [Gateway]: [handler.rs], the router and the handlers over any
      [GatewayBackend], and [lib.rs], the backend that connects to a fleet of
      schedulers ([SchedulerNetwork]).
    - Scheduler, [crates/scheduler/src]. [SchedulerClients]: the services it
      calls as classes ([MetadataClient], [CacheClient], [TapeClient]) and the
      pure helpers of [service.rs]. [Scheduler]: the clients, the archive and
      recall passes, the S3 operations and the gRPC handlers, and the start in
      [lib.rs]. Its state [Sched] has the sets of active items and the world
      behind the clients. [Leases]: the background agents as processes that
      wait for semaphores and tape leases, as a step relation.
      [SchedulerSystem]: the world made of the models of the metadata service,
      the cache and a tape backend. [Histories]: any sequence of requests and
      turns of the agents. [Interference]: that world shared with other tasks,
      whose calls are served before each call of the scheduler, with a record
      of the calls a task makes. [Checksums], [SchedulerIntegrity], [Claims]:
      what a task guarantees as long as the others do. [Composition]: any
      number of tasks whose calls are served in any order. [Progress]: the
      steps that succeed in the life of one upload.

    ** Theorems

    - [MetadataTheorems]: any log of commands leaves well-formed tables; a
      failing command changes nothing; bucket statistics are exact.
    - [TypedState]: the commands keep stored numbers in the range of their
      fields and stored strings UTF-8, which the codecs rely on.
    - [LifeCycles]: tasks are never lost and move only along the transition
      tables; how the tables of the state machine and of the domain model
      compare.
    - [ObjectTheorems]: the description of an object's bytes does not change
      under it; lookups return the newest version; exactly which archive
      completions are accepted and what they do.
    - [Snapshot]: round trip up to the decoder's limits, truncation detected,
      atomic replacement.
    - [RaftTheorems]: recovery from the database refines the sequence of
      proposals; where the live and the stored state can part.
    - [ServiceTheorems]: pages and pagination of listings, durability of
      acknowledged writes. What is saved can be loaded again exactly when it
      keeps within the limits of the snapshot decoder, which nothing enforces
      when it is written; [Snapshot], [RaftTheorems] and [ServiceTheorems] say
      what happens on either side of the limits. [Cluster]: which configurations start.
    - [VtlTheorems], [TapeTheorems]: tapes are conserved by successful moves,
      the simulator does not panic, bundles are read back by their place on
      the tape, which is the reported number on the first tape of a drive,
      drives are acquired exclusively, streams are written whole; and the
      cases where tapes or bundles are lost.
    - [HostTools]: a printed command is a line that a shell reads back, up to
      empty arguments; the devices that [lsscsi] lists are read back.
    - [CacheRefinement]: every history of requests and answers is one of a
      store in which only uploads and deletions under a key change a staged
      object. [CacheTheorems]: staged objects survive whatever other requests follow;
      writes stay within the capacity; eviction takes restored objects in the
      order of LRU or LFU, which is spelled out key by key, until the bytes fit;
      a restart keeps the newest objects and deletes the older ones; the budget the default configuration gives.
    - [GatewayTheorems]: no request makes the gateway panic; ranges, in
      each form a client can write, return their slice or are refused; error documents and restore requests are read back;
      errors are mapped consistently; connecting goes round the fleet and
      reaches a scheduler that is up.
    - [SchedulerTraces]: for any other services, in any trace of calls, what
      an archive or a recall pass does is justified by what it was told
      before: which task was claimed, which tape is in the drive that was given
      out, what was read from where. [SchedulerTheorems]: passes release their
      items on every path, what a page of a listing shows, retries end.
    - [SchedulerIntegrity], [Composition], [EndToEnd]: over the models of the
      other services, for any number of schedulers with any histories whose
      calls are interleaved in any way, every call keeps the services
      consistent, a task is claimed at most once, and a download returns the
      bytes that were uploaded, up to their SHA-256 digest, from the scheduler
      and through the gateway. The bodies that clients asked to store are the
      [Uploads] of [Checksums]; every object records one of them. Each task is reliable as long as the others are
      ([SchedulerIntegrity]), and so all are ([Composition]).
    - [Leases]: agents never use the same tape or recall at the same time; the
      passes that have begun come to an end and give back what they hold.
    - [Claims]: of several schedulers that claim the same task at most one
      succeeds.
    - [Progress]: the first upload under a key, if it was acknowledged, is
      archived, recalled and downloaded, for every body, when the devices work
      and nothing else waits; the metadata service is in memory and the tape in
      the drive.
    - [SchedulerLimits], [SchedulerRuns], [ProgressRuns]: where the scheduler and the metadata
      service disagree; an upload followed through a concrete store, and the
      concrete runs the theorems about the scheduler are applied to.

    Theorems whose names say that something is lost, skipped, destroyed,
    exceeded, blocked, stuck or not found record behaviour of the code that its
    comments or its configuration do not promise.

    ** Fuel and bounds

    Loops are structural on the data they consume, except: splitting into
    chunks runs on the length of the data, stripping prefixes on the length
    of the string, and eviction on the configured batch size, which is the
    bound of the loop in the source. None runs out of fuel early. Bounds such
    as [writable n] (identifiers left for [n] writes; a history needs one per
    upload and per task a recall pass may take) and the 64-bit limits appear as
    hypotheses where a theorem needs them.

    ** Not modelled

    The gRPC and HTTP servers with the decoding of paths and queries, the main
    functions of the services, spawning and logging; interleavings inside a
    handler of the metadata service, the cache or the tape worker, which their
    locks exclude for the writes; the pauses of the background agents and the
    order in which a semaphore serves those who wait; running a program of the
    host. In [Composition] every task has sets of active items of its own;
    the sets that the requests and agents of one process share only keep them
    from taking up the same item twice, which the claims of tasks decide
    anyway, so the theorems do not rely on them. *)

From Stdlib Require Import ZArith Lia Ascii String.
From stdpp Require Export sorting.
From stdpp Require Export base option numbers strings gmap list.

#[export] Set Default Goal Selector "!".

(** ** Results

    Rust's [Result<A, E>]; the error type comes first so that [result E] is
    a monad for stdpp's [x ← m; k] notation, which plays the part of [?]. *)

Inductive result (E A : Type) : Type :=
| Ok (a : A)
| Err (e : E).
Arguments Ok {E A} a.
Arguments Err {E A} e.

#[export] Instance result_ret E : MRet (result E) := λ A a, Ok a.
#[export] Instance result_bind E : MBind (result E) := λ A B f r,
  match r with Ok a => f a | Err e => Err e end.
#[export] Instance result_fmap E : FMap (result E) := λ A B f r,
  match r with Ok a => Ok (f a) | Err e => Err e end.

#[export] Instance result_eq_dec `{EqDecision E, EqDecision A} :
  EqDecision (result E A).
Proof. solve_decision. Defined.

(** [Option::ok_or_else] *)
Definition ok_or {E A} (e : E) (o : option A) : result E A :=
  match o with Some a => Ok a | None => Err e end.

(** [Result::map_err] *)
Definition map_err {E F A} (f : E → F) (r : result E A) : result F A :=
  match r with Ok a => Ok a | Err e => Err (f e) end.

(** [Result::ok] *)
Definition ok {E A} (r : result E A) : option A :=
  match r with Ok a => Some a | Err _ => None end.

Definition is_ok {E A} (r : result E A) : bool :=
  match r with Ok _ => true | Err _ => false end.

Lemma result_bind_Ok {E A B} (r : result E A) (f : A → result E B) b :
  r ≫= f = Ok b ↔ ∃ a, r = Ok a ∧ f a = Ok b.
Proof. split; [destruct r; intros; [by eauto|done]|by intros (a & -> & ?)]. Qed.

Lemma ok_or_Ok {E A} (e : E) (o : option A) a :
  ok_or e o = Ok a ↔ o = Some a.
Proof. destruct o; naive_solver. Qed.

(** ** State and errors

    A method on [&mut self] that can fail: the error keeps the state reached
    when it was raised, since Rust does not undo the writes made before an
    early return. *)

Definition action (S E A : Type) : Type := S → S * result E A.

#[export] Instance action_ret S E : MRet (action S E) := λ A a s, (s, Ok a).
#[export] Instance action_bind S E : MBind (action S E) := λ A B f m s,
  match m s with
  | (s', Ok a) => f a s'
  | (s', Err e) => (s', Err e)
  end.
#[export] Instance action_fmap S E : FMap (action S E) := λ A B f m s,
  match m s with
  | (s', Ok a) => (s', Ok (f a))
  | (s', Err e) => (s', Err e)
  end.

Definition get_state {S E} : action S E S := λ s, (s, Ok s).
Definition put_state {S E} (s : S) : action S E unit := λ _, (s, Ok tt).
Definition modify {S E} (f : S → S) : action S E unit := λ s, (f s, Ok tt).
Definition throw {S E A} (e : E) : action S E A := λ s, (s, Err e).
(** [r?] where [r] reads nothing but its arguments *)
Definition lift {S E A} (r : result E A) : action S E A := λ s, (s, r).
(** [f(&self)?] where [f] only reads the state *)
Definition reads {S E A} (f : S → result E A) : action S E A := λ s, (s, f s).
(** [if b { return Err(e) }] *)
Definition reject_if {S E} (b : bool) (e : E) : action S E unit :=
  λ s, (s, if b then Err e else Ok tt).

Lemma action_bind_Ok {S E A B} (m : action S E A) (k : A → action S E B) s s' b :
  (m ≫= k) s = (s', Ok b) ↔ ∃ s1 a, m s = (s1, Ok a) ∧ k a s1 = (s', Ok b).
Proof.
  unfold mbind, action_bind. destruct (m s) as [s1 [a|e]]; naive_solver.
Qed.

(** The outcome of code that can also panic: an error it returns, or the
    panic. *)
Inductive fault (E : Type) : Type :=
| Raised (e : E)
| Panicked.
Arguments Raised {E} e.
Arguments Panicked {E}.

(** [v[i]] on a [Vec] *)
Definition vec_get {S E A} (l : list A) (i : Z) : action S (fault E) A :=
  λ s, (s, match l !! Z.to_nat i with Some x => Ok x | None => Err Panicked end).

(** [safe I m Q]: from a state with [I], [m] does not panic, ends in a state
    with [I], and returns a value with [Q] if it does not return an error. *)
Definition safe {S E A} (I : S → Prop) (m : action S (fault E) A) (Q : A → Prop) : Prop :=
  ∀ s, I s → I (m s).1 ∧
    match (m s).2 with
    | Ok a => Q a
    | Err (Raised _) => True
    | Err Panicked => False
    end.

Section safe.
Context {S E : Type} (I : S → Prop).
Implicit Types (A B : Type).

Lemma safe_bind {A B} (m : action S (fault E) A) (k : A → action S (fault E) B) Q R :
  safe I m Q → (∀ a, Q a → safe I (k a) R) → safe I (m ≫= k) R.
Proof.
  intros Hm Hk s Hs. destruct (Hm s Hs) as [HI HQ].
  unfold mbind, action_bind. destruct (m s) as [s' [a|[e|]]]; simpl in *; [|done..].
  by apply Hk.
Qed.

Lemma safe_ret {A} (a : A) (Q : A → Prop) : Q a → safe I (mret a : action S (fault E) A) Q.
Proof. done. Qed.

Lemma safe_raise {A} (e : E) (Q : A → Prop) : safe I (throw (Raised e)) Q.
Proof. done. Qed.

Lemma safe_get : safe I (get_state : action S (fault E) S) I.
Proof. done. Qed.

Lemma safe_lift_raised {A} (r : result E A) (Q : A → Prop) :
  (∀ a, r = Ok a → Q a) → safe I (lift (map_err Raised r)) Q.
Proof. intros HQ s Hs. split; [done|]. destruct r; simpl; auto. Qed.

Lemma safe_vec_get {A} (l : list A) i :
  (Z.to_nat i < length l)%nat → safe I (vec_get l i : action S (fault E) A) (λ _, True).
Proof.
  intros Hi s Hs. unfold vec_get; simpl. split; [done|].
  by destruct (lookup_lt_is_Some_2 _ _ Hi) as [x ->].
Qed.
End safe.

(** ** Machine integers

    [u32], [u64], [usize], [i32] and [i64] are [Z]. Plain [+] in the
    sources is wrapping addition: the release profile of the workspace
    leaves overflow checks off. *)

Definition u32_MAX : Z := 2 ^ 32 - 1.
Definition u64_MAX : Z := 2 ^ 64 - 1.
Definition usize_MAX : Z := u64_MAX.

Definition wrap64 (z : Z) : Z := z `mod` 2 ^ 64.
Definition wrap32 (z : Z) : Z := z `mod` 2 ^ 32.
Definition saturating_add (a b : Z) : Z := Z.min (a + b) u64_MAX.
Definition saturating_sub (a b : Z) : Z := Z.max (a - b) 0.
Definition saturating_mul (a b : Z) : Z := Z.min (a * b) u64_MAX.

Definition is_u64 (z : Z) : Prop := (0 ≤ z ≤ u64_MAX)%Z.
Definition is_u32 (z : Z) : Prop := (0 ≤ z ≤ u32_MAX)%Z.

(** [u64::to_le_bytes] and [u64::from_le_bytes]; a byte is a [Z] below 256. *)
Fixpoint le_bytes (n : nat) (z : Z) : list Z :=
  match n with
  | O => []
  | S n => z `mod` 256 :: le_bytes n (z `div` 256)
  end%Z.
Fixpoint from_le_bytes (bs : list Z) : Z :=
  match bs with
  | [] => 0
  | b :: bs => b + 256 * from_le_bytes bs
  end%Z.
Definition to_le_bytes (z : Z) : list Z := le_bytes 8 z.
(** [u64::to_be_bytes] *)
Definition to_be_bytes (z : Z) : list Z := reverse (le_bytes 8 z).

#[global] Arguments to_le_bytes : simpl never.
#[global] Arguments to_be_bytes : simpl never.

Lemma length_le_bytes n z : length (le_bytes n z) = n.
Proof. revert z. induction n; intros; simpl; auto. Qed.

Lemma from_le_bytes_le_bytes n z :
  (0 ≤ z < 256 ^ Z.of_nat n)%Z → from_le_bytes (le_bytes n z) = z.
Proof.
  revert z. induction n as [|n IH]; intros z Hz.
  - rewrite Z.pow_0_r in Hz. simpl. lia.
  - simpl. rewrite IH.
    + pose proof (Z.div_mod z 256). lia.
    + rewrite Nat2Z.inj_succ, Z.pow_succ_r in Hz by lia.
      split; [apply Z.div_pos; lia|apply Z.div_lt_upper_bound; lia].
Qed.

Lemma from_to_le_bytes z : is_u64 z → from_le_bytes (to_le_bytes z) = z.
Proof.
  intros Hz. apply from_le_bytes_le_bytes.
  unfold is_u64, u64_MAX in Hz. change (256 ^ Z.of_nat 8)%Z with (2 ^ 64)%Z. lia.
Qed.

Lemma le_bytes_inj n z1 z2 :
  (0 ≤ z1 < 256 ^ Z.of_nat n)%Z → (0 ≤ z2 < 256 ^ Z.of_nat n)%Z →
  le_bytes n z1 = le_bytes n z2 → z1 = z2.
Proof.
  intros H1 H2 Heq.
  rewrite <-(from_le_bytes_le_bytes n z1), <-(from_le_bytes_le_bytes n z2) by done.
  by rewrite Heq.
Qed.

(** ** Sums *)

Definition Zsum (l : list Z) : Z := foldr Z.add 0%Z l.

(** [iter.sum::<u64>()] and the accumulating loops of the sources *)
Definition u64_sum (l : list Z) : Z := foldl (λ acc x, wrap64 (acc + x)) 0%Z l.

#[export] Instance Zsum_perm : Proper ((≡ₚ) ==> (=)) Zsum.
Proof. unfold Zsum. intros l1 l2 Hl. induction Hl; simpl in *; lia. Qed.

Lemma Zsum_cons x l : Zsum (x :: l) = (x + Zsum l)%Z.
Proof. done. Qed.

Lemma Zsum_app l1 l2 : Zsum (l1 ++ l2) = (Zsum l1 + Zsum l2)%Z.
Proof. unfold Zsum. induction l1; simpl; lia. Qed.

Lemma wrap64_small z : is_u64 z → wrap64 z = z.
Proof. unfold is_u64, u64_MAX. intros. apply Z.mod_small. lia. Qed.

Lemma wrap64_range z : is_u64 (wrap64 z).
Proof.
  unfold is_u64, u64_MAX, wrap64.
  pose proof (Z.mod_pos_bound z (2 ^ 64)). lia.
Qed.

Lemma foldl_wrap64 l a :
  foldl (λ acc x, wrap64 (acc + x)) (wrap64 a) l = wrap64 (a + Zsum l).
Proof.
  revert a. induction l as [|x l IH]; intros a; simpl.
  - f_equal. unfold Zsum; simpl. lia.
  - unfold wrap64 at 2. unfold wrap64 at 2.
    rewrite Z.add_mod_idemp_l by lia. fold (wrap64 (a + x)).
    rewrite IH. f_equal. simpl. lia.
Qed.

Lemma u64_sum_wrap l : u64_sum l = wrap64 (Zsum l).
Proof.
  unfold u64_sum. change 0%Z with (wrap64 0) at 1. by rewrite foldl_wrap64.
Qed.

(** A sum that fits in the accumulator is not wrapped. *)
Lemma u64_sum_exact l : is_u64 (Zsum l) → u64_sum l = Zsum l.
Proof. intros. rewrite u64_sum_wrap. by apply wrap64_small. Qed.

Lemma Zsum_nonneg l : Forall (λ z, 0 ≤ z)%Z l → (0 ≤ Zsum l)%Z.
Proof. unfold Zsum. induction 1; simpl; lia. Qed.

#[export] Instance u64_sum_perm : Proper ((≡ₚ) ==> (=)) u64_sum.
Proof. intros l1 l2 Hl. by rewrite !u64_sum_wrap, Hl. Qed.

(** A sum over a list in which one element is replaced *)
Lemma sum_insert {A} (f : A → nat) l i a a' :
  l !! i = Some a → sum_list_with f (<[i := a']> l) + f a = sum_list_with f l + f a'.
Proof.
  revert i. induction l as [|b l IH]; intros [|i]; simpl; [done..| |].
  - intros [= ->]. lia.
  - intros Hi. specialize (IH i Hi). lia.
Qed.
Lemma sum_list_insert (l : list nat) i a a' :
  l !! i = Some a → sum_list (<[i := a']> l) + a = sum_list l + a'.
Proof. apply (sum_insert id). Qed.

(** ** Hash maps

    A [HashMap] is a [gmap]. Its iteration order is unspecified and differs
    from one process to the next; it is a parameter of every operation that
    iterates, known only to enumerate each binding once. As in Rust, two
    iterations of an unmodified map agree. *)

Record hash_order : Type := {
  ho_iter : ∀ (K : Type) (EqK : EqDecision K) (CK : Countable K) (V : Type),
    gmap K V → list (K * V);
  ho_iter_perm : ∀ K EqK CK V (m : gmap K V),
    ho_iter K EqK CK V m ≡ₚ map_to_list m;
}.

Definition canonical_order : hash_order :=
  {| ho_iter := λ K EqK CK V m, map_to_list m;
     ho_iter_perm := λ K EqK CK V m, reflexivity _ |}.

Section hash_maps.
Context `{Countable K} {V : Type}.
Implicit Types (h : hash_order) (m : gmap K V).

Definition hm_iter h m : list (K * V) := ho_iter h K _ _ V m.
Definition hm_keys h m : list K := (hm_iter h m).*1.
Definition hm_values h m : list V := (hm_iter h m).*2.

(** [HashMap::contains_key] *)
Definition contains_key m (k : K) : bool := bool_decide (is_Some (m !! k)).

(** [iter.map(|v| (key(v), v)).collect::<HashMap<_, _>>()]: a later
    element replaces an earlier one with the same key. *)
Definition collect_by (key : V → K) (l : list V) : gmap K V :=
  foldl (λ m v, <[key v := v]> m) ∅ l.

Lemma hm_iter_perm h m : hm_iter h m ≡ₚ map_to_list m.
Proof. apply ho_iter_perm. Qed.

Lemma elem_of_hm_iter h m k v : (k, v) ∈ hm_iter h m ↔ m !! k = Some v.
Proof. by rewrite hm_iter_perm, elem_of_map_to_list. Qed.

Lemma hm_keys_nodup h m : NoDup (hm_keys h m).
Proof. unfold hm_keys. rewrite hm_iter_perm. apply NoDup_fst_map_to_list. Qed.

Lemma hm_iter_nodup h m : NoDup (hm_iter h m).
Proof. rewrite hm_iter_perm. apply NoDup_map_to_list. Qed.

Lemma elem_of_hm_keys h m k : k ∈ hm_keys h m ↔ is_Some (m !! k).
Proof.
  unfold hm_keys. rewrite list_elem_of_fmap. split.
  - intros ([k' v] & -> & Hin%elem_of_hm_iter). by exists v.
  - intros [v Hv]. exists (k, v). by rewrite elem_of_hm_iter.
Qed.

Lemma elem_of_hm_values h m v : v ∈ hm_values h m ↔ ∃ k, m !! k = Some v.
Proof.
  unfold hm_values. rewrite list_elem_of_fmap. split.
  - intros ([k v'] & -> & Hin%elem_of_hm_iter). by exists k.
  - intros [k Hk]. exists (k, v). by rewrite elem_of_hm_iter.
Qed.

Lemma length_hm_values h m : length (hm_values h m) = size m.
Proof.
  unfold hm_values. rewrite length_fmap, hm_iter_perm. apply length_map_to_list.
Qed.

Lemma contains_key_true m k : contains_key m k = true ↔ is_Some (m !! k).
Proof. apply bool_decide_eq_true. Qed.
Lemma contains_key_false m k : contains_key m k = false ↔ m !! k = None.
Proof. unfold contains_key. rewrite bool_decide_eq_false. symmetry. apply eq_None_not_Some. Qed.
End hash_maps.

(** ** Closures and iterators *)

Declare Scope coldstore_scope.
Delimit Scope coldstore_scope with cs.
(** [a == b] of Rust on a type with decidable equality *)
Notation "a == b" := (bool_decide (a = b)) (at level 70, no associativity)
  : coldstore_scope.
Notation "a != b" := (negb (bool_decide (a = b))) (at level 70, no associativity)
  : coldstore_scope.
Open Scope coldstore_scope.

(** [if a != b { return Err(e) }] *)
Lemma guard_eq_Ok `{EqDecision A} {E B} (a b : A) (e : E) (r : result E B) x :
  (if a != b then Err e else r) = Ok x ↔ a = b ∧ r = Ok x.
Proof. case_bool_decide; naive_solver. Qed.

(** A loop of [out.extend_from_slice(..)] *)
Lemma foldl_app_concat {A B} (f : A → list B) out l :
  foldl (λ out x, out ++ f x) out l = out ++ concat (f <$> l).
Proof.
  revert out. induction l as [|x l IH]; intros out; csimpl; [by rewrite app_nil_r|].
  by rewrite IH, app_assoc.
Qed.

Lemma elem_of_Lfilter {A} (p : A → bool) l x :
  x ∈ List.filter p l ↔ x ∈ l ∧ p x = true.
Proof. rewrite !list_elem_of_In. apply filter_In. Qed.

Lemma Lfilter_fmap {A B} (f : A → B) (p : B → bool) l :
  List.filter p (f <$> l) = f <$> List.filter (p ∘ f) l.
Proof. induction l; csimpl; [done|]. case_match; csimpl; congruence. Qed.

Lemma Lfilter_ext {A} (p q : A → bool) l :
  (∀ x, x ∈ l → p x = q x) → List.filter p l = List.filter q l.
Proof.
  intros Hpq. induction l as [|x l IH]; csimpl; [done|].
  rewrite (Hpq x) by set_solver.
  by rewrite IH by (intros; apply Hpq; set_solver).
Qed.

Lemma Lfilter_nil {A} (p : A → bool) l :
  (∀ x, x ∈ l → p x = false) → List.filter p l = [].
Proof.
  intros Hp. induction l as [|x l IH]; csimpl; [done|].
  rewrite (Hp x) by set_solver. apply IH. intros; apply Hp; set_solver.
Qed.

Lemma Lfilter_all {A} (p : A → bool) l :
  (∀ x, x ∈ l → p x = true) → List.filter p l = l.
Proof.
  intros Hp. induction l as [|x l IH]; csimpl; [done|].
  rewrite (Hp x) by set_solver. f_equal. apply IH. intros; apply Hp; set_solver.
Qed.

#[export] Instance Lfilter_perm {A} (p : A → bool) :
  Proper ((≡ₚ) ==> (≡ₚ)) (List.filter p).
Proof.
  intros l1 l2 Hl. induction Hl as [|x l1 l2 _ IH|x y l|l1 l2 l3 _ IH1 _ IH2]; simpl.
  - done.
  - destruct (p x); [by rewrite IH|done].
  - destruct (p x), (p y); try done. constructor.
  - by rewrite IH1.
Qed.

Lemma Lfilter_Lfilter {A} (p q : A → bool) l :
  List.filter p (List.filter q l) = List.filter (λ x, q x && p x) l.
Proof.
  induction l as [|x l IH]; simpl; [done|].
  destruct (q x); simpl; [destruct (p x); simpl; congruence|done].
Qed.

Lemma Lfilter_nodup {A} (p : A → bool) l : NoDup l → NoDup (List.filter p l).
Proof. rewrite !NoDup_ListNoDup. apply List.NoDup_filter. Qed.

(** The laws of Rust's [Ord::cmp]: a total preorder on which [Eq] is a
    congruence. *)
Class TotalCmp {A} (cmp : A → A → comparison) : Prop := {
  cmp_sym x y : cmp y x = CompOpp (cmp x y);
  cmp_eq_l x y z : cmp x y = Eq → cmp x z = cmp y z;
  cmp_lt_trans x y z : cmp x y = Lt → cmp y z = Lt → cmp x z = Lt;
}.

Definition cmp_le {A} (cmp : A → A → comparison) : relation A :=
  λ x y, cmp x y ≠ Gt.

Section cmp_le.
Context {A : Type} {cmp : A → A → comparison} `{!TotalCmp cmp}.

Lemma cmp_refl x : cmp x x = Eq.
Proof using All. pose proof (cmp_sym (cmp := cmp) x x) as E. by destruct (cmp x x). Qed.

Lemma cmp_le_refl x : cmp_le cmp x x.
Proof using All. unfold cmp_le. by rewrite cmp_refl. Qed.

Lemma cmp_gt_le x y : cmp x y = Gt → cmp_le cmp y x.
Proof using All. intros E. unfold cmp_le. by rewrite (cmp_sym (cmp := cmp)), E. Qed.

Lemma cmp_le_trans x y z : cmp_le cmp x y → cmp_le cmp y z → cmp_le cmp x z.
Proof using All.
  unfold cmp_le. intros Hxy Hyz. destruct (cmp x y) eqn:E; [| |done].
  - by rewrite (cmp_eq_l _ _ _ E).
  - destruct (cmp y z) eqn:E2; [| |done].
    + assert (cmp z y = Eq) as E3 by (by rewrite (cmp_sym (cmp := cmp) y z), E2).
      rewrite (cmp_sym (cmp := cmp) z x), (cmp_eq_l _ _ x E3).
      by rewrite (cmp_sym (cmp := cmp) x y), E.
    + by rewrite (cmp_lt_trans _ _ _ E E2).
Qed.
End cmp_le.

(** [a.cmp(b).then_with(|| ...)] *)
Definition then_with (c d : comparison) : comparison :=
  match c with Eq => d | _ => c end.
Definition cmp_on {A B} (f : A → B) (cmp : B → B → comparison) : A → A → comparison :=
  λ x y, cmp (f x) (f y).
Definition cmp_then {A} (c d : A → A → comparison) : A → A → comparison :=
  λ x y, then_with (c x y) (d x y).
(** [Option<T>: Ord]: [None] first *)
Definition option_cmp {A} (cmp : A → A → comparison) (x y : option A) : comparison :=
  match x, y with
  | None, None => Eq
  | None, Some _ => Lt
  | Some _, None => Gt
  | Some a, Some b => cmp a b
  end.

#[export] Instance Z_cmp : TotalCmp Z.compare.
Proof.
  split.
  - intros. apply Z.compare_antisym.
  - by intros x y z ->%Z.compare_eq_iff.
  - intros x y z. rewrite !Z.compare_lt_iff. lia.
Qed.

#[export] Instance cmp_on_total {A B} (f : A → B) cmp :
  TotalCmp cmp → TotalCmp (cmp_on f cmp).
Proof.
  intros ?. split; unfold cmp_on; intros *.
  - apply cmp_sym.
  - apply cmp_eq_l.
  - apply cmp_lt_trans.
Qed.

#[export] Instance cmp_then_total {A} (c d : A → A → comparison) :
  TotalCmp c → TotalCmp d → TotalCmp (cmp_then c d).
Proof.
  intros ??. split; unfold cmp_then; intros *.
  - rewrite (cmp_sym (cmp := c) x y), (cmp_sym (cmp := d) x y).
    by destruct (c x y).
  - destruct (c x y) eqn:E; simpl; [|done..]. intros Ed.
    rewrite (cmp_eq_l _ _ z E). by rewrite (cmp_eq_l _ _ z Ed).
  - destruct (c x y) eqn:E1; simpl; [| |done].
    + rewrite (cmp_eq_l _ _ z E1). destruct (c y z) eqn:E2; simpl; [|done..].
      apply cmp_lt_trans.
    + intros _. destruct (c y z) eqn:E2; simpl; [| |done].
      * intros _. assert (c z y = Eq) as E3 by (by rewrite (cmp_sym (cmp := c) y z), E2).
        rewrite (cmp_sym (cmp := c) z x), (cmp_eq_l _ _ x E3).
        by rewrite (cmp_sym (cmp := c) x y), E1.
      * by rewrite (cmp_lt_trans _ _ _ E1 E2).
Qed.

#[export] Instance option_cmp_total {A} (cmp : A → A → comparison) :
  TotalCmp cmp → TotalCmp (option_cmp cmp).
Proof.
  intros ?. split; intros [x|] [y|]; try intros [z|]; simpl; try done.
  - apply cmp_sym.
  - apply cmp_eq_l.
  - apply cmp_lt_trans.
Qed.

Lemma ascii_compare_N a b : Ascii.compare a b = N.compare (N_of_ascii a) (N_of_ascii b).
Proof. reflexivity. Qed.

Lemma ascii_compare_eq a b : Ascii.compare a b = Eq → a = b.
Proof.
  rewrite ascii_compare_N, N.compare_eq_iff. intros E.
  by rewrite <-(ascii_N_embedding a), <-(ascii_N_embedding b), E.
Qed.

(** [str: Ord], the order of the UTF-8 bytes *)
#[export] Instance string_cmp : TotalCmp String.compare.
Proof.
  split.
  - intros x y. apply String.compare_antisym.
  - by intros x y z ->%String.compare_eq_iff.
  - intros x. induction x as [|a x IH]; intros [|b y] [|c z]; simpl; try done.
    destruct (Ascii.compare a b) eqn:Eab; [| |done].
    + apply ascii_compare_eq in Eab as ->. destruct (Ascii.compare b c); eauto.
    + intros _. destruct (Ascii.compare b c) eqn:Ebc; [| |done].
      * apply ascii_compare_eq in Ebc as ->. by rewrite Eab.
      * intros _. rewrite ascii_compare_N, N.compare_lt_iff in *.
        replace (N_of_ascii a ?= N_of_ascii c)%N with Lt; [done|].
        symmetry. apply N.compare_lt_iff. lia.
Qed.

(** [[u8]: Ord], also the default comparator of RocksDB: lexicographic *)
Fixpoint bytes_cmp (x y : list Z) : comparison :=
  match x, y with
  | [], [] => Eq
  | [], _ :: _ => Lt
  | _ :: _, [] => Gt
  | a :: x, b :: y => then_with (a ?= b)%Z (bytes_cmp x y)
  end.

Lemma bytes_cmp_eq x y : bytes_cmp x y = Eq ↔ x = y.
Proof.
  revert y. induction x as [|a x IH]; intros [|b y]; simpl; try done.
  destruct (Z.compare_spec a b) as [->|Hab|Hab]; simpl; [rewrite IH|..]; split; intros;
    simplify_eq; try done; lia.
Qed.

#[export] Instance bytes_cmp_total : TotalCmp bytes_cmp.
Proof.
  split.
  - intros x. induction x as [|a x IH]; intros [|b y]; simpl; try done.
    rewrite (Z.compare_antisym a b), IH. by destruct (a ?= b)%Z.
  - by intros x y z ->%bytes_cmp_eq.
  - intros x. induction x as [|a x IH]; intros [|b y] [|c z]; simpl; try done.
    destruct (Z.compare_spec a b) as [->|Hab|Hab]; simpl; [| |done].
    + destruct (Z.compare_spec b c); simpl; eauto.
    + intros _. destruct (Z.compare_spec b c) as [->|Hbc|Hbc]; simpl; [| |done];
        intros _; by rewrite (proj2 (Z.compare_lt_iff a _)) by lia.
Qed.

(** [slice::starts_with] *)
Definition starts_with (bytes prefix : list Z) : bool :=
  take (length prefix) bytes == prefix.

Lemma starts_with_app p t : starts_with (p ++ t) p = true.
Proof. unfold starts_with. by rewrite take_app_length, bool_decide_eq_true. Qed.

Lemma starts_with_true b p : starts_with b p = true ↔ ∃ t, b = p ++ t.
Proof.
  split; [|intros [t ->]; apply starts_with_app].
  intros Hb%bool_decide_eq_true. exists (drop (length p) b).
  by rewrite <-Hb at 1; rewrite take_drop.
Qed.

(** The strings with a given prefix are contiguous from the prefix on. *)
Lemma starts_with_between p x y :
  bytes_cmp p x ≠ Gt → bytes_cmp x y ≠ Gt → starts_with y p = true → starts_with x p = true.
Proof.
  rewrite !starts_with_true. intros Hpx Hxy [t ->]. revert x Hpx Hxy.
  induction p as [|a p IH]; intros x Hpx Hxy; [by exists x|].
  destruct x as [|b x]; [done|]. simpl in *.
  destruct (Z.compare_spec a b) as [->|Hab|Hab]; simpl in *; [| |done].
  - rewrite Z.compare_refl in Hxy; simpl in Hxy. destruct (IH x) as [t' ->]; [done..|].
    by exists t'.
  - by rewrite (proj2 (Z.compare_gt_iff b a)) in Hxy by lia.
Qed.

Lemma bytes_cmp_app p t : bytes_cmp p (p ++ t) ≠ Gt.
Proof. induction p as [|a p IH]; simpl; [by destruct t|]. by rewrite Z.compare_refl. Qed.

#[global] Arguments bytes_cmp : simpl never.
#[global] Arguments starts_with : simpl never.

(** [x > y] on [&str] *)
Definition str_gtb (x y : string) : bool :=
  match String.compare x y with Gt => true | _ => false end.

Lemma str_gtb_true x y : str_gtb x y = true ↔ String.compare y x = Lt.
Proof.
  unfold str_gtb. rewrite (cmp_sym (cmp := String.compare) y x).
  by destruct (String.compare y x).
Qed.

Section iterators.
Context {A : Type} (cmp : A → A → comparison).

(** [Iterator::max_by]: the last of the maximal elements *)
Definition max_by (l : list A) : option A :=
  foldl (λ acc x,
    match acc with
    | None => Some x
    | Some y => match cmp y x with Gt => Some y | _ => Some x end
    end) None l.

(** [Iterator::min_by]: the first of the minimal elements *)
Definition min_by (l : list A) : option A :=
  foldl (λ acc x,
    match acc with
    | None => Some x
    | Some y => match cmp y x with Gt => Some x | _ => Some y end
    end) None l.

(** [slice::sort_by], a stable sort *)
Fixpoint insert_by (x : A) (l : list A) : list A :=
  match l with
  | [] => [x]
  | y :: l' => match cmp x y with Gt => y :: insert_by x l' | _ => x :: l end
  end.
Definition sort_by (l : list A) : list A := foldr insert_by [] l.

Lemma insert_by_perm x l : insert_by x l ≡ₚ x :: l.
Proof.
  induction l as [|y l IH]; simpl; [done|].
  destruct (cmp x y); try done. rewrite IH. constructor.
Qed.

Lemma sort_by_perm l : sort_by l ≡ₚ l.
Proof.
  induction l as [|x l IH]; [done|].
  unfold sort_by in *; simpl. by rewrite insert_by_perm, IH.
Qed.

Context `{!TotalCmp cmp}.

Lemma insert_by_sorted x l :
  StronglySorted (cmp_le cmp) l → StronglySorted (cmp_le cmp) (insert_by x l).
Proof using All.
  induction 1 as [|y l Hl IH Hy]; simpl; [by repeat constructor|].
  destruct (cmp x y) eqn:E.
  1-2: assert (cmp_le cmp x y) by (unfold cmp_le; by rewrite E);
    constructor; [by constructor|]; constructor; [done|];
    apply Forall_forall; intros z Hz; rewrite Forall_forall in Hy; eauto using cmp_le_trans.
  constructor; [done|]. rewrite insert_by_perm. constructor; [|done].
  by apply cmp_gt_le.
Qed.

Lemma sort_by_sorted l : StronglySorted (cmp_le cmp) (sort_by l).
Proof using All.
  induction l as [|x l IH]; [constructor|]. by apply insert_by_sorted.
Qed.

Lemma insert_by_le x l :
  Forall (cmp_le cmp x) l → insert_by x l = x :: l.
Proof. destruct 1 as [|y l Hy _]; simpl; [done|]. unfold cmp_le in Hy. by destruct (cmp x y). Qed.

(** A stable sort commutes with filtering. *)
Lemma Lfilter_insert_by (p : A → bool) x l :
  StronglySorted (cmp_le cmp) l →
  List.filter p (insert_by x l) =
    if p x then insert_by x (List.filter p l) else List.filter p l.
Proof using All.
  induction 1 as [|y l Hl IH Hy]; simpl; [by destruct (p x)|].
  destruct (cmp x y) eqn:E.
  1-2: simpl; destruct (p x) eqn:Hpx; [|done];
    assert (cmp_le cmp x y) by (unfold cmp_le; by rewrite E);
    assert (Forall (cmp_le cmp x) (List.filter p l)) as Hx by
      (rewrite Forall_forall in *; intros z [Hz _]%elem_of_Lfilter; eauto using cmp_le_trans);
    destruct (p y); rewrite insert_by_le; auto.
  simpl. rewrite IH. destruct (p x), (p y); simpl; by rewrite ?E.
Qed.

Lemma Lfilter_sort_by (p : A → bool) l :
  List.filter p (sort_by l) = sort_by (List.filter p l).
Proof using All.
  induction l as [|x l IH]; [done|]. unfold sort_by in *; simpl.
  rewrite Lfilter_insert_by by apply sort_by_sorted. rewrite IH. by destruct (p x).
Qed.

Lemma max_by_app l x :
  max_by (l ++ [x]) =
    match max_by l with
    | None => Some x
    | Some y => match cmp y x with Gt => Some y | _ => Some x end
    end.
Proof. unfold max_by. by rewrite foldl_app. Qed.

Lemma max_by_Some l x :
  max_by l = Some x → x ∈ l ∧ ∀ y, y ∈ l → cmp_le cmp y x.
Proof using All.
  revert x. induction l as [|z l IH] using rev_ind; intros x; [done|].
  rewrite max_by_app. destruct (max_by l) as [y|] eqn:E.
  - destruct (IH y eq_refl) as [Hy Hmax].
    destruct (cmp y z) eqn:Ez; intros [= <-]; (split; [set_solver|]);
      intros w [Hw| ->%list_elem_of_singleton]%elem_of_app;
      auto using cmp_le_refl, cmp_gt_le.
    all: eapply cmp_le_trans; [by apply Hmax|]; unfold cmp_le; by rewrite Ez.
  - intros [= <-]. destruct l as [|w l].
    + split; [set_solver|]. intros w ->%list_elem_of_singleton.
      apply cmp_le_refl.
    + exfalso. clear -E. revert E. induction l as [|u l _] using rev_ind; [done|].
      rewrite app_comm_cons, max_by_app. by repeat case_match.
Qed.

Lemma min_by_app l x :
  min_by (l ++ [x]) =
    match min_by l with
    | None => Some x
    | Some y => match cmp y x with Gt => Some x | _ => Some y end
    end.
Proof. unfold min_by. by rewrite foldl_app. Qed.

Lemma min_by_None l : min_by l = None ↔ l = [].
Proof.
  split; [|by intros ->]. induction l as [|x l _] using rev_ind; [done|].
  rewrite min_by_app. by repeat case_match.
Qed.

Lemma min_by_Some l x :
  min_by l = Some x → x ∈ l ∧ ∀ y, y ∈ l → cmp_le cmp x y.
Proof using All.
  revert x. induction l as [|z l IH] using rev_ind; intros x; [done|].
  rewrite min_by_app. destruct (min_by l) as [y|] eqn:E.
  - destruct (IH y eq_refl) as [Hy Hmin].
    assert (cmp y z ≠ Gt → cmp_le cmp y z) by done.
    destruct (cmp y z) eqn:Ez; intros [= <-]; (split; [set_solver|]);
      intros w [Hw| ->%list_elem_of_singleton]%elem_of_app;
      auto using cmp_le_refl, cmp_gt_le.
    eapply cmp_le_trans; [by apply cmp_gt_le|by apply Hmin].
  - intros [= <-]. apply min_by_None in E as ->. simpl.
    split; [set_solver|]. intros w ->%list_elem_of_singleton. apply cmp_le_refl.
Qed.

Lemma max_by_None l : max_by l = None ↔ l = [].
Proof.
  split; [|by intros ->]. induction l as [|x l _] using rev_ind; [done|].
  rewrite max_by_app. by repeat case_match.
Qed.
End iterators.

Lemma max_by_fmap {A B} (f : A → B) cmp l :
  max_by cmp (f <$> l) = f <$> max_by (cmp_on f cmp) l.
Proof.
  induction l as [|x l IH] using rev_ind; [done|].
  rewrite fmap_app. simpl. rewrite !max_by_app, IH.
  destruct (max_by _ l); simpl; [|done]. unfold cmp_on. by case_match.
Qed.

Lemma max_by_elem_of {A} cmp (l : list A) x : max_by cmp l = Some x → x ∈ l.
Proof.
  revert x. induction l as [|y l IH] using rev_ind; intros x; [done|].
  rewrite max_by_app, elem_of_app, list_elem_of_singleton.
  repeat case_match; intros [= ->]; auto.
Qed.

Lemma max_by_ext {A} (c d : A → A → comparison) l :
  (∀ x y, x ∈ l → y ∈ l → c x y = d x y) → max_by c l = max_by d l.
Proof.
  induction l as [|x l IH] using rev_ind; intros Hcd; [done|].
  rewrite !max_by_app, IH by (intros; apply Hcd; set_solver).
  destruct (max_by d l) as [y|] eqn:E; [|done].
  apply max_by_elem_of in E. by rewrite Hcd by set_solver.
Qed.

Section hash_map_values.
Context `{Countable K} {V : Type}.
Implicit Types (h : hash_order) (m : gmap K V).

Lemma hm_values_perm h m : hm_values h m ≡ₚ (map_to_list m).*2.
Proof. unfold hm_values. by rewrite hm_iter_perm. Qed.

(** Filtering the values in any iteration order enumerates the filtered map. *)
Lemma Lfilter_hm_values h m (p : V → bool) :
  List.filter p (hm_values h m) ≡ₚ
    (map_to_list (filter (λ kv : K * V, p kv.2 = true) m)).*2.
Proof.
  rewrite hm_values_perm, Lfilter_fmap. apply Permutation_map, NoDup_Permutation.
  - apply Lfilter_nodup, NoDup_map_to_list.
  - apply NoDup_map_to_list.
  - intros [k v]. rewrite elem_of_Lfilter, !elem_of_map_to_list.
    by rewrite map_lookup_filter_Some.
Qed.

Lemma collect_by_snoc (key : V → K) l v :
  collect_by key (l ++ [v]) = <[key v := v]> (collect_by key l).
Proof. unfold collect_by. by rewrite foldl_app. Qed.

Lemma collect_by_lookup (key : V → K) l k v :
  NoDup (key <$> l) → collect_by key l !! k = Some v ↔ v ∈ l ∧ key v = k.
Proof.
  induction l as [|w l IH] using rev_ind; intros Hnd.
  { split; [|by intros [?%elem_of_nil _]].
    unfold collect_by; simpl. by rewrite lookup_empty. }
  rewrite fmap_app in Hnd. apply NoDup_app in Hnd as (Hnd & Hni & _).
  rewrite collect_by_snoc, lookup_insert, elem_of_app, list_elem_of_singleton.
  case_decide as Hk.
  - split; [intros [= <-]; auto|]. intros [[Hv| ->] Hkv]; [|done].
    exfalso. apply (Hni k); [|simpl; set_solver].
    apply list_elem_of_fmap. by exists v.
  - rewrite IH by done. split; [tauto|]. intros [[?| ->] ?]; done.
Qed.

(** Collecting the values of a map whose keys are determined by them
    rebuilds the map, whatever order they were listed in. *)
Lemma collect_by_values (key : V → K) h m :
  map_Forall (λ k v, key v = k) m → collect_by key (hm_values h m) = m.
Proof.
  intros Hkey.
  assert (Hkeys : key <$> hm_values h m = hm_keys h m).
  { unfold hm_values, hm_keys. rewrite <-list_fmap_compose.
    apply list_fmap_ext. intros i [k v] Hi%list_elem_of_lookup_2.
    apply elem_of_hm_iter in Hi. by apply Hkey in Hi. }
  apply map_eq. intros k. apply option_eq. intros v.
  rewrite collect_by_lookup by (rewrite Hkeys; apply hm_keys_nodup).
  rewrite elem_of_hm_values. split.
  - intros [[k' Hk'] <-]. by rewrite (Hkey _ _ Hk').
  - intros Hk. split; [by exists k|by apply Hkey].
Qed.
End hash_map_values.

(** ** Automation *)

Create HintDb coldstore discriminated.
#[export] Hint Constants Opaque : coldstore.

(** Unfolds the state-and-error monad at a run of an [action]. *)
Ltac run_action :=
  unfold mbind, action_bind, mret, action_ret, fmap, action_fmap, get_state,
    put_state, modify, throw, lift, reads, reject_if in *; simpl in *.

(** The same without computing anything else. *)
Ltac unfold_action :=
  unfold mbind, action_bind, result_bind, mret, action_ret, fmap, action_fmap, get_state,
    put_state, modify, throw, lift, reads, reject_if in *; cbv beta iota zeta in *.

(** Splits the [match]es of the goal, of the hypothesis that relates a run
    to its outcome, and keeps what each case says. *)
Ltac case_run :=
  repeat (case_match; simplify_eq/=).

(** Mapping and filtering the values in any iteration order lists the values
    of the mapped map. *)
Lemma map_to_list_omap_values `{Countable K} {A B} (f : A → option B) (m : gmap K A) :
  (map_to_list (omap f m)).*2 ≡ₚ omap f (map_to_list m).*2.
Proof.
  induction m as [|k x m Hk IH] using map_ind; [by rewrite omap_empty, !map_to_list_empty|].
  rewrite map_to_list_insert by done. csimpl.
  destruct (f x) as [y|] eqn:Hf.
  - rewrite omap_insert_Some with (y := y) by done.
    rewrite map_to_list_insert by (by rewrite lookup_omap, Hk). csimpl. by rewrite IH.
  - rewrite omap_insert_None by done. rewrite delete_id by (by rewrite lookup_omap, Hk).
    done.
Qed.

Lemma hm_values_omap `{Countable K} {A B} h (f : A → option B) (m : gmap K A) :
  omap f (hm_values h m) ≡ₚ (map_to_list (omap f m)).*2.
Proof. by rewrite hm_values_perm, map_to_list_omap_values. Qed.

Lemma Lfilter_omap {A B} (p : A → bool) (f : A → B) l :
  f <$> List.filter p l = omap (λ x, if p x then Some (f x) else None) l.
Proof. induction l as [|x l IH]; csimpl; [done|]. destruct (p x); csimpl; congruence. Qed.
