(* ===== verification/Hoare.v ===== *)
(** * Combinators and triples of actions

    The ways the sources treat the outcome of a fallible call other than [?],
    and Hoare triples for reasoning about runs that can end in an error. *)

From S2P Require Import Prelude.

Local Open Scope stdpp_scope.

(** [let _ = r;] *)
Definition discard {S E A} (m : action S E A) : action S E unit := λ s, ((m s).1, Ok tt).

(** [if let Ok(x) = m] *)
Definition if_ok {S E A} (m : action S E A) : action S E (option A) :=
  λ s, let '(s, r) := m s in (s, Ok (ok r)).

(** The outcome of a call as a value, for [if let Err(status) = ..] *)
Definition attempt {S E A} (m : action S E A) : action S E (result E A) := λ s,
  let '(s, r) := m s in (s, Ok r).

(** ** Triples

    [hoare P m Q X]: from a state with [P], [m] ends with a value and a state
    related by [Q], or with an error in a state with [X]. *)

Definition hoare {S E A} (P : S → Prop) (m : action S E A) (Q : A → S → Prop)
    (X : S → Prop) : Prop :=
  ∀ s, P s → match m s with (s', Ok a) => Q a s' | (s', Err _) => X s' end.

Section hoare.
Context {S E : Type}.
Implicit Types (P X : S → Prop) (A C : Type).

Lemma hoare_bind {A C} P (m : action S E A) R (k : A → action S E C) Q X :
  hoare P m R X → (∀ a, hoare (R a) (k a) Q X) → hoare P (m ≫= k) Q X.
Proof.
  intros Hm Hk s Hs. specialize (Hm s Hs). unfold mbind, action_bind.
  destruct (m s) as [s' [a|e]]; [by apply Hk|done].
Qed.

Lemma hoare_ret {A} (a : A) P (Q : A → S → Prop) X :
  (∀ s, P s → Q a s) → hoare P (mret a : action S E A) Q X.
Proof. intros HQ s Hs. by apply HQ. Qed.

Lemma hoare_throw {A} (e : E) P (Q : A → S → Prop) : hoare P (throw e) Q P.
Proof. by intros s Hs. Qed.

Lemma hoare_lift {A} (r : result E A) P : hoare P (lift r) (λ _, P) P.
Proof. intros s Hs. unfold lift. by destruct r. Qed.

Lemma hoare_reject b (e : E) P : hoare P (reject_if b e) (λ _, P) P.
Proof. intros s Hs. unfold reject_if. by destruct b. Qed.

Lemma hoare_discard {A} (m : action S E A) P X Y :
  hoare P m (λ _, X) X → hoare P (discard m) (λ _, X) Y.
Proof. intros Hm s Hs. specialize (Hm s Hs). unfold discard. by destruct (m s) as [s' []]. Qed.

Lemma hoare_attempt {A} (m : action S E A) P (Q : A → S → Prop) X Y :
  hoare P m Q X →
  hoare P (attempt m) (λ r s, match r with Ok a => Q a s | Err _ => X s end) Y.
Proof.
  intros Hm s Hs. specialize (Hm s Hs). unfold attempt. by destruct (m s) as [s' []].
Qed.

Lemma hoare_bind_lift {A C} (r : result E A) (k : A → action S E C) P Q X :
  (∀ s, P s → X s) → (∀ a, r = Ok a → hoare P (k a) Q X) → hoare P (lift r ≫= k) Q X.
Proof. intros HX Hk s Hs. unfold mbind, action_bind, lift. destruct r; [by apply Hk|auto]. Qed.

Lemma hoare_bind_reject {C} b (e : E) (k : unit → action S E C) P Q X :
  (∀ s, P s → X s) → (b = false → hoare P (k tt) Q X) → hoare P (reject_if b e ≫= k) Q X.
Proof.
  intros HX Hk s Hs. unfold mbind, action_bind, reject_if. destruct b; [auto|by apply Hk].
Qed.

Lemma hoare_pure {A} P (φ : Prop) (m : action S E A) (Q : A → S → Prop) X :
  (φ → hoare P m Q X) → hoare (λ s, P s ∧ φ) m Q X.
Proof. intros Hm s [Hs Hφ]. by apply Hm. Qed.

Lemma hoare_pure_l {A} P (φ : Prop) (m : action S E A) (Q : A → S → Prop) X :
  (φ → hoare P m Q X) → hoare (λ s, φ ∧ P s) m Q X.
Proof. intros Hm s [Hφ Hs]. by apply Hm. Qed.

Lemma hoare_exists {A T} (P : T → S → Prop) (m : action S E A) (Q : A → S → Prop) X :
  (∀ x, hoare (P x) m Q X) → hoare (λ s, ∃ x, P x s) m Q X.
Proof. intros Hm s [x Hs]. by apply (Hm x). Qed.

Lemma hoare_weaken {A} P P' (m : action S E A) (Q Q' : A → S → Prop) X X' :
  hoare P m Q X → (∀ s, P' s → P s) → (∀ a s, Q a s → Q' a s) → (∀ s, X s → X' s) →
  hoare P' m Q' X'.
Proof.
  intros Hm HP HQ HX s Hs. specialize (Hm s (HP s Hs)). destruct (m s) as [s' []]; auto.
Qed.

Lemma hoare_foldr {A} (f : A → action S E unit) (l : list A) P :
  (∀ a, hoare P (f a) (λ _, P) P) →
  hoare P (foldr (λ a rest, f a;; rest) (mret tt) l) (λ _, P) P.
Proof.
  intros Hf. induction l as [|a l IH]; simpl; [by apply hoare_ret|].
  eapply hoare_bind; [apply Hf|]. intros ?. exact IH.
Qed.
End hoare.
