(* ===== verification/RustStr.v ===== *)
(** * Strings of the standard library

    The operations on [&str] that the sources use: splitting, trimming, decimal
    parsing and printing, lines and words, and reading UTF-8, with and without
    replacement. A string is its UTF-8 bytes. *)

From Stdlib Require Import ZArith String Ascii.
From stdpp Require Import pretty.
From S2P Require Import Prelude.

Local Open Scope stdpp_scope.

(** [str::starts_with] *)
Definition str_starts_with (s prefix : string) : bool := String.prefix prefix s.

Lemma str_starts_with_iff s prefix :
  str_starts_with s prefix = true ↔ ∃ rest, s = String.append prefix rest.
Proof.
  unfold str_starts_with. revert s. induction prefix as [|a prefix IH]; intros s; simpl.
  { split; [by exists s|by destruct s]. }
  destruct s as [|b s]; simpl; [by split; [|intros (rest & Hs)]|].
  destruct (ascii_dec a b) as [<-|Hab]; [|by split; [|intros (rest & [= Hb _])]].
  rewrite IH. split; intros [rest Hs]; exists rest; [by rewrite Hs|by injection Hs].
Qed.

(** [str::split(c)]: always at least one piece *)
Fixpoint split (c : ascii) (s : string) : list string :=
  match s with
  | EmptyString => [EmptyString]
  | String a s =>
      if a == c then EmptyString :: split c s
      else match split c s with
           | piece :: pieces => String a piece :: pieces
           | [] => [String a EmptyString]
           end
  end.

(** [str::split_once(c)] *)
Fixpoint split_once (c : ascii) (s : string) : option (string * string) :=
  match s with
  | EmptyString => None
  | String a s =>
      if a == c then Some (EmptyString, s)
      else '(x, y) ← split_once c s; Some (String a x, y)
  end.

(** [str::rsplit_once(c)] *)
Fixpoint rsplit_once (c : ascii) (s : string) : option (string * string) :=
  match s with
  | EmptyString => None
  | String a s =>
      match rsplit_once c s with
      | Some (x, y) => Some (String a x, y)
      | None => if a == c then Some (EmptyString, s) else None
      end
  end.

(** The UTF-8 encodings of the characters with the White_Space property *)
Definition whitespace : list (list Z) :=
  [[9]; [10]; [11]; [12]; [13]; [32]; [194; 133]; [194; 160]; [225; 154; 128];
   [226; 128; 128]; [226; 128; 129]; [226; 128; 130]; [226; 128; 131]; [226; 128; 132];
   [226; 128; 133]; [226; 128; 134]; [226; 128; 135]; [226; 128; 136]; [226; 128; 137];
   [226; 128; 138]; [226; 128; 168]; [226; 128; 169]; [226; 128; 175]; [226; 129; 159];
   [227; 128; 128]]%Z.

Definition byte_of (a : ascii) : Z := Z.of_N (N_of_ascii a).

(** Removes the patterns at the front, as often as one matches; a pattern has
    at least one byte, so the length of the string is enough fuel. *)
Fixpoint strip_front (fuel : nat) (pats : list (list Z)) (l : list ascii) : list ascii :=
  match fuel with
  | O => l
  | S fuel =>
      match List.find (λ p, starts_with (byte_of <$> l) p) pats with
      | Some p => strip_front fuel pats (drop (length p) l)
      | None => l
      end
  end.

Definition strip_start (pats : list (list Z)) (s : string) : string :=
  let l := String.list_ascii_of_string s in
  String.string_of_list_ascii (strip_front (length l) pats l).
Definition strip_end (pats : list (list Z)) (s : string) : string :=
  let l := reverse (String.list_ascii_of_string s) in
  String.string_of_list_ascii (reverse (strip_front (length l) (reverse <$> pats) l)).

Definition bytes_of (s : string) : list Z := byte_of <$> String.list_ascii_of_string s.

(** [str::trim] *)
Definition trim (s : string) : string := strip_end whitespace (strip_start whitespace s).
(** [str::trim_start_matches(pat)] *)
Definition trim_start_matches (pat s : string) : string := strip_start [bytes_of pat] s.
(** [str::trim_end_matches(c)] *)
Definition trim_end_matches (c : ascii) (s : string) : string := strip_end [[byte_of c]] s.
(** [str::trim_matches([..])] *)
Definition trim_matches (cs : list ascii) (s : string) : string :=
  let pats := (λ c, [byte_of c]) <$> cs in strip_end pats (strip_start pats s).

(** [str::parse::<u64>()]: an optional [+], then decimal digits *)
Definition digit (a : ascii) : option Z :=
  let z := byte_of a in
  if ((48 <=? z) && (z <=? 57))%Z then Some (z - 48)%Z else None.
Fixpoint parse_digits (max acc : Z) (l : list ascii) : option Z :=
  match l with
  | [] => Some acc
  | a :: l =>
      d ← digit a;
      let acc := (acc * 10 + d)%Z in
      if (max <? acc)%Z then None else parse_digits max acc l
  end.
Definition parse_uint (max : Z) (s : string) : option Z :=
  match String.list_ascii_of_string s with
  | [] => None
  | a :: l =>
      if a == "+"%char
      then match l with [] => None | _ => parse_digits max 0 l end
      else parse_digits max 0 (a :: l)
  end.
Definition parse_u64 : string → option Z := parse_uint u64_MAX.
(** [str::parse::<u32>()] *)
Definition parse_u32 : string → option Z := parse_uint u32_MAX.

(** [str::strip_prefix] *)
Fixpoint strip_prefix (prefix s : string) : option string :=
  match prefix, s with
  | EmptyString, _ => Some s
  | String a prefix, String b s => if a == b then strip_prefix prefix s else None
  | String _ _, EmptyString => None
  end.

(** [u64::to_string] *)
Definition u64_to_string (z : Z) : string := pretty (Z.to_N z).

(** [str::contains], and [str::find], which gives a byte offset *)
Fixpoint str_contains (needle s : string) : bool :=
  String.prefix needle s ||
  match s with EmptyString => false | String _ s => str_contains needle s end.
Fixpoint str_find (needle s : string) : option nat :=
  if String.prefix needle s then Some O
  else match s with EmptyString => None | String _ s => S <$> str_find needle s end.

(** [s[n..]] and [s[..n]] at an offset within the string *)
Fixpoint str_drop (n : nat) (s : string) : string :=
  match n, s with S n, String _ s => str_drop n s | _, _ => s end.
Fixpoint str_take (n : nat) (s : string) : string :=
  match n, s with S n, String a s => String a (str_take n s) | _, _ => EmptyString end.

(** [str::replace(c, r)] *)
Fixpoint str_replace (c : ascii) (r s : string) : string :=
  match s with
  | EmptyString => EmptyString
  | String a s => if a == c then String.append r (str_replace c r s)
                  else String a (str_replace c r s)
  end.

(** [s.matches(c).count()] *)
Fixpoint count_char (c : ascii) (s : string) : nat :=
  match s with
  | EmptyString => O
  | String a s => if a == c then S (count_char c s) else count_char c s
  end.

(** [u8::to_ascii_lowercase] *)
Definition lower_char (c : ascii) : ascii :=
  let n := N_of_ascii c in
  if ((65 <=? n) && (n <=? 90))%N then ascii_of_N (n + 32) else c.
(** [str::eq_ignore_ascii_case] *)
Fixpoint to_ascii_lowercase (s : string) : string :=
  match s with
  | EmptyString => EmptyString
  | String c s => String (lower_char c) (to_ascii_lowercase s)
  end.
Definition eq_ignore_ascii_case (x y : string) : bool :=
  to_ascii_lowercase x == to_ascii_lowercase y.
(** [str::to_lowercase], for comparison with ASCII words: of the characters
    beyond ASCII only the Kelvin sign lowers to ASCII, to [k], and U+0130 to an
    [i] with a combining dot; the others stay beyond ASCII and are left as
    they are. *)
Fixpoint to_lowercase (s : string) : string :=
  match s with
  | String "226" (String "132" (String "170" s)) => String "k" (to_lowercase s)
  | String "196" (String "176" s) => String "i" (String "204" (String "135" (to_lowercase s)))
  | String c s => String (lower_char c) (to_lowercase s)
  | EmptyString => EmptyString
  end.

(** [std::str::from_utf8] on the rest of a sequence: well-formed UTF-8, without
    overlong forms, surrogates or code points above U+10FFFF *)
Definition between (lo hi b : Z) : bool := ((lo <=? b) && (b <=? hi))%Z.
Fixpoint is_utf8 (bytes : list Z) : bool :=
  match bytes with
  | [] => true
  | a :: bytes =>
      if (a <? 128)%Z then is_utf8 bytes else
      match bytes with
      | b :: bytes =>
          if between 194 223 a then between 128 191 b && is_utf8 bytes else
          let second :=
            if (a =? 224)%Z then between 160 191 b
            else if (a =? 237)%Z then between 128 159 b
            else if (a =? 240)%Z then between 144 191 b
            else if (a =? 244)%Z then between 128 143 b
            else between 128 191 b in
          match bytes with
          | c :: bytes =>
              if between 224 239 a then second && between 128 191 c && is_utf8 bytes else
              match bytes with
              | d :: bytes =>
                  between 240 244 a && second && between 128 191 c && between 128 191 d
                  && is_utf8 bytes
              | [] => false
              end
          | [] => false
          end
      | [] => false
      end
  end.
Definition string_of_bytes (bytes : list Z) : string :=
  String.string_of_list_ascii ((λ b, ascii_of_N (Z.to_N b)) <$> bytes).
Definition from_utf8 (bytes : list Z) : option string :=
  if is_utf8 bytes then Some (string_of_bytes bytes) else None.

(** [parts.join(sep)] *)
Fixpoint join (sep : string) (parts : list string) : string :=
  match parts with
  | [] => EmptyString
  | [s] => s
  | s :: parts => String.append s (String.append sep (join sep parts))
  end.

(** [str::split_whitespace] on the rest of a text, [cur] being the word that has
    begun. A pattern begins with a byte that begins a character, so going on
    byte by byte does not cut one; each step consumes a byte of the fuel. *)
Fixpoint words (fuel : nat) (cur l : list ascii) : list (list ascii) :=
  let rest (ws : list (list ascii)) := match cur with [] => ws | _ => cur :: ws end in
  match fuel, l with
  | S fuel, a :: l' =>
      match List.find (λ p, starts_with (byte_of <$> l) p) whitespace with
      | Some p => rest (words fuel [] (drop (length p) l))
      | None => words fuel (cur ++ [a]) l'
      end
  | _, _ => rest []
  end.
Definition split_whitespace (s : string) : list string :=
  let l := String.list_ascii_of_string s in String.string_of_list_ascii <$> words (length l) [] l.

(** [str::lines]: a line ends with a line feed, which may follow a carriage
    return; what follows the last line feed is a line unless it is empty. *)
Definition NEWLINE : ascii := "010".
Definition strip_return (line : string) : string :=
  match reverse (String.list_ascii_of_string line) with
  | "013"%char :: l => String.string_of_list_ascii (reverse l)
  | _ => line
  end.
Fixpoint lines_of (pieces : list string) : list string :=
  match pieces with
  | [] => []
  | [piece] => if piece == EmptyString then [] else [piece]
  | piece :: pieces => strip_return piece :: lines_of pieces
  end.
Definition lines (s : string) : list string := lines_of (split NEWLINE s).

(** [s.chars().all(p)], for a predicate on ASCII characters *)
Definition all_chars (p : ascii → bool) (s : string) : bool :=
  forallb p (String.list_ascii_of_string s).
(** A visible character: an exclamation mark to a tilde *)
Definition is_graphic (c : ascii) : bool := between 33 126 (byte_of c).

(** ** Facts *)

Lemma append_cons_l (a : ascii) (s t : string) :
  String.append (String a s) t = String a (String.append s t).
Proof. done. Qed.
Lemma append_nil (s : string) : String.append s EmptyString = s.
Proof. induction s as [|a s IH]; [done|]. by rewrite append_cons_l, IH. Qed.
Lemma append_assoc (s t u : string) :
  String.append (String.append s t) u = String.append s (String.append t u).
Proof. induction s as [|b s IH]; [done|]. by rewrite !append_cons_l, IH. Qed.

Lemma length_append x y :
  String.length (String.append x y) = (String.length x + String.length y)%nat.
Proof. induction x as [|a x IH]; [done|]. rewrite append_cons_l. simpl. by rewrite IH. Qed.

Lemma list_ascii_append (s t : string) :
  String.list_ascii_of_string (String.append s t)
  = String.list_ascii_of_string s ++ String.list_ascii_of_string t.
Proof. induction s as [|a s IH]; [done|]. rewrite append_cons_l. simpl. by rewrite IH. Qed.
Lemma str_drop_append x y : str_drop (String.length x) (String.append x y) = y.
Proof. induction x; [by destruct y|done]. Qed.
Lemma str_take_append x y : str_take (String.length x) (String.append x y) = x.
Proof. induction x as [|a x IH]; [by destruct y|]. rewrite append_cons_l. simpl. by rewrite IH. Qed.

Lemma all_chars_impl p q s :
  (∀ c, p c = true → q c = true) → all_chars p s = true → all_chars q s = true.
Proof. unfold all_chars. rewrite !forallb_forall. auto. Qed.

Lemma all_chars_append p x y :
  all_chars p (String.append x y) = all_chars p x && all_chars p y.
Proof. unfold all_chars. by rewrite list_ascii_append, forallb_app. Qed.

Lemma append_inj x y x' y' :
  String.length x = String.length x' → String.append x y = String.append x' y' → x = x' ∧ y = y'.
Proof.
  revert x'. induction x as [|a x IH]; intros [|a' x'] Hl; simpl in Hl; try done.
  rewrite !append_cons_l. intros [= <- Hs]. destruct (IH x') as [<- <-]; [lia|done|done].
Qed.

(** A prefix comes first in the order. *)
Lemma compare_append_le x y : cmp_le String.compare x (String.append x y).
Proof.
  induction x as [|a x IH]; [by destruct y|]. rewrite append_cons_l. unfold cmp_le in *. simpl.
  unfold Ascii.compare. by rewrite N.compare_refl.
Qed.

(** *** Prefixes and the first occurrence *)

Lemma strip_prefix_Some prefix s rest :
  strip_prefix prefix s = Some rest ↔ s = String.append prefix rest.
Proof.
  revert s. induction prefix as [|a prefix IH]; intros s; simpl; [naive_solver|].
  rewrite append_cons_l. destruct s as [|b s]; [done|].
  case_bool_decide as Hab; [|naive_solver]. subst b. rewrite IH. naive_solver.
Qed.

(** [x] is what stands before the first [needle] of [s]. *)
Definition before_first (needle s x : string) : Prop :=
  (∃ rest, s = String.append x (String.append needle rest)) ∧
  ∀ x' rest', s = String.append x' (String.append needle rest') →
    (String.length x ≤ String.length x')%nat.

Lemma prefix_true needle s rest : s = String.append needle rest → String.prefix needle s = true.
Proof. intros Hs. apply str_starts_with_iff. by exists rest. Qed.

Lemma str_find_None needle s x rest :
  str_find needle s = None → s ≠ String.append x (String.append needle rest).
Proof.
  revert x. induction s as [|a s IH]; intros x Hf Hs; cbn [str_find] in Hf;
    (destruct (String.prefix needle _) eqn:Hp; [done|]); destruct x as [|b x].
  - by rewrite (prefix_true needle _ rest Hs) in Hp.
  - done.
  - by rewrite (prefix_true needle _ rest Hs) in Hp.
  - rewrite append_cons_l in Hs. injection Hs as _ Hs. destruct (str_find needle s); [done|].
    by apply (IH x).
Qed.

Lemma str_find_Some needle s n :
  str_find needle s = Some n → ∃ x, before_first needle s x ∧ String.length x = n.
Proof.
  revert n. induction s as [|a s IH]; intros n Hf; cbn [str_find] in Hf;
    destruct (String.prefix needle _) eqn:Hp; simplify_eq.
  - exists EmptyString. apply str_starts_with_iff in Hp. split; [|done]. split; [done|].
    intros; simpl; lia.
  - exists EmptyString. apply str_starts_with_iff in Hp. split; [|done]. split; [done|].
    intros; simpl; lia.
  - destruct (str_find needle s) as [m|] eqn:Hm; [|done]. injection Hf as <-.
    destruct (IH m eq_refl) as (x & [[rest Hs] Hfirst] & Hl). exists (String a x).
    split; [split|simpl; by rewrite Hl].
    + exists rest. by rewrite append_cons_l, <-Hs.
    + intros [|b x'] rest' Hs'.
      * by rewrite (prefix_true needle _ rest' Hs') in Hp.
      * rewrite append_cons_l in Hs'. injection Hs' as _ Hs'. simpl.
        specialize (Hfirst x' rest' Hs'). lia.
Qed.

Lemma before_first_inj needle s x y : before_first needle s x → before_first needle s y → x = y.
Proof.
  intros [[r Hx] Hxm] [[r' Hy] Hym]. specialize (Hxm _ _ Hy). specialize (Hym _ _ Hx).
  rewrite Hx in Hy. apply append_inj in Hy as [-> _]; [done|lia].
Qed.

(** *** White space *)

Lemma graphic_not_space c : is_graphic c = true →
  Forall (λ p, head p ≠ Some (byte_of c)) (whitespace ++ (reverse <$> whitespace)).
Proof.
  unfold is_graphic, between. rewrite andb_true_iff, !Z.leb_le. intros Hc.
  repeat constructor; intros [= Hb]; lia.
Qed.
Lemma find_graphic c l : is_graphic c = true →
  List.find (λ p, starts_with (byte_of <$> c :: l) p) whitespace = None.
Proof.
  intros [Hc _]%graphic_not_space%Forall_app. destruct (List.find _ _) as [p|] eqn:Hf; [|done].
  apply List.find_some in Hf as [Hin Hs]. apply list_elem_of_In in Hin.
  rewrite Forall_forall in Hc. specialize (Hc p Hin). apply bool_decide_eq_true in Hs.
  destruct p as [|b p]; [|by injection Hs as Hb _; rewrite Hb in Hc].
  by apply (bool_decide_unpack ([] ∉ whitespace)) in Hin.
Qed.

Lemma strip_front_id n (pats : list (list Z)) (l : list ascii) :
  Forall (λ p, p ≠ []) pats →
  (∀ c, head l = Some c → Forall (λ p, head p ≠ Some (byte_of c)) pats) →
  strip_front n pats l = l.
Proof.
  intros Hp Hl. destruct n as [|n]; simpl; [done|].
  destruct (List.find _ pats) as [p|] eqn:Hf; [|done].
  apply List.find_some in Hf as [Hin Hs]. apply list_elem_of_In in Hin.
  rewrite Forall_forall in Hp. specialize (Hp p Hin).
  destruct p as [|b p]; [done|]. destruct l as [|c l]; [done|].
  specialize (Hl c eq_refl). rewrite Forall_forall in Hl.
  apply bool_decide_eq_true in Hs. injection Hs as Hb _. by destruct (Hl _ Hin); rewrite <-Hb.
Qed.

(** Trimming leaves a text between visible characters as it is. *)
Lemma trim_id s :
  (∀ c, head (String.list_ascii_of_string s) = Some c → is_graphic c = true) →
  (∀ c, last (String.list_ascii_of_string s) = Some c → is_graphic c = true) → trim s = s.
Proof.
  intros Hh Hl. unfold trim, strip_start, strip_end.
  rewrite (strip_front_id _ whitespace);
    [|by repeat constructor|by intros c [Hc _]%Hh%graphic_not_space%Forall_app].
  rewrite String.list_ascii_of_string_of_list_ascii, strip_front_id, reverse_involutive.
  - apply String.string_of_list_ascii_of_string.
  - by repeat constructor.
  - intros c. rewrite head_reverse. by intros [_ Hc]%Hl%graphic_not_space%Forall_app.
Qed.
Lemma trim_graphic s : all_chars is_graphic s = true → trim s = s.
Proof.
  unfold all_chars. rewrite forallb_forall. intros Hs.
  apply trim_id; intros c Hc; apply Hs, list_elem_of_In.
  - by apply head_Some_elem_of.
  - by apply last_Some_elem_of.
Qed.

Lemma parse_digits_range max acc l z :
  (0 ≤ acc ≤ max)%Z → parse_digits max acc l = Some z → (0 ≤ z ≤ max)%Z.
Proof.
  revert acc. induction l as [|a l IH]; intros acc Hacc; simpl; [by intros [= <-]|].
  unfold digit. destruct ((48 <=? byte_of a) && (byte_of a <=? 57))%Z eqn:E; simpl; [|done].
  apply andb_true_iff in E as [?%Z.leb_le ?%Z.leb_le].
  destruct (Z.ltb_spec max (acc * 10 + (byte_of a - 48))); [done|].
  apply IH. lia.
Qed.

(** A parsed number is in the range of its type. *)
Lemma parse_uint_range max s z :
  (0 ≤ max)%Z → parse_uint max s = Some z → (0 ≤ z ≤ max)%Z.
Proof.
  unfold parse_uint. intros Hmax. assert (0 ≤ 0 ≤ max)%Z by lia.
  destruct (String.list_ascii_of_string s) as [|a l]; [done|].
  case_bool_decide; [destruct l; [done|]|]; by apply parse_digits_range.
Qed.

Lemma parse_u64_range s z : parse_u64 s = Some z → is_u64 z.
Proof. apply parse_uint_range. unfold u64_MAX. lia. Qed.
Lemma parse_u32_range s z : parse_u32 s = Some z → is_u32 z.
Proof. apply parse_uint_range. unfold u32_MAX. lia. Qed.

(** ** Printing and parsing numbers *)

Lemma digit_pretty x : (x < 10)%N → digit (pretty_N_char x) = Some (Z.of_N x).
Proof.
  intros Hx. assert (x = 0 ∨ x = 1 ∨ x = 2 ∨ x = 3 ∨ x = 4 ∨ x = 5 ∨ x = 6 ∨ x = 7 ∨ x = 8
    ∨ x = 9)%N by lia.
  by destruct_or!; subst.
Qed.

(** The digits printed before [s] parse back to the number. *)
Lemma parse_pretty_go max x s :
  (Z.of_N x ≤ max)%Z →
  parse_digits max 0 (String.list_ascii_of_string (pretty_N_go x s)) =
  parse_digits max (Z.of_N x) (String.list_ascii_of_string s).
Proof.
  revert s. induction (N.lt_wf_0 x) as [x _ IH]; intros s Hx.
  destruct (decide (x = 0)%N) as [->|Hx0]; [by rewrite pretty_N_go_0|].
  rewrite pretty_N_go_step by lia.
  pose proof (N.div_lt x 10). pose proof (N.Div0.div_mod x 10).
  pose proof (N.mod_lt x 10).
  rewrite IH by lia. simpl.
  rewrite digit_pretty by lia. simpl.
  replace (Z.of_N (x / 10) * 10 + Z.of_N (x `mod` 10))%Z with (Z.of_N x) by lia.
  destruct (Z.ltb_spec max (Z.of_N x)); [lia|done].
Qed.

Lemma pretty_go_digits x s :
  Forall (λ a, is_Some (digit a)) (String.list_ascii_of_string s) →
  Forall (λ a, is_Some (digit a)) (String.list_ascii_of_string (pretty_N_go x s)).
Proof.
  revert s. induction (N.lt_wf_0 x) as [x _ IH]; intros s Hs.
  destruct (decide (x = 0)%N) as [->|Hx0]; [by rewrite pretty_N_go_0|].
  rewrite pretty_N_go_step by lia. apply IH; [apply N.div_lt; lia|].
  constructor; [|done]. rewrite digit_pretty by (apply N.mod_lt; lia). by eexists.
Qed.

Lemma parse_u64_to_string z : is_u64 z → parse_u64 (u64_to_string z) = Some z.
Proof.
  intros [Hz Hmax]. unfold u64_to_string, parse_u64, parse_uint, pretty, pretty_N.
  case_decide as Hz0; [replace z with 0%Z by lia; done|].
  assert (Hx : (Z.of_N (Z.to_N z) ≤ u64_MAX)%Z) by lia.
  pose proof (parse_pretty_go u64_MAX (Z.to_N z) "" Hx) as Hparse.
  pose proof (pretty_go_digits (Z.to_N z) "" (List.Forall_nil _)) as Hdig.
  destruct (String.list_ascii_of_string (pretty_N_go (Z.to_N z) "")) as [|a l].
  { simpl in Hparse. injection Hparse as Hparse. lia. }
  case_bool_decide as Ha.
  { subst a. apply Forall_cons in Hdig as [[d Hd] _]. done. }
  rewrite Hparse. simpl. f_equal. lia.
Qed.

Lemma u64_to_string_inj x y :
  (0 ≤ x)%Z → (0 ≤ y)%Z → u64_to_string x = u64_to_string y → x = y.
Proof. unfold u64_to_string. intros ?? E%(inj pretty). lia. Qed.

(** A printed number is one or more decimal digits. *)
Definition is_digit (c : ascii) : bool := between 48 57 (byte_of c).
Lemma u64_to_string_digits z : all_chars is_digit (u64_to_string z) = true.
Proof.
  unfold all_chars, u64_to_string. apply forallb_forall. intros c Hc.
  assert (is_Some (digit c)) as [d Hd].
  { destruct (decide (Z.to_N z = 0)%N) as [E|E].
    - rewrite E in Hc. destruct Hc as [<-|[]]. by eexists.
    - unfold pretty, pretty_N in Hc. rewrite decide_False in Hc by done.
      pose proof (pretty_go_digits (Z.to_N z) "" (List.Forall_nil _)) as Hf.
      rewrite Forall_forall in Hf. by apply Hf, list_elem_of_In. }
  unfold digit in Hd. unfold is_digit, between. by destruct (_ && _) eqn:E in Hd.
Qed.
Lemma u64_to_string_nonempty z : is_u64 z → u64_to_string z ≠ EmptyString.
Proof. intros Hz Hs. pose proof (parse_u64_to_string z Hz) as Hp. by rewrite Hs in Hp. Qed.

(** A character that does not occur *)
Definition without (c : ascii) : string → bool := all_chars (λ a, negb (bool_decide (a = c))).
Lemma digits_without c s : is_digit c = false → all_chars is_digit s = true → without c s = true.
Proof.
  intros Hc. apply all_chars_impl. intros a Ha. case_bool_decide; [congruence|done].
Qed.
Lemma split_once_at c x y : without c x = true → split_once c (x +:+ String c y) = Some (x, y).
Proof.
  induction x as [|a x IH].
  - intros _. change (split_once c (String c y) = Some (EmptyString, y)). simpl.
    by rewrite bool_decide_eq_true_2.
  - intros [Ha Hx]%andb_true_iff. rewrite append_cons_l. simpl.
    destruct (bool_decide (a = c)); [done|]. by rewrite IH.
Qed.
Lemma str_contains_without c s :
  without c s = true → str_contains (String c EmptyString) s = false.
Proof.
  induction s as [|a s IH]; [done|]. intros [Ha Hs]%andb_true_iff. simpl.
  destruct (ascii_dec c a) as [->|]; [by rewrite bool_decide_eq_true_2 in Ha|]. by apply IH.
Qed.

(** [String::from_utf8_lossy], as bytes: a character is copied, and the longest
    prefix of one that is cut short or wrong becomes U+FFFD. *)
Definition REPLACEMENT : list Z := [239; 191; 189]%Z.
Definition second_byte (a b : Z) : bool :=
  if (a =? 224)%Z then between 160 191 b
  else if (a =? 237)%Z then between 128 159 b
  else if (a =? 240)%Z then between 144 191 b
  else if (a =? 244)%Z then between 128 143 b
  else between 128 191 b.
Fixpoint lossy (bytes : list Z) : list Z :=
  match bytes with
  | [] => []
  | a :: after_a =>
      if (a <? 128)%Z then a :: lossy after_a
      else if negb (between 194 244 a) then REPLACEMENT ++ lossy after_a
      else match after_a with
      | [] => REPLACEMENT
      | b :: after_b =>
          if negb (second_byte a b) then REPLACEMENT ++ lossy after_a
          else if (a <? 224)%Z then a :: b :: lossy after_b
          else match after_b with
          | [] => REPLACEMENT
          | c :: after_c =>
              if negb (between 128 191 c) then REPLACEMENT ++ lossy after_b
              else if (a <? 240)%Z then a :: b :: c :: lossy after_c
              else match after_c with
              | [] => REPLACEMENT
              | d :: after_d =>
                  if negb (between 128 191 d) then REPLACEMENT ++ lossy after_c
                  else a :: b :: c :: d :: lossy after_d
              end
          end
      end
  end.
Definition from_utf8_lossy (bytes : list Z) : string := string_of_bytes (lossy bytes).

(** Nothing is lost of what is well-formed. *)
Lemma lossy_valid bytes : is_utf8 bytes = true → lossy bytes = bytes.
Proof.
  remember (length bytes) as n eqn:Hn. revert bytes Hn.
  induction (lt_wf n) as [n _ IH]. intros [|a l1] Hn; [done|]. subst n.
  assert (∀ l, (length l < S (length l1))%nat → is_utf8 l = true → lossy l = l) as IH'.
  { intros l Hl. by apply (IH (length l)). }
  clear IH. cbn [is_utf8 lossy]. destruct (Z.ltb_spec a 128); [intros; f_equal; apply IH'; simpl; auto with lia|].
  destruct l1 as [|b l2]; [done|]. unfold second_byte.
  destruct (between 194 223 a) eqn:Ha.
  - unfold between in Ha. apply andb_true_iff in Ha as [?%Z.leb_le ?%Z.leb_le].
    intros [Hb Hl]%andb_true_iff. unfold between at 1.
    rewrite (proj2 (Z.leb_le 194 a)), (proj2 (Z.leb_le a 244)) by lia.
    repeat rewrite (proj2 (Z.eqb_neq a _)) by lia. rewrite Hb, (proj2 (Z.ltb_lt a 224)) by lia.
    simpl. do 2 f_equal. apply IH'; simpl; [lia|done].
  - destruct l2 as [|c l3]; [done|]. destruct (between 224 239 a) eqn:Ha3.
    + unfold between in Ha3. apply andb_true_iff in Ha3 as [?%Z.leb_le ?%Z.leb_le].
      intros [[Hb Hc]%andb_true_iff Hl]%andb_true_iff. unfold between at 1.
      rewrite (proj2 (Z.leb_le 194 a)), (proj2 (Z.leb_le a 244)) by lia.
      rewrite Hb, Hc, (proj2 (Z.ltb_ge a 224)), (proj2 (Z.ltb_lt a 240)) by lia.
      simpl. do 3 f_equal. apply IH'; simpl; [lia|done].
    + destruct l3 as [|d l4]; [done|].
      intros [[[[Ha4 Hb]%andb_true_iff Hc]%andb_true_iff Hd]%andb_true_iff Hl]%andb_true_iff.
      unfold between in Ha4. apply andb_true_iff in Ha4 as [?%Z.leb_le ?%Z.leb_le].
      unfold between at 1. rewrite (proj2 (Z.leb_le 194 a)), (proj2 (Z.leb_le a 244)) by lia.
      rewrite Hb, Hc, Hd, (proj2 (Z.ltb_ge a 224)), (proj2 (Z.ltb_ge a 240)) by lia.
      simpl. do 4 f_equal. apply IH'; simpl; [lia|done].
Qed.
