(* ===== verification/Proto.v ===== *)
(** * Message types

    The protobuf messages and enumerations that the services exchange
    ([src/crates/proto/proto/*.proto]), as the generated Rust types present
    them: one record per message, an enumeration field as its [i32], and the
    conversions [as i32] and [try_from] of each enumeration. The gRPC status
    ([tonic::Status]) is the error type of every service. *)

From Stdlib Require Import ZArith String.
From stdpp Require Import base gmap strings countable.
From S2P Require Import Prelude.

(** ** gRPC status *)

Inductive Code :=
| Cancelled | Unknown | InvalidArgument | DeadlineExceeded | NotFound
| AlreadyExists | PermissionDenied | ResourceExhausted | FailedPrecondition
| Aborted | OutOfRange | Unimplemented | Internal | Unavailable | DataLoss
| Unauthenticated.
#[export] Instance Code_eq_dec : EqDecision Code.
Proof. solve_decision. Defined.

Record Status := mkStatus { code : Code; message : string }.
#[export] Instance Status_eq_dec : EqDecision Status.
Proof. solve_decision. Defined.

Definition not_found (m : string) : Status := mkStatus NotFound m.
Definition already_exists (m : string) : Status := mkStatus AlreadyExists m.
Definition invalid_argument (m : string) : Status := mkStatus InvalidArgument m.
Definition failed_precondition (m : string) : Status := mkStatus FailedPrecondition m.
Definition resource_exhausted (m : string) : Status := mkStatus ResourceExhausted m.
Definition unavailable (m : string) : Status := mkStatus Unavailable m.
Definition unimplemented (m : string) : Status := mkStatus Unimplemented m.
Definition internal (m : string) : Status := mkStatus Internal m.
Definition data_loss (m : string) : Status := mkStatus DataLoss m.

(** ** Enumerations *)

Module StorageClass.
Inductive t :=
| Unspecified
| ColdPending
| Cold.
#[global] Instance t_eq_dec : EqDecision t.
Proof. solve_decision. Defined.
Definition as_i32 (v : t) : Z :=
  match v with
  | Unspecified => 0
  | ColdPending => 1
  | Cold => 2
  end.
Definition try_from (z : Z) : option t :=
  match z with
  | 0 => Some Unspecified
  | 1 => Some ColdPending
  | 2 => Some Cold
  | _ => None
  end%Z.
End StorageClass.

Module RestoreStatus.
Inductive t :=
| Unspecified
| RestorePending
| RestoreWaitingForMedia
| RestoreInProgress
| RestoreCompleted
| RestoreExpired
| RestoreFailed.
#[global] Instance t_eq_dec : EqDecision t.
Proof. solve_decision. Defined.
Definition as_i32 (v : t) : Z :=
  match v with
  | Unspecified => 0
  | RestorePending => 1
  | RestoreWaitingForMedia => 2
  | RestoreInProgress => 3
  | RestoreCompleted => 4
  | RestoreExpired => 5
  | RestoreFailed => 6
  end.
Definition try_from (z : Z) : option t :=
  match z with
  | 0 => Some Unspecified
  | 1 => Some RestorePending
  | 2 => Some RestoreWaitingForMedia
  | 3 => Some RestoreInProgress
  | 4 => Some RestoreCompleted
  | 5 => Some RestoreExpired
  | 6 => Some RestoreFailed
  | _ => None
  end%Z.
End RestoreStatus.

Module RestoreTier.
Inductive t :=
| Unspecified
| Expedited
| Standard
| Bulk.
#[global] Instance t_eq_dec : EqDecision t.
Proof. solve_decision. Defined.
Definition as_i32 (v : t) : Z :=
  match v with
  | Unspecified => 0
  | Expedited => 1
  | Standard => 2
  | Bulk => 3
  end.
Definition try_from (z : Z) : option t :=
  match z with
  | 0 => Some Unspecified
  | 1 => Some Expedited
  | 2 => Some Standard
  | 3 => Some Bulk
  | _ => None
  end%Z.
End RestoreTier.

Module TapeStatus.
Inductive t :=
| Unspecified
| TapeOnline
| TapeOffline
| TapeError
| TapeRetired
| TapeUnknown.
#[global] Instance t_eq_dec : EqDecision t.
Proof. solve_decision. Defined.
Definition as_i32 (v : t) : Z :=
  match v with
  | Unspecified => 0
  | TapeOnline => 1
  | TapeOffline => 2
  | TapeError => 3
  | TapeRetired => 4
  | TapeUnknown => 5
  end.
Definition try_from (z : Z) : option t :=
  match z with
  | 0 => Some Unspecified
  | 1 => Some TapeOnline
  | 2 => Some TapeOffline
  | 3 => Some TapeError
  | 4 => Some TapeRetired
  | 5 => Some TapeUnknown
  | _ => None
  end%Z.
End TapeStatus.

Module DriveStatus.
Inductive t :=
| Unspecified
| DriveIdle
| DriveInUse
| DriveLoading
| DriveUnloading
| DriveError
| DriveOffline.
#[global] Instance t_eq_dec : EqDecision t.
Proof. solve_decision. Defined.
Definition as_i32 (v : t) : Z :=
  match v with
  | Unspecified => 0
  | DriveIdle => 1
  | DriveInUse => 2
  | DriveLoading => 3
  | DriveUnloading => 4
  | DriveError => 5
  | DriveOffline => 6
  end.
Definition try_from (z : Z) : option t :=
  match z with
  | 0 => Some Unspecified
  | 1 => Some DriveIdle
  | 2 => Some DriveInUse
  | 3 => Some DriveLoading
  | 4 => Some DriveUnloading
  | 5 => Some DriveError
  | 6 => Some DriveOffline
  | _ => None
  end%Z.
End DriveStatus.

Module NodeStatus.
Inductive t :=
| Unspecified
| NodeOnline
| NodeOffline
| NodeDraining
| NodeMaintenance.
#[global] Instance t_eq_dec : EqDecision t.
Proof. solve_decision. Defined.
Definition as_i32 (v : t) : Z :=
  match v with
  | Unspecified => 0
  | NodeOnline => 1
  | NodeOffline => 2
  | NodeDraining => 3
  | NodeMaintenance => 4
  end.
Definition try_from (z : Z) : option t :=
  match z with
  | 0 => Some Unspecified
  | 1 => Some NodeOnline
  | 2 => Some NodeOffline
  | 3 => Some NodeDraining
  | 4 => Some NodeMaintenance
  | _ => None
  end%Z.
End NodeStatus.

Module WorkerType.
Inductive t :=
| Unspecified
| WorkerScheduler
| WorkerCache
| WorkerTape.
#[global] Instance t_eq_dec : EqDecision t.
Proof. solve_decision. Defined.
Definition as_i32 (v : t) : Z :=
  match v with
  | Unspecified => 0
  | WorkerScheduler => 1
  | WorkerCache => 2
  | WorkerTape => 3
  end.
Definition try_from (z : Z) : option t :=
  match z with
  | 0 => Some Unspecified
  | 1 => Some WorkerScheduler
  | 2 => Some WorkerCache
  | 3 => Some WorkerTape
  | _ => None
  end%Z.
End WorkerType.

Module ArchiveBundleStatus.
Inductive t :=
| Unspecified
| BundlePending
| BundleWriting
| BundleCompleted
| BundleFailed.
#[global] Instance t_eq_dec : EqDecision t.
Proof. solve_decision. Defined.
Definition as_i32 (v : t) : Z :=
  match v with
  | Unspecified => 0
  | BundlePending => 1
  | BundleWriting => 2
  | BundleCompleted => 3
  | BundleFailed => 4
  end.
Definition try_from (z : Z) : option t :=
  match z with
  | 0 => Some Unspecified
  | 1 => Some BundlePending
  | 2 => Some BundleWriting
  | 3 => Some BundleCompleted
  | 4 => Some BundleFailed
  | _ => None
  end%Z.
End ArchiveBundleStatus.

Module ArchiveTaskStatus.
Inductive t :=
| Unspecified
| ArchiveTaskPending
| ArchiveTaskInProgress
| ArchiveTaskCompleted
| ArchiveTaskFailed.
#[global] Instance t_eq_dec : EqDecision t.
Proof. solve_decision. Defined.
Definition as_i32 (v : t) : Z :=
  match v with
  | Unspecified => 0
  | ArchiveTaskPending => 1
  | ArchiveTaskInProgress => 2
  | ArchiveTaskCompleted => 3
  | ArchiveTaskFailed => 4
  end.
Definition try_from (z : Z) : option t :=
  match z with
  | 0 => Some Unspecified
  | 1 => Some ArchiveTaskPending
  | 2 => Some ArchiveTaskInProgress
  | 3 => Some ArchiveTaskCompleted
  | 4 => Some ArchiveTaskFailed
  | _ => None
  end%Z.
End ArchiveTaskStatus.

(** ** common.proto *)

Module Timestamp.
Record t := mk {
  seconds : Z;
  nanos : Z;
}.
#[global] Instance t_eq_dec : EqDecision t.
Proof. solve_decision. Defined.
#[global] Program Instance t_countable : Countable t :=
  inj_countable'
    (λ r, (r.(seconds), r.(nanos)))
    (λ '(x0, x1), mk x0 x1) _.
Next Obligation. by intros []. Qed.
End Timestamp.

Module ObjectMetadata.
Record t := mk {
  bucket : string;
  key : string;
  version_id : option string;
  size : Z;
  checksum : string;
  content_type : option string;
  etag : option string;
  storage_class : Z;
  archive_id : option string;
  tape_id : option string;
  tape_set : list string;
  tape_block_offset : option Z;
  restore_status : option Z;
  restore_expire_at : option Timestamp.t;
  created_at : option Timestamp.t;
  updated_at : option Timestamp.t;
}.
#[global] Instance t_eq_dec : EqDecision t.
Proof. solve_decision. Defined.
#[global] Program Instance t_countable : Countable t :=
  inj_countable'
  (λ r, (r.(bucket), r.(key), r.(version_id), r.(size), r.(checksum), r.(content_type),
    r.(etag), r.(storage_class), r.(archive_id), r.(tape_id), r.(tape_set),
    r.(tape_block_offset), r.(restore_status), r.(restore_expire_at), r.(created_at),
    r.(updated_at)))
  (λ '(x0, x1, x2, x3, x4, x5, x6, x7, x8, x9, x10, x11, x12, x13, x14, x15), mk x0 x1
    x2 x3 x4 x5 x6 x7 x8 x9 x10 x11 x12 x13 x14 x15) _.
Next Obligation. by intros []. Qed.
Definition set_storage_class (v : Z) (r : t) : t :=
  mk r.(bucket) r.(key) r.(version_id) r.(size) r.(checksum) r.(content_type) r.(etag) v
    r.(archive_id) r.(tape_id) r.(tape_set) r.(tape_block_offset) r.(restore_status)
    r.(restore_expire_at) r.(created_at) r.(updated_at).
Definition set_archive_id (v : option string) (r : t) : t :=
  mk r.(bucket) r.(key) r.(version_id) r.(size) r.(checksum) r.(content_type) r.(etag)
    r.(storage_class) v r.(tape_id) r.(tape_set) r.(tape_block_offset) r.(restore_status)
    r.(restore_expire_at) r.(created_at) r.(updated_at).
Definition set_tape_id (v : option string) (r : t) : t :=
  mk r.(bucket) r.(key) r.(version_id) r.(size) r.(checksum) r.(content_type) r.(etag)
    r.(storage_class) r.(archive_id) v r.(tape_set) r.(tape_block_offset)
    r.(restore_status) r.(restore_expire_at) r.(created_at) r.(updated_at).
Definition set_tape_set (v : list string) (r : t) : t :=
  mk r.(bucket) r.(key) r.(version_id) r.(size) r.(checksum) r.(content_type) r.(etag)
    r.(storage_class) r.(archive_id) r.(tape_id) v r.(tape_block_offset)
    r.(restore_status) r.(restore_expire_at) r.(created_at) r.(updated_at).
Definition set_tape_block_offset (v : option Z) (r : t) : t :=
  mk r.(bucket) r.(key) r.(version_id) r.(size) r.(checksum) r.(content_type) r.(etag)
    r.(storage_class) r.(archive_id) r.(tape_id) r.(tape_set) v r.(restore_status)
    r.(restore_expire_at) r.(created_at) r.(updated_at).
Definition set_restore_status (v : option Z) (r : t) : t :=
  mk r.(bucket) r.(key) r.(version_id) r.(size) r.(checksum) r.(content_type) r.(etag)
    r.(storage_class) r.(archive_id) r.(tape_id) r.(tape_set) r.(tape_block_offset) v
    r.(restore_expire_at) r.(created_at) r.(updated_at).
Definition set_restore_expire_at (v : option Timestamp.t) (r : t) : t :=
  mk r.(bucket) r.(key) r.(version_id) r.(size) r.(checksum) r.(content_type) r.(etag)
    r.(storage_class) r.(archive_id) r.(tape_id) r.(tape_set) r.(tape_block_offset)
    r.(restore_status) v r.(created_at) r.(updated_at).
Definition set_created_at (v : option Timestamp.t) (r : t) : t :=
  mk r.(bucket) r.(key) r.(version_id) r.(size) r.(checksum) r.(content_type) r.(etag)
    r.(storage_class) r.(archive_id) r.(tape_id) r.(tape_set) r.(tape_block_offset)
    r.(restore_status) r.(restore_expire_at) v r.(updated_at).
Definition set_updated_at (v : option Timestamp.t) (r : t) : t :=
  mk r.(bucket) r.(key) r.(version_id) r.(size) r.(checksum) r.(content_type) r.(etag)
    r.(storage_class) r.(archive_id) r.(tape_id) r.(tape_set) r.(tape_block_offset)
    r.(restore_status) r.(restore_expire_at) r.(created_at) v.
End ObjectMetadata.

Module BundleEntry.
Record t := mk {
  bucket : string;
  key : string;
  version_id : option string;
  size : Z;
  offset_in_bundle : Z;
  tape_block_offset : Z;
  checksum : string;
}.
#[global] Instance t_eq_dec : EqDecision t.
Proof. solve_decision. Defined.
#[global] Program Instance t_countable : Countable t :=
  inj_countable'
  (λ r, (r.(bucket), r.(key), r.(version_id), r.(size), r.(offset_in_bundle),
    r.(tape_block_offset), r.(checksum)))
    (λ '(x0, x1, x2, x3, x4, x5, x6), mk x0 x1 x2 x3 x4 x5 x6) _.
Next Obligation. by intros []. Qed.
End BundleEntry.

Module ArchiveBundle.
Record t := mk {
  id : string;
  tape_id : string;
  tape_set : list string;
  entries : list BundleEntry.t;
  total_size : Z;
  filemark_start : Z;
  filemark_end : Z;
  checksum : option string;
  status : Z;
  created_at : option Timestamp.t;
  completed_at : option Timestamp.t;
}.
#[global] Instance t_eq_dec : EqDecision t.
Proof. solve_decision. Defined.
#[global] Program Instance t_countable : Countable t :=
  inj_countable'
  (λ r, (r.(id), r.(tape_id), r.(tape_set), r.(entries), r.(total_size),
    r.(filemark_start), r.(filemark_end), r.(checksum), r.(status), r.(created_at),
    r.(completed_at)))
    (λ '(x0, x1, x2, x3, x4, x5, x6, x7, x8, x9, x10), mk x0 x1 x2 x3 x4 x5 x6 x7 x8 x9 x10) _.
Next Obligation. by intros []. Qed.
Definition set_status (v : Z) (r : t) : t :=
  mk r.(id) r.(tape_id) r.(tape_set) r.(entries) r.(total_size) r.(filemark_start)
    r.(filemark_end) r.(checksum) v r.(created_at) r.(completed_at).
Definition set_created_at (v : option Timestamp.t) (r : t) : t :=
  mk r.(id) r.(tape_id) r.(tape_set) r.(entries) r.(total_size) r.(filemark_start)
    r.(filemark_end) r.(checksum) r.(status) v r.(completed_at).
Definition set_completed_at (v : option Timestamp.t) (r : t) : t :=
  mk r.(id) r.(tape_id) r.(tape_set) r.(entries) r.(total_size) r.(filemark_start)
    r.(filemark_end) r.(checksum) r.(status) r.(created_at) v.
End ArchiveBundle.

Module TapeInfo.
Record t := mk {
  id : string;
  barcode : option string;
  format : string;
  status : Z;
  location : option string;
  capacity_bytes : Z;
  used_bytes : Z;
  remaining_bytes : Z;
  archive_bundle_ids : list string;
  last_verified_at : option Timestamp.t;
  error_count : Z;
  registered_at : option Timestamp.t;
}.
#[global] Instance t_eq_dec : EqDecision t.
Proof. solve_decision. Defined.
#[global] Program Instance t_countable : Countable t :=
  inj_countable'
  (λ r, (r.(id), r.(barcode), r.(format), r.(status), r.(location), r.(capacity_bytes),
    r.(used_bytes), r.(remaining_bytes), r.(archive_bundle_ids), r.(last_verified_at),
    r.(error_count), r.(registered_at)))
  (λ '(x0, x1, x2, x3, x4, x5, x6, x7, x8, x9, x10, x11), mk x0 x1 x2 x3 x4 x5 x6 x7 x8
    x9 x10 x11) _.
Next Obligation. by intros []. Qed.
Definition set_registered_at (v : option Timestamp.t) (r : t) : t :=
  mk r.(id) r.(barcode) r.(format) r.(status) r.(location) r.(capacity_bytes)
    r.(used_bytes) r.(remaining_bytes) r.(archive_bundle_ids) r.(last_verified_at)
    r.(error_count) v.
End TapeInfo.

Module RecallTask.
Record t := mk {
  id : string;
  bucket : string;
  key : string;
  version_id : option string;
  archive_id : string;
  tape_id : string;
  tape_set : list string;
  tape_block_offset : Z;
  object_size : Z;
  checksum : string;
  tier : Z;
  days : Z;
  expire_at : option Timestamp.t;
  status : Z;
  drive_id : option string;
  retry_count : Z;
  created_at : option Timestamp.t;
  started_at : option Timestamp.t;
  completed_at : option Timestamp.t;
  error : option string;
}.
#[global] Instance t_eq_dec : EqDecision t.
Proof. solve_decision. Defined.
#[global] Program Instance t_countable : Countable t :=
  inj_countable'
  (λ r, (r.(id), r.(bucket), r.(key), r.(version_id), r.(archive_id), r.(tape_id),
    r.(tape_set), r.(tape_block_offset), r.(object_size), r.(checksum), r.(tier),
    r.(days), r.(expire_at), r.(status), r.(drive_id), r.(retry_count), r.(created_at),
    r.(started_at), r.(completed_at), r.(error)))
  (λ '(x0, x1, x2, x3, x4, x5, x6, x7, x8, x9, x10, x11, x12, x13, x14, x15, x16, x17,
    x18, x19), mk x0 x1 x2 x3 x4 x5 x6 x7 x8 x9 x10 x11 x12 x13 x14 x15 x16 x17 x18 x19)
    _.
Next Obligation. by intros []. Qed.
Definition set_status (v : Z) (r : t) : t :=
  mk r.(id) r.(bucket) r.(key) r.(version_id) r.(archive_id) r.(tape_id) r.(tape_set)
    r.(tape_block_offset) r.(object_size) r.(checksum) r.(tier) r.(days) r.(expire_at) v
    r.(drive_id) r.(retry_count) r.(created_at) r.(started_at) r.(completed_at) r.(error).
Definition set_retry_count (v : Z) (r : t) : t :=
  mk r.(id) r.(bucket) r.(key) r.(version_id) r.(archive_id) r.(tape_id) r.(tape_set)
    r.(tape_block_offset) r.(object_size) r.(checksum) r.(tier) r.(days) r.(expire_at)
    r.(status) r.(drive_id) v r.(created_at) r.(started_at) r.(completed_at) r.(error).
Definition set_created_at (v : option Timestamp.t) (r : t) : t :=
  mk r.(id) r.(bucket) r.(key) r.(version_id) r.(archive_id) r.(tape_id) r.(tape_set)
    r.(tape_block_offset) r.(object_size) r.(checksum) r.(tier) r.(days) r.(expire_at)
    r.(status) r.(drive_id) r.(retry_count) v r.(started_at) r.(completed_at) r.(error).
Definition set_started_at (v : option Timestamp.t) (r : t) : t :=
  mk r.(id) r.(bucket) r.(key) r.(version_id) r.(archive_id) r.(tape_id) r.(tape_set)
    r.(tape_block_offset) r.(object_size) r.(checksum) r.(tier) r.(days) r.(expire_at)
    r.(status) r.(drive_id) r.(retry_count) r.(created_at) v r.(completed_at) r.(error).
Definition set_completed_at (v : option Timestamp.t) (r : t) : t :=
  mk r.(id) r.(bucket) r.(key) r.(version_id) r.(archive_id) r.(tape_id) r.(tape_set)
    r.(tape_block_offset) r.(object_size) r.(checksum) r.(tier) r.(days) r.(expire_at)
    r.(status) r.(drive_id) r.(retry_count) r.(created_at) r.(started_at) v r.(error).
Definition set_error (v : option string) (r : t) : t :=
  mk r.(id) r.(bucket) r.(key) r.(version_id) r.(archive_id) r.(tape_id) r.(tape_set)
    r.(tape_block_offset) r.(object_size) r.(checksum) r.(tier) r.(days) r.(expire_at)
    r.(status) r.(drive_id) r.(retry_count) r.(created_at) r.(started_at) r.(completed_at)
    v.
End RecallTask.

Module ArchiveTask.
Record t := mk {
  id : string;
  bundle_id : string;
  tape_id : string;
  drive_id : option string;
  object_count : Z;
  total_size : Z;
  bytes_written : Z;
  status : Z;
  retry_count : Z;
  created_at : option Timestamp.t;
  started_at : option Timestamp.t;
  completed_at : option Timestamp.t;
  error : option string;
}.
#[global] Instance t_eq_dec : EqDecision t.
Proof. solve_decision. Defined.
#[global] Program Instance t_countable : Countable t :=
  inj_countable'
  (λ r, (r.(id), r.(bundle_id), r.(tape_id), r.(drive_id), r.(object_count),
    r.(total_size), r.(bytes_written), r.(status), r.(retry_count), r.(created_at),
    r.(started_at), r.(completed_at), r.(error)))
  (λ '(x0, x1, x2, x3, x4, x5, x6, x7, x8, x9, x10, x11, x12), mk x0 x1 x2 x3 x4 x5 x6
    x7 x8 x9 x10 x11 x12) _.
Next Obligation. by intros []. Qed.
Definition set_bytes_written (v : Z) (r : t) : t :=
  mk r.(id) r.(bundle_id) r.(tape_id) r.(drive_id) r.(object_count) r.(total_size) v
    r.(status) r.(retry_count) r.(created_at) r.(started_at) r.(completed_at) r.(error).
Definition set_status (v : Z) (r : t) : t :=
  mk r.(id) r.(bundle_id) r.(tape_id) r.(drive_id) r.(object_count) r.(total_size)
    r.(bytes_written) v r.(retry_count) r.(created_at) r.(started_at) r.(completed_at)
    r.(error).
Definition set_retry_count (v : Z) (r : t) : t :=
  mk r.(id) r.(bundle_id) r.(tape_id) r.(drive_id) r.(object_count) r.(total_size)
    r.(bytes_written) r.(status) v r.(created_at) r.(started_at) r.(completed_at)
    r.(error).
Definition set_created_at (v : option Timestamp.t) (r : t) : t :=
  mk r.(id) r.(bundle_id) r.(tape_id) r.(drive_id) r.(object_count) r.(total_size)
    r.(bytes_written) r.(status) r.(retry_count) v r.(started_at) r.(completed_at)
    r.(error).
Definition set_started_at (v : option Timestamp.t) (r : t) : t :=
  mk r.(id) r.(bundle_id) r.(tape_id) r.(drive_id) r.(object_count) r.(total_size)
    r.(bytes_written) r.(status) r.(retry_count) r.(created_at) v r.(completed_at)
    r.(error).
Definition set_completed_at (v : option Timestamp.t) (r : t) : t :=
  mk r.(id) r.(bundle_id) r.(tape_id) r.(drive_id) r.(object_count) r.(total_size)
    r.(bytes_written) r.(status) r.(retry_count) r.(created_at) r.(started_at) v
    r.(error).
Definition set_error (v : option string) (r : t) : t :=
  mk r.(id) r.(bundle_id) r.(tape_id) r.(drive_id) r.(object_count) r.(total_size)
    r.(bytes_written) r.(status) r.(retry_count) r.(created_at) r.(started_at)
    r.(completed_at) v.
End ArchiveTask.

Module BucketInfo.
Record t := mk {
  name : string;
  created_at : option Timestamp.t;
  owner : option string;
  versioning_enabled : bool;
  object_count : Z;
  total_size : Z;
}.
#[global] Instance t_eq_dec : EqDecision t.
Proof. solve_decision. Defined.
#[global] Program Instance t_countable : Countable t :=
  inj_countable'
  (λ r, (r.(name), r.(created_at), r.(owner), r.(versioning_enabled), r.(object_count),
    r.(total_size)))
    (λ '(x0, x1, x2, x3, x4, x5), mk x0 x1 x2 x3 x4 x5) _.
Next Obligation. by intros []. Qed.
Definition set_created_at (v : option Timestamp.t) (r : t) : t :=
  mk r.(name) v r.(owner) r.(versioning_enabled) r.(object_count) r.(total_size).
Definition set_object_count (v : Z) (r : t) : t :=
  mk r.(name) r.(created_at) r.(owner) r.(versioning_enabled) v r.(total_size).
Definition set_total_size (v : Z) (r : t) : t :=
  mk r.(name) r.(created_at) r.(owner) r.(versioning_enabled) r.(object_count) v.
End BucketInfo.

Module SchedulerWorkerInfo.
Record t := mk {
  node_id : Z;
  addr : string;
  status : Z;
  last_heartbeat : option Timestamp.t;
  is_active : bool;
  pending_archive_tasks : Z;
  pending_recall_tasks : Z;
  active_jobs : Z;
  paired_cache_worker_id : Z;
}.
#[global] Instance t_eq_dec : EqDecision t.
Proof. solve_decision. Defined.
#[global] Program Instance t_countable : Countable t :=
  inj_countable'
  (λ r, (r.(node_id), r.(addr), r.(status), r.(last_heartbeat), r.(is_active),
    r.(pending_archive_tasks), r.(pending_recall_tasks), r.(active_jobs),
    r.(paired_cache_worker_id)))
    (λ '(x0, x1, x2, x3, x4, x5, x6, x7, x8), mk x0 x1 x2 x3 x4 x5 x6 x7 x8) _.
Next Obligation. by intros []. Qed.
Definition set_status (v : Z) (r : t) : t :=
  mk r.(node_id) r.(addr) v r.(last_heartbeat) r.(is_active) r.(pending_archive_tasks)
    r.(pending_recall_tasks) r.(active_jobs) r.(paired_cache_worker_id).
Definition set_last_heartbeat (v : option Timestamp.t) (r : t) : t :=
  mk r.(node_id) r.(addr) r.(status) v r.(is_active) r.(pending_archive_tasks)
    r.(pending_recall_tasks) r.(active_jobs) r.(paired_cache_worker_id).
Definition set_pending_archive_tasks (v : Z) (r : t) : t :=
  mk r.(node_id) r.(addr) r.(status) r.(last_heartbeat) r.(is_active) v
    r.(pending_recall_tasks) r.(active_jobs) r.(paired_cache_worker_id).
Definition set_pending_recall_tasks (v : Z) (r : t) : t :=
  mk r.(node_id) r.(addr) r.(status) r.(last_heartbeat) r.(is_active)
    r.(pending_archive_tasks) v r.(active_jobs) r.(paired_cache_worker_id).
Definition set_active_jobs (v : Z) (r : t) : t :=
  mk r.(node_id) r.(addr) r.(status) r.(last_heartbeat) r.(is_active)
    r.(pending_archive_tasks) r.(pending_recall_tasks) v r.(paired_cache_worker_id).
End SchedulerWorkerInfo.

Module CacheWorkerInfo.
Record t := mk {
  node_id : Z;
  addr : string;
  status : Z;
  last_heartbeat : option Timestamp.t;
  bdev_name : string;
  total_capacity : Z;
  used_capacity : Z;
  blob_count : Z;
  io_unit_size : Z;
}.
#[global] Instance t_eq_dec : EqDecision t.
Proof. solve_decision. Defined.
#[global] Program Instance t_countable : Countable t :=
  inj_countable'
  (λ r, (r.(node_id), r.(addr), r.(status), r.(last_heartbeat), r.(bdev_name),
    r.(total_capacity), r.(used_capacity), r.(blob_count), r.(io_unit_size)))
    (λ '(x0, x1, x2, x3, x4, x5, x6, x7, x8), mk x0 x1 x2 x3 x4 x5 x6 x7 x8) _.
Next Obligation. by intros []. Qed.
Definition set_status (v : Z) (r : t) : t :=
  mk r.(node_id) r.(addr) v r.(last_heartbeat) r.(bdev_name) r.(total_capacity)
    r.(used_capacity) r.(blob_count) r.(io_unit_size).
Definition set_last_heartbeat (v : option Timestamp.t) (r : t) : t :=
  mk r.(node_id) r.(addr) r.(status) v r.(bdev_name) r.(total_capacity) r.(used_capacity)
    r.(blob_count) r.(io_unit_size).
Definition set_used_capacity (v : Z) (r : t) : t :=
  mk r.(node_id) r.(addr) r.(status) r.(last_heartbeat) r.(bdev_name) r.(total_capacity) v
    r.(blob_count) r.(io_unit_size).
Definition set_blob_count (v : Z) (r : t) : t :=
  mk r.(node_id) r.(addr) r.(status) r.(last_heartbeat) r.(bdev_name) r.(total_capacity)
    r.(used_capacity) v r.(io_unit_size).
End CacheWorkerInfo.

Module DriveEndpoint.
Record t := mk {
  drive_id : string;
  device_path : string;
  drive_type : string;
  status : Z;
  current_tape : option string;
}.
#[global] Instance t_eq_dec : EqDecision t.
Proof. solve_decision. Defined.
#[global] Program Instance t_countable : Countable t :=
  inj_countable'
    (λ r, (r.(drive_id), r.(device_path), r.(drive_type), r.(status), r.(current_tape)))
    (λ '(x0, x1, x2, x3, x4), mk x0 x1 x2 x3 x4) _.
Next Obligation. by intros []. Qed.
End DriveEndpoint.

Module LibraryEndpoint.
Record t := mk {
  device_path : string;
  slot_count : Z;
  import_export_count : Z;
  drive_count : Z;
}.
#[global] Instance t_eq_dec : EqDecision t.
Proof. solve_decision. Defined.
#[global] Program Instance t_countable : Countable t :=
  inj_countable'
    (λ r, (r.(device_path), r.(slot_count), r.(import_export_count), r.(drive_count)))
    (λ '(x0, x1, x2, x3), mk x0 x1 x2 x3) _.
Next Obligation. by intros []. Qed.
End LibraryEndpoint.

Module TapeWorkerInfo.
Record t := mk {
  node_id : Z;
  addr : string;
  status : Z;
  last_heartbeat : option Timestamp.t;
  drives : list DriveEndpoint.t;
  library : option LibraryEndpoint.t;
}.
#[global] Instance t_eq_dec : EqDecision t.
Proof. solve_decision. Defined.
#[global] Program Instance t_countable : Countable t :=
  inj_countable'
    (λ r, (r.(node_id), r.(addr), r.(status), r.(last_heartbeat), r.(drives), r.(library)))
    (λ '(x0, x1, x2, x3, x4, x5), mk x0 x1 x2 x3 x4 x5) _.
Next Obligation. by intros []. Qed.
Definition set_status (v : Z) (r : t) : t :=
  mk r.(node_id) r.(addr) v r.(last_heartbeat) r.(drives) r.(library).
Definition set_last_heartbeat (v : option Timestamp.t) (r : t) : t :=
  mk r.(node_id) r.(addr) r.(status) v r.(drives) r.(library).
Definition set_drives (v : list DriveEndpoint.t) (r : t) : t :=
  mk r.(node_id) r.(addr) r.(status) r.(last_heartbeat) v r.(library).
End TapeWorkerInfo.

(** ** metadata.proto requests *)

Module DeleteObjectRequest.
Record t := mk {
  bucket : string;
  key : string;
}.
#[global] Instance t_eq_dec : EqDecision t.
Proof. solve_decision. Defined.
End DeleteObjectRequest.

Module UpdateStorageClassRequest.
Record t := mk {
  bucket : string;
  key : string;
  storage_class : Z;
}.
#[global] Instance t_eq_dec : EqDecision t.
Proof. solve_decision. Defined.
End UpdateStorageClassRequest.

Module UpdateArchiveLocationRequest.
Record t := mk {
  bucket : string;
  key : string;
  archive_id : string;
  tape_id : string;
  tape_set : list string;
  tape_block_offset : Z;
}.
#[global] Instance t_eq_dec : EqDecision t.
Proof. solve_decision. Defined.
End UpdateArchiveLocationRequest.

Module CompleteArchiveObjectRequest.
Record t := mk {
  bucket : string;
  key : string;
  version_id : option string;
  expected_size : option Z;
  expected_checksum : option string;
  expected_storage_class : option Z;
  expected_updated_at : option Timestamp.t;
  bundle : option ArchiveBundle.t;
  tape_block_offset : Z;
  storage_class : Z;
}.
#[global] Instance t_eq_dec : EqDecision t.
Proof. solve_decision. Defined.
End CompleteArchiveObjectRequest.

Module UpdateRestoreStatusRequest.
Record t := mk {
  bucket : string;
  key : string;
  status : Z;
  expire_at : option Timestamp.t;
}.
#[global] Instance t_eq_dec : EqDecision t.
Proof. solve_decision. Defined.
End UpdateRestoreStatusRequest.

Module DeleteBucketRequest.
Record t := mk {
  name : string;
}.
#[global] Instance t_eq_dec : EqDecision t.
Proof. solve_decision. Defined.
End DeleteBucketRequest.

Module UpdateArchiveBundleStatusRequest.
Record t := mk {
  id : string;
  status : Z;
}.
#[global] Instance t_eq_dec : EqDecision t.
Proof. solve_decision. Defined.
End UpdateArchiveBundleStatusRequest.

Module DeregisterWorkerRequest.
Record t := mk {
  node_id : Z;
}.
#[global] Instance t_eq_dec : EqDecision t.
Proof. solve_decision. Defined.
End DeregisterWorkerRequest.

Module UpdateWorkerStatusRequest.
Record t := mk {
  worker_type : Z;
  node_id : Z;
  status : Z;
}.
#[global] Instance t_eq_dec : EqDecision t.
Proof. solve_decision. Defined.
End UpdateWorkerStatusRequest.

Module SchedulerHeartbeat.
Record t := mk {
  pending_archive_tasks : Z;
  pending_recall_tasks : Z;
  active_jobs : Z;
}.
#[global] Instance t_eq_dec : EqDecision t.
Proof. solve_decision. Defined.
End SchedulerHeartbeat.

Module CacheHeartbeat.
Record t := mk {
  used_capacity : Z;
  blob_count : Z;
}.
#[global] Instance t_eq_dec : EqDecision t.
Proof. solve_decision. Defined.
End CacheHeartbeat.

Module TapeHeartbeat.
Record t := mk {
  drives : list DriveEndpoint.t;
}.
#[global] Instance t_eq_dec : EqDecision t.
Proof. solve_decision. Defined.
End TapeHeartbeat.

(** [heartbeat_request::Payload] *)
Inductive HeartbeatPayload :=
| HbScheduler (p : SchedulerHeartbeat.t)
| HbCache (p : CacheHeartbeat.t)
| HbTape (p : TapeHeartbeat.t).
#[export] Instance HeartbeatPayload_eq_dec : EqDecision HeartbeatPayload.
Proof. solve_decision. Defined.

Module HeartbeatRequest.
Record t := mk {
  worker_type : Z;
  node_id : Z;
  payload : option HeartbeatPayload;
}.
#[global] Instance t_eq_dec : EqDecision t.
Proof. solve_decision. Defined.
End HeartbeatRequest.
