(* ===== verification/Models.v ===== *)
(** * Common domain model

    [src/crates/common/src/models.rs]: the states of restores, bundles and
    tasks as the domain model names them, and its tables of allowed
    transitions. *)

From Stdlib Require Import ZArith String.
From S2P Require Import Prelude Proto.

Local Open Scope stdpp_scope.

Module Models.

Inductive StorageClass := ColdPending | Cold.

Inductive RestoreStatus :=
| RPending | RWaitingForMedia | RInProgress | RCompleted | RExpired | RFailed.

Inductive RestoreTier := Expedited | Standard | Bulk.

Inductive TapeStatus := TOnline | TOffline | TError | TRetired | TUnknown.

Inductive DriveStatus := DIdle | DInUse | DLoading | DUnloading | DError | DOffline.

Inductive NodeStatus := NOnline | NOffline | NDraining | NMaintenance.

Inductive WorkerType := WScheduler | WCache | WTape.

Inductive ArchiveBundleStatus := BPending | BWriting | BCompleted | BFailed.

Inductive ArchiveTaskStatus := APending | AInProgress | ACompleted | AFailed.

(** [RestoreStatus::can_transition_to] *)
Definition restore_can_transition_to (self target : RestoreStatus) : bool :=
  match self, target with
  | RPending, RInProgress
  | RPending, RWaitingForMedia
  | RPending, RFailed
  | RWaitingForMedia, RPending
  | RWaitingForMedia, RFailed
  | RInProgress, RCompleted
  | RInProgress, RFailed
  | RCompleted, RExpired => true
  | _, _ => false
  end.

(** [ArchiveBundleStatus::can_transition_to] *)
Definition bundle_can_transition_to (self target : ArchiveBundleStatus) : bool :=
  match self, target with
  | BPending, BWriting
  | BWriting, BCompleted
  | BWriting, BFailed
  | BFailed, BPending => true
  | _, _ => false
  end.

(** [ArchiveTaskStatus::can_transition_to] *)
Definition task_can_transition_to (self target : ArchiveTaskStatus) : bool :=
  match self, target with
  | APending, AInProgress
  | AInProgress, ACompleted
  | AInProgress, AFailed
  | AFailed, APending => true
  | _, _ => false
  end.

End Models.

(** The protobuf enumeration of a domain state. *)
Definition restore_to_proto (s : Models.RestoreStatus) : RestoreStatus.t :=
  match s with
  | Models.RPending => RestoreStatus.RestorePending
  | Models.RWaitingForMedia => RestoreStatus.RestoreWaitingForMedia
  | Models.RInProgress => RestoreStatus.RestoreInProgress
  | Models.RCompleted => RestoreStatus.RestoreCompleted
  | Models.RExpired => RestoreStatus.RestoreExpired
  | Models.RFailed => RestoreStatus.RestoreFailed
  end.
Definition bundle_to_proto (s : Models.ArchiveBundleStatus) : ArchiveBundleStatus.t :=
  match s with
  | Models.BPending => ArchiveBundleStatus.BundlePending
  | Models.BWriting => ArchiveBundleStatus.BundleWriting
  | Models.BCompleted => ArchiveBundleStatus.BundleCompleted
  | Models.BFailed => ArchiveBundleStatus.BundleFailed
  end.
Definition task_to_proto (s : Models.ArchiveTaskStatus) : ArchiveTaskStatus.t :=
  match s with
  | Models.APending => ArchiveTaskStatus.ArchiveTaskPending
  | Models.AInProgress => ArchiveTaskStatus.ArchiveTaskInProgress
  | Models.ACompleted => ArchiveTaskStatus.ArchiveTaskCompleted
  | Models.AFailed => ArchiveTaskStatus.ArchiveTaskFailed
  end.
