(* ===== verification/CommonError.v ===== *)
(** * The shared error type

    [src/crates/common/src/error.rs]: its messages, and the gRPC status an
    error becomes. An error of another crate is its text. *)

From Stdlib Require Import ZArith String.
From S2P Require Import Prelude Proto.

Local Open Scope string_scope.

Inductive Error :=
| ConfigError (e : string)
| IoError (e : string)
| SerializationError (e : string)
| GrpcError (e : string)
| TransportError (e : string)
| S3Protocol (error_code error_message : string)
| ObjectNotFound (bucket key : string)
| BucketNotFound (bucket : string)
| InvalidObjectState (e : string)
| TapeOffline (tape : string)
| DriveUnavailable (drive : string)
| CacheMiss (bucket key : string)
| InsufficientCapacity (e : string)
| InvalidStateTransition (from to : string)
| InternalError (e : string).

Section error.
(** The [Debug] text of a string, which one message prints *)
Context (debug : string → string).

(** The [#[error(..)]] messages *)
Definition error_to_string (err : Error) : string :=
  match err with
  | ConfigError e => "配置错误: " +:+ e
  | IoError e => "IO 错误: " +:+ e
  | SerializationError e => "序列化错误: " +:+ e
  | GrpcError e => "gRPC 错误: " +:+ e
  | TransportError e => "gRPC 传输错误: " +:+ e
  | S3Protocol c m => "S3 协议错误: " +:+ c +:+ ": " +:+ m
  | ObjectNotFound bucket key => "对象不存在: " +:+ bucket +:+ "/" +:+ key
  | BucketNotFound bucket => "桶不存在: " +:+ bucket
  | InvalidObjectState e => "对象状态无效: " +:+ e
  | TapeOffline tape => "磁带离线: " +:+ tape
  | DriveUnavailable drive => "驱动不可用: " +:+ drive
  | CacheMiss bucket key => "缓存未命中: " +:+ bucket +:+ "/" +:+ key
  | InsufficientCapacity e => "容量不足: " +:+ e
  | InvalidStateTransition from to => "状态流转无效: " +:+ debug from +:+ " -> " +:+ debug to
  | InternalError e => "内部错误: " +:+ e
  end.

(** [impl From<Error> for tonic::Status] *)
Definition status_of_error (err : Error) : Status :=
  let msg := error_to_string err in
  match err with
  | ObjectNotFound _ _ | BucketNotFound _ => not_found msg
  | InvalidObjectState _ => failed_precondition msg
  | TapeOffline _ | DriveUnavailable _ => unavailable msg
  | CacheMiss _ _ => not_found msg
  | InsufficientCapacity _ => resource_exhausted msg
  | InvalidStateTransition _ _ => failed_precondition msg
  | _ => internal msg
  end.
End error.
