(* ===== verification/StateMachine.v ===== *)
(** * The metadata state machine

    [src/crates/metadata/src/state_machine.rs] and [command.rs]: the tables
    of the metadata node, the commands of its log, and [apply_command], which
    every write of the cluster goes through. The clock and the iteration
    order of the hash maps are the environment of a command; every branch is
    one definition, composed by [apply_command] the way the source's [match]
    composes them. *)

From Stdlib Require Import ZArith String.
From S2P Require Import Prelude Proto.

Local Open Scope string_scope.
Local Open Scope stdpp_scope.

(** ** State *)

Module ObjectKey.
Record t := new {
  bucket : string;
  key : string;
  version_id : option string;
}.
#[global] Instance t_eq_dec : EqDecision t.
Proof. solve_decision. Defined.
#[global] Program Instance t_countable : Countable t :=
  inj_countable' (λ k, (k.(bucket), k.(key), k.(version_id)))
                 (λ '(b, k, v), new b k v) _.
Next Obligation. by intros []. Qed.
End ObjectKey.

Record MetadataState := mkState {
  objects : gmap ObjectKey.t ObjectMetadata.t;
  buckets : gmap string BucketInfo.t;
  archive_bundles : gmap string ArchiveBundle.t;
  archive_tasks : gmap string ArchiveTask.t;
  recall_tasks : gmap string RecallTask.t;
  tapes : gmap string TapeInfo.t;
  scheduler_workers : gmap Z SchedulerWorkerInfo.t;
  cache_workers : gmap Z CacheWorkerInfo.t;
  tape_workers : gmap Z TapeWorkerInfo.t;
}.
#[export] Instance MetadataState_eq_dec : EqDecision MetadataState.
Proof. solve_decision. Defined.

(** [MetadataState::default()] *)
Definition default_state : MetadataState := mkState ∅ ∅ ∅ ∅ ∅ ∅ ∅ ∅ ∅.

Definition set_objects v st := mkState v (buckets st) (archive_bundles st)
  (archive_tasks st) (recall_tasks st) (tapes st) (scheduler_workers st)
  (cache_workers st) (tape_workers st).
Definition set_buckets v st := mkState (objects st) v (archive_bundles st)
  (archive_tasks st) (recall_tasks st) (tapes st) (scheduler_workers st)
  (cache_workers st) (tape_workers st).
Definition set_archive_bundles v st := mkState (objects st) (buckets st) v
  (archive_tasks st) (recall_tasks st) (tapes st) (scheduler_workers st)
  (cache_workers st) (tape_workers st).
Definition set_archive_tasks v st := mkState (objects st) (buckets st)
  (archive_bundles st) v (recall_tasks st) (tapes st) (scheduler_workers st)
  (cache_workers st) (tape_workers st).
Definition set_recall_tasks v st := mkState (objects st) (buckets st)
  (archive_bundles st) (archive_tasks st) v (tapes st) (scheduler_workers st)
  (cache_workers st) (tape_workers st).
Definition set_tapes v st := mkState (objects st) (buckets st)
  (archive_bundles st) (archive_tasks st) (recall_tasks st) v
  (scheduler_workers st) (cache_workers st) (tape_workers st).
Definition set_scheduler_workers v st := mkState (objects st) (buckets st)
  (archive_bundles st) (archive_tasks st) (recall_tasks st) (tapes st) v
  (cache_workers st) (tape_workers st).
Definition set_cache_workers v st := mkState (objects st) (buckets st)
  (archive_bundles st) (archive_tasks st) (recall_tasks st) (tapes st)
  (scheduler_workers st) v (tape_workers st).
Definition set_tape_workers v st := mkState (objects st) (buckets st)
  (archive_bundles st) (archive_tasks st) (recall_tasks st) (tapes st)
  (scheduler_workers st) (cache_workers st) v.

(** [MetadataState::is_empty] *)
Definition is_empty (st : MetadataState) : bool :=
  (objects st == ∅) && (buckets st == ∅) && (archive_bundles st == ∅)
  && (archive_tasks st == ∅) && (recall_tasks st == ∅) && (tapes st == ∅)
  && (scheduler_workers st == ∅) && (cache_workers st == ∅)
  && (tape_workers st == ∅).

Definition bucket_count (st : MetadataState) : nat := size (buckets st).
Definition object_count (st : MetadataState) : nat := size (objects st).

(** ** Commands ([command.rs]) *)

Inductive MetadataCommand :=
| PutObject (object : ObjectMetadata.t)
| DeleteObject (request : DeleteObjectRequest.t)
| UpdateStorageClass (request : UpdateStorageClassRequest.t)
| UpdateArchiveLocation (request : UpdateArchiveLocationRequest.t)
| CompleteArchiveObject (request : CompleteArchiveObjectRequest.t)
| UpdateRestoreStatus (request : UpdateRestoreStatusRequest.t)
| CreateBucket (bucket : BucketInfo.t)
| DeleteBucket (request : DeleteBucketRequest.t)
| PutArchiveBundle (bundle : ArchiveBundle.t)
| UpdateArchiveBundleStatus (request : UpdateArchiveBundleStatusRequest.t)
| PutArchiveTask (task : ArchiveTask.t)
| UpdateArchiveTask (task : ArchiveTask.t)
| PutRecallTask (task : RecallTask.t)
| UpdateRecallTask (task : RecallTask.t)
| PutTape (tape : TapeInfo.t)
| UpdateTape (tape : TapeInfo.t)
| RegisterSchedulerWorker (worker : SchedulerWorkerInfo.t)
| DeregisterSchedulerWorker (request : DeregisterWorkerRequest.t)
| RegisterCacheWorker (worker : CacheWorkerInfo.t)
| DeregisterCacheWorker (request : DeregisterWorkerRequest.t)
| RegisterTapeWorker (worker : TapeWorkerInfo.t)
| DeregisterTapeWorker (request : DeregisterWorkerRequest.t)
| UpdateWorkerStatus (request : UpdateWorkerStatusRequest.t)
| Heartbeat (request : HeartbeatRequest.t).

(** ** Environment of one command *)

Record Env := mkEnv {
  now : Z;                   (** [SystemTime::now()] in seconds *)
  order : hash_order;        (** iteration order of the hash maps *)
}.

Definition now_timestamp (e : Env) : Timestamp.t := Timestamp.mk (now e) 0.

(** ** Helpers *)

(** [timestamp_sort_key] *)
Definition timestamp_sort_key (ts : option Timestamp.t) : Z * Z :=
  match ts with
  | Some ts => (ts.(Timestamp.seconds), ts.(Timestamp.nanos))
  | None => (0, 0)%Z
  end.

(** [(i64, i32): Ord] *)
Definition ts_cmp : Z * Z → Z * Z → comparison :=
  cmp_then (cmp_on fst Z.compare) (cmp_on snd Z.compare).

Definition object_key (o : ObjectMetadata.t) : ObjectKey.t :=
  ObjectKey.new o.(ObjectMetadata.bucket) o.(ObjectMetadata.key)
    o.(ObjectMetadata.version_id).

(** [refresh_bucket_stats] *)
Definition refresh_bucket_stats (e : Env) (bucket_name : string)
    (st : MetadataState) : MetadataState :=
  match buckets st !! bucket_name with
  | Some bucket =>
      let '(object_count, total_size) :=
        foldl (λ '(object_count, total_size) (object : ObjectMetadata.t),
            (wrap64 (object_count + 1),
             wrap64 (total_size + object.(ObjectMetadata.size))))
          (0, 0)%Z
          (List.filter (λ object, object.(ObjectMetadata.bucket) == bucket_name)
             (hm_values (order e) (objects st))) in
      set_buckets
        (<[bucket_name := BucketInfo.set_total_size total_size
             (BucketInfo.set_object_count object_count bucket)]> (buckets st)) st
  | None => st
  end.

(** [find_object] *)
Definition find_object (e : Env) (st : MetadataState) (bucket key : string)
    (version_id : option string) : result Status ObjectMetadata.t :=
  match version_id with
  | Some version_id =>
      ok_or (not_found "object version not found")
        (objects st !! ObjectKey.new bucket key (Some version_id))
  | None =>
      ok_or (not_found "object not found")
        (snd <$> max_by
          (cmp_on (λ kv : ObjectKey.t * ObjectMetadata.t,
             timestamp_sort_key kv.2.(ObjectMetadata.updated_at)) ts_cmp)
          (List.filter (λ kv, (kv.1.(ObjectKey.bucket) == bucket)
                              && (kv.1.(ObjectKey.key) == key))
             (hm_iter (order e) (objects st))))
  end.

(** [find_object_mut]: the key of the entry behind the returned [&mut], and
    the object it currently holds. *)
Definition find_object_mut (e : Env) (st : MetadataState) (bucket key : string)
    (version_id : option string) : result Status (ObjectKey.t * ObjectMetadata.t) :=
  match version_id with
  | Some version_id =>
      let k := ObjectKey.new bucket key (Some version_id) in
      ok_or (not_found "object version not found") (pair k <$> objects st !! k)
  | None =>
      let updated k := default (0, 0)%Z
        ((λ o, timestamp_sort_key o.(ObjectMetadata.updated_at)) <$> objects st !! k) in
      selected ← ok_or (not_found "object not found")
        (max_by (cmp_on updated ts_cmp)
           (List.filter (λ k, (k.(ObjectKey.bucket) == bucket)
                              && (k.(ObjectKey.key) == key))
              (hm_keys (order e) (objects st))));
      ok_or (not_found "object not found") (pair selected <$> objects st !! selected)
  end.

#[global] Arguments find_object : simpl never.
#[global] Arguments find_object_mut : simpl never.
#[global] Arguments refresh_bucket_stats : simpl never.

(** Writes through the [&mut ObjectMetadata] of [find_object_mut]. *)
Definition write_object (k : ObjectKey.t) (o : ObjectMetadata.t)
    : action MetadataState Status unit :=
  modify (λ st, set_objects (<[k := o]> (objects st)) st).

(** ** Validation *)

(** [validate_complete_archive_preconditions] *)
Definition validate_complete_archive_preconditions (object : ObjectMetadata.t)
    (request : CompleteArchiveObjectRequest.t) : result Status unit :=
  if object.(ObjectMetadata.version_id) != request.(CompleteArchiveObjectRequest.version_id)
  then Err (failed_precondition "object version changed before archive completion") else
  expected_size ← ok_or
    (failed_precondition "archive completion requires expected_size precondition")
    request.(CompleteArchiveObjectRequest.expected_size);
  if object.(ObjectMetadata.size) != expected_size
  then Err (failed_precondition "object size changed before archive completion") else
  expected_checksum ← ok_or
    (failed_precondition "archive completion requires expected_checksum precondition")
    request.(CompleteArchiveObjectRequest.expected_checksum);
  if object.(ObjectMetadata.checksum) != expected_checksum
  then Err (failed_precondition "object checksum changed before archive completion") else
  expected_storage_class ← ok_or
    (failed_precondition "archive completion requires expected_storage_class precondition")
    request.(CompleteArchiveObjectRequest.expected_storage_class);
  if object.(ObjectMetadata.storage_class) != expected_storage_class
  then Err (failed_precondition "object storage class changed before archive completion") else
  if request.(CompleteArchiveObjectRequest.expected_updated_at) == None
  then Err (failed_precondition
    "archive completion requires expected_updated_at precondition") else
  if object.(ObjectMetadata.updated_at)
     != request.(CompleteArchiveObjectRequest.expected_updated_at)
  then Err (failed_precondition "object generation changed before archive completion") else
  Ok tt.

(** [validate_restore_transition] *)
Definition validate_restore_transition (current : option Z) (next : Z)
    : result Status unit :=
  let current := current ≫= RestoreStatus.try_from in
  next ← ok_or (invalid_argument "invalid restore status") (RestoreStatus.try_from next);
  let valid :=
    match current with
    | None => true
    | Some RestoreStatus.RestorePending =>
        match next with
        | RestoreStatus.RestoreInProgress
        | RestoreStatus.RestoreWaitingForMedia
        | RestoreStatus.RestoreFailed => true
        | _ => false
        end
    | Some RestoreStatus.RestoreWaitingForMedia =>
        match next with
        | RestoreStatus.RestoreInProgress
        | RestoreStatus.RestorePending
        | RestoreStatus.RestoreFailed => true
        | _ => false
        end
    | Some RestoreStatus.RestoreInProgress =>
        match next with
        | RestoreStatus.RestoreCompleted | RestoreStatus.RestoreFailed => true
        | _ => false
        end
    | Some RestoreStatus.RestoreCompleted =>
        match next with RestoreStatus.RestoreExpired => true | _ => false end
    | Some (RestoreStatus.RestoreExpired | RestoreStatus.RestoreFailed) => false
    | Some RestoreStatus.Unspecified => true
    end in
  if valid then Ok tt
  else Err (failed_precondition "invalid restore state transition").

(** [validate_archive_bundle_transition] *)
Definition validate_archive_bundle_transition (current next : Z) : result Status unit :=
  current ← ok_or (invalid_argument "invalid archive bundle status")
    (ArchiveBundleStatus.try_from current);
  next ← ok_or (invalid_argument "invalid archive bundle status")
    (ArchiveBundleStatus.try_from next);
  let valid :=
    match current with
    | ArchiveBundleStatus.BundlePending =>
        match next with ArchiveBundleStatus.BundleWriting => true | _ => false end
    | ArchiveBundleStatus.BundleWriting =>
        match next with
        | ArchiveBundleStatus.BundleCompleted | ArchiveBundleStatus.BundleFailed => true
        | _ => false
        end
    | ArchiveBundleStatus.BundleFailed =>
        match next with ArchiveBundleStatus.BundlePending => true | _ => false end
    | ArchiveBundleStatus.BundleCompleted => false
    | ArchiveBundleStatus.Unspecified => true
    end in
  if valid then Ok tt
  else Err (failed_precondition "invalid archive bundle state transition").

(** [validate_archive_task_transition] *)
Definition validate_archive_task_transition (current next : Z) : result Status unit :=
  current ← ok_or (invalid_argument "invalid archive task status")
    (ArchiveTaskStatus.try_from current);
  next ← ok_or (invalid_argument "invalid archive task status")
    (ArchiveTaskStatus.try_from next);
  let valid :=
    match current with
    | ArchiveTaskStatus.ArchiveTaskPending =>
        match next with ArchiveTaskStatus.ArchiveTaskInProgress => true | _ => false end
    | ArchiveTaskStatus.ArchiveTaskInProgress =>
        match next with
        | ArchiveTaskStatus.ArchiveTaskCompleted
        | ArchiveTaskStatus.ArchiveTaskFailed => true
        | _ => false
        end
    | ArchiveTaskStatus.ArchiveTaskFailed =>
        match next with ArchiveTaskStatus.ArchiveTaskPending => true | _ => false end
    | ArchiveTaskStatus.ArchiveTaskCompleted => false
    | ArchiveTaskStatus.Unspecified => true
    end in
  if valid then Ok tt
  else Err (failed_precondition "invalid archive task state transition").

(** [is_pending_restore_status] *)
Definition is_pending_restore_status (status : Z) : bool :=
  match RestoreStatus.try_from status with
  | Some RestoreStatus.RestorePending
  | Some RestoreStatus.RestoreWaitingForMedia => true
  | _ => false
  end.

(** [is_active_restore_status] *)
Definition is_active_restore_status (status : Z) : bool :=
  match RestoreStatus.try_from status with
  | Some RestoreStatus.RestorePending
  | Some RestoreStatus.RestoreWaitingForMedia
  | Some RestoreStatus.RestoreInProgress
  | Some RestoreStatus.RestoreCompleted => true
  | _ => false
  end.

(** [is_same_archive_task]: every field but the time stamps *)
Definition is_same_archive_task (existing incoming : ArchiveTask.t) : bool :=
  (existing.(ArchiveTask.id) == incoming.(ArchiveTask.id))
  && (existing.(ArchiveTask.bundle_id) == incoming.(ArchiveTask.bundle_id))
  && (existing.(ArchiveTask.tape_id) == incoming.(ArchiveTask.tape_id))
  && (existing.(ArchiveTask.drive_id) == incoming.(ArchiveTask.drive_id))
  && (existing.(ArchiveTask.object_count) == incoming.(ArchiveTask.object_count))
  && (existing.(ArchiveTask.total_size) == incoming.(ArchiveTask.total_size))
  && (existing.(ArchiveTask.bytes_written) == incoming.(ArchiveTask.bytes_written))
  && (existing.(ArchiveTask.status) == incoming.(ArchiveTask.status))
  && (existing.(ArchiveTask.retry_count) == incoming.(ArchiveTask.retry_count))
  && (existing.(ArchiveTask.error) == incoming.(ArchiveTask.error)).

(** [is_same_recall_task] *)
Definition is_same_recall_task (existing incoming : RecallTask.t) : bool :=
  (existing.(RecallTask.id) == incoming.(RecallTask.id))
  && (existing.(RecallTask.bucket) == incoming.(RecallTask.bucket))
  && (existing.(RecallTask.key) == incoming.(RecallTask.key))
  && (existing.(RecallTask.version_id) == incoming.(RecallTask.version_id))
  && (existing.(RecallTask.archive_id) == incoming.(RecallTask.archive_id))
  && (existing.(RecallTask.tape_id) == incoming.(RecallTask.tape_id))
  && (existing.(RecallTask.tape_set) == incoming.(RecallTask.tape_set))
  && (existing.(RecallTask.tape_block_offset) == incoming.(RecallTask.tape_block_offset))
  && (existing.(RecallTask.object_size) == incoming.(RecallTask.object_size))
  && (existing.(RecallTask.checksum) == incoming.(RecallTask.checksum))
  && (existing.(RecallTask.tier) == incoming.(RecallTask.tier))
  && (existing.(RecallTask.days) == incoming.(RecallTask.days))
  && (existing.(RecallTask.status) == incoming.(RecallTask.status))
  && (existing.(RecallTask.drive_id) == incoming.(RecallTask.drive_id))
  && (existing.(RecallTask.retry_count) == incoming.(RecallTask.retry_count)).

(** ** The branches of [apply_command] *)

Definition apply_PutObject (e : Env) (object : ObjectMetadata.t)
    : action MetadataState Status unit :=
  st ← get_state;
  reject_if (negb (contains_key (buckets st) object.(ObjectMetadata.bucket)))
    (not_found ("bucket not found: " +:+ object.(ObjectMetadata.bucket)));;
  let now := now_timestamp e in
  let object :=
    if object.(ObjectMetadata.created_at) == None
    then ObjectMetadata.set_created_at (Some now) object else object in
  let object := ObjectMetadata.set_updated_at (Some now) object in
  write_object (object_key object) object;;
  modify (refresh_bucket_stats e object.(ObjectMetadata.bucket)).

Definition apply_DeleteObject (e : Env) (request : DeleteObjectRequest.t)
    : action MetadataState Status unit :=
  st ← get_state;
  let k := ObjectKey.new request.(DeleteObjectRequest.bucket)
             request.(DeleteObjectRequest.key) None in
  let removed := objects st !! k in
  put_state (set_objects (delete k (objects st)) st);;
  reject_if (removed == None) (not_found "object not found");;
  modify (refresh_bucket_stats e request.(DeleteObjectRequest.bucket)).

Definition apply_UpdateStorageClass (e : Env) (request : UpdateStorageClassRequest.t)
    : action MetadataState Status unit :=
  '(k, object) ← reads (λ st, find_object_mut e st
      request.(UpdateStorageClassRequest.bucket)
      request.(UpdateStorageClassRequest.key) None);
  let object := ObjectMetadata.set_storage_class
    request.(UpdateStorageClassRequest.storage_class) object in
  write_object k (ObjectMetadata.set_updated_at (Some (now_timestamp e)) object).

Definition apply_UpdateArchiveLocation (e : Env)
    (request : UpdateArchiveLocationRequest.t) : action MetadataState Status unit :=
  '(k, object) ← reads (λ st, find_object_mut e st
      request.(UpdateArchiveLocationRequest.bucket)
      request.(UpdateArchiveLocationRequest.key) None);
  let object := ObjectMetadata.set_archive_id
    (Some request.(UpdateArchiveLocationRequest.archive_id)) object in
  let object := ObjectMetadata.set_tape_id
    (Some request.(UpdateArchiveLocationRequest.tape_id)) object in
  let object := ObjectMetadata.set_tape_set
    request.(UpdateArchiveLocationRequest.tape_set) object in
  let object := ObjectMetadata.set_tape_block_offset
    (Some request.(UpdateArchiveLocationRequest.tape_block_offset)) object in
  write_object k (ObjectMetadata.set_updated_at (Some (now_timestamp e)) object).

Definition apply_CompleteArchiveObject (e : Env)
    (request : CompleteArchiveObjectRequest.t) : action MetadataState Status unit :=
  bundle ← lift (ok_or (invalid_argument "missing archive bundle")
    request.(CompleteArchiveObjectRequest.bundle));
  reject_if (bundle.(ArchiveBundle.id) == "")
    (invalid_argument "archive bundle id is empty");;
  object ← reads (λ st, find_object e st
      request.(CompleteArchiveObjectRequest.bucket)
      request.(CompleteArchiveObjectRequest.key)
      request.(CompleteArchiveObjectRequest.version_id));
  lift (validate_complete_archive_preconditions object request);;
  st ← get_state;
  match archive_bundles st !! bundle.(ArchiveBundle.id) with
  | Some existing =>
      reject_if (existing != bundle)
        (already_exists "archive bundle already exists with different payload")
  | None =>
      modify (λ st, set_archive_bundles
        (<[bundle.(ArchiveBundle.id) := bundle]> (archive_bundles st)) st)
  end;;
  '(k, object) ← reads (λ st, find_object_mut e st
      request.(CompleteArchiveObjectRequest.bucket)
      request.(CompleteArchiveObjectRequest.key)
      request.(CompleteArchiveObjectRequest.version_id));
  let object := ObjectMetadata.set_archive_id (Some bundle.(ArchiveBundle.id)) object in
  let object := ObjectMetadata.set_tape_id (Some bundle.(ArchiveBundle.tape_id)) object in
  let object := ObjectMetadata.set_tape_set bundle.(ArchiveBundle.tape_set) object in
  let object := ObjectMetadata.set_tape_block_offset
    (Some request.(CompleteArchiveObjectRequest.tape_block_offset)) object in
  let object := ObjectMetadata.set_storage_class
    request.(CompleteArchiveObjectRequest.storage_class) object in
  write_object k (ObjectMetadata.set_updated_at (Some (now_timestamp e)) object).

Definition apply_UpdateRestoreStatus (e : Env)
    (request : UpdateRestoreStatusRequest.t) : action MetadataState Status unit :=
  '(k, object) ← reads (λ st, find_object_mut e st
      request.(UpdateRestoreStatusRequest.bucket)
      request.(UpdateRestoreStatusRequest.key) None);
  lift (validate_restore_transition object.(ObjectMetadata.restore_status)
          request.(UpdateRestoreStatusRequest.status));;
  let object := ObjectMetadata.set_restore_status
    (Some request.(UpdateRestoreStatusRequest.status)) object in
  let object := ObjectMetadata.set_restore_expire_at
    request.(UpdateRestoreStatusRequest.expire_at) object in
  write_object k (ObjectMetadata.set_updated_at (Some (now_timestamp e)) object).

Definition apply_CreateBucket (e : Env) (bucket : BucketInfo.t)
    : action MetadataState Status unit :=
  st ← get_state;
  reject_if (contains_key (buckets st) bucket.(BucketInfo.name))
    (already_exists ("bucket already exists: " +:+ bucket.(BucketInfo.name)));;
  let bucket :=
    if bucket.(BucketInfo.created_at) == None
    then BucketInfo.set_created_at (Some (now_timestamp e)) bucket else bucket in
  modify (λ st, set_buckets (<[bucket.(BucketInfo.name) := bucket]> (buckets st)) st).

Definition apply_DeleteBucket (e : Env) (request : DeleteBucketRequest.t)
    : action MetadataState Status unit :=
  st ← get_state;
  let has_objects := existsb
    (λ object, object.(ObjectMetadata.bucket) == request.(DeleteBucketRequest.name))
    (hm_values (order e) (objects st)) in
  reject_if has_objects (failed_precondition "bucket is not empty");;
  let removed := buckets st !! request.(DeleteBucketRequest.name) in
  put_state (set_buckets (delete request.(DeleteBucketRequest.name) (buckets st)) st);;
  reject_if (removed == None)
    (not_found ("bucket not found: " +:+ request.(DeleteBucketRequest.name))).

Definition apply_PutArchiveBundle (e : Env) (bundle : ArchiveBundle.t)
    : action MetadataState Status unit :=
  let bundle :=
    if bundle.(ArchiveBundle.created_at) == None
    then ArchiveBundle.set_created_at (Some (now_timestamp e)) bundle else bundle in
  modify (λ st, set_archive_bundles
    (<[bundle.(ArchiveBundle.id) := bundle]> (archive_bundles st)) st).

Definition apply_UpdateArchiveBundleStatus (e : Env)
    (request : UpdateArchiveBundleStatusRequest.t) : action MetadataState Status unit :=
  st ← get_state;
  let id := request.(UpdateArchiveBundleStatusRequest.id) in
  let status := request.(UpdateArchiveBundleStatusRequest.status) in
  bundle ← lift (ok_or (not_found "archive bundle not found") (archive_bundles st !! id));
  lift (validate_archive_bundle_transition bundle.(ArchiveBundle.status) status);;
  let bundle := ArchiveBundle.set_status status bundle in
  let bundle :=
    if status == ArchiveBundleStatus.as_i32 ArchiveBundleStatus.BundleCompleted
    then ArchiveBundle.set_completed_at (Some (now_timestamp e)) bundle else bundle in
  modify (λ st, set_archive_bundles (<[id := bundle]> (archive_bundles st)) st).

Definition apply_PutArchiveTask (e : Env) (task : ArchiveTask.t)
    : action MetadataState Status unit :=
  let task :=
    if task.(ArchiveTask.created_at) == None
    then ArchiveTask.set_created_at (Some (now_timestamp e)) task else task in
  st ← get_state;
  match archive_tasks st !! task.(ArchiveTask.id) with
  | Some existing =>
      if is_same_archive_task existing task then mret tt
      else throw (already_exists "archive task already exists with different payload")
  | None =>
      modify (λ st, set_archive_tasks
        (<[task.(ArchiveTask.id) := task]> (archive_tasks st)) st)
  end.

Definition apply_UpdateArchiveTask (e : Env) (task : ArchiveTask.t)
    : action MetadataState Status unit :=
  st ← get_state;
  current ← lift (ok_or (not_found "archive task not found")
    (archive_tasks st !! task.(ArchiveTask.id)));
  lift (validate_archive_task_transition current.(ArchiveTask.status)
          task.(ArchiveTask.status));;
  modify (λ st, set_archive_tasks
    (<[task.(ArchiveTask.id) := task]> (archive_tasks st)) st).

Definition apply_PutRecallTask (e : Env) (task : RecallTask.t)
    : action MetadataState Status unit :=
  let task :=
    if task.(RecallTask.created_at) == None
    then RecallTask.set_created_at (Some (now_timestamp e)) task else task in
  st ← get_state;
  match recall_tasks st !! task.(RecallTask.id) with
  | Some existing =>
      if is_same_recall_task existing task then mret tt
      else throw (already_exists "recall task already exists with different payload")
  | None =>
      modify (λ st, set_recall_tasks
        (<[task.(RecallTask.id) := task]> (recall_tasks st)) st)
  end.

Definition apply_UpdateRecallTask (e : Env) (task : RecallTask.t)
    : action MetadataState Status unit :=
  st ← get_state;
  current ← lift (ok_or (not_found "recall task not found")
    (recall_tasks st !! task.(RecallTask.id)));
  lift (validate_restore_transition (Some current.(RecallTask.status))
          task.(RecallTask.status));;
  modify (λ st, set_recall_tasks
    (<[task.(RecallTask.id) := task]> (recall_tasks st)) st).

Definition apply_PutTape (e : Env) (tape : TapeInfo.t)
    : action MetadataState Status unit :=
  let tape :=
    if tape.(TapeInfo.registered_at) == None
    then TapeInfo.set_registered_at (Some (now_timestamp e)) tape else tape in
  modify (λ st, set_tapes (<[tape.(TapeInfo.id) := tape]> (tapes st)) st).

Definition apply_UpdateTape (e : Env) (tape : TapeInfo.t)
    : action MetadataState Status unit :=
  modify (λ st, set_tapes (<[tape.(TapeInfo.id) := tape]> (tapes st)) st).

Definition apply_RegisterSchedulerWorker (e : Env) (worker : SchedulerWorkerInfo.t)
    : action MetadataState Status unit :=
  let worker := SchedulerWorkerInfo.set_last_heartbeat (Some (now_timestamp e)) worker in
  modify (λ st, set_scheduler_workers
    (<[worker.(SchedulerWorkerInfo.node_id) := worker]> (scheduler_workers st)) st).

Definition apply_DeregisterSchedulerWorker (request : DeregisterWorkerRequest.t)
    : action MetadataState Status unit :=
  modify (λ st, set_scheduler_workers
    (delete request.(DeregisterWorkerRequest.node_id) (scheduler_workers st)) st).

Definition apply_RegisterCacheWorker (e : Env) (worker : CacheWorkerInfo.t)
    : action MetadataState Status unit :=
  let worker := CacheWorkerInfo.set_last_heartbeat (Some (now_timestamp e)) worker in
  modify (λ st, set_cache_workers
    (<[worker.(CacheWorkerInfo.node_id) := worker]> (cache_workers st)) st).

Definition apply_DeregisterCacheWorker (request : DeregisterWorkerRequest.t)
    : action MetadataState Status unit :=
  modify (λ st, set_cache_workers
    (delete request.(DeregisterWorkerRequest.node_id) (cache_workers st)) st).

Definition apply_RegisterTapeWorker (e : Env) (worker : TapeWorkerInfo.t)
    : action MetadataState Status unit :=
  let worker := TapeWorkerInfo.set_last_heartbeat (Some (now_timestamp e)) worker in
  modify (λ st, set_tape_workers
    (<[worker.(TapeWorkerInfo.node_id) := worker]> (tape_workers st)) st).

Definition apply_DeregisterTapeWorker (request : DeregisterWorkerRequest.t)
    : action MetadataState Status unit :=
  modify (λ st, set_tape_workers
    (delete request.(DeregisterWorkerRequest.node_id) (tape_workers st)) st).

Definition apply_UpdateWorkerStatus (request : UpdateWorkerStatusRequest.t)
    : action MetadataState Status unit :=
  let node_id := request.(UpdateWorkerStatusRequest.node_id) in
  let status := request.(UpdateWorkerStatusRequest.status) in
  st ← get_state;
  match WorkerType.try_from request.(UpdateWorkerStatusRequest.worker_type) with
  | Some WorkerType.WorkerScheduler =>
      worker ← lift (ok_or (not_found "worker not found") (scheduler_workers st !! node_id));
      put_state (set_scheduler_workers
        (<[node_id := SchedulerWorkerInfo.set_status status worker]>
           (scheduler_workers st)) st)
  | Some WorkerType.WorkerCache =>
      worker ← lift (ok_or (not_found "worker not found") (cache_workers st !! node_id));
      put_state (set_cache_workers
        (<[node_id := CacheWorkerInfo.set_status status worker]> (cache_workers st)) st)
  | Some WorkerType.WorkerTape =>
      worker ← lift (ok_or (not_found "worker not found") (tape_workers st !! node_id));
      put_state (set_tape_workers
        (<[node_id := TapeWorkerInfo.set_status status worker]> (tape_workers st)) st)
  | _ => throw (not_found "worker not found")
  end.

Definition heartbeat_scheduler (now : option Timestamp.t) (payload : option HeartbeatPayload)
    (worker : SchedulerWorkerInfo.t) : SchedulerWorkerInfo.t :=
  let worker := SchedulerWorkerInfo.set_last_heartbeat now worker in
  match payload with
  | Some (HbScheduler p) =>
      SchedulerWorkerInfo.set_active_jobs p.(SchedulerHeartbeat.active_jobs)
        (SchedulerWorkerInfo.set_pending_recall_tasks
           p.(SchedulerHeartbeat.pending_recall_tasks)
           (SchedulerWorkerInfo.set_pending_archive_tasks
              p.(SchedulerHeartbeat.pending_archive_tasks) worker))
  | _ => worker
  end.

Definition heartbeat_cache (now : option Timestamp.t) (payload : option HeartbeatPayload)
    (worker : CacheWorkerInfo.t) : CacheWorkerInfo.t :=
  let worker := CacheWorkerInfo.set_last_heartbeat now worker in
  match payload with
  | Some (HbCache p) =>
      CacheWorkerInfo.set_blob_count p.(CacheHeartbeat.blob_count)
        (CacheWorkerInfo.set_used_capacity p.(CacheHeartbeat.used_capacity) worker)
  | _ => worker
  end.

Definition heartbeat_tape (now : option Timestamp.t) (payload : option HeartbeatPayload)
    (worker : TapeWorkerInfo.t) : TapeWorkerInfo.t :=
  let worker := TapeWorkerInfo.set_last_heartbeat now worker in
  match payload with
  | Some (HbTape p) => TapeWorkerInfo.set_drives p.(TapeHeartbeat.drives) worker
  | _ => worker
  end.

Definition apply_Heartbeat (e : Env) (request : HeartbeatRequest.t)
    : action MetadataState Status unit :=
  let now := Some (now_timestamp e) in
  let node_id := request.(HeartbeatRequest.node_id) in
  let payload := request.(HeartbeatRequest.payload) in
  st ← get_state;
  match WorkerType.try_from request.(HeartbeatRequest.worker_type) with
  | Some WorkerType.WorkerScheduler =>
      worker ← lift (ok_or (not_found "scheduler worker not found")
        (scheduler_workers st !! node_id));
      put_state (set_scheduler_workers
        (<[node_id := heartbeat_scheduler now payload worker]> (scheduler_workers st)) st)
  | Some WorkerType.WorkerCache =>
      worker ← lift (ok_or (not_found "cache worker not found")
        (cache_workers st !! node_id));
      put_state (set_cache_workers
        (<[node_id := heartbeat_cache now payload worker]> (cache_workers st)) st)
  | Some WorkerType.WorkerTape =>
      worker ← lift (ok_or (not_found "tape worker not found")
        (tape_workers st !! node_id));
      put_state (set_tape_workers
        (<[node_id := heartbeat_tape now payload worker]> (tape_workers st)) st)
  | _ => throw (invalid_argument "unknown worker type")
  end.

(** [apply_command] *)
Definition apply_command (e : Env) (command : MetadataCommand)
    : action MetadataState Status unit :=
  match command with
  | PutObject object => apply_PutObject e object
  | DeleteObject request => apply_DeleteObject e request
  | UpdateStorageClass request => apply_UpdateStorageClass e request
  | UpdateArchiveLocation request => apply_UpdateArchiveLocation e request
  | CompleteArchiveObject request => apply_CompleteArchiveObject e request
  | UpdateRestoreStatus request => apply_UpdateRestoreStatus e request
  | CreateBucket bucket => apply_CreateBucket e bucket
  | DeleteBucket request => apply_DeleteBucket e request
  | PutArchiveBundle bundle => apply_PutArchiveBundle e bundle
  | UpdateArchiveBundleStatus request => apply_UpdateArchiveBundleStatus e request
  | PutArchiveTask task => apply_PutArchiveTask e task
  | UpdateArchiveTask task => apply_UpdateArchiveTask e task
  | PutRecallTask task => apply_PutRecallTask e task
  | UpdateRecallTask task => apply_UpdateRecallTask e task
  | PutTape tape => apply_PutTape e tape
  | UpdateTape tape => apply_UpdateTape e tape
  | RegisterSchedulerWorker worker => apply_RegisterSchedulerWorker e worker
  | DeregisterSchedulerWorker request => apply_DeregisterSchedulerWorker request
  | RegisterCacheWorker worker => apply_RegisterCacheWorker e worker
  | DeregisterCacheWorker request => apply_DeregisterCacheWorker request
  | RegisterTapeWorker worker => apply_RegisterTapeWorker e worker
  | DeregisterTapeWorker request => apply_DeregisterTapeWorker request
  | UpdateWorkerStatus request => apply_UpdateWorkerStatus request
  | Heartbeat request => apply_Heartbeat e request
  end.
