(* ===== verification/MetadataInvariants.v ===== *)
(** * Invariants of the metadata state machine *)

From Stdlib Require Import ZArith String.
From S2P Require Import Prelude Proto StateMachine.

Local Open Scope stdpp_scope.

#[export] Instance ts_cmp_total : TotalCmp ts_cmp.
Proof. apply _. Qed.

(** ** Automation for the branches of [apply_command] *)

(** Unfolds every branch and runs the monad. *)
Ltac unfold_branches :=
  unfold apply_PutObject, apply_DeleteObject, apply_UpdateStorageClass,
    apply_UpdateArchiveLocation, apply_UpdateRestoreStatus, apply_CreateBucket,
    apply_DeleteBucket, apply_PutArchiveBundle, apply_UpdateArchiveBundleStatus,
    apply_PutArchiveTask, apply_UpdateArchiveTask, apply_PutRecallTask,
    apply_UpdateRecallTask, apply_PutTape, apply_UpdateTape,
    apply_RegisterSchedulerWorker, apply_DeregisterSchedulerWorker,
    apply_RegisterCacheWorker, apply_DeregisterCacheWorker,
    apply_RegisterTapeWorker, apply_DeregisterTapeWorker,
    apply_UpdateWorkerStatus, apply_Heartbeat, write_object, ok_or in *; run_action.

(** ** Looking objects up *)

Lemma find_object_mut_lookup e st b k v kk o :
  find_object_mut e st b k v = Ok (kk, o) →
  objects st !! kk = Some o ∧ kk.(ObjectKey.bucket) = b ∧ kk.(ObjectKey.key) = k.
Proof.
  unfold find_object_mut. destruct v as [v|].
  - destruct (objects st !! _) eqn:E; simpl; [|done]. intros [= <- <-]. auto.
  - intros (sel & Hsel%ok_or_Ok & Hsel')%result_bind_Ok.
    apply max_by_elem_of, elem_of_Lfilter in Hsel as [_ Hm].
    apply andb_true_iff in Hm as [Hb%bool_decide_eq_true Hk%bool_decide_eq_true].
    destruct (objects st !! sel) eqn:E; simplify_eq/=. auto.
Qed.

(** [find_object] and [find_object_mut] select the same entry. *)
Lemma find_object_agrees e st b k v :
  find_object e st b k v = snd <$> find_object_mut e st b k v.
Proof.
  unfold find_object, find_object_mut. destruct v as [v|].
  { by destruct (objects st !! _). }
  set (upd := λ kk, default (0, 0)%Z _).
  unfold hm_keys. rewrite Lfilter_fmap, max_by_fmap.
  rewrite (max_by_ext (cmp_on (λ kv, timestamp_sort_key kv.2.(ObjectMetadata.updated_at)) ts_cmp)
     (cmp_on fst (cmp_on upd ts_cmp))).
  - destruct (max_by _ _) as [[kk o]|] eqn:E; simpl; [|done].
    apply max_by_elem_of, elem_of_Lfilter in E as [E%elem_of_hm_iter _].
    by rewrite E.
  - intros [k1 o1] [k2 o2] [H1%elem_of_hm_iter _]%elem_of_Lfilter
      [H2%elem_of_hm_iter _]%elem_of_Lfilter.
    unfold cmp_on, upd; simpl. by rewrite H1, H2.
Qed.

Lemma find_object_mut_Ok_of e st b k v o :
  find_object e st b k v = Ok o → ∃ kk, find_object_mut e st b k v = Ok (kk, o).
Proof.
  rewrite find_object_agrees.
  destruct (find_object_mut e st b k v) as [[kk o']|] eqn:E; [|done].
  intros [= <-]. eauto.
Qed.

(** ** Atomicity *)

Lemma set_objects_id st : set_objects (objects st) st = st.
Proof. by destruct st. Qed.
Lemma set_buckets_id st : set_buckets (buckets st) st = st.
Proof. by destruct st. Qed.

Lemma CompleteArchiveObject_run e request st st' r :
  apply_CompleteArchiveObject e request st = (st', r) →
  (∃ err, r = Err err ∧ st' = st) ∨
  (∃ bundle kk o,
     r = Ok tt ∧
     request.(CompleteArchiveObjectRequest.bundle) = Some bundle ∧
     bundle.(ArchiveBundle.id) ≠ "" ∧
     find_object_mut e st request.(CompleteArchiveObjectRequest.bucket)
       request.(CompleteArchiveObjectRequest.key)
       request.(CompleteArchiveObjectRequest.version_id) = Ok (kk, o) ∧
     validate_complete_archive_preconditions o request = Ok tt ∧
     (archive_bundles st !! bundle.(ArchiveBundle.id) = Some bundle ∨
      archive_bundles st !! bundle.(ArchiveBundle.id) = None) ∧
     st' = set_objects
       (<[kk := ObjectMetadata.set_updated_at (Some (now_timestamp e))
          (ObjectMetadata.set_storage_class request.(CompleteArchiveObjectRequest.storage_class)
          (ObjectMetadata.set_tape_block_offset
             (Some request.(CompleteArchiveObjectRequest.tape_block_offset))
          (ObjectMetadata.set_tape_set bundle.(ArchiveBundle.tape_set)
          (ObjectMetadata.set_tape_id (Some bundle.(ArchiveBundle.tape_id))
          (ObjectMetadata.set_archive_id (Some bundle.(ArchiveBundle.id)) o)))))]>
          (objects st))
       (set_archive_bundles
          (<[bundle.(ArchiveBundle.id) := bundle]> (archive_bundles st)) st)).
Proof.
  unfold apply_CompleteArchiveObject, write_object. run_action.
  destruct (CompleteArchiveObjectRequest.bundle request) as [bundle|]; simpl;
    [|intros [= <- <-]; eauto].
  case_bool_decide; simpl; [intros [= <- <-]; eauto|].
  destruct (find_object e st _ _ _) as [o|] eqn:Ho; simpl; [|intros [= <- <-]; eauto].
  destruct (validate_complete_archive_preconditions o request) as [[]|] eqn:Hv;
    simpl; [|intros [= <- <-]; eauto].
  destruct (find_object_mut_Ok_of _ _ _ _ _ _ Ho) as [kk Hkk].
  destruct (archive_bundles st !! _) as [existing|] eqn:Hb; simpl.
  - case_bool_decide as Hex; simpl; [|intros [= <- <-]; eauto].
    subst existing. rewrite Hkk. intros [= <- <-]. right.
    exists bundle, kk, o. rewrite (insert_id _ _ _ Hb).
    replace (set_archive_bundles (archive_bundles st) st) with st by by destruct st.
    auto 10.
  - change (find_object_mut e (set_archive_bundles ?v st)) with (find_object_mut e st).
    rewrite Hkk. intros [= <- <-]. right. exists bundle, kk, o. auto 10.
Qed.

Lemma apply_command_err e c st st' err :
  apply_command e c st = (st', Err err) → st' = st.
Proof.
  destruct c; simpl.
  5:{ by intros [(? & _ & ->)|(? & ? & ? & [=] & _)]%CompleteArchiveObject_run. }
  2:{ unfold apply_DeleteObject. run_action.
      destruct (objects st !! _) eqn:E; simpl; [done|].
      rewrite (delete_id (objects st)) by done. rewrite set_objects_id. by intros [= ->]. }
  6:{ unfold apply_DeleteBucket. run_action.
      destruct (existsb _ _); simpl; [by intros [= ->]|].
      destruct (buckets st !! _) eqn:E; simpl; [done|].
      rewrite (delete_id (buckets st)) by done. rewrite set_buckets_id. by intros [= ->]. }
  all: unfold_branches.
  all: intros Hrun; simplify_eq/=; try done; repeat (case_match; simplify_eq/=; try done).
Qed.

(** ** Well-formed states

    Every table is keyed by the identity of its entries, and every object
    lies in an existing bucket. *)

Record wf (st : MetadataState) : Prop := {
  wf_objects : map_Forall (λ k o, object_key o = k) (objects st);
  wf_buckets : map_Forall (λ k b, b.(BucketInfo.name) = k) (buckets st);
  wf_bundles : map_Forall (λ k b, b.(ArchiveBundle.id) = k) (archive_bundles st);
  wf_archive_tasks : map_Forall (λ k t, t.(ArchiveTask.id) = k) (archive_tasks st);
  wf_recall_tasks : map_Forall (λ k t, t.(RecallTask.id) = k) (recall_tasks st);
  wf_tapes : map_Forall (λ k t, t.(TapeInfo.id) = k) (tapes st);
  wf_scheduler_workers :
    map_Forall (λ k w, w.(SchedulerWorkerInfo.node_id) = k) (scheduler_workers st);
  wf_cache_workers :
    map_Forall (λ k w, w.(CacheWorkerInfo.node_id) = k) (cache_workers st);
  wf_tape_workers :
    map_Forall (λ k w, w.(TapeWorkerInfo.node_id) = k) (tape_workers st);
  wf_object_bucket :
    map_Forall (λ _ o, is_Some (buckets st !! o.(ObjectMetadata.bucket))) (objects st);
}.

Lemma wf_default : wf default_state.
Proof. split; apply map_Forall_empty. Qed.

(** Overwriting an object with one of the same identity. *)
Lemma wf_write_object st kk o o' :
  wf st → objects st !! kk = Some o → object_key o' = object_key o →
  wf (set_objects (<[kk := o']> (objects st)) st).
Proof.
  intros [] Ho Hid. assert (object_key o = kk) as Hk by eauto.
  split; simpl; auto.
  - apply map_Forall_insert_2; [congruence|done].
  - apply map_Forall_insert_2; [|done].
    assert (o'.(ObjectMetadata.bucket) = o.(ObjectMetadata.bucket)) as ->
      by (unfold object_key in *; congruence).
    eauto.
Qed.

(** A bucket record may change as long as its name does not. *)
Lemma wf_write_bucket st b :
  wf st → wf (set_buckets (<[b.(BucketInfo.name) := b]> (buckets st)) st).
Proof.
  intros []. split; simpl; auto.
  - by apply map_Forall_insert_2.
  - intros k o Ho. rewrite lookup_insert. case_decide; eauto.
Qed.

Lemma refresh_bucket_stats_objects e n st :
  objects (refresh_bucket_stats e n st) = objects st.
Proof. unfold refresh_bucket_stats. by repeat case_match. Qed.

Lemma refresh_bucket_stats_name e n st b :
  buckets st !! n = Some b →
  ∃ c t, refresh_bucket_stats e n st =
    set_buckets (<[n := BucketInfo.set_total_size t (BucketInfo.set_object_count c b)]>
                   (buckets st)) st.
Proof. unfold refresh_bucket_stats. intros ->. case_match. eauto. Qed.

Lemma wf_refresh e n st : wf st → wf (refresh_bucket_stats e n st).
Proof.
  intros Hwf. destruct (buckets st !! n) as [b|] eqn:Hb.
  - destruct (refresh_bucket_stats_name e n st b Hb) as (c & t & ->).
    pose proof (wf_buckets st Hwf n b Hb) as Hn; simpl in Hn.
    rewrite <-Hn at 1.
    apply (wf_write_bucket st (BucketInfo.set_total_size t
      (BucketInfo.set_object_count c b))); done.
  - unfold refresh_bucket_stats. by rewrite Hb.
Qed.

Lemma wf_put_object st o :
  wf st → is_Some (buckets st !! o.(ObjectMetadata.bucket)) →
  wf (set_objects (<[object_key o := o]> (objects st)) st).
Proof. intros [] Hb. split; simpl; auto; by apply map_Forall_insert_2. Qed.

Lemma wf_delete_object st k :
  wf st → wf (set_objects (delete k (objects st)) st).
Proof. intros []. split; simpl; auto; by apply map_Forall_delete. Qed.

(** [DeleteBucket] reaches its removal only when no object is left. *)
Lemma wf_delete_bucket e st n :
  wf st →
  existsb (λ o, o.(ObjectMetadata.bucket) == n) (hm_values (order e) (objects st)) = false →
  wf (set_buckets (delete n (buckets st)) st).
Proof.
  intros [] Hno. split; simpl; auto; [by apply map_Forall_delete|].
  intros k o Ho. rewrite lookup_delete_ne; [eauto|]. intros ->.
  assert (existsb (λ o', o'.(ObjectMetadata.bucket) == o.(ObjectMetadata.bucket))
    (hm_values (order e) (objects st)) = true) as Hex; [|congruence].
  apply existsb_exists. exists o. split; [|by apply bool_decide_eq_true].
  apply list_elem_of_In, elem_of_hm_values. eauto.
Qed.

Lemma wf_set_archive_bundles st b :
  wf st → wf (set_archive_bundles (<[b.(ArchiveBundle.id) := b]> (archive_bundles st)) st).
Proof. intros []. split; simpl; auto. by apply map_Forall_insert_2. Qed.

#[export] Hint Resolve wf_write_object wf_write_bucket wf_refresh wf_put_object
  wf_delete_object wf_delete_bucket wf_set_archive_bundles : coldstore.

(** The writes of the branches that touch neither objects nor buckets. *)
Ltac solve_wf_table :=
  match goal with
  | H : wf _ |- wf _ =>
      destruct H; split; simpl; auto;
      first [ apply map_Forall_insert_2; [simpl; by eauto|done]
            | by apply map_Forall_delete ]
  end.

Lemma PutObject_wf e o st : wf st → wf (apply_PutObject e o st).1.
Proof.
  intros Hwf. unfold apply_PutObject, write_object. run_action.
  destruct (contains_key _ _) eqn:Hb; simpl; [|done].
  apply contains_key_true in Hb.
  apply wf_refresh, wf_put_object; [done|]. by destruct (_ == None).
Qed.

(** The branches that go through [find_object_mut] overwrite the object they
    found with one of the same identity. *)
Ltac solve_wf_update :=
  match goal with
  | |- context [find_object_mut ?e ?st ?b ?k ?v] =>
      let Hm := fresh "Hm" in let Ho := fresh "Ho" in
      destruct (find_object_mut e st b k v) as [[]|] eqn:Hm; simpl; [|done];
      apply find_object_mut_lookup in Hm as (Ho & _);
      try (case_match; simpl; [|done]);
      eapply wf_write_object; [done|exact Ho|done]
  end.

Lemma CompleteArchiveObject_wf e r st :
  wf st → wf (apply_CompleteArchiveObject e r st).1.
Proof.
  intros Hwf. destruct (apply_CompleteArchiveObject e r st) as [st' res] eqn:E.
  apply CompleteArchiveObject_run in E
    as [(? & _ & ->)|(b & kk & o & -> & _ & _ & Hm & _ & _ & ->)]; [done|].
  apply find_object_mut_lookup in Hm as (Ho & _). simpl.
  apply (wf_write_object (set_archive_bundles _ st) _ o); [|done|done].
  by apply wf_set_archive_bundles.
Qed.

Lemma heartbeat_scheduler_id ts p w :
  (heartbeat_scheduler ts p w).(SchedulerWorkerInfo.node_id)
  = w.(SchedulerWorkerInfo.node_id).
Proof. unfold heartbeat_scheduler. by repeat case_match. Qed.
Lemma heartbeat_cache_id ts p w :
  (heartbeat_cache ts p w).(CacheWorkerInfo.node_id) = w.(CacheWorkerInfo.node_id).
Proof. unfold heartbeat_cache. by repeat case_match. Qed.
Lemma heartbeat_tape_id ts p w :
  (heartbeat_tape ts p w).(TapeWorkerInfo.node_id) = w.(TapeWorkerInfo.node_id).
Proof. unfold heartbeat_tape. by repeat case_match. Qed.

Lemma Heartbeat_wf e r st : wf st → wf (apply_Heartbeat e r st).1.
Proof.
  intros Hwf. unfold apply_Heartbeat, ok_or. run_action.
  repeat case_match; simplify_eq/=; try done; destruct Hwf; split; simpl; auto;
    apply map_Forall_insert_2; try done;
    rewrite ?heartbeat_scheduler_id, ?heartbeat_cache_id, ?heartbeat_tape_id; eauto.
Qed.

Lemma CreateBucket_wf e b st : wf st → wf (apply_CreateBucket e b st).1.
Proof.
  intros Hwf. unfold apply_CreateBucket. run_action.
  destruct (contains_key _ _); simpl; [done|]. by apply wf_write_bucket.
Qed.

Lemma apply_command_wf e c st : wf st → wf (apply_command e c st).1.
Proof.
  intros Hwf. destruct c; simpl.
  24: by apply Heartbeat_wf.
  7: by apply CreateBucket_wf.
  5: by apply CompleteArchiveObject_wf.
  1: by apply PutObject_wf.
  all: unfold_branches.
  all: try solve_wf_update.
  all: repeat case_match; simplify_eq/=; try done.
  all: eauto with coldstore.
  all: try solve_wf_table.
Qed.
