(* ===== verification/StatsInvariant.v ===== *)
(** * Bucket statistics

    [refresh_bucket_stats] recomputes the object count and total size of one
    bucket after an insertion or a deletion. The invariant: at every reachable
    state the statistics stored in every bucket are those of the objects the
    table holds, whatever order the hash maps were iterated in. *)

From Stdlib Require Import ZArith String.
From S2P Require Import Prelude Proto StateMachine MetadataInvariants.

Local Open Scope stdpp_scope.

(** The sizes of the objects of bucket [n], by object key. *)
Definition bucket_sizes (n : string) (m : gmap ObjectKey.t ObjectMetadata.t)
    : gmap ObjectKey.t Z :=
  omap (λ o, if o.(ObjectMetadata.bucket) == n
             then Some o.(ObjectMetadata.size) else None) m.

(** What the statistics of bucket [n] are meant to be. *)
Definition bucket_stats (n : string) (m : gmap ObjectKey.t ObjectMetadata.t) : Z * Z :=
  (wrap64 (Z.of_nat (size (bucket_sizes n m))),
   wrap64 (Zsum (map_to_list (bucket_sizes n m)).*2)).

Lemma stats_fold (l : list ObjectMetadata.t) c t :
  foldl (λ '(c, t) (o : ObjectMetadata.t),
      (wrap64 (c + 1), wrap64 (t + o.(ObjectMetadata.size)))) (wrap64 c, wrap64 t) l
  = (wrap64 (c + Z.of_nat (length l)), wrap64 (t + Zsum (ObjectMetadata.size <$> l))).
Proof.
  revert c t. induction l as [|o l IH]; intros c t; cbn [foldl length].
  - by rewrite !Z.add_0_r.
  - assert (∀ a b, wrap64 (wrap64 a + b) = wrap64 (a + b)) as Hw.
    { intros a b. unfold wrap64. by rewrite Z.add_mod_idemp_l. }
    rewrite !Hw, IH. apply f_equal2; apply (f_equal wrap64); [lia|].
    rewrite fmap_cons, Zsum_cons. lia.
Qed.

Lemma refresh_bucket_stats_eq e n st b :
  buckets st !! n = Some b →
  refresh_bucket_stats e n st =
    set_buckets (<[n := BucketInfo.set_total_size (bucket_stats n (objects st)).2
      (BucketInfo.set_object_count (bucket_stats n (objects st)).1 b)]> (buckets st)) st.
Proof.
  intros Hb. unfold refresh_bucket_stats. rewrite Hb.
  change (0, 0)%Z with (wrap64 0, wrap64 0). rewrite stats_fold, !Z.add_0_l.
  set (l := List.filter _ _).
  assert (Hl : ObjectMetadata.size <$> l ≡ₚ (map_to_list (bucket_sizes n (objects st))).*2).
  { unfold l. rewrite Lfilter_omap. apply hm_values_omap. }
  unfold bucket_stats; simpl. rewrite <-Hl.
  assert (length l = size (bucket_sizes n (objects st))) as ->; [|done].
  rewrite <-length_map_to_list, <-(length_fmap snd), <-Hl. by rewrite length_fmap.
Qed.

Lemma bucket_stats_insert_other n k o (m : gmap ObjectKey.t ObjectMetadata.t) :
  o.(ObjectMetadata.bucket) ≠ n →
  (∀ o', m !! k = Some o' → o'.(ObjectMetadata.bucket) ≠ n) →
  bucket_stats n (<[k := o]> m) = bucket_stats n m.
Proof.
  intros Ho Hk. unfold bucket_stats.
  assert (bucket_sizes n (<[k:=o]> m) = bucket_sizes n m) as ->; [|done].
  apply map_eq. intros k'. unfold bucket_sizes. rewrite !lookup_omap, lookup_insert.
  case_decide as E; [subst k'|done]. simpl. rewrite bool_decide_eq_false_2 by done.
  destruct (m !! k) as [o'|] eqn:E; simpl; [|done].
  by rewrite bool_decide_eq_false_2 by eauto.
Qed.

Lemma bucket_stats_delete_other n k (m : gmap ObjectKey.t ObjectMetadata.t) :
  (∀ o', m !! k = Some o' → o'.(ObjectMetadata.bucket) ≠ n) →
  bucket_stats n (delete k m) = bucket_stats n m.
Proof.
  intros Hk. unfold bucket_stats.
  assert (bucket_sizes n (delete k m) = bucket_sizes n m) as ->; [|done].
  apply map_eq. intros k'. unfold bucket_sizes. rewrite !lookup_omap, lookup_delete.
  case_decide as E; [subst k'|done]. simpl.
  destruct (m !! k) as [o'|] eqn:E; simpl; [|done].
  by rewrite bool_decide_eq_false_2 by eauto.
Qed.

Lemma bucket_stats_rewrite n k o o' (m : gmap ObjectKey.t ObjectMetadata.t) :
  m !! k = Some o → o'.(ObjectMetadata.bucket) = o.(ObjectMetadata.bucket) →
  o'.(ObjectMetadata.size) = o.(ObjectMetadata.size) →
  bucket_stats n (<[k := o']> m) = bucket_stats n m.
Proof.
  intros Hk Hb Hs. unfold bucket_stats.
  assert (bucket_sizes n (<[k:=o']> m) = bucket_sizes n m) as ->; [|done].
  apply map_eq. intros k'. unfold bucket_sizes. rewrite !lookup_omap, lookup_insert.
  case_decide as E; [subst k'|done]. rewrite Hk. simpl. by rewrite Hb, Hs.
Qed.

Lemma bucket_stats_none n (m : gmap ObjectKey.t ObjectMetadata.t) :
  (∀ k o, m !! k = Some o → o.(ObjectMetadata.bucket) ≠ n) →
  bucket_stats n m = (0, 0)%Z.
Proof.
  intros Hn. unfold bucket_stats.
  assert (bucket_sizes n m = ∅) as ->; [|by rewrite map_to_list_empty].
  apply map_eq. intros k. unfold bucket_sizes. rewrite lookup_omap, lookup_empty.
  destruct (m !! k) as [o|] eqn:E; simpl; [|done].
  by rewrite bool_decide_eq_false_2 by eauto.
Qed.

Definition stats_ok (st : MetadataState) : Prop :=
  map_Forall (λ n b, (b.(BucketInfo.object_count), b.(BucketInfo.total_size))
                     = bucket_stats n (objects st)) (buckets st).

(** Buckets are created empty: the scheduler sends [object_count = 0] and
    [total_size = 0], and [apply_command] stores what it is sent. *)
Definition clean_command (c : MetadataCommand) : Prop :=
  match c with
  | CreateBucket b => b.(BucketInfo.object_count) = 0%Z ∧ b.(BucketInfo.total_size) = 0%Z
  | _ => True
  end.

Lemma stats_ok_refresh e n st :
  is_Some (buckets st !! n) →
  (∀ n' b', n' ≠ n → buckets st !! n' = Some b' →
    (b'.(BucketInfo.object_count), b'.(BucketInfo.total_size))
    = bucket_stats n' (objects st)) →
  stats_ok (refresh_bucket_stats e n st).
Proof.
  intros [b Hb] Hother. rewrite (refresh_bucket_stats_eq e n st b Hb).
  intros n' b'. simpl. rewrite lookup_insert. case_decide as E.
  - intros [= <-]. by subst n'.
  - intros Hb'. by apply Hother.
Qed.

Lemma stats_ok_write_object st kk o o' :
  stats_ok st → objects st !! kk = Some o →
  o'.(ObjectMetadata.bucket) = o.(ObjectMetadata.bucket) →
  o'.(ObjectMetadata.size) = o.(ObjectMetadata.size) →
  stats_ok (set_objects (<[kk := o']> (objects st)) st).
Proof.
  intros Hst Ho Hb Hs n b Hn. simpl in *.
  rewrite (bucket_stats_rewrite n kk o o') by done. by apply Hst.
Qed.

Lemma stats_ok_put_object e o st :
  wf st → stats_ok st → is_Some (buckets st !! o.(ObjectMetadata.bucket)) →
  stats_ok (refresh_bucket_stats e o.(ObjectMetadata.bucket)
              (set_objects (<[object_key o := o]> (objects st)) st)).
Proof.
  intros Hwf Hst Hb. apply stats_ok_refresh; [done|].
  intros n b Hn Hbn. simpl. rewrite bucket_stats_insert_other; [by apply Hst|congruence|].
  intros o2 Ho2 Heq. pose proof (wf_objects st Hwf _ _ Ho2) as Hid. simpl in Hid.
  unfold object_key in Hid. congruence.
Qed.

Lemma PutObject_stats e o st :
  wf st → stats_ok st → stats_ok (apply_PutObject e o st).1.
Proof.
  intros Hwf Hst. unfold apply_PutObject, write_object. run_action.
  destruct (contains_key _ _) eqn:Hb; simpl; [|done].
  apply contains_key_true in Hb.
  destruct (_ == None).
  - by apply (stats_ok_put_object e
      (ObjectMetadata.set_updated_at (Some (now_timestamp e))
        (ObjectMetadata.set_created_at (Some (now_timestamp e)) o))).
  - by apply (stats_ok_put_object e
      (ObjectMetadata.set_updated_at (Some (now_timestamp e)) o)).
Qed.

Lemma DeleteObject_stats e r st :
  wf st → stats_ok st → stats_ok (apply_DeleteObject e r st).1.
Proof.
  intros Hwf Hst. unfold apply_DeleteObject. run_action.
  destruct (objects st !! _) as [o|] eqn:Ho; simpl.
  - pose proof (wf_objects st Hwf _ _ Ho) as Hid. simpl in Hid. unfold object_key in Hid.
    simplify_eq. apply stats_ok_refresh; simpl.
    + destruct r; simplify_eq/=. by apply (wf_object_bucket st Hwf _ _ Ho).
    + intros n b Hn Hbn. rewrite bucket_stats_delete_other; [by apply Hst|].
      intros o2 Ho2. congruence.
  - by rewrite (delete_id (objects st)), set_objects_id by done.
Qed.

Lemma CompleteArchiveObject_stats e r st :
  stats_ok st → stats_ok (apply_CompleteArchiveObject e r st).1.
Proof.
  intros Hst. destruct (apply_CompleteArchiveObject e r st) as [st' res] eqn:E.
  apply CompleteArchiveObject_run in E
    as [(? & _ & ->)|(b & kk & o & -> & _ & _ & Hm & _ & _ & ->)]; [done|].
  apply find_object_mut_lookup in Hm as (Ho & _). simpl.
  by apply (stats_ok_write_object (set_archive_bundles _ st) _ o).
Qed.

Lemma CreateBucket_stats e b st :
  wf st → b.(BucketInfo.object_count) = 0%Z → b.(BucketInfo.total_size) = 0%Z →
  stats_ok st → stats_ok (apply_CreateBucket e b st).1.
Proof.
  intros Hwf Hc Ht Hst. unfold apply_CreateBucket. run_action.
  destruct (contains_key _ _) eqn:Hb; simpl; [done|].
  apply contains_key_false in Hb. intros n b'. simpl. rewrite lookup_insert.
  case_decide as Hn; [|by intros; apply Hst].
  intros [= <-]. rewrite bucket_stats_none.
  - destruct (_ == None); simpl; congruence.
  - intros k o Ho Hbo. destruct (wf_object_bucket st Hwf _ _ Ho) as [b'' Hb''].
    destruct (_ == None); simpl in *; congruence.
Qed.

(** As [solve_wf_update]. *)
Ltac solve_stats_update :=
  match goal with
  | |- context [find_object_mut ?e ?st ?b ?k ?v] =>
      let Hm := fresh "Hm" in let Ho := fresh "Ho" in
      destruct (find_object_mut e st b k v) as [[]|] eqn:Hm; simpl; [|done];
      apply find_object_mut_lookup in Hm as (Ho & _);
      try (case_match; simpl; [|done]);
      eapply stats_ok_write_object; [done|exact Ho|done|done]
  end.

Lemma apply_command_stats e c st :
  wf st → clean_command c → stats_ok st → stats_ok (apply_command e c st).1.
Proof.
  intros Hwf Hclean Hst. destruct c; simpl in *.
  7: by apply CreateBucket_stats; destruct_and?.
  5: by apply CompleteArchiveObject_stats.
  2: by apply DeleteObject_stats.
  1: by apply PutObject_stats.
  all: unfold_branches.
  all: try solve_stats_update.
  all: repeat case_match; simplify_eq/=; try done.
  all: by intros n b; simpl; rewrite lookup_delete_Some; intros [_ ?]; apply Hst.
Qed.
