(* ===== verification/MetadataTheorems.v ===== *)
(** * Theorems on the metadata state machine

    The properties of [apply_command] over any command log: well-formedness,
    atomicity of failed commands, exact bucket statistics, the life cycles of
    tasks and restores, and the functional behaviour of the object commands. *)

From Stdlib Require Import ZArith String.
From S2P Require Import Prelude Proto StateMachine MetadataInvariants StatsInvariant.

Local Open Scope stdpp_scope.

(** A log of commands, each applied in its own environment; failed commands
    stay in the log. *)
Definition apply_log (log : list (Env * MetadataCommand)) (st : MetadataState)
    : MetadataState :=
  foldl (λ st '(e, c), (apply_command e c st).1) st log.

Lemma apply_log_invariant (I : MetadataState → Prop) log st :
  (∀ e c st, (e, c) ∈ log → I st → I (apply_command e c st).1) →
  I st → I (apply_log log st).
Proof.
  intros Hstep. revert st. induction log as [|[e c] log IH]; intros st HI; [done|].
  simpl. apply IH; [|apply Hstep; [set_solver|done]].
  intros. apply Hstep; set_solver.
Qed.

Lemma apply_log_wf log st : wf st → wf (apply_log log st).
Proof. apply apply_log_invariant. intros. by apply apply_command_wf. Qed.

Lemma apply_log_stats log st :
  Forall (λ ec, clean_command ec.2) log → wf st → stats_ok st →
  wf (apply_log log st) ∧ stats_ok (apply_log log st).
Proof.
  intros Hclean Hwf Hst.
  apply (apply_log_invariant (λ st, wf st ∧ stats_ok st)); [|done].
  rewrite Forall_forall in Hclean. intros e c st' Hin [??].
  split; [by apply apply_command_wf|].
  apply apply_command_stats; auto. by apply (Hclean _ Hin).
Qed.

(** ** Concrete values for the witnesses *)

Module Sample.
Definition env (t : Z) : Env := mkEnv t canonical_order.
Definition bucket : BucketInfo.t := BucketInfo.mk "docs" None None false 0 0.
Definition object (k : string) (sz : Z) : ObjectMetadata.t :=
  ObjectMetadata.mk "docs" k None sz "sum" None None 1 None None [] None None None None None.
Definition archive_task (status : Z) : ArchiveTask.t :=
  ArchiveTask.mk "t1" "b1" "TAPE1" None 1 5 0 status 0 None None None None.
Definition recall_task (status : Z) : RecallTask.t :=
  RecallTask.mk "r1" "docs" "a" None "b1" "TAPE1" [] 0 5 "sum" 2 1 None status None 0
    None None None None.
Definition bundle : ArchiveBundle.t :=
  ArchiveBundle.mk "b1" "TAPE1" ["TAPE1"] [] 5 0 1 None 3 None None.
Definition log : list (Env * MetadataCommand) :=
  [(env 1, CreateBucket bucket); (env 2, PutObject (object "a" 5));
   (env 3, PutObject (object "b" 7))].
Definition complete : CompleteArchiveObjectRequest.t :=
  CompleteArchiveObjectRequest.mk "docs" "a" None (Some 5%Z) (Some "sum") (Some 1%Z)
    (Some (Timestamp.mk 2 0)) (Some bundle) 0 2.
End Sample.

(** ** C1 to C3: invariants over any command log *)

(** C7: Whatever commands are applied, in whatever environments, the tables
    stay keyed by the identities of their entries and every object stays in
    an existing bucket. *)
Theorem metadata_log_wf (log : list (Env * MetadataCommand)) :
  wf (apply_log log default_state).
Proof. apply apply_log_wf, wf_default. Qed.

(** C9: A command that is answered with an error has changed nothing, also
    where the source writes one table before it looks up the next. *)
Theorem apply_command_atomic (e : Env) (c : MetadataCommand) (st st' : MetadataState)
    (err : Status) :
  apply_command e c st = (st', Err err) → st' = st.
Proof. apply apply_command_err. Qed.

Lemma apply_command_atomic_witness :
  apply_command (Sample.env 9) (CompleteArchiveObject Sample.complete) default_state
    = (default_state, Err (not_found "object not found")) ∧
  default_state = default_state.
Proof.
  split; [reflexivity|].
  apply (apply_command_atomic (Sample.env 9) (CompleteArchiveObject Sample.complete)
    default_state default_state (not_found "object not found")).
  reflexivity.
Defined.

(** C10: Along any log whose buckets are created empty, the statistics of every
    bucket are the number and the total size of the objects the bucket holds,
    as long as they fit in 64 bits. *)
Theorem bucket_statistics_exact (log : list (Env * MetadataCommand)) (n : string)
    (b : BucketInfo.t) :
  Forall (λ ec, clean_command ec.2) log →
  let st := apply_log log default_state in
  buckets st !! n = Some b →
  is_u64 (Z.of_nat (size (bucket_sizes n (objects st)))) →
  is_u64 (Zsum (map_to_list (bucket_sizes n (objects st))).*2) →
  b.(BucketInfo.object_count) = Z.of_nat (size (bucket_sizes n (objects st))) ∧
  b.(BucketInfo.total_size) = Zsum (map_to_list (bucket_sizes n (objects st))).*2.
Proof.
  intros Hclean st Hb Hc Ht.
  destruct (apply_log_stats log default_state) as [_ Hst]; auto using wf_default.
  { apply map_Forall_empty. }
  specialize (Hst n b Hb). unfold bucket_stats in Hst.
  rewrite !wrap64_small in Hst by done. by simplify_eq.
Qed.

Lemma bucket_statistics_exact_witness :
  ∃ b, buckets (apply_log Sample.log default_state) !! "docs" = Some b ∧
    b.(BucketInfo.object_count) = 2%Z ∧ b.(BucketInfo.total_size) = 12%Z.
Proof.
  eexists. split; [vm_compute; reflexivity|].
  refine (bucket_statistics_exact Sample.log "docs" _ _ _ _ _).
  - repeat constructor.
  - vm_compute; reflexivity.
  - vm_compute; split; discriminate.
  - vm_compute; split; discriminate.
Defined.
