(* ===== verification/TypedState.v ===== *)
(** * Stored values keep their types

    The messages of [src/crates/proto/proto/common.proto] have numbers of 32
    and 64 bits and strings of Unicode characters, which the model writes as
    integers and bytes. A value is typed when its numbers are in the range of
    their fields and its strings are UTF-8; the state machine, which counts and
    adds, keeps the tables typed. An enumeration is an [i32], which may be none
    of its values. *)

From Stdlib Require Import ZArith String.
From S2P Require Import Prelude RustStr Proto StateMachine MetadataInvariants MetadataTheorems.

Local Open Scope stdpp_scope.

(** ** Typed values *)

Class Typed (A : Type) := typed : A → bool.

Definition u64 (z : Z) : bool := ((0 <=? z) && (z <=? u64_MAX))%Z.
Definition u32 (z : Z) : bool := ((0 <=? z) && (z <=? u32_MAX))%Z.
Definition i64 (z : Z) : bool := ((- 2 ^ 63 <=? z) && (z <? 2 ^ 63))%Z.
Definition i32 (z : Z) : bool := ((- 2 ^ 31 <=? z) && (z <? 2 ^ 31))%Z.

#[global] Arguments u64 : simpl never.
#[global] Arguments u32 : simpl never.
#[global] Arguments i64 : simpl never.
#[global] Arguments i32 : simpl never.

(** A Rust string is UTF-8. *)
Definition utf8 (s : string) : bool := is_utf8 (byte_of <$> String.list_ascii_of_string s).
#[global] Arguments utf8 : simpl never.

Definition typed_option {A} (f : A → bool) (x : option A) : bool :=
  match x with Some x => f x | None => true end.
#[export] Instance option_typed {A} `{Typed A} : Typed (option A) := typed_option typed.

#[export] Instance timestamp_typed : Typed Timestamp.t := λ t,
  i64 t.(Timestamp.seconds) && i32 t.(Timestamp.nanos).
#[export] Instance object_typed : Typed ObjectMetadata.t := λ o,
  u64 o.(ObjectMetadata.size) && i32 o.(ObjectMetadata.storage_class)
  && typed_option u64 o.(ObjectMetadata.tape_block_offset)
  && typed_option i32 o.(ObjectMetadata.restore_status)
  && typed o.(ObjectMetadata.restore_expire_at) && typed o.(ObjectMetadata.created_at)
  && typed o.(ObjectMetadata.updated_at)
  && utf8 o.(ObjectMetadata.bucket) && utf8 o.(ObjectMetadata.key)
  && utf8 o.(ObjectMetadata.checksum) && typed_option utf8 o.(ObjectMetadata.version_id)
  && typed_option utf8 o.(ObjectMetadata.content_type)
  && typed_option utf8 o.(ObjectMetadata.etag)
  && typed_option utf8 o.(ObjectMetadata.archive_id)
  && typed_option utf8 o.(ObjectMetadata.tape_id) && forallb utf8 o.(ObjectMetadata.tape_set).
#[export] Instance entry_typed : Typed BundleEntry.t := λ b,
  u64 b.(BundleEntry.size) && u64 b.(BundleEntry.offset_in_bundle)
  && u64 b.(BundleEntry.tape_block_offset)
  && utf8 b.(BundleEntry.bucket) && utf8 b.(BundleEntry.key) && utf8 b.(BundleEntry.checksum)
  && typed_option utf8 b.(BundleEntry.version_id).
#[export] Instance bundle_typed : Typed ArchiveBundle.t := λ b,
  forallb typed b.(ArchiveBundle.entries) && u64 b.(ArchiveBundle.total_size)
  && u32 b.(ArchiveBundle.filemark_start) && u32 b.(ArchiveBundle.filemark_end)
  && i32 b.(ArchiveBundle.status) && typed b.(ArchiveBundle.created_at)
  && typed b.(ArchiveBundle.completed_at)
  && utf8 b.(ArchiveBundle.id) && utf8 b.(ArchiveBundle.tape_id)
  && typed_option utf8 b.(ArchiveBundle.checksum) && forallb utf8 b.(ArchiveBundle.tape_set).
#[export] Instance tape_typed : Typed TapeInfo.t := λ t,
  i32 t.(TapeInfo.status) && u64 t.(TapeInfo.capacity_bytes) && u64 t.(TapeInfo.used_bytes)
  && u64 t.(TapeInfo.remaining_bytes) && typed t.(TapeInfo.last_verified_at)
  && u32 t.(TapeInfo.error_count) && typed t.(TapeInfo.registered_at)
  && utf8 t.(TapeInfo.id) && utf8 t.(TapeInfo.format) && typed_option utf8 t.(TapeInfo.barcode)
  && typed_option utf8 t.(TapeInfo.location) && forallb utf8 t.(TapeInfo.archive_bundle_ids).
#[export] Instance recall_task_typed : Typed RecallTask.t := λ t,
  u64 t.(RecallTask.tape_block_offset) && u64 t.(RecallTask.object_size)
  && i32 t.(RecallTask.tier) && u32 t.(RecallTask.days) && typed t.(RecallTask.expire_at)
  && i32 t.(RecallTask.status) && u32 t.(RecallTask.retry_count)
  && typed t.(RecallTask.created_at) && typed t.(RecallTask.started_at)
  && typed t.(RecallTask.completed_at)
  && utf8 t.(RecallTask.id) && utf8 t.(RecallTask.bucket) && utf8 t.(RecallTask.key)
  && utf8 t.(RecallTask.archive_id) && utf8 t.(RecallTask.tape_id)
  && utf8 t.(RecallTask.checksum) && typed_option utf8 t.(RecallTask.version_id)
  && typed_option utf8 t.(RecallTask.drive_id) && typed_option utf8 t.(RecallTask.error)
  && forallb utf8 t.(RecallTask.tape_set).
#[export] Instance archive_task_typed : Typed ArchiveTask.t := λ t,
  u32 t.(ArchiveTask.object_count) && u64 t.(ArchiveTask.total_size)
  && u64 t.(ArchiveTask.bytes_written) && i32 t.(ArchiveTask.status)
  && u32 t.(ArchiveTask.retry_count) && typed t.(ArchiveTask.created_at)
  && typed t.(ArchiveTask.started_at) && typed t.(ArchiveTask.completed_at)
  && utf8 t.(ArchiveTask.id) && utf8 t.(ArchiveTask.bundle_id) && utf8 t.(ArchiveTask.tape_id)
  && typed_option utf8 t.(ArchiveTask.drive_id) && typed_option utf8 t.(ArchiveTask.error).
#[export] Instance bucket_typed : Typed BucketInfo.t := λ b,
  typed b.(BucketInfo.created_at) && u64 b.(BucketInfo.object_count)
  && u64 b.(BucketInfo.total_size)
  && utf8 b.(BucketInfo.name) && typed_option utf8 b.(BucketInfo.owner).
#[export] Instance scheduler_worker_typed : Typed SchedulerWorkerInfo.t := λ w,
  u64 w.(SchedulerWorkerInfo.node_id) && i32 w.(SchedulerWorkerInfo.status)
  && typed w.(SchedulerWorkerInfo.last_heartbeat)
  && u64 w.(SchedulerWorkerInfo.pending_archive_tasks)
  && u64 w.(SchedulerWorkerInfo.pending_recall_tasks) && u64 w.(SchedulerWorkerInfo.active_jobs)
  && u64 w.(SchedulerWorkerInfo.paired_cache_worker_id)
  && utf8 w.(SchedulerWorkerInfo.addr).
#[export] Instance cache_worker_typed : Typed CacheWorkerInfo.t := λ w,
  u64 w.(CacheWorkerInfo.node_id) && i32 w.(CacheWorkerInfo.status)
  && typed w.(CacheWorkerInfo.last_heartbeat) && u64 w.(CacheWorkerInfo.total_capacity)
  && u64 w.(CacheWorkerInfo.used_capacity) && u64 w.(CacheWorkerInfo.blob_count)
  && u32 w.(CacheWorkerInfo.io_unit_size)
  && utf8 w.(CacheWorkerInfo.addr) && utf8 w.(CacheWorkerInfo.bdev_name).
#[export] Instance drive_typed : Typed DriveEndpoint.t := λ d, i32 d.(DriveEndpoint.status)
  && utf8 d.(DriveEndpoint.drive_id) && utf8 d.(DriveEndpoint.device_path)
  && utf8 d.(DriveEndpoint.drive_type) && typed_option utf8 d.(DriveEndpoint.current_tape).
#[export] Instance library_typed : Typed LibraryEndpoint.t := λ l,
  u32 l.(LibraryEndpoint.slot_count) && u32 l.(LibraryEndpoint.import_export_count)
  && u32 l.(LibraryEndpoint.drive_count)
  && utf8 l.(LibraryEndpoint.device_path).
#[export] Instance tape_worker_typed : Typed TapeWorkerInfo.t := λ w,
  u64 w.(TapeWorkerInfo.node_id) && i32 w.(TapeWorkerInfo.status)
  && typed w.(TapeWorkerInfo.last_heartbeat) && forallb typed w.(TapeWorkerInfo.drives)
  && typed w.(TapeWorkerInfo.library)
  && utf8 w.(TapeWorkerInfo.addr).
#[export] Instance payload_typed : Typed HeartbeatPayload := λ p,
  match p with
  | HbScheduler p => u64 p.(SchedulerHeartbeat.pending_archive_tasks)
      && u64 p.(SchedulerHeartbeat.pending_recall_tasks) && u64 p.(SchedulerHeartbeat.active_jobs)
  | HbCache p => u64 p.(CacheHeartbeat.used_capacity) && u64 p.(CacheHeartbeat.blob_count)
  | HbTape p => forallb typed p.(TapeHeartbeat.drives)
  end.

(** A command is typed when what it stores is; what is only compared does not
    matter. *)
#[export] Instance command_typed : Typed MetadataCommand := λ c,
  match c with
  | PutObject o => typed o
  | UpdateStorageClass r => i32 r.(UpdateStorageClassRequest.storage_class)
  | UpdateArchiveLocation r =>
      u64 r.(UpdateArchiveLocationRequest.tape_block_offset)
      && utf8 r.(UpdateArchiveLocationRequest.archive_id)
      && utf8 r.(UpdateArchiveLocationRequest.tape_id)
      && forallb utf8 r.(UpdateArchiveLocationRequest.tape_set)
  | CompleteArchiveObject r =>
      typed r.(CompleteArchiveObjectRequest.bundle)
      && u64 r.(CompleteArchiveObjectRequest.tape_block_offset)
      && i32 r.(CompleteArchiveObjectRequest.storage_class)
  | UpdateRestoreStatus r =>
      i32 r.(UpdateRestoreStatusRequest.status) && typed r.(UpdateRestoreStatusRequest.expire_at)
  | CreateBucket b => typed b
  | PutArchiveBundle b => typed b
  | UpdateArchiveBundleStatus r => i32 r.(UpdateArchiveBundleStatusRequest.status)
  | PutArchiveTask t | UpdateArchiveTask t => typed t
  | PutRecallTask t | UpdateRecallTask t => typed t
  | PutTape t | UpdateTape t => typed t
  | RegisterSchedulerWorker w => typed w
  | RegisterCacheWorker w => typed w
  | RegisterTapeWorker w => typed w
  | UpdateWorkerStatus r => i32 r.(UpdateWorkerStatusRequest.status)
  | Heartbeat r => typed r.(HeartbeatRequest.payload)
  | DeleteObject _ | DeleteBucket _ | DeregisterSchedulerWorker _ | DeregisterCacheWorker _
  | DeregisterTapeWorker _ => true
  end.
#[export] Instance env_typed : Typed Env := λ e, i64 (now e).

Record typed_state (st : MetadataState) : Prop := {
  typed_objects : map_Forall (λ _ o, typed o = true) (objects st);
  typed_buckets : map_Forall (λ _ b, typed b = true) (buckets st);
  typed_bundles : map_Forall (λ _ b, typed b = true) (archive_bundles st);
  typed_archive_tasks : map_Forall (λ _ t, typed t = true) (archive_tasks st);
  typed_recall_tasks : map_Forall (λ _ t, typed t = true) (recall_tasks st);
  typed_tapes : map_Forall (λ _ t, typed t = true) (tapes st);
  typed_scheduler_workers : map_Forall (λ _ w, typed w = true) (scheduler_workers st);
  typed_cache_workers : map_Forall (λ _ w, typed w = true) (cache_workers st);
  typed_tape_workers : map_Forall (λ _ w, typed w = true) (tape_workers st);
}.

Lemma typed_default : typed_state default_state.
Proof. split; apply map_Forall_empty. Qed.

(** ** Every command keeps the tables typed *)

(** Splits a typed value, or what is typed of one, into its fields. *)
Ltac typed_fields :=
  unfold typed, option_typed, env_typed, object_typed, bundle_typed, tape_typed, recall_task_typed,
    archive_task_typed, bucket_typed, scheduler_worker_typed, cache_worker_typed,
    tape_worker_typed in *;
  simpl;
  repeat match goal with H : _ && _ = true |- _ => apply andb_prop in H as [? ?] end;
  repeat match goal with |- _ && _ = true => apply andb_true_intro; split end;
  try assumption; auto.

Lemma now_typed e : typed e = true → typed (now_timestamp e) = true.
Proof. unfold typed, env_typed, timestamp_typed, now_timestamp. simpl. by intros ->. Qed.

(** A table with one more typed value, and one with a value less *)
Lemma typed_insert `{Countable K} `{Typed A} (m : gmap K A) k x :
  typed x = true → map_Forall (λ _ y, typed y = true) m →
  map_Forall (λ _ y, typed y = true) (<[k := x]> m).
Proof. intros. by apply map_Forall_insert_2. Qed.
Lemma typed_delete `{Countable K} `{Typed A} (m : gmap K A) k :
  map_Forall (λ _ y, typed y = true) m → map_Forall (λ _ y, typed y = true) (delete k m).
Proof. apply map_Forall_delete. Qed.
Lemma typed_lookup `{Countable K} `{Typed A} (m : gmap K A) k x :
  map_Forall (λ _ y, typed y = true) m → m !! k = Some x → typed x = true.
Proof. intros Hm Hk. by apply (Hm k x). Qed.

Lemma found_typed e st b k v kk o :
  typed_state st → find_object_mut e st b k v = Ok (kk, o) → typed o = true.
Proof. intros [] (Ho & _)%find_object_mut_lookup. by eapply typed_lookup. Qed.

(** The statistics are counted modulo 2^64. *)
Lemma refresh_typed e n st : typed_state st → typed_state (refresh_bucket_stats e n st).
Proof.
  intros Hst. unfold refresh_bucket_stats. destruct (buckets st !! n) as [b|] eqn:Hb; [|done].
  assert (typed b = true) as Hbt by (destruct Hst; by eapply typed_lookup).
  set (step := λ '(c, t) _, _). set (l := List.filter _ _).
  assert (∀ c t, u64 c = true → u64 t = true →
    let '(c', t') := foldl step (c, t) l in u64 c' = true ∧ u64 t' = true) as Hfold.
  { assert (∀ z, u64 (wrap64 z) = true) as Hwrap.
    { intros z. pose proof (wrap64_range z) as [??]. unfold u64. apply andb_true_iff. lia. }
    induction l as [|o l IH]; intros c t Hc Ht; [by split|]. simpl. by apply IH. }
  specialize (Hfold 0%Z 0%Z eq_refl eq_refl). destruct (foldl _ _ _) as [c t].
  destruct Hst. split; simpl; auto. apply typed_insert; [|done]. typed_fields; [apply Hfold..].
Qed.

(** A write of one table *)
Ltac typed_table :=
  match goal with
  | H : typed_state _ |- typed_state _ =>
      split; simpl; try (destruct H; assumption);
      first [apply typed_delete; destruct H; assumption
            |apply typed_insert; [clear H|destruct H; assumption]]
  end.
(** The value that is written: a found or a given one, with some fields set *)
Ltac typed_write :=
  repeat (case_match; simplify_eq/=; try done);
  try match goal with
  | Hst : typed_state ?st, Hm : find_object_mut _ ?st _ _ _ = Ok _ |- _ =>
      pose proof (found_typed _ _ _ _ _ _ _ Hst Hm)
  | Hst : typed_state ?st, Hm : _ !! _ = Some ?x |- _ =>
      assert (typed x = true) by (destruct Hst; by eapply typed_lookup)
  end;
  typed_table; repeat case_match; typed_fields.

#[local] Opaque is_same_archive_task is_same_recall_task validate_restore_transition
  validate_archive_bundle_transition validate_archive_task_transition u64 u32 i64 i32 utf8.

Lemma CompleteArchiveObject_typed e r st :
  typed e = true → typed (CompleteArchiveObject r) = true → typed_state st →
  typed_state (apply_CompleteArchiveObject e r st).1.
Proof.
  intros He%now_typed Hr Hst. destruct (apply_CompleteArchiveObject e r st) as [st' res] eqn:E.
  apply CompleteArchiveObject_run in E
    as [(? & _ & ->)|(b & kk & o & -> & Hb & _ & Hm & _ & _ & ->)]; [done|]. simpl.
  pose proof (found_typed _ _ _ _ _ _ _ Hst Hm) as Ho.
  unfold typed, command_typed in Hr. rewrite Hb in Hr. simpl in Hr.
  apply andb_true_iff in Hr as [[Hbt ?]%andb_true_iff ?].
  destruct Hst. split; simpl; auto; apply typed_insert; auto.
  change (bundle_typed b = true) in Hbt. unfold bundle_typed in Hbt. typed_fields.
Qed.

Lemma PutObject_typed e o st :
  typed e = true → typed o = true → typed_state st → typed_state (apply_PutObject e o st).1.
Proof.
  intros He%now_typed Ho Hst. unfold apply_PutObject, write_object. run_action.
  destruct (contains_key _ _); simpl; [|done]. apply refresh_typed. typed_table.
  repeat case_match; typed_fields.
Qed.

Lemma DeleteObject_typed e r st :
  typed_state st → typed_state (apply_DeleteObject e r st).1.
Proof.
  intros Hst. unfold apply_DeleteObject. run_action.
  destruct (_ == None); simpl; [|apply refresh_typed]; typed_table.
Qed.

Lemma Heartbeat_typed e r st :
  typed e = true → typed (Heartbeat r) = true → typed_state st →
  typed_state (apply_Heartbeat e r st).1.
Proof.
  intros He%now_typed Hr Hst. unfold apply_Heartbeat, ok_or. run_action.
  unfold heartbeat_scheduler, heartbeat_cache, heartbeat_tape. unfold typed, command_typed in Hr.
  destruct (HeartbeatRequest.payload r) as [[]|]; simpl in Hr;
    unfold typed, payload_typed in Hr; typed_write.
Qed.

Lemma apply_command_typed e c st :
  typed e = true → typed c = true → typed_state st → typed_state (apply_command e c st).1.
Proof.
  intros He Hc Hst. pose proof (now_typed e He) as Hnow. destruct c; simpl.
  24: by apply Heartbeat_typed.
  5: by apply CompleteArchiveObject_typed.
  2: by apply DeleteObject_typed.
  1: by apply PutObject_typed.
  all: unfold_branches; unfold typed, command_typed in Hc.
  all: typed_write.
Qed.

(** Along a log of typed commands *)
Definition typed_log (log : list (Env * MetadataCommand)) : bool :=
  forallb (λ ec, typed ec.1 && typed ec.2) log.

Lemma apply_log_typed log st :
  typed_log log = true → typed_state st → typed_state (apply_log log st).
Proof.
  unfold apply_log. revert st. induction log as [|[e c] log IH]; intros st; [done|].
  simpl. intros [[He Hc]%andb_true_iff Hlog]%andb_true_iff Hst.
  apply IH; [done|]. by apply apply_command_typed.
Qed.
