(* ===== verification/LifeCycles.v ===== *)
(** * Life cycles of tasks, bundles and restores

    What a single command may do to a task that exists: tasks never
    disappear, and a status changes only along an edge of the transition
    table. *)

From Stdlib Require Import ZArith String.
From S2P Require Import Prelude Proto Models StateMachine MetadataInvariants StatsInvariant MetadataTheorems.

Local Open Scope stdpp_scope.

(** ** Frames: which tables a command leaves alone *)

Lemma refresh_frame e n st :
  archive_tasks (refresh_bucket_stats e n st) = archive_tasks st ∧
  recall_tasks (refresh_bucket_stats e n st) = recall_tasks st ∧
  archive_bundles (refresh_bucket_stats e n st) = archive_bundles st.
Proof. unfold refresh_bucket_stats. by repeat case_match. Qed.

Definition touches_archive_tasks (c : MetadataCommand) : bool :=
  match c with PutArchiveTask _ | UpdateArchiveTask _ => true | _ => false end.
Definition touches_recall_tasks (c : MetadataCommand) : bool :=
  match c with PutRecallTask _ | UpdateRecallTask _ => true | _ => false end.

Lemma tasks_frame e c st :
  (touches_archive_tasks c = false →
     archive_tasks (apply_command e c st).1 = archive_tasks st) ∧
  (touches_recall_tasks c = false →
     recall_tasks (apply_command e c st).1 = recall_tasks st).
Proof.
  destruct c; simpl.
  5:{ destruct (apply_CompleteArchiveObject e request st) as [st' r] eqn:E.
      apply CompleteArchiveObject_run in E
        as [(? & _ & ->)|(b & kk & o & _ & _ & _ & _ & _ & _ & ->)]; done. }
  all: unfold_branches.
  all: repeat case_match; simplify_eq/=; try done.
  all: match goal with
       | |- context [refresh_bucket_stats ?e ?n ?st] =>
           by destruct (refresh_frame e n st) as (-> & -> & _)
       end.
Qed.

(** ** One step of a task *)

Lemma archive_task_step e c st id t :
  archive_tasks st !! id = Some t →
  ∃ t', archive_tasks (apply_command e c st).1 !! id = Some t' ∧
    (t' = t ∨ validate_archive_task_transition t.(ArchiveTask.status)
                t'.(ArchiveTask.status) = Ok tt).
Proof.
  intros Ht. destruct (touches_archive_tasks c) eqn:Hc.
  2:{ exists t. rewrite (proj1 (tasks_frame e c st) Hc). auto. }
  destruct c; simplify_eq/=.
  - unfold apply_PutArchiveTask. run_action.
    match goal with |- context [archive_tasks st !! ?i] =>
      destruct (archive_tasks st !! i) eqn:E; simpl end.
    + destruct (is_same_archive_task _ _); simpl; eauto.
    + exists t. rewrite lookup_insert_ne by congruence. auto.
  - unfold apply_UpdateArchiveTask. run_action.
    destruct (archive_tasks st !! ArchiveTask.id task) as [cur|] eqn:E; simpl; [|eauto].
    destruct (validate_archive_task_transition _ _) as [[]|] eqn:Hv; simpl; [|eauto].
    rewrite lookup_insert. case_decide; [|eauto]. exists task. simplify_eq. auto.
Qed.

Lemma recall_task_step e c st id t :
  recall_tasks st !! id = Some t →
  ∃ t', recall_tasks (apply_command e c st).1 !! id = Some t' ∧
    (t' = t ∨ validate_restore_transition (Some t.(RecallTask.status))
                t'.(RecallTask.status) = Ok tt).
Proof.
  intros Ht. destruct (touches_recall_tasks c) eqn:Hc.
  2:{ exists t. rewrite (proj2 (tasks_frame e c st) Hc). auto. }
  destruct c; simplify_eq/=.
  - unfold apply_PutRecallTask. run_action.
    match goal with |- context [recall_tasks st !! ?i] =>
      destruct (recall_tasks st !! i) eqn:E; simpl end.
    + destruct (is_same_recall_task _ _); simpl; eauto.
    + exists t. rewrite lookup_insert_ne by congruence. auto.
  - unfold apply_UpdateRecallTask. run_action.
    destruct (recall_tasks st !! RecallTask.id task) as [cur|] eqn:E; simpl; [|eauto].
    destruct (validate_restore_transition _ _) as [[]|] eqn:Hv; simpl; [|eauto].
    rewrite lookup_insert. case_decide; [|eauto]. exists task. simplify_eq. auto.
Qed.

(** ** Transition tables *)

(** The edges a stored archive-task status can take, as the numbers of the
    protobuf enumeration: pending to in progress, in progress to completed or
    failed, failed back to pending, and any status of the enumeration out of
    its default 0, with which a task can be put. *)
Definition archive_edge (s s' : Z) : Prop :=
  (s, s') ∈ [(1, 2); (2, 3); (2, 4); (4, 1)]%Z ∨ (s = 0 ∧ 0 ≤ s' ≤ 4)%Z.

Lemma archive_try_from_Some s a :
  ArchiveTaskStatus.try_from s = Some a → s = ArchiveTaskStatus.as_i32 a.
Proof. unfold ArchiveTaskStatus.try_from. by repeat case_match; intros; simplify_eq. Qed.

Lemma archive_edge_of s s' :
  validate_archive_task_transition s s' = Ok tt → archive_edge s s'.
Proof.
  unfold validate_archive_task_transition.
  intros (a & Ha%ok_or_Ok & Hrest)%result_bind_Ok.
  apply result_bind_Ok in Hrest as (b & Hb%ok_or_Ok & Hv).
  pose proof (archive_try_from_Some _ _ Ha) as ->.
  pose proof (archive_try_from_Some _ _ Hb) as ->.
  unfold archive_edge. destruct a, b; simplify_eq/=; (right; lia) || (left; set_solver).
Qed.

(** C33: An archive task is never lost, and its status moves only from pending
    to in progress, from there to completed or failed, and from failed back to
    pending. A task can be put with the default status 0, and only that status
    can be left for any other. *)
Theorem archive_task_life_cycle (log : list (Env * MetadataCommand))
    (st : MetadataState) (id : string) (t : ArchiveTask.t) :
  archive_tasks st !! id = Some t →
  ∃ t', archive_tasks (apply_log log st) !! id = Some t' ∧
    rtc archive_edge t.(ArchiveTask.status) t'.(ArchiveTask.status).
Proof.
  intros Ht.
  apply (apply_log_invariant (λ st, ∃ t', archive_tasks st !! id = Some t' ∧
    rtc archive_edge t.(ArchiveTask.status) t'.(ArchiveTask.status))).
  - intros e c st' _ (t1 & Ht1 & Hpath).
    destruct (archive_task_step e c st' id t1 Ht1) as (t2 & Ht2 & [->|Hv]); [eauto|].
    exists t2. split; [done|]. eapply rtc_r; [done|]. by apply archive_edge_of.
  - exists t. split; [done|apply rtc_refl].
Qed.

Lemma archive_task_life_cycle_witness :
  ∃ st t', archive_tasks st !! "t1" = Some (Sample.archive_task 1) ∧
    archive_tasks (apply_log [(Sample.env 5, UpdateArchiveTask (Sample.archive_task 2))] st)
      !! "t1" = Some t' ∧
    rtc archive_edge 1%Z t'.(ArchiveTask.status).
Proof.
  set (st := set_archive_tasks {["t1" := Sample.archive_task 1]} default_state).
  destruct (archive_task_life_cycle
    [(Sample.env 5, UpdateArchiveTask (Sample.archive_task 2))] st "t1"
    (Sample.archive_task 1)) as (t' & Ht' & Hp); [reflexivity|].
  by exists st, t'.
Defined.

(** A completed archive task is final: no sequence of commands changes it. *)
Theorem completed_archive_task_is_final (log : list (Env * MetadataCommand))
    (st : MetadataState) (id : string) (t : ArchiveTask.t) :
  archive_tasks st !! id = Some t →
  t.(ArchiveTask.status) = ArchiveTaskStatus.as_i32 ArchiveTaskStatus.ArchiveTaskCompleted →
  archive_tasks (apply_log log st) !! id = Some t.
Proof.
  intros Ht Hs.
  apply (apply_log_invariant (λ st, archive_tasks st !! id = Some t)); [|done].
  intros e c st' _ Ht'.
  destruct (archive_task_step e c st' id t Ht') as (t2 & Ht2 & [->|Hv]); [done|].
  rewrite Hs in Hv. unfold validate_archive_task_transition in Hv. simpl in Hv.
  by destruct (ArchiveTaskStatus.try_from t2.(ArchiveTask.status)).
Qed.

Lemma completed_archive_task_is_final_witness :
  let st := set_archive_tasks {["t1" := Sample.archive_task 3]} default_state in
  archive_tasks (apply_log [(Sample.env 5, UpdateArchiveTask (Sample.archive_task 1));
      (Sample.env 6, PutArchiveTask (Sample.archive_task 1))] st) !! "t1"
    = Some (Sample.archive_task 3).
Proof. apply completed_archive_task_is_final; reflexivity. Defined.

(** Failed and expired recalls are final: once a recall task has reached
    either status no sequence of commands changes it. *)
Theorem terminal_recall_task_is_final (log : list (Env * MetadataCommand))
    (st : MetadataState) (id : string) (t : RecallTask.t) :
  recall_tasks st !! id = Some t →
  t.(RecallTask.status) = RestoreStatus.as_i32 RestoreStatus.RestoreFailed ∨
  t.(RecallTask.status) = RestoreStatus.as_i32 RestoreStatus.RestoreExpired →
  recall_tasks (apply_log log st) !! id = Some t.
Proof.
  intros Ht Hs.
  apply (apply_log_invariant (λ st, recall_tasks st !! id = Some t)); [|done].
  intros e c st' _ Ht'.
  destruct (recall_task_step e c st' id t Ht') as (t2 & Ht2 & [->|Hv]); [done|].
  unfold validate_restore_transition in Hv. destruct Hs as [Hs|Hs]; rewrite Hs in Hv;
    simpl in Hv; by destruct (RestoreStatus.try_from t2.(RecallTask.status)).
Qed.

Lemma terminal_recall_task_is_final_witness :
  let st := set_recall_tasks {["r1" := Sample.recall_task 6]} default_state in
  recall_tasks (apply_log [(Sample.env 5, UpdateRecallTask (Sample.recall_task 1));
      (Sample.env 6, PutRecallTask (Sample.recall_task 1))] st) !! "r1"
    = Some (Sample.recall_task 6).
Proof. apply terminal_recall_task_is_final; [reflexivity|left; reflexivity]. Defined.

(** On the states of the domain model, the transition checks of the state
    machine for archive tasks and bundles accept exactly the moves of the
    domain model's own tables. *)
Theorem archive_tables_agree :
  (∀ a b, is_ok (validate_archive_task_transition
      (ArchiveTaskStatus.as_i32 (task_to_proto a))
      (ArchiveTaskStatus.as_i32 (task_to_proto b)))
    = Models.task_can_transition_to a b) ∧
  (∀ a b, is_ok (validate_archive_bundle_transition
      (ArchiveBundleStatus.as_i32 (bundle_to_proto a))
      (ArchiveBundleStatus.as_i32 (bundle_to_proto b)))
    = Models.bundle_can_transition_to a b).
Proof. split; intros [] []; reflexivity. Qed.

(** The restore check of the state machine and the table of the domain
    model differ in exactly one move: the state machine lets a restore that
    waits for media go straight to in-progress, the domain model only back to
    pending. *)
Theorem restore_tables_differ_in_one_move (a b : Models.RestoreStatus) :
  is_ok (validate_restore_transition
      (Some (RestoreStatus.as_i32 (restore_to_proto a)))
      (RestoreStatus.as_i32 (restore_to_proto b)))
    = Models.restore_can_transition_to a b
      || match a, b with
         | Models.RWaitingForMedia, Models.RInProgress => true
         | _, _ => false
         end.
Proof. destruct a, b; reflexivity. Qed.
