(* ===== verification/ObjectTheorems.v ===== *)
(** * Objects under the command log

    What [apply_command] does to one stored object: its content changes only
    through a put or a delete of that very key, its restore status only along
    the transition table; which version a lookup without a version id picks;
    and exactly when an archive completion is accepted. *)

From Stdlib Require Import ZArith String.
From S2P Require Import Prelude Proto StateMachine MetadataInvariants StatsInvariant MetadataTheorems.

Local Open Scope stdpp_scope.

(** The part of an object record that describes the stored bytes. *)
Definition content (o : ObjectMetadata.t) :=
  (object_key o, o.(ObjectMetadata.size), o.(ObjectMetadata.checksum),
   o.(ObjectMetadata.content_type), o.(ObjectMetadata.etag),
   o.(ObjectMetadata.created_at)).

(** The two commands that replace or remove the entry of [k]. *)
Definition replaces (c : MetadataCommand) (k : ObjectKey.t) : bool :=
  match c with
  | PutObject o => object_key o == k
  | DeleteObject r =>
      ObjectKey.new r.(DeleteObjectRequest.bucket) r.(DeleteObjectRequest.key) None == k
  | _ => false
  end.

Definition restore_edge (s s' : option Z) : Prop :=
  ∃ next, s' = Some next ∧ validate_restore_transition s next = Ok tt.

(** [o'] is what one command may make of [o]. *)
Definition object_evolves (o o' : ObjectMetadata.t) : Prop :=
  content o' = content o ∧
  (o'.(ObjectMetadata.restore_status) = o.(ObjectMetadata.restore_status) ∨
   restore_edge o.(ObjectMetadata.restore_status) o'.(ObjectMetadata.restore_status)).

Lemma object_evolves_refl o : object_evolves o o.
Proof. split; auto. Qed.
#[export] Hint Resolve object_evolves_refl : coldstore.

(** Overwriting the entry found by [find_object_mut]. *)
Lemma write_found_evolves (m : gmap ObjectKey.t ObjectMetadata.t) k o kk o1 o2 :
  m !! k = Some o → m !! kk = Some o1 → object_evolves o1 o2 →
  ∃ o', <[kk := o2]> m !! k = Some o' ∧ object_evolves o o'.
Proof.
  intros Hk Hkk Hev. rewrite lookup_insert. case_decide; simplify_eq; eauto with coldstore.
Qed.

Ltac solve_object_update :=
  match goal with
  | |- context [find_object_mut ?e ?st ?b ?k ?v] =>
      let Hm := fresh "Hm" in let Ho := fresh "Hkk" in
      destruct (find_object_mut e st b k v) as [[]|] eqn:Hm; simpl; [|by eauto with coldstore];
      apply find_object_mut_lookup in Hm as (Ho & _)
  end.

Lemma PutObject_objects e o st :
  objects (apply_PutObject e o st).1 = objects st ∨
  ∃ o', object_key o' = object_key o ∧
    objects (apply_PutObject e o st).1 = <[object_key o := o']> (objects st).
Proof.
  unfold_branches. destruct (contains_key _ _); simpl; [right|by left].
  rewrite refresh_bucket_stats_objects; simpl. destruct (_ == None); (eexists; split; [|reflexivity]; done).
Qed.

Lemma object_step e c st k o :
  objects st !! k = Some o → replaces c k = false →
  ∃ o', objects (apply_command e c st).1 !! k = Some o' ∧ object_evolves o o'.
Proof.
  intros Hk Hc. destruct c; simpl in *.
  1:{ apply bool_decide_eq_false in Hc.
      destruct (PutObject_objects e object st) as [->|(o' & _ & ->)];
        rewrite ?lookup_insert_ne by done; eauto with coldstore. }
  1:{ apply bool_decide_eq_false in Hc. unfold_branches.
      destruct (objects st !! ObjectKey.new _ _ _); simpl;
        rewrite ?refresh_bucket_stats_objects; simpl;
        rewrite lookup_delete_ne by done; eauto with coldstore. }
  3:{ destruct (apply_CompleteArchiveObject e request st) as [st' r] eqn:E.
      apply CompleteArchiveObject_run in E
        as [(? & _ & ->)|(b & kk & o1 & -> & _ & _ & Hm & _ & _ & ->)];
        [by eauto with coldstore|].
      apply find_object_mut_lookup in Hm as (Hkk & _).
      eapply write_found_evolves; [done|exact Hkk|split; auto]. }
  all: unfold_branches.
  1-2: solve_object_update; eapply write_found_evolves; [done|exact Hkk|split; auto].
  1:{ solve_object_update. destruct (validate_restore_transition _ _) as [[]|] eqn:Hv; simpl;
        [|by eauto with coldstore].
      eapply write_found_evolves; [done|exact Hkk|split; [done|]].
      right. eexists. split; [done|exact Hv]. }
  all: repeat case_match; simplify_eq/=; eauto with coldstore.
Qed.

(** C32: Along any log, an object whose key is neither put again nor deleted
    keeps its bytes' description (identity, size, checksum, content type,
    entity tag, creation time), and its restore status has moved only along
    accepted transitions. *)
Theorem object_content_immutable (log : list (Env * MetadataCommand))
    (st : MetadataState) (k : ObjectKey.t) (o : ObjectMetadata.t) :
  objects st !! k = Some o →
  Forall (λ ec, replaces ec.2 k = false) log →
  ∃ o', objects (apply_log log st) !! k = Some o' ∧ content o' = content o ∧
    rtc restore_edge o.(ObjectMetadata.restore_status) o'.(ObjectMetadata.restore_status).
Proof.
  intros Hk Hlog. rewrite Forall_forall in Hlog.
  apply (apply_log_invariant (λ st, ∃ o', objects st !! k = Some o' ∧ content o' = content o ∧
    rtc restore_edge o.(ObjectMetadata.restore_status) o'.(ObjectMetadata.restore_status))).
  - intros e c st' Hin (o1 & Hk1 & Hc1 & Hp1).
    destruct (object_step e c st' k o1 Hk1 (Hlog _ Hin)) as (o2 & Hk2 & Hc2 & Hr2).
    exists o2. split_and!; [done|congruence|].
    destruct Hr2 as [->|Hr2]; [done|]. by eapply rtc_r.
  - exists o. split_and!; [done..|apply rtc_refl].
Qed.

Lemma object_content_immutable_witness :
  ∃ o', objects (apply_log
      [(Sample.env 7, CompleteArchiveObject Sample.complete);
       (Sample.env 8, UpdateRestoreStatus (UpdateRestoreStatusRequest.mk "docs" "a" 1 None))]
      (apply_log Sample.log default_state)) !! ObjectKey.new "docs" "a" None = Some o' ∧
    o'.(ObjectMetadata.size) = 5%Z.
Proof.
  destruct (object_content_immutable
    [(Sample.env 7, CompleteArchiveObject Sample.complete);
     (Sample.env 8, UpdateRestoreStatus (UpdateRestoreStatusRequest.mk "docs" "a" 1 None))]
    (apply_log Sample.log default_state) (ObjectKey.new "docs" "a" None)
    (ObjectMetadata.mk "docs" "a" None 5 "sum" None None 1 None None [] None None None
      (Some (Timestamp.mk 2 0)) (Some (Timestamp.mk 2 0)))) as (o' & Ho' & Hc & _).
  - vm_compute; reflexivity.
  - repeat constructor.
  - exists o'. split; [exact Ho'|]. injection Hc as _ _ Hs. congruence.
Defined.

(** ** Which version a lookup picks *)

Definition updated (o : ObjectMetadata.t) : Z * Z :=
  timestamp_sort_key o.(ObjectMetadata.updated_at).

Definition version_of (st : MetadataState) (b k : string) (o : ObjectMetadata.t) : Prop :=
  ∃ v, objects st !! ObjectKey.new b k v = Some o.

Lemma version_of_candidate e st b k kk o :
  (kk, o) ∈ List.filter (λ kv, (kv.1.(ObjectKey.bucket) == b) && (kv.1.(ObjectKey.key) == k))
      (hm_iter (order e) (objects st)) →
  version_of st b k o.
Proof.
  rewrite elem_of_Lfilter, elem_of_hm_iter. intros [Hl Hm]; simpl in *.
  apply andb_true_iff in Hm as [<-%bool_decide_eq_true <-%bool_decide_eq_true].
  exists kk.(ObjectKey.version_id). by destruct kk.
Qed.

Lemma candidate_version_of e st b k o :
  version_of st b k o →
  ∃ kk, (kk, o) ∈ List.filter
      (λ kv, (kv.1.(ObjectKey.bucket) == b) && (kv.1.(ObjectKey.key) == k))
      (hm_iter (order e) (objects st)).
Proof.
  intros [v Hv]. exists (ObjectKey.new b k v).
  rewrite elem_of_Lfilter, elem_of_hm_iter. split; [done|].
  by rewrite andb_true_iff, !bool_decide_eq_true.
Qed.

Lemma find_object_Ok e st b k o :
  find_object e st b k None = Ok o →
  version_of st b k o ∧
  ∀ o', version_of st b k o' → cmp_le ts_cmp (updated o') (updated o).
Proof.
  unfold find_object. rewrite ok_or_Ok. destruct (max_by _ _) as [[kk o1]|] eqn:E; [|done].
  intros [= ->].
  apply (max_by_Some _) in E as [Hin Hmax]. split; [by eapply version_of_candidate|].
  intros o' (kk' & Hk')%(candidate_version_of e). by apply (Hmax (kk', o')).
Qed.

(** A lookup without a version id returns a stored version of the key, and
    one that no stored version is newer than; it fails with [NotFound] exactly
    when the key has no version. *)
Theorem find_object_newest (e : Env) (st : MetadataState) (b k : string) :
  match find_object e st b k None with
  | Ok o => version_of st b k o ∧
      ∀ o', version_of st b k o' → cmp_le ts_cmp (updated o') (updated o)
  | Err err => err = not_found "object not found" ∧ ∀ o, ¬ version_of st b k o
  end.
Proof.
  destruct (find_object e st b k None) as [o|err] eqn:E; [by eapply find_object_Ok|].
  unfold find_object in E. destruct (max_by _ _) eqn:Emax; [done|].
  injection E as <-. split; [done|]. intros o (kk & Hk)%(candidate_version_of e).
  apply max_by_None in Emax. rewrite Emax in Hk. by apply elem_of_nil in Hk.
Qed.

Lemma PutObject_Ok e o st :
  is_Some (buckets st !! o.(ObjectMetadata.bucket)) →
  ∃ o', (apply_PutObject e o st).2 = Ok tt ∧
    objects (apply_PutObject e o st).1 = <[object_key o := o']> (objects st) ∧
    o' = ObjectMetadata.set_updated_at (Some (now_timestamp e))
      (if o.(ObjectMetadata.created_at) == None
       then ObjectMetadata.set_created_at (Some (now_timestamp e)) o else o).
Proof.
  intros Hb%contains_key_true. unfold_branches. rewrite Hb; simpl.
  rewrite refresh_bucket_stats_objects; simpl.
  eexists. split_and!; [done| |done]. by destruct (_ == None).
Qed.

(** Read your writes. A put into an existing bucket at a time later than
    every stored version of its key succeeds, and a lookup without a version id
    then returns the object that was put, stamped with that time. *)
Theorem put_then_find (e e' : Env) (st : MetadataState) (o : ObjectMetadata.t) :
  is_Some (buckets st !! o.(ObjectMetadata.bucket)) →
  (∀ o', version_of st o.(ObjectMetadata.bucket) o.(ObjectMetadata.key) o' →
     ts_cmp (updated o') (now e, 0%Z) = Lt) →
  ∃ st' o', apply_command e (PutObject o) st = (st', Ok tt) ∧
    find_object e' st' o.(ObjectMetadata.bucket) o.(ObjectMetadata.key) None = Ok o' ∧
    o' = ObjectMetadata.set_updated_at (Some (now_timestamp e))
      (if o.(ObjectMetadata.created_at) == None
       then ObjectMetadata.set_created_at (Some (now_timestamp e)) o else o).
Proof.
  intros Hb Hold. simpl. destruct (PutObject_Ok e o st Hb) as (o' & Hr & Hst & Ho').
  destruct (apply_PutObject e o st) as [st' r]; simplify_eq/=. eexists st', _.
  split; [done|]. split; [|done].
  pose proof (find_object_newest e' st' o.(ObjectMetadata.bucket) o.(ObjectMetadata.key)) as Hf.
  set (new := ObjectMetadata.set_updated_at _ _) in *.
  assert (Hnew : version_of st' o.(ObjectMetadata.bucket) o.(ObjectMetadata.key) new).
  { exists o.(ObjectMetadata.version_id). rewrite Hst. apply lookup_insert_eq. }
  destruct (find_object e' st' _ _ None) as [found|]; [|by destruct Hf as [_ []%(λ H, H new)]].
  destruct Hf as [[v Hv] Hmax]. rewrite Hst, lookup_insert in Hv.
  case_decide; [congruence|].
  pose proof (Hold found (ex_intro _ v Hv)) as Hlt. specialize (Hmax new Hnew).
  assert (updated new = (now e, 0%Z)) as Hu by done.
  exfalso. apply Hmax. rewrite Hu, (cmp_sym (cmp := ts_cmp) (updated found)), Hlt. done.
Qed.

Lemma version_forall (P : ObjectMetadata.t → Prop) st b k o :
  Forall (λ kv, P kv.2) (map_to_list (objects st)) → version_of st b k o → P o.
Proof.
  rewrite Forall_forall. intros HP [v Hv%elem_of_map_to_list]. by apply (HP _ Hv).
Qed.

Lemma put_then_find_witness :
  ∃ st' o', apply_command (Sample.env 9) (PutObject (Sample.object "a" 6))
      (apply_log Sample.log default_state) = (st', Ok tt) ∧
    find_object (Sample.env 10) st' "docs" "a" None = Ok o' ∧
    o'.(ObjectMetadata.size) = 6%Z.
Proof.
  destruct (put_then_find (Sample.env 9) (Sample.env 10) (apply_log Sample.log default_state)
    (Sample.object "a" 6)) as (st' & o' & H1 & H2 & H3).
  - vm_compute. eauto.
  - intros o'. apply (version_forall (λ o', ts_cmp (updated o') (9, 0)%Z = Lt)). vm_compute. repeat constructor.
  - exists st', o'. split; [exact H1|split; [exact H2|by subst o']].
Defined.

(** ** Archive completion *)

(** The generation check of an archive completion. *)
Definition same_generation (o : ObjectMetadata.t) (r : CompleteArchiveObjectRequest.t) : Prop :=
  r.(CompleteArchiveObjectRequest.version_id) = o.(ObjectMetadata.version_id) ∧
  r.(CompleteArchiveObjectRequest.expected_size) = Some o.(ObjectMetadata.size) ∧
  r.(CompleteArchiveObjectRequest.expected_checksum) = Some o.(ObjectMetadata.checksum) ∧
  r.(CompleteArchiveObjectRequest.expected_storage_class)
    = Some o.(ObjectMetadata.storage_class) ∧
  r.(CompleteArchiveObjectRequest.expected_updated_at) = o.(ObjectMetadata.updated_at) ∧
  o.(ObjectMetadata.updated_at) ≠ None.

Lemma preconditions_iff o r :
  validate_complete_archive_preconditions o r = Ok tt ↔ same_generation o r.
Proof.
  unfold validate_complete_archive_preconditions, same_generation. split.
  - intros [Hv H]%guard_eq_Ok.
    apply result_bind_Ok in H as (sz & Hsz%ok_or_Ok & [Hs H]%guard_eq_Ok).
    apply result_bind_Ok in H as (sum & Hsum%ok_or_Ok & [Hc H]%guard_eq_Ok).
    apply result_bind_Ok in H as (cls & Hcls%ok_or_Ok & [Hcl H]%guard_eq_Ok).
    case_bool_decide as Hn; [done|]. apply guard_eq_Ok in H as [Hu _].
    split_and!; congruence.
  - intros (Hv & Hs & Hc & Hcl & Hu & Hn). rewrite Hv, Hs, Hc, Hcl, Hu; simpl.
    rewrite !bool_decide_eq_true_2 by done; simpl.
    rewrite bool_decide_eq_false_2 by done. by rewrite bool_decide_eq_true_2.
Qed.

Definition archived (e : Env) (r : CompleteArchiveObjectRequest.t) (b : ArchiveBundle.t)
    (o : ObjectMetadata.t) : ObjectMetadata.t :=
  ObjectMetadata.mk o.(ObjectMetadata.bucket) o.(ObjectMetadata.key)
    o.(ObjectMetadata.version_id) o.(ObjectMetadata.size) o.(ObjectMetadata.checksum)
    o.(ObjectMetadata.content_type) o.(ObjectMetadata.etag)
    r.(CompleteArchiveObjectRequest.storage_class)
    (Some b.(ArchiveBundle.id)) (Some b.(ArchiveBundle.tape_id)) b.(ArchiveBundle.tape_set)
    (Some r.(CompleteArchiveObjectRequest.tape_block_offset))
    o.(ObjectMetadata.restore_status) o.(ObjectMetadata.restore_expire_at)
    o.(ObjectMetadata.created_at) (Some (now_timestamp e)).

(** What makes a completion succeed, and what it then does *)
Definition completes (e : Env) (r : CompleteArchiveObjectRequest.t) (st st' : MetadataState) : Prop :=
  ∃ b kk o,
    r.(CompleteArchiveObjectRequest.bundle) = Some b ∧ b.(ArchiveBundle.id) ≠ "" ∧
    find_object_mut e st r.(CompleteArchiveObjectRequest.bucket)
      r.(CompleteArchiveObjectRequest.key) r.(CompleteArchiveObjectRequest.version_id)
      = Ok (kk, o) ∧
    same_generation o r ∧
    (archive_bundles st !! b.(ArchiveBundle.id) = Some b ∨
     archive_bundles st !! b.(ArchiveBundle.id) = None) ∧
    st' = set_objects (<[kk := archived e r b o]> (objects st))
      (set_archive_bundles (<[b.(ArchiveBundle.id) := b]> (archive_bundles st)) st).
Lemma completes_accepted e r st st' :
  completes e r st st' → apply_command e (CompleteArchiveObject r) st = (st', Ok tt).
Proof.
  simpl. intros (b & kk & o & Hb & Hid & Hf & Hv%preconditions_iff & Hbun & ->).
  destruct (apply_CompleteArchiveObject e r st) as [st1 r1] eqn:E.
  pose proof (find_object_agrees e st r.(CompleteArchiveObjectRequest.bucket)
    r.(CompleteArchiveObjectRequest.key) r.(CompleteArchiveObjectRequest.version_id)) as Ha.
  rewrite Hf in Ha; simpl in Ha.
  pose proof (CompleteArchiveObject_run _ _ _ _ _ E)
    as [(err & -> & _)|(b' & kk' & o' & -> & Hb' & _ & Hf' & _ & _ & ->)].
  - exfalso. unfold apply_CompleteArchiveObject in E. run_action.
    rewrite Hb in E; simpl in E. rewrite bool_decide_eq_false_2 in E by done.
    rewrite Ha in E. rewrite Hv in E. destruct Hbun as [Hbun|Hbun]; rewrite Hbun in E; simpl in E.
    + rewrite bool_decide_eq_true_2 in E by done. simpl in E. by rewrite Hf in E.
    + change (find_object_mut e (set_archive_bundles ?v st)) with (find_object_mut e st) in E.
      by rewrite Hf in E.
  - rewrite Hb' in Hb. rewrite Hf' in Hf. by simplify_eq.
Qed.

(** C18: An archive completion succeeds exactly when it names a bundle with an
    id, finds the object, every field of its expected generation (version,
    size, checksum, storage class, update time) is the stored one, and the
    bundle is new or already stored as it is; it then stores the bundle and
    moves the object to its place on tape, and changes nothing else. *)
Theorem complete_archive_spec (e : Env) (r : CompleteArchiveObjectRequest.t)
    (st st' : MetadataState) :
  apply_command e (CompleteArchiveObject r) st = (st', Ok tt) ↔
  completes e r st st'.
Proof.
  split; [|apply completes_accepted].
  intros [(? & [=] & _)|(b & kk & o & _ & Hb & Hid & Hf & Hv & Hbun & ->)]
    %CompleteArchiveObject_run.
  apply preconditions_iff in Hv. exists b, kk, o. auto 10.
Qed.
