(* ===== verification/Snapshot.v ===== *)
(** * Metadata snapshots

    The snapshot codec of [src/crates/metadata/src/state_machine.rs]:
    [encode_snapshot], [decode_snapshot], [write_messages], [read_messages],
    [read_u64], and the atomic file replacement of [save_snapshot]. The
    protobuf codec ([prost::Message]) is code outside the repository: an
    interface, with the one law the snapshot relies on. *)

From Stdlib Require Import ZArith String Ascii.
From S2P Require Import Prelude Proto StateMachine MetadataInvariants MetadataTheorems TypedState.

Local Open Scope stdpp_scope.

(** ** The protobuf interface *)

(** [prost::Message]: [encode_to_vec] and [decode], with its decode error as
    text. A byte is a [Z]. *)
Class Message (M : Type) := {
  encode_to_vec : M → list Z;
  decode_message : list Z → result string M;
}.

(** What the documentation of [prost] promises: decoding an encoded message,
    whose fields have values of their types, gives the message back. *)
Class MessageLaw (M : Type) `{Message M} `{Typed M} : Prop :=
  message_roundtrip (m : M) : typed m = true → decode_message (encode_to_vec m) = Ok m.

(** The messages a snapshot holds. *)
Class Prost := {
  prost_object :: Message ObjectMetadata.t;
  prost_bucket :: Message BucketInfo.t;
  prost_bundle :: Message ArchiveBundle.t;
  prost_archive_task :: Message ArchiveTask.t;
  prost_recall_task :: Message RecallTask.t;
  prost_tape :: Message TapeInfo.t;
  prost_scheduler_worker :: Message SchedulerWorkerInfo.t;
  prost_cache_worker :: Message CacheWorkerInfo.t;
  prost_tape_worker :: Message TapeWorkerInfo.t;
}.
Class ProstLaws `{Prost} : Prop := {
  prost_object_law :: MessageLaw ObjectMetadata.t;
  prost_bucket_law :: MessageLaw BucketInfo.t;
  prost_bundle_law :: MessageLaw ArchiveBundle.t;
  prost_archive_task_law :: MessageLaw ArchiveTask.t;
  prost_recall_task_law :: MessageLaw RecallTask.t;
  prost_tape_law :: MessageLaw TapeInfo.t;
  prost_scheduler_worker_law :: MessageLaw SchedulerWorkerInfo.t;
  prost_cache_worker_law :: MessageLaw CacheWorkerInfo.t;
  prost_tape_worker_law :: MessageLaw TapeWorkerInfo.t;
}.

(** ** The codec *)

Fixpoint bytes_of_string (s : string) : list Z :=
  match s with
  | EmptyString => []
  | String c s => Z.of_N (N_of_ascii c) :: bytes_of_string s
  end.

Definition SNAPSHOT_MAGIC : list Z :=
  bytes_of_string (String.append "COLDMETA2" (String "010"%char EmptyString)).
Definition MAX_SNAPSHOT_MESSAGES_PER_SECTION : Z := 1000000.
Definition MAX_SNAPSHOT_MESSAGE_BYTES : Z := 64 * 1024 * 1024.

Definition read_u64 (cursor : list Z) : result string (Z * list Z) :=
  if (length cursor <? 8)%nat then Err "truncated metadata snapshot header"
  else Ok (from_le_bytes (take 8 cursor), drop 8 cursor).

#[global] Arguments read_u64 : simpl never.

Section messages.
Context {M : Type} `{Message M}.

Definition frame (message : list Z) : list Z :=
  to_le_bytes (Z.of_nat (length message)) ++ message.

Definition write_messages (out : list Z) (messages : list M) : list Z :=
  let encoded := encode_to_vec <$> messages in
  foldl (λ out message, out ++ frame message)
    (out ++ to_le_bytes (Z.of_nat (length encoded))) encoded.

(** The loop of [read_messages], [n] iterations left. *)
Fixpoint read_loop (n : nat) (cursor : list Z) : result string (list M * list Z) :=
  match n with
  | O => Ok ([], cursor)
  | S n =>
      '(len, cursor) ← read_u64 cursor;
      if (MAX_SNAPSHOT_MESSAGE_BYTES <? len)%Z
      then Err "metadata snapshot message is too large" else
      if (Z.of_nat (length cursor) <? len)%Z
      then Err "truncated metadata snapshot message" else
      message ← decode_message (take (Z.to_nat len) cursor);
      '(messages, cursor) ← read_loop n (drop (Z.to_nat len) cursor);
      Ok (message :: messages, cursor)
  end.

Definition read_messages (cursor : list Z) : result string (list M * list Z) :=
  '(count, cursor) ← read_u64 cursor;
  if (MAX_SNAPSHOT_MESSAGES_PER_SECTION <? count)%Z
  then Err "metadata snapshot section contains too many messages"
  else read_loop (Z.to_nat count) cursor.
End messages.
#[global] Arguments read_messages : simpl never.
#[global] Arguments write_messages : simpl never.

Section codec.
Context `{Prost}.

Definition encode_snapshot (h : hash_order) (state : MetadataState) : list Z :=
  let out := SNAPSHOT_MAGIC in
  let out := write_messages out (hm_values h (objects state)) in
  let out := write_messages out (hm_values h (buckets state)) in
  let out := write_messages out (hm_values h (archive_bundles state)) in
  let out := write_messages out (hm_values h (archive_tasks state)) in
  let out := write_messages out (hm_values h (recall_tasks state)) in
  let out := write_messages out (hm_values h (tapes state)) in
  let out := write_messages out (hm_values h (scheduler_workers state)) in
  let out := write_messages out (hm_values h (cache_workers state)) in
  write_messages out (hm_values h (tape_workers state)).

Definition decode_snapshot (bytes : list Z) : result string MetadataState :=
  if negb (starts_with bytes SNAPSHOT_MAGIC)
  then Err "invalid metadata snapshot magic" else
  let cursor := drop (length SNAPSHOT_MAGIC) bytes in
  '(objects, cursor) ← read_messages (M := ObjectMetadata.t) cursor;
  '(buckets, cursor) ← read_messages (M := BucketInfo.t) cursor;
  '(archive_bundles, cursor) ← read_messages (M := ArchiveBundle.t) cursor;
  '(archive_tasks, cursor) ← read_messages (M := ArchiveTask.t) cursor;
  '(recall_tasks, cursor) ← read_messages (M := RecallTask.t) cursor;
  '(tapes, cursor) ← read_messages (M := TapeInfo.t) cursor;
  '(scheduler_workers, cursor) ← read_messages (M := SchedulerWorkerInfo.t) cursor;
  '(cache_workers, cursor) ← read_messages (M := CacheWorkerInfo.t) cursor;
  '(tape_workers, cursor) ← read_messages (M := TapeWorkerInfo.t) cursor;
  if cursor != [] then Err "trailing bytes in metadata snapshot" else
  Ok (mkState
    (collect_by object_key objects)
    (collect_by BucketInfo.name buckets)
    (collect_by ArchiveBundle.id archive_bundles)
    (collect_by ArchiveTask.id archive_tasks)
    (collect_by RecallTask.id recall_tasks)
    (collect_by TapeInfo.id tapes)
    (collect_by SchedulerWorkerInfo.node_id scheduler_workers)
    (collect_by CacheWorkerInfo.node_id cache_workers)
    (collect_by TapeWorkerInfo.node_id tape_workers)).
End codec.

(** ** Sections *)

Lemma read_u64_app z rest :
  is_u64 z → read_u64 (to_le_bytes z ++ rest) = Ok (z, rest).
Proof.
  intros Hz. unfold read_u64.
  assert (length (to_le_bytes z) = 8%nat) as Hlen by apply length_le_bytes.
  rewrite length_app, Hlen. simpl (_ <? _)%nat.
  rewrite take_app_length', drop_app_length' by done. by rewrite from_to_le_bytes.
Qed.

Section section_lemmas.
Context {M : Type} `{MessageLaw M}.
Implicit Types (ms : list M).

Definition encoded_len (m : M) : Z := Z.of_nat (length (encode_to_vec m)).

(** What [read_messages] accepts. *)
Definition section_ok ms : Prop :=
  (Z.of_nat (length ms) ≤ MAX_SNAPSHOT_MESSAGES_PER_SECTION)%Z ∧
  Forall (λ m, encoded_len m ≤ MAX_SNAPSHOT_MESSAGE_BYTES)%Z ms.

Definition typed_section ms : Prop := Forall (λ m, typed m = true) ms.

(** What fits in the address space of the process that encodes it. *)
Definition addressable ms : Prop :=
  is_u64 (Z.of_nat (length ms)) ∧ Forall (λ m, is_u64 (encoded_len m)) ms.

Definition frames ms : list Z := concat (frame <$> (encode_to_vec <$> ms)).

Lemma write_messages_eq out ms :
  write_messages out ms = out ++ to_le_bytes (Z.of_nat (length ms)) ++ frames ms.
Proof.
  unfold write_messages, frames. by rewrite length_fmap, foldl_app_concat, app_assoc.
Qed.

Lemma section_ok_dec ms : {section_ok ms} + {¬ section_ok ms}.
Proof.
  unfold section_ok. apply and_dec; [apply Z_le_dec|].
  apply Forall_dec. intros m. apply Z_le_dec.
Qed.

Lemma frames_cons m ms : frames (m :: ms) = frame (encode_to_vec m) ++ frames ms.
Proof. done. Qed.

Lemma read_loop_S n cursor :
  read_loop (M := M) (S n) cursor =
    ('(len, cursor) ← read_u64 cursor;
     if (MAX_SNAPSHOT_MESSAGE_BYTES <? len)%Z
     then Err "metadata snapshot message is too large" else
     if (Z.of_nat (length cursor) <? len)%Z
     then Err "truncated metadata snapshot message" else
     message ← decode_message (take (Z.to_nat len) cursor);
     '(messages, cursor) ← read_loop n (drop (Z.to_nat len) cursor);
     Ok (message :: messages, cursor)).
Proof. done. Qed.

Lemma read_loop_cons m ms rest :
  typed m = true → is_u64 (encoded_len m) →
  read_loop (length (m :: ms)) (frames (m :: ms) ++ rest) =
    if (MAX_SNAPSHOT_MESSAGE_BYTES <? encoded_len m)%Z
    then Err "metadata snapshot message is too large" else
    '(messages, cursor) ← read_loop (length ms) (frames ms ++ rest);
    Ok (m :: messages, cursor).
Proof using All.
  intros Ht Hm. rewrite frames_cons. cbn [length]. rewrite read_loop_S. unfold frame.
  rewrite <-!app_assoc, read_u64_app by done. unfold mbind at 1, result_bind at 1.
  fold (encoded_len m). destruct (_ <? _)%Z; [done|].
  rewrite length_app, Nat2Z.inj_add. fold (encoded_len m).
  destruct (Z.ltb_spec (encoded_len m + Z.of_nat (length (frames ms ++ rest)))
    (encoded_len m)); [lia|].
  unfold encoded_len. rewrite Nat2Z.id, take_app_length, drop_app_length.
  by rewrite message_roundtrip.
Qed.

Lemma read_loop_ok ms rest :
  typed_section ms → Forall (λ m, encoded_len m ≤ MAX_SNAPSHOT_MESSAGE_BYTES)%Z ms →
  read_loop (length ms) (frames ms ++ rest) = Ok (ms, rest).
Proof using All.
  intros Ht Hms. induction Hms as [|m ms Hm _ IH]; [done|].
  apply Forall_cons in Ht as [Hmt Ht].
  assert (is_u64 (encoded_len m)).
  { unfold is_u64, u64_MAX, encoded_len, MAX_SNAPSHOT_MESSAGE_BYTES in *. lia. }
  rewrite read_loop_cons, IH by done. by rewrite (proj2 (Z.ltb_ge _ _) Hm).
Qed.

Lemma read_loop_too_large ms rest :
  typed_section ms → Forall (λ m, is_u64 (encoded_len m)) ms →
  ¬ Forall (λ m, encoded_len m ≤ MAX_SNAPSHOT_MESSAGE_BYTES)%Z ms →
  ∃ err, read_loop (M := M) (length ms) (frames ms ++ rest) = Err err.
Proof using All.
  intros Ht Hms. induction Hms as [|m ms Hm _ IH]; intros Hno; [by destruct Hno|].
  apply Forall_cons in Ht as [Hmt Ht].
  rewrite read_loop_cons by done. case_match eqn:Hlt; [by eauto|].
  apply Z.ltb_ge in Hlt. destruct IH as [err ->]; [done| |by eauto].
  intros Hall. apply Hno. by constructor.
Qed.

Definition section_bytes ms : list Z := to_le_bytes (Z.of_nat (length ms)) ++ frames ms.

Lemma read_section ms rest :
  is_u64 (Z.of_nat (length ms)) →
  read_messages (section_bytes ms ++ rest) =
    if (MAX_SNAPSHOT_MESSAGES_PER_SECTION <? Z.of_nat (length ms))%Z
    then Err "metadata snapshot section contains too many messages"
    else read_loop (length ms) (frames ms ++ rest).
Proof using All.
  intros Hms. unfold read_messages, section_bytes. rewrite <-app_assoc.
  rewrite read_u64_app by done. unfold mbind, result_bind. by rewrite Nat2Z.id.
Qed.

Lemma read_section_ok ms rest :
  typed_section ms → section_ok ms → read_messages (section_bytes ms ++ rest) = Ok (ms, rest).
Proof using All.
  intros Ht [Hn Hms]. rewrite read_section.
  - rewrite (proj2 (Z.ltb_ge _ _) Hn). by apply read_loop_ok.
  - unfold is_u64, u64_MAX, MAX_SNAPSHOT_MESSAGES_PER_SECTION in *. lia.
Qed.

Lemma read_section_err ms rest :
  typed_section ms → addressable ms → ¬ section_ok ms →
  ∃ err, read_messages (M := M) (section_bytes ms ++ rest) = Err err.
Proof using All.
  intros Ht [Hn Hms] Hno. rewrite read_section by done.
  case_match eqn:Hlt; [by eauto|]. apply Z.ltb_ge in Hlt.
  apply read_loop_too_large; [done..|]. intros Hall. by apply Hno.
Qed.
End section_lemmas.

(** ** Truncated input *)

Lemma prefix_app_case {A} (p a b : list A) :
  p `prefix_of` a ++ b →
  (∃ p', p = a ++ p' ∧ p' `prefix_of` b) ∨ (length p < length a)%nat ∧ p `prefix_of` a.
Proof.
  revert p. induction a as [|x a IH]; intros p Hp; [left; by exists p|].
  destruct p as [|y p]; [right; split; [simpl; lia|apply prefix_nil]|].
  change ((x :: a) ++ b) with (x :: (a ++ b)) in Hp.
  apply prefix_cons_inv_1 in Hp as Hxy; subst y.
  apply prefix_cons_inv_2, IH in Hp as [(p' & -> & Hp')|[Hlen Hp]].
  - left. by exists p'.
  - right. split; [simpl; lia|by apply prefix_cons].
Qed.

Lemma read_u64_short cursor :
  (length cursor < 8)%nat → read_u64 cursor = Err "truncated metadata snapshot header".
Proof. intros Hl%Nat.ltb_lt. unfold read_u64. by rewrite Hl. Qed.

(** A cut in the eight bytes of a length is reported by [read_u64]. *)
Lemma read_u64_prefix z rest p :
  is_u64 z → p `prefix_of` to_le_bytes z ++ rest →
  (∃ p', read_u64 p = Ok (z, p') ∧ p' `prefix_of` rest ∧
     p = to_le_bytes z ++ p') ∨
  (∃ err, read_u64 p = Err err).
Proof.
  intros Hz [(p' & -> & Hp')|[Hlen _]]%prefix_app_case.
  - left. exists p'. by rewrite read_u64_app.
  - right. unfold to_le_bytes in Hlen. rewrite length_le_bytes in Hlen.
    rewrite read_u64_short by done. eauto.
Qed.

Section truncation.
Context {M : Type} `{MessageLaw M}.
Implicit Types (ms : list M).

Lemma read_loop_prefix ms rest p :
  typed_section ms → Forall (λ m, encoded_len m ≤ MAX_SNAPSHOT_MESSAGE_BYTES)%Z ms →
  p `prefix_of` frames ms ++ rest →
  (∃ p', p = frames ms ++ p' ∧ p' `prefix_of` rest) ∨
  (∃ err, read_loop (M := M) (length ms) p = Err err).
Proof using All.
  intros Ht Hms. revert p. induction Hms as [|m ms Hm Hms IH]; intros p Hp;
    [left; by exists p|]. apply Forall_cons in Ht as [Hmt Ht].
  assert (is_u64 (encoded_len m)) as Hu.
  { unfold is_u64, u64_MAX, encoded_len, MAX_SNAPSHOT_MESSAGE_BYTES in *. lia. }
  rewrite frames_cons in *. unfold frame in *. rewrite <-!app_assoc in Hp.
  cbn [length]. rewrite read_loop_S. fold (encoded_len m) in *.
  destruct (read_u64_prefix _ _ _ Hu Hp) as [(p1 & -> & Hp1 & ->)|[err ->]]; [|by eauto].
  unfold mbind, result_bind. rewrite (proj2 (Z.ltb_ge _ _) Hm).
  apply prefix_app_case in Hp1 as [(p2 & -> & Hp2)|[Hlen _]].
  - unfold encoded_len. rewrite length_app, Nat2Z.id, take_app_length, drop_app_length.
    rewrite (proj2 (Z.ltb_ge _ _)) by lia. rewrite message_roundtrip by done.
    destruct (IH Ht p2 Hp2) as [(p' & -> & Hp')|[err ->]]; [|by eauto].
    left. exists p'. by rewrite <-!app_assoc.
  - right. unfold encoded_len. rewrite (proj2 (Z.ltb_lt _ _)) by lia. eauto.
Qed.

Lemma read_section_prefix ms rest p :
  typed_section ms → section_ok ms → p `prefix_of` section_bytes ms ++ rest →
  (∃ p', p = section_bytes ms ++ p' ∧ p' `prefix_of` rest) ∨
  (∃ err, read_messages (M := M) p = Err err).
Proof using All.
  intros Ht [Hn Hms] Hp. unfold section_bytes in *. rewrite <-app_assoc in Hp.
  assert (is_u64 (Z.of_nat (length ms))) as Hu.
  { unfold is_u64, u64_MAX, MAX_SNAPSHOT_MESSAGES_PER_SECTION in *. lia. }
  unfold read_messages.
  destruct (read_u64_prefix _ _ _ Hu Hp) as [(p1 & -> & Hp1 & ->)|[err ->]]; [|by eauto].
  unfold mbind, result_bind. rewrite (proj2 (Z.ltb_ge _ _) Hn), Nat2Z.id.
  destruct (read_loop_prefix ms rest p1 Ht Hms Hp1) as [(p' & -> & Hp')|[err ->]]; [|by eauto].
  left. exists p'. by rewrite <-app_assoc.
Qed.
End truncation.

(** ** Whole snapshots *)

Section snapshots.
Context `{ProstLaws}.

(** A table the decoder accepts. *)
Definition table_ok `{Countable K} {V} `{Message V} (m : gmap K V) : Prop :=
  (Z.of_nat (size m) ≤ MAX_SNAPSHOT_MESSAGES_PER_SECTION)%Z ∧
  map_Forall (λ _ v, encoded_len v ≤ MAX_SNAPSHOT_MESSAGE_BYTES)%Z m.

(** A table whose encoding fits in memory. *)
Definition table_addressable `{Countable K} {V} `{Message V} (m : gmap K V) : Prop :=
  is_u64 (Z.of_nat (size m)) ∧ map_Forall (λ _ v, is_u64 (encoded_len v)) m.

Lemma Forall_hm_values `{Countable K} {V} h (m : gmap K V) (P : V → Prop) :
  Forall P (hm_values h m) ↔ map_Forall (λ _ v, P v) m.
Proof using Type.
  rewrite Forall_forall. unfold map_Forall. setoid_rewrite elem_of_hm_values.
  naive_solver.
Qed.

Lemma table_section `{Countable K} {V} `{Message V} h (m : gmap K V) :
  table_ok m ↔ section_ok (hm_values h m).
Proof using Type. unfold table_ok, section_ok. by rewrite length_hm_values, Forall_hm_values. Qed.

Lemma table_addressable_section `{Countable K} {V} `{Message V} h (m : gmap K V) :
  table_addressable m ↔ addressable (hm_values h m).
Proof using Type.
  unfold table_addressable, addressable. by rewrite length_hm_values, Forall_hm_values.
Qed.

(** The tables of a typed state are typed sections. *)
Lemma typed_table_section `{Countable K} {V} `{Typed V} h (m : gmap K V) :
  map_Forall (λ _ v, typed v = true) m → typed_section (hm_values h m).
Proof using Type. intros Hm. by apply Forall_hm_values. Qed.

Definition within_limits (st : MetadataState) : Prop :=
  table_ok (objects st) ∧ table_ok (buckets st) ∧ table_ok (archive_bundles st) ∧
  table_ok (archive_tasks st) ∧ table_ok (recall_tasks st) ∧ table_ok (tapes st) ∧
  table_ok (scheduler_workers st) ∧ table_ok (cache_workers st) ∧
  table_ok (tape_workers st).

Definition state_addressable (st : MetadataState) : Prop :=
  table_addressable (objects st) ∧ table_addressable (buckets st) ∧
  table_addressable (archive_bundles st) ∧ table_addressable (archive_tasks st) ∧
  table_addressable (recall_tasks st) ∧ table_addressable (tapes st) ∧
  table_addressable (scheduler_workers st) ∧ table_addressable (cache_workers st) ∧
  table_addressable (tape_workers st).

Lemma encode_snapshot_eq h st :
  encode_snapshot h st = SNAPSHOT_MAGIC ++
    section_bytes (hm_values h (objects st)) ++
    section_bytes (hm_values h (buckets st)) ++
    section_bytes (hm_values h (archive_bundles st)) ++
    section_bytes (hm_values h (archive_tasks st)) ++
    section_bytes (hm_values h (recall_tasks st)) ++
    section_bytes (hm_values h (tapes st)) ++
    section_bytes (hm_values h (scheduler_workers st)) ++
    section_bytes (hm_values h (cache_workers st)) ++
    section_bytes (hm_values h (tape_workers st)) ++ [].
Proof using Type.
  unfold encode_snapshot. rewrite !write_messages_eq. unfold section_bytes.
  by rewrite <-!app_assoc, app_nil_r.
Qed.

(** Reads the section at the head of the cursor. *)
Local Ltac read_next :=
  match goal with
  | |- context [read_messages (section_bytes (hm_values ?h ?m) ++ ?rest)] =>
      rewrite (read_section_ok (hm_values h m) rest)
        by first [by apply typed_table_section|by apply table_section];
      cbv beta iota
  end.

Lemma magic_checked bytes :
  starts_with (SNAPSHOT_MAGIC ++ bytes) SNAPSHOT_MAGIC = true.
Proof using Type. apply starts_with_app. Qed.

Lemma decode_encode_snapshot h st :
  wf st → typed_state st → within_limits st →
  decode_snapshot (encode_snapshot h st) = Ok st.
Proof using All.
  intros [] [] (? & ? & ? & ? & ? & ? & ? & ? & ?).
  rewrite encode_snapshot_eq. unfold decode_snapshot.
  rewrite magic_checked, drop_app_length. unfold mbind, result_bind. cbv beta iota.
  cbn [negb].
  do 9 read_next. rewrite bool_decide_eq_true_2 by done. cbn [negb].
  rewrite !collect_by_values by done. by destruct st.
Qed.

(** Either the section at the head of the cursor is read, or decoding fails. *)
Local Ltac read_or_fail :=
  match goal with
  | |- context [read_messages (section_bytes (hm_values ?h ?m) ++ ?rest)] =>
      let Hok := fresh in let Hno := fresh in let err := fresh in
      destruct (section_ok_dec (hm_values h m)) as [Hok|Hno];
      [ rewrite (read_section_ok (hm_values h m) rest)
          by (done || by apply typed_table_section); cbv beta iota;
        apply table_section in Hok
      | destruct (read_section_err (hm_values h m) rest) as [err ->];
        [by apply typed_table_section|by apply table_addressable_section|done|by eauto] ]
  end.

Lemma decode_encode_limits h st :
  typed_state st → state_addressable st →
  within_limits st ∨ ∃ err, decode_snapshot (encode_snapshot h st) = Err err.
Proof using All.
  intros [] (? & ? & ? & ? & ? & ? & ? & ? & ?).
  rewrite encode_snapshot_eq. unfold decode_snapshot.
  rewrite magic_checked, drop_app_length. unfold mbind, result_bind. cbv beta iota.
  cbn [negb]. do 9 read_or_fail. left. by split_and!.
Qed.

(** What decoding makes of an encoded state: the state when it keeps within the
    limits, and an error when it does not *)
Definition reloads (st : MetadataState) (loaded : result string MetadataState) : Prop :=
  (within_limits st ∧ loaded = Ok st) ∨ (¬ within_limits st ∧ ∃ err, loaded = Err err).
Lemma decode_encode_reloads h st :
  wf st → typed_state st → state_addressable st →
  reloads st (decode_snapshot (encode_snapshot h st)).
Proof using All.
  intros Hwf Ht Haddr. destruct (decode_encode_limits h st Ht Haddr) as [Hlim|[err Herr]].
  - left. by split; [|apply decode_encode_snapshot].
  - right. split; [|by eauto]. intros Hlim.
    by rewrite (decode_encode_snapshot h st Hwf Ht Hlim) in Herr.
Qed.
Lemma table_ok_addressable `{Countable K} {V} `{Message V} (m : gmap K V) :
  table_ok m → table_addressable m.
Proof using Type.
  unfold table_ok, table_addressable, is_u64, u64_MAX, encoded_len.
  intros [Hsize Hm]. unfold MAX_SNAPSHOT_MESSAGES_PER_SECTION, MAX_SNAPSHOT_MESSAGE_BYTES in *.
  split; [lia|]. eapply map_Forall_impl; [exact Hm|]. simpl. intros k v. lia.
Qed.
Lemma within_limits_addressable st : within_limits st → state_addressable st.
Proof using Type.
  intros (? & ? & ? & ? & ? & ? & ? & ? & ?). split_and!; by apply table_ok_addressable.
Qed.
Lemma default_within_limits : within_limits default_state.
Proof using Type. by unfold within_limits. Qed.

Local Ltac read_prefix Hp :=
  match type of Hp with
  | ?p `prefix_of` section_bytes (hm_values ?h ?m) ++ ?rest =>
      let p' := fresh "p" in let Hp' := fresh "Hp" in let err := fresh "err" in
      let Hok := fresh in
      let Ht := fresh in
      assert (section_ok (hm_values h m)) as Hok by (by apply table_section);
      assert (typed_section (hm_values h m)) as Ht by (by apply typed_table_section);
      destruct (read_section_prefix (hm_values h m) rest p Ht Hok Hp)
        as [(p' & -> & Hp')|[err ->]]; [|by eauto];
      rewrite (read_section_ok (hm_values h m) p' Ht Hok); cbv beta iota;
      clear Hp; rename Hp' into Hp
  end.

Lemma decode_prefix h st p :
  typed_state st → within_limits st → p `prefix_of` encode_snapshot h st → p ≠ encode_snapshot h st →
  ∃ err, decode_snapshot p = Err err.
Proof using All.
  intros [] (? & ? & ? & ? & ? & ? & ? & ? & ?). rewrite encode_snapshot_eq.
  intros Hp Hne. unfold decode_snapshot, mbind, result_bind.
  destruct (prefix_app_case _ _ _ Hp) as [(p0 & -> & Hp0)|[Hlen _]].
  - rewrite magic_checked, drop_app_length. cbn [negb]. clear Hp.
    do 9 read_prefix Hp0.
    apply prefix_nil_inv in Hp0 as ->. done.
  - assert (starts_with p SNAPSHOT_MAGIC = false) as ->; [|cbn [negb]; by eauto].
    apply bool_decide_eq_false. intros Heq%(f_equal length).
    rewrite length_take in Heq. lia.
Qed.
End snapshots.

(** ** Replacing the snapshot file *)

(** Files by path; directories are not tracked. *)
Abbreviation filesystem := (gmap string (list Z)).

Section files.
Context `{Prost}.

Inductive fs_op :=
| CreateDirAll (path : string)
| WriteFile (path : string) (bytes : list Z)
| Rename (from to : string).

Definition fs_step (op : fs_op) (fs : filesystem) : filesystem :=
  match op with
  | CreateDirAll _ => fs
  | WriteFile path bytes => <[path := bytes]> fs
  | Rename from to =>
      match fs !! from with
      | Some bytes => <[to := bytes]> (delete from fs)
      | None => fs
      end
  end.

(** [save_snapshot]: [parent] is [path.parent()], [tmp_path] the name with
    the fresh uuid. *)
Definition save_snapshot (h : hash_order) (parent : option string)
    (path tmp_path : string) (state : MetadataState) : list fs_op :=
  match parent with Some parent => [CreateDirAll parent] | None => [] end ++
  [WriteFile tmp_path (encode_snapshot h state); Rename tmp_path path].

(** [load_snapshot] *)
Definition load_snapshot (path : string) (fs : filesystem) : result string MetadataState :=
  match fs !! path with
  | Some bytes => decode_snapshot bytes
  | None => Err "No such file or directory"
  end.

(** The files left behind when the operations stop at any point: between two
    of them, or in the middle of a write. An operation that reports an error
    stops the function the same way. *)
Inductive interrupted : list fs_op → filesystem → filesystem → Prop :=
| interrupted_here ops fs : interrupted ops fs fs
| interrupted_write path bytes p ops fs :
    p `prefix_of` bytes → interrupted (WriteFile path bytes :: ops) fs (<[path := p]> fs)
| interrupted_later op ops fs fs' :
    interrupted ops (fs_step op fs) fs' → interrupted (op :: ops) fs fs'.

Lemma interrupted_save h path tmp st fs fs' parent :
  path ≠ tmp → interrupted (save_snapshot h parent path tmp st) fs fs' →
  fs' !! path = fs !! path ∨ fs' !! path = Some (encode_snapshot h st).
Proof using Type.
  intros Hne Hint. unfold save_snapshot in Hint.
  assert (interrupted [WriteFile tmp (encode_snapshot h st); Rename tmp path] fs fs')
    as Hint' by (destruct parent; [by inversion Hint; subst; [constructor|]|done]).
  clear Hint. inversion Hint' as [| |? ? ? ? Hint2]; subst; [by left|left|].
  { by rewrite lookup_insert_ne. }
  simpl in Hint2. inversion Hint2 as [| |? ? ? ? Hint3]; subst; simpl in *.
  { left. by rewrite lookup_insert_ne. }
  rewrite lookup_insert_eq in Hint3. inversion Hint3; subst. right. apply lookup_insert_eq.
Qed.
End files.

(** ** A codec that satisfies the laws, for the witnesses *)

Module BitCodec.
Fixpoint pos_bits (p : positive) : list Z :=
  match p with xH => [1%Z] | xO p => 0%Z :: pos_bits p | xI p => 1%Z :: pos_bits p end.
Fixpoint bits_pos (bs : list Z) : option positive :=
  match bs with
  | [] => None
  | [b] => if (b =? 1)%Z then Some xH else None
  | b :: bs => (λ p, if (b =? 0)%Z then xO p else xI p) <$> bits_pos bs
  end.

Lemma bits_pos_bits p : bits_pos (pos_bits p) = Some p.
Proof.
  induction p as [p IH|p IH|]; [| |done]; simpl.
  all: destruct (pos_bits p) eqn:E; [by destruct p|]; rewrite <-E, IH in *; done.
Qed.

#[local] Instance bit_message `{Countable M} : Message M := {|
  encode_to_vec m := pos_bits (encode m);
  decode_message bs := ok_or "undecodable message" (bits_pos bs ≫= decode);
|}.

Lemma bit_message_law `{Countable M} `{Typed M} : MessageLaw M.
Proof. intros m _. simpl. by rewrite bits_pos_bits; simpl; rewrite decode_encode. Qed.

Definition prost : Prost := {|
  prost_object := bit_message; prost_bucket := bit_message; prost_bundle := bit_message;
  prost_archive_task := bit_message; prost_recall_task := bit_message;
  prost_tape := bit_message; prost_scheduler_worker := bit_message;
  prost_cache_worker := bit_message; prost_tape_worker := bit_message |}.

Lemma prost_laws : @ProstLaws prost.
Proof. split; apply bit_message_law. Qed.

Definition state : MetadataState := set_buckets {["docs" := Sample.bucket]} default_state.

Lemma state_wf : wf state.
Proof. split; try apply map_Forall_empty; by apply map_Forall_singleton. Qed.

Lemma state_typed : typed_state state.
Proof. split; try apply map_Forall_empty; by apply map_Forall_singleton. Qed.

Lemma table_ok_empty `{Countable K} {V} `{Message V} : table_ok (∅ : gmap K V).
Proof. split; [by rewrite map_size_empty|apply map_Forall_empty]. Qed.

Lemma table_addressable_empty `{Countable K} {V} `{Message V} :
  table_addressable (∅ : gmap K V).
Proof. split; [by rewrite map_size_empty|apply map_Forall_empty]. Qed.

Lemma state_within_limits : @within_limits prost state.
Proof.
  unfold within_limits. split; [apply table_ok_empty|]. split; [|split_and!; apply table_ok_empty].
  change (buckets state) with ({["docs" := Sample.bucket]} : gmap string BucketInfo.t).
  split; [rewrite map_size_singleton|apply map_Forall_singleton]; vm_compute; discriminate.
Qed.

Lemma state_is_addressable : @state_addressable prost state.
Proof.
  unfold state_addressable. split; [apply table_addressable_empty|].
  split; [|split_and!; apply table_addressable_empty].
  change (buckets state) with ({["docs" := Sample.bucket]} : gmap string BucketInfo.t).
  split; [rewrite map_size_singleton|apply map_Forall_singleton];
    vm_compute; split; discriminate.
Qed.
End BitCodec.

(** ** Theorems *)

(** C20: A well-formed and typed state whose encoding fits in memory survives a snapshot,
    whatever order its hash maps were written in, exactly when it keeps within
    the decoder's limits: at most 1,000,000 messages in a table and 64 MiB in a
    message. The encoder enforces neither limit. *)
Theorem snapshot_roundtrip `{Prost} (Hlaws : ProstLaws) (h : hash_order)
    (st : MetadataState) :
  wf st → typed_state st → state_addressable st →
  (decode_snapshot (encode_snapshot h st) = Ok st ↔ within_limits st).
Proof.
  intros Hwf Ht Haddr. split; [|by apply decode_encode_snapshot].
  intros Hok. destruct (decode_encode_limits h st Ht Haddr) as [|[err Herr]]; [done|congruence].
Qed.

Lemma snapshot_roundtrip_witness :
  let _ := BitCodec.prost in
  decode_snapshot (encode_snapshot canonical_order BitCodec.state) = Ok BitCodec.state.
Proof.
  apply (proj2 (@snapshot_roundtrip BitCodec.prost BitCodec.prost_laws canonical_order
    BitCodec.state BitCodec.state_wf BitCodec.state_typed BitCodec.state_is_addressable)).
  exact BitCodec.state_within_limits.
Defined.

(** A truncated snapshot is never taken for a state: decoding any strict
    prefix of an encoded snapshot fails. *)
Theorem snapshot_truncation_detected `{Prost} (Hlaws : ProstLaws) (h : hash_order)
    (st : MetadataState) (p : list Z) :
  typed_state st → within_limits st →
  p `prefix_of` encode_snapshot h st → p ≠ encode_snapshot h st →
  ∃ err, decode_snapshot p = Err err.
Proof. apply decode_prefix. Qed.

Lemma snapshot_truncation_detected_witness :
  let _ := BitCodec.prost in
  ∃ err, decode_snapshot (take 20 (encode_snapshot canonical_order BitCodec.state)) = Err err.
Proof.
  apply (@snapshot_truncation_detected BitCodec.prost BitCodec.prost_laws canonical_order
    BitCodec.state).
  - exact BitCodec.state_typed.
  - exact BitCodec.state_within_limits.
  - apply prefix_take.
  - vm_compute. discriminate.
Defined.

(** C40: Replacing the snapshot file is atomic: wherever [save_snapshot] stops,
    in the middle of a write too, loading the file gives what it gave before or
    what the new file holds, which is the new state when it keeps within the
    limits of the decoder. When it does not, the file that replaced the old one
    cannot be loaded. The state is well-formed and typed, and the numbers of its
    messages and of their bytes are 64-bit ones. *)
Theorem save_snapshot_atomic `{Prost} (Hlaws : ProstLaws) (h : hash_order)
    (parent : option string) (path tmp_path : string) (st : MetadataState)
    (fs fs' : filesystem) :
  wf st → typed_state st → state_addressable st → path ≠ tmp_path →
  interrupted (save_snapshot h parent path tmp_path st) fs fs' →
  load_snapshot path fs' = load_snapshot path fs ∨
  (within_limits st ∧ load_snapshot path fs' = Ok st) ∨
  (¬ within_limits st ∧ ∃ err, load_snapshot path fs' = Err err).
Proof.
  intros Hwf Ht Haddr Hne Hint. unfold load_snapshot.
  destruct (interrupted_save _ _ _ _ _ _ _ Hne Hint) as [->| ->]; [by left|right].
  by apply decode_encode_reloads.
Qed.

Lemma save_snapshot_atomic_witness :
  let _ := BitCodec.prost in
  ∃ fs', interrupted
      (save_snapshot canonical_order None "meta" "meta.tmp-1" BitCodec.state) ∅ fs' ∧
    (load_snapshot "meta" fs' = load_snapshot "meta" ∅ ∨
     (within_limits BitCodec.state ∧ load_snapshot "meta" fs' = Ok BitCodec.state) ∨
     (¬ within_limits BitCodec.state ∧ ∃ err, load_snapshot "meta" fs' = Err err)).
Proof.
  intros P. eexists.
  assert (interrupted
    (save_snapshot canonical_order None "meta" "meta.tmp-1" BitCodec.state) ∅
    (<["meta.tmp-1" := take 7 (encode_snapshot canonical_order BitCodec.state)]> ∅)) as Hint.
  { apply interrupted_write. apply prefix_take. }
  split; [exact Hint|].
  apply (@save_snapshot_atomic BitCodec.prost BitCodec.prost_laws canonical_order None
    "meta" "meta.tmp-1" BitCodec.state ∅ _ BitCodec.state_wf BitCodec.state_typed
    BitCodec.state_is_addressable);
    [discriminate|exact Hint].
Defined.
