(* ===== verification/Raft.v ===== *)
(** * The metadata backend

    [src/crates/metadata/src/raft_storage.rs] and [raft.rs]: the vote, the
    command log and the state-machine snapshot kept in RocksDB, the local
    single-node raft on top of them, and the backend that applies a command to
    the live state before it proposes it. RocksDB itself and the [Display] and
    [Debug] text of statuses and commands are interfaces. *)

From Stdlib Require Import ZArith String.
From S2P Require Import Prelude Proto StateMachine MetadataInvariants MetadataTheorems Snapshot.

Local Open Scope stdpp_scope.

(** ** Interfaces *)

(** [rocksdb::DB], as far as it is used: point reads, point writes and a
    forward scan, each of which can fail. *)
Class RocksDB := {
  DB : Type;
  db_get : DB → list Z → result string (option (list Z));
  db_put : list Z → list Z → action DB string unit;
  db_iterator_from : DB → list Z → list (result string (list Z * list Z));
}.

(** Its documented behaviour on the calls that succeed: a write is seen by the
    reads that follow, and a scan lists the entries from its start key on in
    the order of the keys. *)
Class RocksDBLaws `{RocksDB} := {
  db_contents : DB → gmap (list Z) (list Z);
  db_get_spec db k v : db_get db k = Ok v → v = db_contents db !! k;
  db_put_spec k v db db' :
    db_put k v db = (db', Ok tt) → db_contents db' = <[k := v]> (db_contents db);
  db_scan_sorted db from es :
    db_iterator_from db from = Ok <$> es →
    StronglySorted (λ a b, bytes_cmp a.1 b.1 = Lt) es;
  db_scan_elem db from es k v :
    db_iterator_from db from = Ok <$> es →
    (k, v) ∈ es ↔ db_contents db !! k = Some v ∧ bytes_cmp from k ≠ Gt;
}.

(** A disk that reports no errors. *)
Class Healthy `{RocksDB} : Prop := {
  healthy_get db k : ∃ v, db_get db k = Ok v;
  healthy_put k v db : ∃ db', db_put k v db = (db', Ok tt);
  healthy_scan db from : ∃ es, db_iterator_from db from = Ok <$> es;
}.

(** [impl Display for tonic::Status], [impl Debug for MetadataCommand] *)
Class Formats := {
  status_to_string : Status → string;
  debug_command : MetadataCommand → list Z;
}.

(** ** [raft_storage.rs] *)

Definition SNAPSHOT_KEY : list Z := bytes_of_string "metadata:snapshot:latest".
Definition VOTE_KEY : list Z := bytes_of_string "raft:vote".
Definition LOG_KEY_PREFIX : list Z := bytes_of_string "raft:log:".

(** [log_key] *)
Definition log_key (index : Z) : list Z := LOG_KEY_PREFIX ++ to_be_bytes index.

(** [Iterator::take_while] *)
Fixpoint take_while {A} (p : A → bool) (l : list A) : list A :=
  match l with
  | [] => []
  | x :: l => if p x then x :: take_while p l else []
  end.

Section storage.
Context `{Prost} `{RocksDB} `{Formats}.

(** [RocksDbRaftStorage::save_vote] *)
Definition save_vote (term node_id : Z) : action DB string unit :=
  db_put VOTE_KEY (to_le_bytes term ++ to_le_bytes node_id).

(** [RocksDbRaftStorage::load_vote] *)
Definition load_vote (db : DB) : result string (option (Z * Z)) :=
  v ← db_get db VOTE_KEY;
  match v with
  | None => Ok None
  | Some bytes =>
      if length bytes != 16%nat then Err "invalid raft vote record" else
      Ok (Some (from_le_bytes (take 8 bytes), from_le_bytes (drop 8 bytes)))
  end.

(** [RocksDbRaftStorage::append_log_entry] *)
Definition append_log_entry (index term : Z) (command : MetadataCommand)
    : action DB string unit :=
  db_put (log_key index) (to_le_bytes term ++ debug_command command).

(** [RocksDbRaftStorage::log_entry_count] *)
Definition log_entry_count (db : DB) : result string Z :=
  Ok (Z.of_nat (length (take_while
    (λ entry, match entry with
              | Ok (key, _) => starts_with key LOG_KEY_PREFIX
              | Err _ => true
              end)
    (db_iterator_from db LOG_KEY_PREFIX)))).

(** [RocksDbRaftStorage::save_state_machine_snapshot] *)
Definition save_state_machine_snapshot (h : hash_order) (state : MetadataState)
    : action DB string unit :=
  db_put SNAPSHOT_KEY (encode_snapshot h state).

(** [RocksDbRaftStorage::load_state_machine_snapshot] *)
Definition load_state_machine_snapshot (db : DB) : result string (option MetadataState) :=
  v ← db_get db SNAPSHOT_KEY;
  match v with
  | None => Ok None
  | Some bytes => Some <$> decode_snapshot bytes
  end.

(** [LocalSingleNodeMetadataRaft] *)
Record LocalRaft := mkLocalRaft {
  storage : DB;
  state_machine : MetadataState;
}.

Definition on_storage {A} (m : action DB string A) : action LocalRaft string A :=
  λ r, let '(db, res) := m (storage r) in (mkLocalRaft db (state_machine r), res).

(** [LocalSingleNodeMetadataRaft::open], on the database RocksDB opened *)
Definition open_raft (db : DB) : result string LocalRaft :=
  state ← load_state_machine_snapshot db;
  Ok (mkLocalRaft db (default default_state state)).

(** [LocalSingleNodeMetadataRaft::propose] *)
Definition propose (e : Env) (command : MetadataCommand) : action LocalRaft string Z :=
  r ← get_state;
  count ← lift (log_entry_count (storage r));
  let index := wrap64 (count + 1) in
  on_storage (append_log_entry index 1 command);;
  r ← get_state;
  let '(state, res) := apply_command e command (state_machine r) in
  put_state (mkLocalRaft (storage r) state);;
  lift (map_err status_to_string res);;
  on_storage (save_state_machine_snapshot (order e) state);;
  mret index.

(** [LocalSingleNodeMetadataRaft::snapshot] *)
Definition raft_snapshot (r : LocalRaft) : result string MetadataState :=
  s ← load_state_machine_snapshot (storage r);
  Ok (default (state_machine r) s).

(** ** [raft.rs] *)

(** [RaftBackendMode] *)
Inductive RaftBackendMode :=
| Memory
| Persistent (raft : LocalRaft).

(** [RaftMetadataBackend] *)
Record RaftMetadataBackend := mkBackend {
  inner : RaftBackendMode;
  proposed_commands : Z;
}.

(** [RaftMetadataBackend::new] *)
Definition new_backend : RaftMetadataBackend := mkBackend Memory 0.

(** [RaftMetadataBackend::new_with_storage] *)
Definition new_with_storage (db : DB) : result string RaftMetadataBackend :=
  raft ← open_raft db;
  committed ← log_entry_count (storage raft);
  Ok (mkBackend (Persistent raft) committed).

(** [RaftMetadataBackend::cluster_term_and_leader] *)
Definition cluster_term_and_leader (b : RaftMetadataBackend) : Z * option Z :=
  match inner b with
  | Memory => (1%Z, None)
  | Persistent raft =>
      match load_vote (storage raft) with
      | Ok (Some (term, node_id)) => (term, Some node_id)
      | Ok None | Err _ => (0%Z, None)
      end
  end.

(** [RaftMetadataBackend::mode] *)
Definition mode (b : RaftMetadataBackend) : string :=
  match inner b with
  | Memory => "local_memory"
  | Persistent _ => "persistent_local"
  end.

(** [RaftMetadataBackend::bootstrapped_state] *)
Definition bootstrapped_state (b : RaftMetadataBackend)
    : result string (option MetadataState) :=
  match inner b with
  | Memory => Ok None
  | Persistent raft => Some <$> raft_snapshot raft
  end.

(** [RaftMetadataBackend::persist_if_needed] *)
Definition persist_if_needed (e : Env) (command : MetadataCommand)
    : action RaftMetadataBackend Status (option Z) :=
  λ b,
    match inner b with
    | Memory => (b, Ok None)
    | Persistent raft =>
        let '(raft, res) := propose e command raft in
        (mkBackend (Persistent raft) (proposed_commands b),
         Some <$> map_err internal res)
    end.

(** The live state next to its backend. *)
Record Replica := mkReplica {
  live : MetadataState;
  backend : RaftMetadataBackend;
}.

(** [RaftMetadataBackend::propose_local_apply]: the live state is updated
    in the environment [e], the stored one later, in [e']. *)
Definition propose_local_apply (e e' : Env) (command : MetadataCommand)
    : action Replica Status unit :=
  λ n,
    match apply_command e command (live n) with
    | (state, Err err) => (mkReplica state (backend n), Err err)
    | (state, Ok _) =>
        match persist_if_needed e' command (backend n) with
        | (b, Err err) => (mkReplica state b, Err err)
        | (b, Ok (Some next_committed_index)) =>
            (mkReplica state (mkBackend (inner b) next_committed_index), Ok tt)
        | (b, Ok None) =>
            (mkReplica state
               (mkBackend (inner b) (saturating_add (proposed_commands b) 1)), Ok tt)
        end
    end.

(** [RaftMetadataBackend::bootstrap_state_if_empty] *)
Definition bootstrap_state_if_empty (h : hash_order) (state : MetadataState)
    : action RaftMetadataBackend Status unit :=
  λ b,
    if is_empty state then (b, Ok tt) else
    match inner b with
    | Memory => (b, Ok tt)
    | Persistent raft =>
        match load_state_machine_snapshot (storage raft) with
        | Err err => (b, Err (internal err))
        | Ok (Some _) => (b, Ok tt)
        | Ok None =>
            let '(raft, res) :=
              on_storage (save_state_machine_snapshot h state) raft in
            (mkBackend (Persistent raft) (proposed_commands b),
             map_err internal res)
        end
    end.
End storage.
#[global] Arguments log_key : simpl never.
#[global] Arguments log_entry_count : simpl never.
#[global] Arguments load_state_machine_snapshot : simpl never.
#[global] Arguments encode_snapshot : simpl never.
#[global] Arguments decode_snapshot : simpl never.
#[global] Arguments SNAPSHOT_KEY : simpl never.
#[global] Arguments LOG_KEY_PREFIX : simpl never.
#[global] Arguments VOTE_KEY : simpl never.
