(* ===== verification/RaftTheorems.v ===== *)
(** * Theorems on the metadata backend

    The command log is numbered consecutively and the state recovered from the
    database is the state the raft had, as far as it can be decoded; the live state agrees with the stored
    one when both applications of a command read the same clock, and three ways
    in which they part. *)

From Stdlib Require Import ZArith String.
From S2P Require Import Prelude Proto StateMachine MetadataInvariants StatsInvariant MetadataTheorems TypedState Snapshot Raft.

Local Open Scope stdpp_scope.

(** ** Counting log entries *)

Lemma take_while_filter {A} (R : relation A) (p : A → bool) l :
  StronglySorted R l →
  (∀ x y, x ∈ l → R x y → p y = true → p x = true) →
  take_while p l = List.filter p l.
Proof.
  induction 1 as [|x l Hl IH Hx]; intros Hp; simpl; [done|].
  destruct (p x) eqn:Hpx.
  - f_equal. apply IH. intros ???. apply Hp. set_solver.
  - symmetry. apply Lfilter_nil. intros y Hy. rewrite Forall_forall in Hx.
    destruct (p y) eqn:Hpy; [|done].
    assert (p x = true) by (apply (Hp x y); [set_solver|by apply Hx|done]). congruence.
Qed.

Lemma take_while_fmap {A B} (f : A → B) (p : B → bool) l :
  take_while p (f <$> l) = f <$> take_while (p ∘ f) l.
Proof. induction l; csimpl; [done|]. case_match; csimpl; congruence. Qed.

Lemma log_key_starts i : starts_with (log_key i) LOG_KEY_PREFIX = true.
Proof. apply starts_with_app. Qed.

Lemma log_key_inj i j : is_u64 i → is_u64 j → log_key i = log_key j → i = j.
Proof.
  unfold log_key, to_be_bytes, is_u64, u64_MAX. intros Hi Hj Heq.
  apply app_inv_head, (inj reverse), le_bytes_inj in Heq; [done|..];
    change (256 ^ Z.of_nat 8)%Z with (2 ^ 64)%Z; lia.
Qed.

Section storage.
Context `{RocksDBLaws} `{!Healthy}.

(** The log records of a database. *)
Definition log_records (db : DB) : gmap (list Z) (list Z) :=
  filter (λ kv, starts_with kv.1 LOG_KEY_PREFIX = true) (db_contents db).

Lemma log_entry_count_spec db :
  log_entry_count db = Ok (Z.of_nat (size (log_records db))).
Proof using All.
  unfold log_entry_count. do 2 f_equal.
  destruct (healthy_scan db LOG_KEY_PREFIX) as [es Hes]. rewrite Hes.
  rewrite take_while_fmap, length_fmap.
  pose proof (db_scan_sorted db _ es Hes) as Hsort.
  pose proof (λ k v, db_scan_elem db _ es k v Hes) as Helem.
  set (p := _ ∘ _). rewrite (take_while_filter _ p es Hsort).
  - assert (Hperm : List.filter p es ≡ₚ map_to_list (log_records db));
      [|by rewrite Hperm, length_map_to_list].
    apply NoDup_Permutation; [apply Lfilter_nodup|apply NoDup_map_to_list|].
    { clear -Hsort. induction Hsort as [|x l Hl IH Hx]; constructor; [|done].
      intros Hin. rewrite Forall_forall in Hx. specialize (Hx x Hin). simpl in Hx.
      by rewrite cmp_refl in Hx. }
    intros [k v]. rewrite elem_of_Lfilter, Helem, elem_of_map_to_list.
    unfold log_records. rewrite map_lookup_filter_Some; simpl. split; [tauto|].
    intros [Hk Hs]. split_and!; [done| |done].
    apply starts_with_true in Hs as [t ->]. apply bytes_cmp_app.
  - intros [k1 v1] [k2 v2] [_ Hge]%Helem H12 Hp2. unfold p in *; simpl in *.
    apply (starts_with_between _ k1 k2); [done|by rewrite H12|done].
Qed.

(** Writing the snapshot leaves the log alone; writing a fresh record adds one. *)
Lemma log_records_other (db db' : DB) k v :
  db_contents db' = <[k := v]> (db_contents db) → starts_with k LOG_KEY_PREFIX = false →
  log_records db' = log_records db.
Proof using Type.
  intros Hdb Hk. unfold log_records. rewrite Hdb, map_filter_insert; simpl.
  rewrite decide_False by (by rewrite Hk). apply map_filter_delete_not.
  intros y _; simpl. by rewrite Hk.
Qed.

Lemma log_records_append (db db' : DB) i v :
  db_contents db' = <[log_key i := v]> (db_contents db) →
  log_records db' = <[log_key i := v]> (log_records db).
Proof using Type.
  intros Hdb. unfold log_records. rewrite Hdb. apply map_filter_insert_True, log_key_starts.
Qed.

(** The records are those of indices 1 to [n]. *)
Definition log_upto (db : DB) (n : nat) : Prop :=
  size (log_records db) = n ∧
  ∀ k, is_Some (log_records db !! k) → ∃ i, (1 ≤ i ≤ Z.of_nat n)%Z ∧ k = log_key i.

Lemma log_upto_append (db db' : DB) n v :
  is_u64 (Z.of_nat (S n)) → log_upto db n →
  db_contents db' = <[log_key (Z.of_nat (S n)) := v]> (db_contents db) →
  log_upto db' (S n).
Proof using Type.
  intros Hn [Hsize Hkeys] Hdb%log_records_append.
  assert (log_records db !! log_key (Z.of_nat (S n)) = None) as Hfresh.
  { apply eq_None_not_Some. intros (i & Hi & Heq)%Hkeys.
    apply log_key_inj in Heq; [lia|done|unfold is_u64, u64_MAX in *; lia]. }
  split; rewrite Hdb; [rewrite map_size_insert_None by done; congruence|].
  intros k. rewrite lookup_insert. case_decide as Hk.
  - intros _. exists (Z.of_nat (S n)). split; [lia|done].
  - intros (i & Hi & ->)%Hkeys. exists i. split; [lia|done].
Qed.
End storage.

(** ** Proposing *)

Section propose.
Context `{ProstLaws} `{RocksDBLaws} `{!Healthy} `{Formats}.

Lemma put_Ok k v db :
  ∃ db', db_put k v db = (db', Ok tt) ∧ db_contents db' = <[k := v]> (db_contents db).
Proof using All.
  destruct (healthy_put k v db) as [db' Hdb]. exists db'. eauto using db_put_spec.
Qed.

Lemma get_Ok db k : db_get db k = Ok (db_contents db !! k).
Proof using All.
  destruct (healthy_get db k) as [v Hv]. by rewrite Hv, (db_get_spec _ _ _ Hv).
Qed.

(** One proposal on a healthy disk. *)
Lemma propose_run e c r :
  let n := size (log_records (storage r)) in
  let '(sm, res) := apply_command e c (state_machine r) in
  ∃ db1 db2,
    db_contents db1 = <[log_key (wrap64 (Z.of_nat n + 1)) :=
      to_le_bytes 1 ++ debug_command c]> (db_contents (storage r)) ∧
    propose e c r =
      match res with
      | Ok _ => (mkLocalRaft db2 sm, Ok (wrap64 (Z.of_nat n + 1)))
      | Err s => (mkLocalRaft db1 sm, Err (status_to_string s))
      end ∧
    db_contents db2 = <[SNAPSHOT_KEY := encode_snapshot (order e) sm]> (db_contents db1).
Proof using All.
  simpl. destruct (apply_command e c (state_machine r)) as [sm res] eqn:Happ.
  destruct (put_Ok (log_key (wrap64 (Z.of_nat (size (log_records (storage r))) + 1)))
    (to_le_bytes 1 ++ debug_command c) (storage r)) as (db1 & Hput1 & Hdb1).
  destruct (put_Ok SNAPSHOT_KEY (encode_snapshot (order e) sm) db1) as (db2 & Hput2 & Hdb2).
  exists db1, db2. split; [done|]. split; [|done].
  unfold propose. unfold_action. rewrite log_entry_count_spec.
  unfold on_storage, append_log_entry, save_state_machine_snapshot.
  cbv beta iota. rewrite Hput1. cbn [storage state_machine]. rewrite Happ.
  destruct res as [[]|s]; cbn [map_err storage state_machine]; [|done]. by rewrite Hput2.
Qed.

(** The database holds the state of the state machine, in some hash order, or
    nothing when the state is empty. *)
Definition persisted (r : LocalRaft) : Prop :=
  match db_contents (storage r) !! SNAPSHOT_KEY with
  | Some bytes => ∃ h, bytes = encode_snapshot h (state_machine r)
  | None => state_machine r = default_state
  end.

Lemma propose_persisted e c r : persisted r → persisted (propose e c r).1.
Proof using All.
  intros Hr. pose proof (propose_run e c r) as Hrun.
  destruct (apply_command e c (state_machine r)) as [sm res] eqn:Happ; simpl in *.
  destruct Hrun as (db1 & db2 & Hdb1 & -> & Hdb2). unfold persisted. destruct res as [[]|s]; simpl.
  - rewrite Hdb2, lookup_insert_eq. by eexists.
  - apply apply_command_err in Happ as ->. rewrite Hdb1, lookup_insert_ne; [done|]. unfold log_key.
    intros Heq%(f_equal (λ k, starts_with k LOG_KEY_PREFIX)).
    by rewrite starts_with_app in Heq.
Qed.

(** What opening the database again makes of it *)
Lemma persisted_open r :
  wf (state_machine r) → typed_state (state_machine r) → state_addressable (state_machine r) →
  persisted r →
  (within_limits (state_machine r) ∧ open_raft (storage r) = Ok r) ∨
  (¬ within_limits (state_machine r) ∧ ∃ err, open_raft (storage r) = Err err).
Proof using All.
  intros Hwf Ht Haddr. unfold persisted, open_raft, load_state_machine_snapshot.
  rewrite get_Ok. simpl. destruct r as [db sm]. simpl in *.
  destruct (_ !! SNAPSHOT_KEY) as [bytes|]; simpl.
  - intros [h ->]. destruct (decode_encode_reloads h sm Hwf Ht Haddr) as [[Hlim ->]|[Hlim [err ->]]];
      [by left|right]. by eauto.
  - intros ->. left. split; [apply default_within_limits|done].
Qed.

Lemma propose_log_upto e c r n :
  is_u64 (Z.of_nat (S n)) → log_upto (storage r) n →
  log_upto (storage (propose e c r).1) (S n) ∧
  (propose e c r).2 = match (apply_command e c (state_machine r)).2 with
                      | Ok _ => Ok (Z.of_nat (S n))
                      | Err s => Err (status_to_string s)
                      end ∧
  state_machine (propose e c r).1 = (apply_command e c (state_machine r)).1.
Proof using All.
  intros Hn Hlog. pose proof (propose_run e c r) as Hrun.
  destruct (apply_command e c (state_machine r)) as [sm res]; simpl in *.
  destruct Hrun as (db1 & db2 & Hdb1 & -> & Hdb2).
  pose proof Hlog as [Hsize _]. rewrite Hsize in *.
  replace (wrap64 (Z.of_nat n + 1)) with (Z.of_nat (S n)) in *
    by (rewrite wrap64_small by (unfold is_u64 in *; lia); lia).
  pose proof (log_upto_append (storage r) db1 n _ Hn Hlog Hdb1) as Hlog1.
  destruct res as [[]|s]; simpl; split_and!; try done.
  unfold log_upto. by rewrite (log_records_other _ _ _ _ Hdb2).
Qed.

(** A sequence of proposals, each in its own environment. *)
Definition run_proposals (log : list (Env * MetadataCommand)) (r : LocalRaft) : LocalRaft :=
  foldl (λ r '(e, c), (propose e c r).1) r log.

Definition fresh (db : DB) : Prop := db_contents db = ∅.

Lemma fresh_open db :
  fresh db → open_raft db = Ok (mkLocalRaft db default_state) ∧ log_upto db 0.
Proof using All.
  intros Hdb. split.
  - unfold open_raft, load_state_machine_snapshot. by rewrite get_Ok, Hdb.
  - unfold log_upto, log_records. rewrite Hdb, map_filter_empty, map_size_empty.
    split; [done|]. intros k. by rewrite lookup_empty, is_Some_alt.
Qed.

Lemma run_proposals_snoc log e c r :
  run_proposals (log ++ [(e, c)]) r = (propose e c (run_proposals log r)).1.
Proof using Type. unfold run_proposals. by rewrite foldl_app. Qed.
Lemma apply_log_snoc log e c st :
  apply_log (log ++ [(e, c)]) st = (apply_command e c (apply_log log st)).1.
Proof using Type. unfold apply_log. by rewrite foldl_app. Qed.

Lemma run_proposals_log log db :
  fresh db → is_u64 (Z.of_nat (length log)) →
  let r := run_proposals log (mkLocalRaft db default_state) in
  state_machine r = apply_log log default_state ∧ log_upto (storage r) (length log).
Proof using All.
  intros Hdb. induction log as [|[e c] log IH] using rev_ind; intros Hlen.
  { by destruct (fresh_open db Hdb). }
  rewrite length_app in Hlen; simpl in Hlen. cbv zeta in *.
  destruct IH as (Hsm & Hlog); [unfold is_u64 in *; lia|].
  rewrite run_proposals_snoc, apply_log_snoc, length_app, Nat.add_1_r.
  edestruct propose_log_upto as (Hlog' & _ & ->); [|exact Hlog|by rewrite Hsm].
  by replace (S (length log)) with (length log + 1)%nat by lia.
Qed.

Lemma run_proposals_persisted log db :
  fresh db → persisted (run_proposals log (mkLocalRaft db default_state)).
Proof using All.
  intros Hdb. induction log as [|[e c] log IH] using rev_ind.
  - unfold persisted. simpl. by rewrite Hdb, lookup_empty.
  - rewrite run_proposals_snoc. by apply propose_persisted.
Qed.
End propose.

(** ** The live state next to the stored one *)

Section replica.
Context `{ProstLaws} `{RocksDBLaws} `{!Healthy} `{Formats}.

Definition stored (n : Replica) : option MetadataState :=
  match inner (backend n) with
  | Memory => None
  | Persistent raft => Some (state_machine raft)
  end.

Lemma replica_step e e' c lv raft k :
  (apply_command e c lv).2 = Ok tt →
  ∃ k', propose_local_apply e e' c (mkReplica lv (mkBackend (Persistent raft) k)) =
    (mkReplica (apply_command e c lv).1
       (mkBackend (Persistent (propose e' c raft).1) k'),
     match (apply_command e' c (state_machine raft)).2 with
     | Ok _ => Ok tt
     | Err s => Err (internal (status_to_string s))
     end).
Proof using All.
  intros Hok. unfold propose_local_apply. cbn [live backend].
  destruct (apply_command e c lv) as [lv' res]; simpl in Hok; subst res.
  unfold persist_if_needed. cbn [inner proposed_commands].
  pose proof (propose_run e' c raft) as Hrun. simpl in Hrun.
  destruct (apply_command e' c (state_machine raft)) as [sm res'].
  destruct Hrun as (db1 & db2 & _ & -> & _). destruct res' as [[]|s]; eauto.
Qed.

Lemma propose_state_machine e c raft :
  state_machine (propose e c raft).1 = (apply_command e c (state_machine raft)).1.
Proof using All.
  pose proof (propose_run e c raft) as Hrun. simpl in Hrun.
  destruct (apply_command e c (state_machine raft)) as [sm [[]|s]];
    by destruct Hrun as (? & ? & _ & -> & _).
Qed.

(** One command on a replica whose two applications read the same clock. *)
Lemma in_sync_step e c n :
  stored n = Some (live n) →
  let '(n', res) := propose_local_apply e e c n in
  stored n' = Some (live n') ∧
  (live n', is_ok res) =
    ((apply_command e c (live n)).1, is_ok (apply_command e c (live n)).2).
Proof using All.
  destruct n as [lv [[|raft] k]]; [done|]. unfold stored; simpl. intros [= Hsm].
  destruct ((apply_command e c lv).2) as [[]|err] eqn:Hres.
  - destruct (replica_step e e c lv raft k Hres) as [k' ->]. simpl.
    rewrite propose_state_machine, Hsm, Hres. done.
  - unfold propose_local_apply; simpl. destruct (apply_command e c lv) as [lv' res] eqn:E.
    simpl in Hres; subst res. apply apply_command_err in E as ->. simpl. by rewrite Hsm.
Qed.
End replica.

(** ** A database that satisfies the laws, for the witnesses *)

Module MemDB.
Definition scan (db : gmap (list Z) (list Z)) (from : list Z) : list (list Z * list Z) :=
  List.filter (λ kv, match bytes_cmp from kv.1 with Gt => false | _ => true end)
    (sort_by (cmp_on fst bytes_cmp) (map_to_list db)).

Definition rocksdb : RocksDB := {|
  DB := gmap (list Z) (list Z);
  db_get db k := Ok (db !! k);
  db_put k v := modify (λ db, <[k := v]> db);
  db_iterator_from db from := Ok <$> scan db from |}.

Lemma scan_elem db from k v :
  (k, v) ∈ scan db from ↔ db !! k = Some v ∧ bytes_cmp from k ≠ Gt.
Proof.
  unfold scan. rewrite elem_of_Lfilter, sort_by_perm, elem_of_map_to_list; simpl.
  destruct (bytes_cmp from k); naive_solver.
Qed.

Lemma scan_sorted db from :
  StronglySorted (λ a b, bytes_cmp a.1 b.1 = Lt) (scan db from).
Proof.
  unfold scan. pose proof (sort_by_sorted (cmp_on fst bytes_cmp) (map_to_list db)) as Hs.
  assert (NoDup (sort_by (cmp_on fst bytes_cmp) (map_to_list db)).*1) as Hnd
    by (rewrite sort_by_perm; apply NoDup_fst_map_to_list).
  induction Hs as [|x l Hl IH Hx]; csimpl; [constructor|].
  apply NoDup_cons in Hnd as [Hni Hnd]. specialize (IH Hnd).
  assert (Forall (λ y, bytes_cmp x.1 y.1 = Lt) l) as Hlt.
  { rewrite Forall_forall in *. intros y Hy. specialize (Hx y Hy).
    unfold cmp_le, cmp_on in Hx. destruct (bytes_cmp x.1 y.1) eqn:E; [|done|done].
    apply bytes_cmp_eq in E. exfalso. apply Hni. rewrite E.
    apply list_elem_of_fmap. eauto. }
  case_match; [|done..]; constructor; try done.
  all: rewrite Forall_forall in *; intros y [Hy _]%elem_of_Lfilter; eauto.
Qed.

Lemma fmap_Ok_inj {A} (l l' : list A) :
  Ok (E := string) <$> l = Ok <$> l' → l = l'.
Proof. apply list_fmap_eq_inj. by intros ?? [= ->]. Qed.

Definition laws : @RocksDBLaws rocksdb.
Proof.
  refine (@Build_RocksDBLaws rocksdb (λ db, db) _ _ _ _).
  - by intros db k v [= <-].
  - by intros k v db db' [= <-].
  - intros db from es <-%fmap_Ok_inj. apply scan_sorted.
  - intros db from es k v <-%fmap_Ok_inj. apply scan_elem.
Defined.

Lemma healthy : @Healthy rocksdb.
Proof. split; simpl; eauto. Qed.

Definition formats : Formats := {|
  status_to_string s := message s;
  debug_command _ := [] |}.
End MemDB.

(** ** Theorems *)

(** C19: Starting from an empty database on a disk that reports no errors, any
    sequence of proposals of typed commands leaves the state the commands lead
    to, one log record per proposal (also for the rejected ones), and a database
    from which opening the raft again gives the very same state when that state
    keeps within the limits of the snapshot decoder. When it does not, although
    every proposal was answered as usual, opening the database fails. The
    numbers of proposals, of messages and of their bytes are 64-bit ones. *)
Theorem raft_recovery `{Prost} (Hp : ProstLaws) `{RocksDB} (Hdb : RocksDBLaws)
    (Hh : Healthy) `{Formats} (db : DB) (log : list (Env * MetadataCommand)) :
  db_contents db = ∅ → is_u64 (Z.of_nat (length log)) → typed_log log = true →
  state_addressable (apply_log log default_state) →
  ∃ r0, open_raft db = Ok r0 ∧
    let r := run_proposals log r0 in
    state_machine r = apply_log log default_state ∧
    log_entry_count (storage r) = Ok (Z.of_nat (length log)) ∧
    ((within_limits (apply_log log default_state) ∧ open_raft (storage r) = Ok r) ∨
     (¬ within_limits (apply_log log default_state) ∧ ∃ err, open_raft (storage r) = Err err)).
Proof.
  intros Hfresh Hlen Ht Haddr. eexists. split; [apply fresh_open, Hfresh|].
  destruct (run_proposals_log log db Hfresh Hlen) as (Hsm & [Hsize _]).
  split_and!; [done|rewrite log_entry_count_spec; congruence|].
  rewrite <-Hsm in Haddr |- *. apply persisted_open; [..|done|by apply run_proposals_persisted];
    rewrite Hsm; [apply apply_log_wf, wf_default|apply apply_log_typed; [done|apply typed_default]].
Qed.

Definition docs_log : list (Env * MetadataCommand) :=
  [(Sample.env 1, CreateBucket Sample.bucket); (Sample.env 2, CreateBucket Sample.bucket)].

Lemma docs_log_limits log' :
  log' `prefix_of` docs_log →
  @within_limits BitCodec.prost (apply_log log' default_state).
Proof.
  assert (@within_limits BitCodec.prost default_state) as H0
    by (unfold within_limits; split_and!; apply BitCodec.table_ok_empty).
  assert (@within_limits BitCodec.prost (apply_log docs_log default_state)) as H1.
  { unfold within_limits. split; [apply BitCodec.table_ok_empty|].
    split; [|split_and!; apply BitCodec.table_ok_empty].
    change (buckets (apply_log docs_log default_state)) with
      ({["docs" := BucketInfo.set_created_at (Some (Timestamp.mk 1 0)) Sample.bucket]}
         : gmap string BucketInfo.t).
    split; [rewrite map_size_singleton|apply map_Forall_singleton]; vm_compute; discriminate. }
  intros [k Hk]. destruct log' as [|x [|y [|z log']]]; [exact H0|..];
    injection Hk as <-; [exact H1|subst y; exact H1|discriminate].
Qed.

Lemma raft_recovery_witness :
  let _ := BitCodec.prost in let _ := MemDB.rocksdb in let _ := MemDB.formats in
  ∃ r, log_entry_count (storage r) = Ok 2%Z ∧ open_raft (storage r) = Ok r ∧
    is_Some (buckets (state_machine r) !! "docs").
Proof.
  cbv zeta.
  destruct (@raft_recovery BitCodec.prost BitCodec.prost_laws MemDB.rocksdb MemDB.laws
    MemDB.healthy MemDB.formats ∅ docs_log) as (r0 & _ & Hsm & Hcount & [[_ Hopen]|[Hno _]]).
  - reflexivity.
  - split; discriminate.
  - reflexivity.
  - apply within_limits_addressable, docs_log_limits. done.
  - eexists. split; [exact Hcount|]. split; [exact Hopen|].
    rewrite Hsm. eexists. reflexivity.
  - exfalso. apply Hno, docs_log_limits. done.
Defined.

(** Proposals are numbered consecutively: after [length log] of them the
    next one is answered with index [length log + 1] if its command is accepted
    by the state machine, and with the state machine's error otherwise. *)
Theorem raft_indices_consecutive `{Prost} (Hp : ProstLaws) `{RocksDB} (Hdb : RocksDBLaws)
    (Hh : Healthy) `{Formats} (db : DB) (log : list (Env * MetadataCommand)) (e : Env)
    (c : MetadataCommand) :
  db_contents db = ∅ → is_u64 (Z.of_nat (S (length log))) →
  (propose e c (run_proposals log (mkLocalRaft db default_state))).2 =
    match (apply_command e c (apply_log log default_state)).2 with
    | Ok _ => Ok (Z.of_nat (S (length log)))
    | Err s => Err (status_to_string s)
    end.
Proof.
  intros Hfresh Hlen.
  destruct (run_proposals_log log db Hfresh) as (Hsm & Hlog); [unfold is_u64 in *; lia|].
  destruct (propose_log_upto e c _ _ Hlen Hlog) as (_ & -> & _). by rewrite Hsm.
Qed.

Lemma raft_indices_consecutive_witness :
  let _ := BitCodec.prost in let _ := MemDB.rocksdb in let _ := MemDB.formats in
  (propose (Sample.env 3) (PutObject (Sample.object "a" 5))
     (run_proposals docs_log (mkLocalRaft (∅ : gmap (list Z) (list Z)) default_state))).2
  = Ok 3%Z.
Proof.
  apply (@raft_indices_consecutive BitCodec.prost BitCodec.prost_laws MemDB.rocksdb
    MemDB.laws MemDB.healthy MemDB.formats ∅ docs_log (Sample.env 3)
    (PutObject (Sample.object "a" 5))).
  - reflexivity.
  - split; discriminate.
Defined.

Definition run_replica `{Prost} `{RocksDB} `{Formats} (log : list (Env * MetadataCommand))
    (n : Replica) : Replica :=
  foldl (λ n '(e, c), (propose_local_apply e e c n).1) n log.

(** As long as both applications of every command read the same clock, the
    live state and the stored state agree after any sequence of commands, and
    both are the state the commands lead to. *)
Theorem replica_in_sync `{Prost} (Hp : ProstLaws) `{RocksDB} (Hdb : RocksDBLaws)
    (Hh : Healthy) `{Formats} (n : Replica) (log : list (Env * MetadataCommand)) :
  stored n = Some (live n) →
  live (run_replica log n) = apply_log log (live n) ∧
  stored (run_replica log n) = Some (apply_log log (live n)).
Proof.
  revert n. induction log as [|[e c] log IH]; intros n Hn; [done|].
  pose proof (in_sync_step e c n Hn) as Hstep. simpl.
  destruct (propose_local_apply e e c n) as [n' res]. destruct Hstep as [Hs [= <- _]].
  by apply IH.
Qed.

Lemma replica_in_sync_witness :
  let _ := BitCodec.prost in let _ := MemDB.rocksdb in let _ := MemDB.formats in
  stored (run_replica docs_log (mkReplica default_state
    (mkBackend (Persistent (mkLocalRaft (∅ : gmap (list Z) (list Z)) default_state)) 0)))
  = Some (apply_log docs_log default_state).
Proof.
  apply (@replica_in_sync BitCodec.prost BitCodec.prost_laws MemDB.rocksdb
    MemDB.laws MemDB.healthy MemDB.formats). reflexivity.
Defined.

(** The two applications of a command read the clock separately, and that
    is enough to lose an update. After a put that the live state stamps with
    second 2 and the stored state with second 3, an archive completion that
    names the live generation is answered with an error and yet archives the
    object in the live state, while the stored state keeps it unarchived. *)
Theorem clock_skew_diverges `{Prost} (Hp : ProstLaws) `{RocksDB} (Hdb : RocksDBLaws)
    (Hh : Healthy) `{Formats} (db : DB) :
  let n0 := mkReplica default_state
    (mkBackend (Persistent (mkLocalRaft db default_state)) 0) in
  let n1 := (propose_local_apply (Sample.env 1) (Sample.env 1)
    (CreateBucket Sample.bucket) n0).1 in
  let '(n2, r2) := propose_local_apply (Sample.env 2) (Sample.env 3)
    (PutObject (Sample.object "a" 5)) n1 in
  let '(n3, r3) := propose_local_apply (Sample.env 4) (Sample.env 4)
    (CompleteArchiveObject Sample.complete) n2 in
  let archive_of st := ObjectMetadata.archive_id <$>
    objects st !! ObjectKey.new "docs" "a" None in
  r2 = Ok tt ∧ is_ok r3 = false ∧
  archive_of (live n3) = Some (Some "b1") ∧
  archive_of <$> stored n3 = Some (Some None).
Proof.
  intros n0 n1.
  destruct (replica_step (Sample.env 1) (Sample.env 1) (CreateBucket Sample.bucket)
    default_state (mkLocalRaft db default_state) 0 eq_refl) as [k1 Hn1].
  unfold n1, n0. rewrite Hn1. cbn [fst].
  match goal with |- context [mkBackend (Persistent ?r) k1] => set (r1 := r) end.
  assert (state_machine r1
    = (apply_command (Sample.env 1) (CreateBucket Sample.bucket) default_state).1) as Hr1
    by apply propose_state_machine.
  destruct (replica_step (Sample.env 2) (Sample.env 3) (PutObject (Sample.object "a" 5))
    (apply_command (Sample.env 1) (CreateBucket Sample.bucket) default_state).1 r1 k1
    eq_refl) as [k2 Hn2].
  rewrite Hn2, Hr1.
  match goal with |- context [mkBackend (Persistent ?r) k2] => set (r2 := r) end.
  assert (state_machine r2
    = (apply_command (Sample.env 3) (PutObject (Sample.object "a" 5)) (state_machine r1)).1)
    as Hr2 by apply propose_state_machine.
  match goal with |- context [mkReplica ?l (mkBackend (Persistent r2) k2)] =>
    destruct (replica_step (Sample.env 4) (Sample.env 4) (CompleteArchiveObject Sample.complete)
      l r2 k2 eq_refl) as [k3 Hn3] end.
  rewrite Hn3, Hr2, Hr1. unfold stored. cbn [backend inner live].
  rewrite propose_state_machine, Hr2, Hr1. clear.
  split_and!; vm_compute; reflexivity.
Qed.

Lemma clock_skew_diverges_witness :
  let _ := BitCodec.prost in let _ := MemDB.rocksdb in let _ := MemDB.formats in
  let n0 := mkReplica default_state
    (mkBackend (Persistent (mkLocalRaft (∅ : gmap (list Z) (list Z)) default_state)) 0) in
  let n1 := (propose_local_apply (Sample.env 1) (Sample.env 1)
    (CreateBucket Sample.bucket) n0).1 in
  let '(n2, r2) := propose_local_apply (Sample.env 2) (Sample.env 3)
    (PutObject (Sample.object "a" 5)) n1 in
  let '(n3, r3) := propose_local_apply (Sample.env 4) (Sample.env 4)
    (CompleteArchiveObject Sample.complete) n2 in
  is_ok r3 = false ∧
  ObjectMetadata.archive_id <$> objects (live n3) !! ObjectKey.new "docs" "a" None
    = Some (Some "b1").
Proof.
  pose proof (@clock_skew_diverges BitCodec.prost BitCodec.prost_laws MemDB.rocksdb
    MemDB.laws MemDB.healthy MemDB.formats ∅) as Hskew.
  cbv zeta in *.
  destruct (propose_local_apply (Sample.env 2) _ _ _) as [n2 r2] eqn:E2.
  destruct (propose_local_apply (Sample.env 4) _ _ _) as [n3 r3] eqn:E3.
  destruct Hskew as (_ & Hr3 & Hlive & _). split; [exact Hr3|exact Hlive].
Defined.

(** Importing a snapshot into an empty raft database stores it without
    handing it to the raft's own state machine. The next accepted command
    overwrites the imported state: what a restart recovers is that command
    applied to an empty state, whatever had been imported. *)
Theorem imported_state_is_overwritten `{Prost} (Hp : ProstLaws) `{RocksDB}
    (Hdb : RocksDBLaws) (Hh : Healthy) `{Formats} (db : DB) (h : hash_order)
    (imported : MetadataState) (e e' : Env) (c : MetadataCommand) :
  db_contents db = ∅ → is_empty imported = false →
  (apply_command e c imported).2 = Ok tt →
  (apply_command e' c default_state).2 = Ok tt →
  typed e' = true → typed c = true → within_limits (apply_command e' c default_state).1 →
  ∃ b0 b1 n,
    new_with_storage db = Ok b0 ∧
    bootstrap_state_if_empty h imported b0 = (b1, Ok tt) ∧
    propose_local_apply e e' c (mkReplica imported b1) = (n, Ok tt) ∧
    live n = (apply_command e c imported).1 ∧
    bootstrapped_state (backend n) = Ok (Some (apply_command e' c default_state).1).
Proof.
  intros Hfresh Hne Hok Hok' He Hc Hlim.
  destruct (fresh_open db Hfresh) as [Hopen [Hlen _]].
  assert (new_with_storage db
    = Ok (mkBackend (Persistent (mkLocalRaft db default_state)) 0)) as Hnew.
  { unfold new_with_storage. rewrite Hopen. unfold mbind, result_bind. cbv beta iota.
    cbn [storage]. by rewrite log_entry_count_spec, Hlen. }
  destruct (put_Ok SNAPSHOT_KEY (encode_snapshot h imported) db) as (db1 & Hput & _).
  assert (bootstrap_state_if_empty h imported
      (mkBackend (Persistent (mkLocalRaft db default_state)) 0)
    = (mkBackend (Persistent (mkLocalRaft db1 default_state)) 0, Ok tt)) as Hboot.
  { unfold bootstrap_state_if_empty. rewrite Hne. cbn [inner storage].
    unfold load_state_machine_snapshot. rewrite get_Ok, Hfresh, lookup_empty.
    unfold mbind, result_bind, on_storage, save_state_machine_snapshot.
    cbv beta iota. cbn [storage]. by rewrite Hput. }
  destruct (replica_step e e' c imported (mkLocalRaft db1 default_state) 0 Hok)
    as [k Hstep]. cbn [state_machine] in Hstep. rewrite Hok' in Hstep.
  do 3 eexists. split_and!; [exact Hnew|exact Hboot|exact Hstep|done|].
  unfold bootstrapped_state. cbn [backend inner].
  pose proof (propose_run e' c (mkLocalRaft db1 default_state)) as Hrun. simpl in Hrun.
  destruct (apply_command e' c default_state) as [sm res] eqn:Happ.
  simpl in Hok'; subst res. destruct Hrun as (db2 & db3 & _ & -> & Hdb3).
  cbn [fst]. unfold raft_snapshot, load_state_machine_snapshot. cbn [storage].
  rewrite get_Ok, Hdb3, lookup_insert_eq. unfold mbind, result_bind. cbv beta iota.
  replace sm with (apply_command e' c default_state).1 by by rewrite Happ.
  rewrite decode_encode_snapshot.
  - by rewrite Happ.
  - apply apply_command_wf, wf_default.
  - apply apply_command_typed; [done..|apply typed_default].
  - by rewrite Happ.
Qed.

Lemma imported_state_is_overwritten_witness :
  let _ := BitCodec.prost in let _ := MemDB.rocksdb in let _ := MemDB.formats in
  let other := CreateBucket (BucketInfo.mk "other" None None false 0 0) in
  ∃ b, bootstrapped_state b = Ok (Some (apply_command (Sample.env 1) other default_state).1) ∧
    buckets (apply_command (Sample.env 1) other default_state).1 !! "docs" = None.
Proof.
  cbv zeta. set (other := CreateBucket _).
  destruct (@imported_state_is_overwritten BitCodec.prost BitCodec.prost_laws MemDB.rocksdb
    MemDB.laws MemDB.healthy MemDB.formats ∅ canonical_order BitCodec.state (Sample.env 1)
    (Sample.env 1) other) as (b0 & b1 & n & _ & _ & _ & _ & Hrec).
  - reflexivity.
  - reflexivity.
  - reflexivity.
  - reflexivity.
  - reflexivity.
  - reflexivity.
  - unfold within_limits. split; [apply BitCodec.table_ok_empty|].
    split; [|split_and!; apply BitCodec.table_ok_empty].
    change (buckets (apply_command (Sample.env 1) other default_state).1) with
      ({["other" := BucketInfo.mk "other" (Some (Timestamp.mk 1 0)) None false 0 0]}
         : gmap string BucketInfo.t).
    split; [rewrite map_size_singleton|apply map_Forall_singleton]; vm_compute; discriminate.
  - exists (backend n). split; [exact Hrec|reflexivity].
Defined.
