(* ===== verification/MetadataService.v ===== *)
(** * The metadata service

    [src/crates/metadata/src/service.rs]: the constructors of the service, the
    write path every mutating handler goes through ([apply_and_persist]), and
    the read handlers. Writes hold the service's write lock, so a history of
    the service is a sequence of calls. *)

From Stdlib Require Import ZArith String Ascii.
From S2P Require Import Prelude Proto StateMachine Snapshot Raft RustStr.

Local Open Scope stdpp_scope.

(** ** Configuration and messages *)

(** [MetadataConsensusMode], [RocksDbConfig], [MetadataConfig] ([config.rs]) *)
Inductive MetadataConsensusMode := Standalone | LocalRaftMode | PersistentRaft.
#[export] Instance MetadataConsensusMode_eq_dec : EqDecision MetadataConsensusMode.
Proof. solve_decision. Defined.

Record RocksDbConfig := mkRocksDbConfig {
  max_open_files : Z;
  write_buffer_size_mb : Z;
  max_background_jobs : Z;
}.

Module MetadataConfig.
Record t := mk {
  node_id : Z;
  listen : string;
  cluster : string;
  data_path : string;
  consensus_mode : MetadataConsensusMode;
  raft_state_path : option string;
  rocksdb : RocksDbConfig;
}.

(** [MetadataConfig::default()] *)
Definition default_config : t :=
  mk 1 "0.0.0.0:21001" "1:127.0.0.1:21001" "/var/lib/coldstore/metadata" PersistentRaft None
    (mkRocksDbConfig 1024 64 4).
End MetadataConfig.

Module ListObjectsRequest.
Record t := mk {
  bucket : string;
  prefix : option string;
  marker : option string;
  max_keys : Z;
}.
End ListObjectsRequest.

Module ListObjectsResponse.
Record t := mk {
  objects : list ObjectMetadata.t;
  next_marker : option string;
  is_truncated : bool;
}.
End ListObjectsResponse.

Module MetadataNodeInfo.
Record t := mk {
  node_id : Z;
  addr : string;
  raft_role : string;
  last_heartbeat : option Timestamp.t;
  status : Z;
}.
End MetadataNodeInfo.

Module ClusterInfo.
Record t := mk {
  cluster_id : string;
  metadata_nodes : list MetadataNodeInfo.t;
  scheduler_workers : list SchedulerWorkerInfo.t;
  cache_workers : list CacheWorkerInfo.t;
  tape_workers : list TapeWorkerInfo.t;
  leader_id : option Z;
  term : Z;
  committed_index : Z;
}.
End ClusterInfo.

(** ** Read handlers *)

(** [usize::MAX] for 0, the number itself otherwise *)
Definition limit_of (n : Z) : Z := if (n =? 0)%Z then usize_MAX else n.

(** [iter.take(n)] for a [usize] *)
Definition take_z {A} (n : Z) (l : list A) : list A := take (Z.to_nat n) l.

Section reads.
Implicit Types (e : Env) (state : MetadataState).

Definition get_object e state (bucket key : string) : result Status ObjectMetadata.t :=
  find_object e state bucket key None.

Definition get_object_version e state (bucket key version_id : string)
    : result Status ObjectMetadata.t :=
  find_object e state bucket key (Some version_id).

Definition head_object e state (bucket key : string) : result Status ObjectMetadata.t :=
  find_object e state bucket key None.

(** The order of a listing: by key, then by version. *)
Definition listing_cmp : ObjectMetadata.t → ObjectMetadata.t → comparison :=
  cmp_then (cmp_on ObjectMetadata.key String.compare)
    (cmp_on ObjectMetadata.version_id (option_cmp String.compare)).

Definition list_objects e state (request : ListObjectsRequest.t)
    : result Status ListObjectsResponse.t :=
  let bucket := request.(ListObjectsRequest.bucket) in
  if negb (contains_key (buckets state) bucket)
  then Err (not_found (String.append "bucket not found: " bucket)) else
  let prefix := default EmptyString request.(ListObjectsRequest.prefix) in
  let marker := default EmptyString request.(ListObjectsRequest.marker) in
  let limit := limit_of request.(ListObjectsRequest.max_keys) in
  let objects :=
    List.filter (λ object, str_gtb object.(ObjectMetadata.key) marker)
      (List.filter (λ object, str_starts_with object.(ObjectMetadata.key) prefix)
        (List.filter (λ object, object.(ObjectMetadata.bucket) == bucket)
          (hm_values (order e) (objects state)))) in
  let objects := sort_by listing_cmp objects in
  let is_truncated := (limit <? Z.of_nat (length objects))%Z in
  let next_marker :=
    if is_truncated
    then ObjectMetadata.key <$> objects !! Z.to_nat (limit - 1)
    else None in
  Ok (ListObjectsResponse.mk (take_z limit objects) next_marker is_truncated).

Definition scan_cold_pending e state (limit : Z) : list ObjectMetadata.t :=
  let limit := limit_of limit in
  let objects := List.filter
    (λ object, object.(ObjectMetadata.storage_class)
               == StorageClass.as_i32 StorageClass.ColdPending)
    (hm_values (order e) (objects state)) in
  take_z limit (sort_by
    (cmp_then (cmp_on ObjectMetadata.bucket String.compare)
              (cmp_on ObjectMetadata.key String.compare)) objects).

Definition get_bucket state (name : string) : result Status BucketInfo.t :=
  ok_or (not_found (String.append "bucket not found: " name)) (buckets state !! name).

Definition list_buckets e state : list BucketInfo.t :=
  sort_by (cmp_on BucketInfo.name String.compare) (hm_values (order e) (buckets state)).

Definition get_archive_bundle state (id : string) : result Status ArchiveBundle.t :=
  ok_or (not_found "archive bundle not found") (archive_bundles state !! id).

Definition list_bundles_by_tape e state (tape_id : string) : list string :=
  ArchiveBundle.id <$> List.filter (λ bundle, bundle.(ArchiveBundle.tape_id) == tape_id)
    (hm_values (order e) (archive_bundles state)).

Definition get_archive_task state (id : string) : result Status ArchiveTask.t :=
  ok_or (not_found "archive task not found") (archive_tasks state !! id).

Definition list_pending_archive_tasks e state : list ArchiveTask.t :=
  List.filter
    (λ task, match ArchiveTaskStatus.try_from task.(ArchiveTask.status) with
             | Some ArchiveTaskStatus.ArchiveTaskPending
             | Some ArchiveTaskStatus.ArchiveTaskInProgress => true
             | _ => false
             end)
    (hm_values (order e) (archive_tasks state)).

Definition get_recall_task state (id : string) : result Status RecallTask.t :=
  ok_or (not_found "recall task not found") (recall_tasks state !! id).

Definition list_pending_recall_tasks e state : list RecallTask.t :=
  List.filter (λ task, is_pending_restore_status task.(RecallTask.status))
    (hm_values (order e) (recall_tasks state)).

Definition list_recall_tasks_by_tape e state (tape_id : string) : list RecallTask.t :=
  List.filter (λ task, task.(RecallTask.tape_id) == tape_id)
    (hm_values (order e) (recall_tasks state)).

Definition find_active_recall e state (bucket key : string) : option RecallTask.t :=
  List.find (λ task, (task.(RecallTask.bucket) == bucket)
                     && (task.(RecallTask.key) == key)
                     && is_active_restore_status task.(RecallTask.status))
    (hm_values (order e) (recall_tasks state)).

Definition get_tape state (tape_id : string) : result Status TapeInfo.t :=
  ok_or (not_found "tape not found") (tapes state !! tape_id).

Definition list_tapes e state : list TapeInfo.t := hm_values (order e) (tapes state).

Definition list_tapes_by_status e state (status : Z) : list TapeInfo.t :=
  List.filter (λ tape, tape.(TapeInfo.status) == status)
    (hm_values (order e) (tapes state)).

Definition list_online_scheduler_workers e state : list SchedulerWorkerInfo.t :=
  List.filter (λ worker, worker.(SchedulerWorkerInfo.status)
                         == NodeStatus.as_i32 NodeStatus.NodeOnline)
    (hm_values (order e) (scheduler_workers state)).

Definition list_online_cache_workers e state : list CacheWorkerInfo.t :=
  List.filter (λ worker, worker.(CacheWorkerInfo.status)
                         == NodeStatus.as_i32 NodeStatus.NodeOnline)
    (hm_values (order e) (cache_workers state)).

Definition list_online_tape_workers e state : list TapeWorkerInfo.t :=
  List.filter (λ worker, worker.(TapeWorkerInfo.status)
                         == NodeStatus.as_i32 NodeStatus.NodeOnline)
    (hm_values (order e) (tape_workers state)).

(** [metadata_nodes] *)
Definition metadata_nodes e (config : MetadataConfig.t) (leader_hint : option Z)
    : list MetadataNodeInfo.t :=
  omap (λ entry,
      '(node_id, addr) ← split_once ":"%char entry;
      node_id ← parse_u64 node_id;
      Some (MetadataNodeInfo.mk node_id addr
        (if Some node_id == leader_hint then "Leader" else "Follower")
        (Some (now_timestamp e)) (NodeStatus.as_i32 NodeStatus.NodeOnline)))
    (split ","%char config.(MetadataConfig.cluster)).
End reads.

(** ** The service *)

(** What a call reads from outside: the clock and hash order of its two
    applications, the fresh name of the temporary file, and where, if at all,
    writing the snapshot file fails. *)
Record CallEnv := mkCallEnv {
  env : Env;
  store_env : Env;
  tmp_path : string;
  parent_path : option string;
  io_error : option (nat * string);
}.

Section service.
Context `{Prost} `{RocksDB} `{Formats}.

(** [MetadataServiceImpl], and the files of its disk *)
Record MetadataServiceImpl := mkService {
  config : MetadataConfig.t;
  state : MetadataState;
  snapshot_path : option string;
  raft_backend : option RaftMetadataBackend;
  files : filesystem;
}.

(** [MetadataServiceImpl::new] *)
Definition new_service (config : MetadataConfig.t) (files : filesystem)
    : MetadataServiceImpl :=
  mkService config default_state None (Some new_backend) files.

(** [MetadataServiceImpl::new_with_snapshot] *)
Definition new_with_snapshot (config : MetadataConfig.t) (snapshot_path : string)
    (files : filesystem) : result string MetadataServiceImpl :=
  state ← (if contains_key files snapshot_path then load_snapshot snapshot_path files
           else Ok default_state);
  Ok (mkService config state (Some snapshot_path) (Some new_backend) files).

(** [MetadataServiceImpl::new_with_raft_backend] *)
Definition new_with_raft_backend (config : MetadataConfig.t)
    (raft_backend : RaftMetadataBackend) (files : filesystem)
    : result string MetadataServiceImpl :=
  state ← bootstrapped_state raft_backend;
  Ok (mkService config (default default_state state) None (Some raft_backend) files).

(** [MetadataServiceImpl::new_with_snapshot_and_raft_backend] *)
Definition new_with_snapshot_and_raft_backend (h : hash_order) (config : MetadataConfig.t)
    (snapshot_path : string) (raft_backend : RaftMetadataBackend) (files : filesystem)
    : result string MetadataServiceImpl :=
  raft_state ← bootstrapped_state raft_backend;
  let raft_state := default default_state raft_state in
  '(state, raft_backend) ←
    (if is_empty raft_state then
       if contains_key files snapshot_path then
         snapshot_state ← load_snapshot snapshot_path files;
         if is_empty snapshot_state then Ok (default_state, raft_backend) else
         let '(raft_backend, res) :=
           bootstrap_state_if_empty h snapshot_state raft_backend in
         _ ← map_err status_to_string res;
         Ok (snapshot_state, raft_backend)
       else Ok (default_state, raft_backend)
     else Ok (raft_state, raft_backend));
  Ok (mkService config state (Some snapshot_path) (Some raft_backend) files).

(** Runs the operations on the files, up to the one that fails. *)
Definition run_fs (io : option (nat * string)) (ops : list fs_op) (fs : filesystem)
    : filesystem * result string unit :=
  match io with
  | Some (n, err) =>
      if (n <? length ops)%nat
      then (foldl (λ fs op, fs_step op fs) fs (take n ops), Err err)
      else (foldl (λ fs op, fs_step op fs) fs ops, Ok tt)
  | None => (foldl (λ fs op, fs_step op fs) fs ops, Ok tt)
  end.

Definition set_files (fs : filesystem) (s : MetadataServiceImpl) : MetadataServiceImpl :=
  mkService (config s) (state s) (snapshot_path s) (raft_backend s) fs.

(** [persist_locked] *)
Definition persist_locked (c : CallEnv) : action MetadataServiceImpl Status unit :=
  λ s,
    match snapshot_path s with
    | Some path =>
        let '(fs, res) := run_fs (io_error c)
          (save_snapshot (order (env c)) (parent_path c) path (tmp_path c) (state s))
          (files s) in
        (set_files fs s,
         map_err (λ err, internal (String.append "persist metadata snapshot: " err)) res)
    | None => (s, Ok tt)
    end.

(** [apply_and_persist] *)
Definition apply_and_persist (c : CallEnv) (command : MetadataCommand)
    : action MetadataServiceImpl Status unit :=
  λ s,
    match raft_backend s with
    | None => (s, Err (internal "metadata raft backend is not initialized"))
    | Some backend =>
        let '(n, res) := propose_local_apply (env c) (store_env c) command
          (mkReplica (state s) backend) in
        let s := mkService (config s) (live n) (snapshot_path s)
          (Some (Raft.backend n)) (files s) in
        match res with
        | Err err => (s, Err err)
        | Ok _ => persist_locked c s
        end
    end.

(** *** Write handlers *)

Definition put_object c object := apply_and_persist c (PutObject object).
Definition delete_object c request := apply_and_persist c (DeleteObject request).
Definition update_storage_class c request :=
  apply_and_persist c (UpdateStorageClass request).
Definition update_archive_location c request :=
  apply_and_persist c (UpdateArchiveLocation request).
Definition complete_archive_object c request :=
  apply_and_persist c (CompleteArchiveObject request).
Definition update_restore_status c request :=
  apply_and_persist c (UpdateRestoreStatus request).
Definition create_bucket c bucket := apply_and_persist c (CreateBucket bucket).
Definition delete_bucket c request := apply_and_persist c (DeleteBucket request).
Definition put_archive_bundle c bundle := apply_and_persist c (PutArchiveBundle bundle).
Definition update_archive_bundle_status c request :=
  apply_and_persist c (UpdateArchiveBundleStatus request).
Definition put_archive_task c task := apply_and_persist c (PutArchiveTask task).
Definition update_archive_task c task := apply_and_persist c (UpdateArchiveTask task).
Definition put_recall_task c task := apply_and_persist c (PutRecallTask task).
Definition update_recall_task c task := apply_and_persist c (UpdateRecallTask task).
Definition put_tape c tape := apply_and_persist c (PutTape tape).
Definition update_tape c tape := apply_and_persist c (UpdateTape tape).
Definition register_scheduler_worker c worker :=
  apply_and_persist c (RegisterSchedulerWorker worker).
Definition deregister_scheduler_worker c request :=
  apply_and_persist c (DeregisterSchedulerWorker request).
Definition register_cache_worker c worker :=
  apply_and_persist c (RegisterCacheWorker worker).
Definition deregister_cache_worker c request :=
  apply_and_persist c (DeregisterCacheWorker request).
Definition register_tape_worker c worker :=
  apply_and_persist c (RegisterTapeWorker worker).
Definition deregister_tape_worker c request :=
  apply_and_persist c (DeregisterTapeWorker request).
Definition update_worker_status c request :=
  apply_and_persist c (UpdateWorkerStatus request).
Definition drain_worker c (worker_type node_id : Z) :=
  update_worker_status c (UpdateWorkerStatusRequest.mk worker_type node_id
    (NodeStatus.as_i32 NodeStatus.NodeDraining)).
Definition heartbeat c request := apply_and_persist c (Heartbeat request).

(** [get_cluster_info] *)
Definition get_cluster_info (e : Env) (s : MetadataServiceImpl) : ClusterInfo.t :=
  let st := state s in
  let '(leader_id, term, committed_index) :=
    match raft_backend s with
    | Some backend =>
        let '(term, leader_id) := cluster_term_and_leader backend in
        (leader_id, term, proposed_commands backend)
    | None => (None, 1%Z, Z.of_nat (size (objects st)))
    end in
  ClusterInfo.mk "coldstore-phase1" (metadata_nodes e (config s) leader_id)
    (hm_values (order e) (scheduler_workers st)) (hm_values (order e) (cache_workers st))
    (hm_values (order e) (tape_workers st)) leader_id term committed_index.
End service.
