(* ===== verification/ServiceTheorems.v ===== *)
(** * Theorems on the metadata service

    What a client of [list_objects] and [scan_cold_pending] sees, that walking
    the pages of an unversioned bucket lists it completely, what a restart
    finds after an acknowledged write, and what an I/O error leaves behind. *)

From Stdlib Require Import ZArith String Ascii.
From S2P Require Import Prelude Proto StateMachine MetadataInvariants StatsInvariant MetadataTheorems TypedState Snapshot Raft RaftTheorems RustStr MetadataService.

Local Open Scope stdpp_scope.

#[export] Instance listing_cmp_total : TotalCmp listing_cmp.
Proof. apply _. Qed.

(** ** Listings *)

(** What a listing is about: the objects of the bucket with the prefix whose
    keys lie after the marker. *)
Definition selected (b prefix marker : string) (o : ObjectMetadata.t) : bool :=
  (o.(ObjectMetadata.bucket) == b)
  && (str_starts_with o.(ObjectMetadata.key) prefix && str_gtb o.(ObjectMetadata.key) marker).

Definition listing (e : Env) (st : MetadataState) (b prefix marker : string)
    : list ObjectMetadata.t :=
  sort_by listing_cmp (List.filter (selected b prefix marker) (hm_values (order e) (objects st))).

Lemma list_objects_eq e st req :
  is_Some (buckets st !! req.(ListObjectsRequest.bucket)) →
  let l := listing e st req.(ListObjectsRequest.bucket)
    (default EmptyString req.(ListObjectsRequest.prefix))
    (default EmptyString req.(ListObjectsRequest.marker)) in
  let limit := limit_of req.(ListObjectsRequest.max_keys) in
  list_objects e st req = Ok (ListObjectsResponse.mk (take_z limit l)
    (if (limit <? Z.of_nat (length l))%Z
     then ObjectMetadata.key <$> l !! Z.to_nat (limit - 1) else None)
    (limit <? Z.of_nat (length l))%Z).
Proof.
  intros Hb%contains_key_true l limit. unfold list_objects. rewrite Hb. cbn [negb].
  rewrite !Lfilter_Lfilter. done.
Qed.

Lemma elem_of_listing e st b prefix marker o :
  o ∈ listing e st b prefix marker ↔
  (∃ k, objects st !! k = Some o) ∧ selected b prefix marker o = true.
Proof. unfold listing. by rewrite sort_by_perm, elem_of_Lfilter, elem_of_hm_values. Qed.

(** No two objects of the bucket share a key. *)
Definition unversioned (st : MetadataState) (b : string) : Prop :=
  ∀ k1 k2 o1 o2, objects st !! k1 = Some o1 → objects st !! k2 = Some o2 →
    o1.(ObjectMetadata.bucket) = b → o2.(ObjectMetadata.bucket) = b →
    o1.(ObjectMetadata.key) = o2.(ObjectMetadata.key) → k1 = k2.

Definition key_lt (a b : ObjectMetadata.t) : Prop :=
  String.compare a.(ObjectMetadata.key) b.(ObjectMetadata.key) = Lt.

Lemma listing_keys_nodup e st b prefix marker :
  unversioned st b → NoDup (ObjectMetadata.key <$> listing e st b prefix marker).
Proof.
  intros Huniq. unfold listing. rewrite sort_by_perm. unfold hm_values.
  rewrite Lfilter_fmap, <-list_fmap_compose.
  apply NoDup_fmap_2_strong; [|apply Lfilter_nodup, hm_iter_nodup].
  intros [k1 o1] [k2 o2]. rewrite !elem_of_Lfilter, !elem_of_hm_iter.
  unfold selected; simpl. rewrite !andb_true_iff, !bool_decide_eq_true.
  intros [H1 [Hb1 _]] [H2 [Hb2 _]] Hkey.
  assert (k1 = k2) by (eapply Huniq; done). congruence.
Qed.

(** Sorted by key and version with distinct keys is strictly sorted by key. *)
Lemma strictly_sorted (l : list ObjectMetadata.t) :
  StronglySorted (cmp_le listing_cmp) l → NoDup (ObjectMetadata.key <$> l) →
  StronglySorted key_lt l.
Proof.
  induction 1 as [|x l Hl IH Hx]; csimpl; [constructor|].
  intros [Hni Hnd]%NoDup_cons. constructor; [by apply IH|].
  rewrite Forall_forall in *. intros y Hy. specialize (Hx y Hy). unfold key_lt.
  unfold cmp_le, listing_cmp, cmp_then, cmp_on in Hx.
  destruct (String.compare (ObjectMetadata.key x) _) eqn:E; [|done|done].
  apply String.compare_eq_iff in E. exfalso. apply Hni. rewrite E.
  apply list_elem_of_fmap. eauto.
Qed.

Lemma listing_strict e st b prefix marker :
  unversioned st b → StronglySorted key_lt (listing e st b prefix marker).
Proof.
  intros Huniq. apply strictly_sorted; [apply sort_by_sorted, _|].
  by apply listing_keys_nodup.
Qed.

(** After the key of the [i]-th entry comes the rest of the list. *)
Lemma filter_after (l : list ObjectMetadata.t) i x :
  StronglySorted key_lt l → l !! i = Some x →
  List.filter (λ o, str_gtb o.(ObjectMetadata.key) x.(ObjectMetadata.key)) l = drop (S i) l.
Proof.
  intros Hs. revert i. induction Hs as [|y l Hl IH Hy]; intros i Hi; [done|].
  rewrite Forall_forall in Hy. destruct i as [|i]; simplify_eq/=.
  - unfold str_gtb at 1. rewrite (cmp_refl (cmp := String.compare)), drop_0.
    apply Lfilter_all. intros o Ho. apply str_gtb_true, Hy, Ho.
  - assert (str_gtb (ObjectMetadata.key y) (ObjectMetadata.key x) = false) as ->.
    { unfold str_gtb. specialize (Hy x (list_elem_of_lookup_2 _ _ _ Hi)).
      unfold key_lt in Hy. by rewrite Hy. }
    by apply IH.
Qed.

(** The listing after the marker a page ends with is the rest of the listing. *)
Lemma listing_next e st b prefix marker i x :
  unversioned st b → listing e st b prefix marker !! i = Some x →
  listing e st b prefix x.(ObjectMetadata.key) = drop (S i) (listing e st b prefix marker).
Proof.
  intros Huniq Hi. rewrite <-(filter_after _ _ _ (listing_strict _ _ _ _ _ Huniq) Hi).
  assert (str_gtb x.(ObjectMetadata.key) marker = true) as Hx.
  { apply list_elem_of_lookup_2, elem_of_listing in Hi as [_ Hs].
    unfold selected in Hs. by apply andb_true_iff in Hs as [_ [_ ?]%andb_true_iff]. }
  unfold listing. rewrite Lfilter_sort_by, Lfilter_Lfilter by apply _. f_equal.
  apply Lfilter_ext. intros o _. unfold selected. rewrite <-!andb_assoc. do 2 f_equal.
  destruct (str_gtb (ObjectMetadata.key o) (ObjectMetadata.key x)) eqn:E;
    [|by rewrite andb_false_r].
  rewrite andb_true_r. symmetry. rewrite str_gtb_true in *. by eapply cmp_lt_trans.
Qed.

(** A client that follows [next_marker] until there is none. *)
Fixpoint list_all (fuel : nat) (e : Env) (st : MetadataState) (b : string)
    (prefix marker : option string) (max_keys : Z) : list ObjectMetadata.t :=
  match fuel with
  | O => []
  | S fuel =>
      match list_objects e st (ListObjectsRequest.mk b prefix marker max_keys) with
      | Err _ => []
      | Ok page =>
          page.(ListObjectsResponse.objects) ++
          match page.(ListObjectsResponse.next_marker) with
          | Some m => list_all fuel e st b prefix (Some m) max_keys
          | None => []
          end
      end
  end.

Lemma list_all_listing fuel e st b prefix marker max_keys :
  is_Some (buckets st !! b) → unversioned st b → (0 ≤ max_keys)%Z →
  let l := listing e st b (default EmptyString prefix) (default EmptyString marker) in
  (length l < fuel)%nat → list_all fuel e st b prefix marker max_keys = l.
Proof.
  intros Hb Huniq Hmax.
  assert (Hlimit : (0 < limit_of max_keys)%Z).
  { unfold limit_of, usize_MAX, u64_MAX. destruct (Z.eqb_spec max_keys 0); lia. }
  revert marker. induction fuel as [|fuel IH]; intros marker l Hlen; [lia|].
  cbn [list_all]. rewrite list_objects_eq by done.
  cbn [ListObjectsRequest.bucket ListObjectsRequest.prefix ListObjectsRequest.marker
       ListObjectsRequest.max_keys ListObjectsResponse.objects
       ListObjectsResponse.next_marker].
  fold l. set (limit := limit_of max_keys) in *.
  unfold take_z. destruct (Z.ltb_spec limit (Z.of_nat (length l))) as [Hlt|Hge].
  - destruct (lookup_lt_is_Some_2 l (Z.to_nat (limit - 1))) as [x Hx]; [lia|].
    rewrite Hx; cbn [fmap option_fmap option_map].
    pose proof (listing_next _ _ _ _ _ _ _ Huniq Hx) as Hnext. fold l in Hnext.
    replace (S (Z.to_nat (limit - 1))) with (Z.to_nat limit) in Hnext by lia.
    rewrite IH; cbn [from_option id]; rewrite Hnext; [apply take_drop|].
    rewrite length_drop. lia.
  - rewrite app_nil_r. apply take_ge. lia.
Qed.

(** A page of a listing holds, in the order of keys and versions, the
    first [max_keys] of the objects of the bucket that have the prefix and a
    key after the marker (all of them for [max_keys = 0]); it is marked
    truncated, with the key of its last object as next marker, exactly when
    there are more. *)
Theorem list_objects_page (e : Env) (st : MetadataState) (req : ListObjectsRequest.t) :
  is_Some (buckets st !! req.(ListObjectsRequest.bucket)) →
  ∃ l page,
    list_objects e st req = Ok page ∧
    StronglySorted (cmp_le listing_cmp) l ∧
    (∀ o, o ∈ l ↔ (∃ k, objects st !! k = Some o) ∧
      selected req.(ListObjectsRequest.bucket)
        (default EmptyString req.(ListObjectsRequest.prefix))
        (default EmptyString req.(ListObjectsRequest.marker)) o = true) ∧
    page.(ListObjectsResponse.objects)
      = take (Z.to_nat (limit_of req.(ListObjectsRequest.max_keys))) l ∧
    page.(ListObjectsResponse.is_truncated)
      = bool_decide (limit_of req.(ListObjectsRequest.max_keys) < Z.of_nat (length l))%Z ∧
    page.(ListObjectsResponse.next_marker)
      = if page.(ListObjectsResponse.is_truncated)
        then ObjectMetadata.key <$>
          l !! Z.to_nat (limit_of req.(ListObjectsRequest.max_keys) - 1)
        else None.
Proof.
  intros Hb. eexists _, _. split; [by apply list_objects_eq|]. cbn.
  split; [apply sort_by_sorted, _|]. split; [apply elem_of_listing|].
  split; [done|]. split; [|done]. apply eq_true_iff_eq.
  by rewrite Z.ltb_lt, bool_decide_eq_true.
Qed.

Definition abc : MetadataState :=
  apply_log [(Sample.env 1, CreateBucket Sample.bucket);
             (Sample.env 2, PutObject (Sample.object "b" 1));
             (Sample.env 3, PutObject (Sample.object "a" 2));
             (Sample.env 4, PutObject (Sample.object "c" 3))] default_state.

Lemma list_objects_page_witness :
  ∃ page, list_objects (Sample.env 5) abc (ListObjectsRequest.mk "docs" None None 2) = Ok page ∧
    page.(ListObjectsResponse.is_truncated) = true.
Proof.
  destruct (list_objects_page (Sample.env 5) abc (ListObjectsRequest.mk "docs" None None 2))
    as (l & page & Hpage & _).
  - vm_compute. eauto.
  - exists page. split; [exact Hpage|].
    assert (Ok (E := Status) page
      = list_objects (Sample.env 5) abc (ListObjectsRequest.mk "docs" None None 2)) as Heq
      by (symmetry; exact Hpage).
    vm_compute in Heq. by injection Heq as ->.
Defined.

Lemma selected_iff b prefix o :
  selected b prefix EmptyString o = true ↔
  o.(ObjectMetadata.bucket) = b ∧ o.(ObjectMetadata.key) ≠ EmptyString ∧
  ∃ rest, o.(ObjectMetadata.key) = String.append prefix rest.
Proof.
  unfold selected. rewrite !andb_true_iff, bool_decide_eq_true, str_starts_with_iff, str_gtb_true.
  assert (String.compare EmptyString (ObjectMetadata.key o) = Lt ↔
    ObjectMetadata.key o ≠ EmptyString) as -> by (by destruct (ObjectMetadata.key o)).
  naive_solver.
Qed.

(** C24: Walking the pages of a bucket in which no two objects share a key, from
    the beginning, lists the objects of the bucket whose keys have the prefix
    and are not empty, each exactly once, in strictly increasing order of keys,
    whatever the page size, with pages of unlimited size for 0; one call more
    than there are objects is enough. An object under the empty key, which can
    be put, is never listed. *)
Theorem paginated_listing_complete (fuel : nat) (e : Env) (st : MetadataState) (b : string)
    (prefix : option string) (max_keys : Z) :
  is_Some (buckets st !! b) → unversioned st b → (0 ≤ max_keys)%Z →
  (size (objects st) < fuel)%nat →
  let l := list_all fuel e st b prefix None max_keys in
  (∀ o, o ∈ l ↔ (∃ k, objects st !! k = Some o) ∧
     o.(ObjectMetadata.bucket) = b ∧ o.(ObjectMetadata.key) ≠ EmptyString ∧
     ∃ rest, o.(ObjectMetadata.key) = String.append (default EmptyString prefix) rest) ∧
  StronglySorted key_lt l.
Proof.
  intros Hb Huniq Hmax Hfuel. cbv zeta. rewrite list_all_listing; [|done..|].
  - split; [|by apply listing_strict]. intros o. by rewrite elem_of_listing, selected_iff.
  - unfold listing. rewrite sort_by_perm. eapply Nat.le_lt_trans; [|exact Hfuel].
    rewrite <-(length_hm_values (order e)). apply List.filter_length_le.
Qed.

Lemma unversioned_check st b :
  Forall (λ ko : ObjectKey.t * ObjectMetadata.t,
    ko.1 = ObjectKey.new ko.2.(ObjectMetadata.bucket) ko.2.(ObjectMetadata.key) None)
    (map_to_list (objects st)) →
  unversioned st b.
Proof.
  rewrite Forall_forall. intros Hall k1 k2 o1 o2 H1%elem_of_map_to_list
    H2%elem_of_map_to_list Hb1 Hb2 Hk.
  pose proof (Hall _ H1) as Hk1. pose proof (Hall _ H2) as Hk2. simpl in *. congruence.
Qed.

Lemma paginated_listing_complete_witness :
  ObjectMetadata.key <$> list_all 4 (Sample.env 5) abc "docs" None None 1 = ["a"; "b"; "c"] ∧
  StronglySorted key_lt (list_all 4 (Sample.env 5) abc "docs" None None 1).
Proof.
  split; [vm_compute; reflexivity|].
  refine (proj2 (paginated_listing_complete 4 (Sample.env 5) abc "docs" None 1 _ _ _ _)).
  - vm_compute. eauto.
  - apply unversioned_check. vm_compute. repeat constructor.
  - lia.
  - vm_compute. lia.
Defined.

Definition versioned (v : string) : ObjectMetadata.t :=
  ObjectMetadata.mk "docs" "a" (Some v) 1 "sum" None None 1 None None [] None None None None None.

Definition two_versions : MetadataState :=
  apply_log [(Sample.env 1, CreateBucket Sample.bucket);
             (Sample.env 2, PutObject (versioned "v1"));
             (Sample.env 3, PutObject (versioned "v2"))] default_state.

(** With versions the walk can miss objects. The marker is a key without a
    version: when a page ends between two versions of a key, the later ones are
    listed on no page. *)
Theorem versions_skipped_by_pagination :
  ∃ o, objects two_versions !! ObjectKey.new "docs" "a" (Some "v2") = Some o ∧
    ∀ fuel, o ∉ list_all fuel (Sample.env 5) two_versions "docs" None None 1.
Proof.
  exists (ObjectMetadata.set_created_at (Some (Timestamp.mk 3 0))
    (ObjectMetadata.set_updated_at (Some (Timestamp.mk 3 0)) (versioned "v2"))).
  split; [vm_compute; reflexivity|]. intros [|[|fuel]]; vm_compute;
    [by intros ?%elem_of_nil|by intros ?%list_elem_of_singleton..].
Qed.

(** A scan for archiving returns, sorted by bucket and key, the first
    [limit] of exactly the objects whose storage class is cold-pending, each of
    them once (all of them for [limit = 0]). *)
Theorem scan_cold_pending_spec (e : Env) (st : MetadataState) (limit : Z) :
  ∃ l, scan_cold_pending e st limit = take (Z.to_nat (limit_of limit)) l ∧
    StronglySorted (cmp_le (cmp_then (cmp_on ObjectMetadata.bucket String.compare)
                                     (cmp_on ObjectMetadata.key String.compare))) l ∧
    l ≡ₚ (map_to_list (filter (λ kv : ObjectKey.t * ObjectMetadata.t,
      kv.2.(ObjectMetadata.storage_class) = StorageClass.as_i32 StorageClass.ColdPending)
      (objects st))).*2.
Proof.
  eexists. split; [reflexivity|]. split; [apply sort_by_sorted, _|].
  rewrite sort_by_perm, Lfilter_hm_values. apply Permutation_map, NoDup_Permutation;
    [apply NoDup_map_to_list..|].
  intros [k o]. by rewrite !elem_of_map_to_list, !map_lookup_filter_Some, bool_decide_eq_true.
Qed.

(** ** Durability *)

Section durability.
Context `{ProstLaws} `{RocksDB} `{Formats}.

Lemma memory_apply (c : CallEnv) cmd s k st' :
  raft_backend s = Some (mkBackend Memory k) →
  apply_command (env c) cmd (state s) = (st', Ok tt) →
  apply_and_persist c cmd s = persist_locked c
    (mkService (config s) st' (snapshot_path s)
       (Some (mkBackend Memory (saturating_add k 1))) (files s)).
Proof using Type.
  intros Hb Happ. unfold apply_and_persist. rewrite Hb. unfold propose_local_apply.
  cbn [live backend]. by rewrite Happ.
Qed.

Lemma run_save h parent path tmp st fs :
  path ≠ tmp →
  foldl (λ fs op, fs_step op fs) fs (save_snapshot h parent path tmp st) !! path
    = Some (encode_snapshot h st).
Proof using Type.
  intros Hne. unfold save_snapshot. rewrite foldl_app.
  assert (foldl (λ fs op, fs_step op fs) fs
    (match parent with Some p => [CreateDirAll p] | None => [] end) = fs) as ->
    by by destruct parent.
  cbn [foldl fs_step]. rewrite lookup_insert_eq. apply lookup_insert_eq.
Qed.

(** An operation that fails comes before the rename has happened. *)
Lemma run_save_cut n h parent path tmp st fs :
  path ≠ tmp → (n < length (save_snapshot h parent path tmp st))%nat →
  foldl (λ fs op, fs_step op fs) fs (take n (save_snapshot h parent path tmp st)) !! path
    = fs !! path.
Proof using Type.
  intros Hne Hn. unfold save_snapshot in *.
  destruct parent as [p|]; cbn [app length] in *;
    destruct n as [|[|[|n]]]; try lia; cbn [take foldl fs_step]; try done;
    by rewrite lookup_insert_ne.
Qed.
End durability.

(** C26: An acknowledged write is durable: when a service on a snapshot file
    accepts a typed command and the disk reports no error, the answer is positive and
    a service started again from the files has the state the live one has, when
    that state keeps within the limits of the snapshot decoder. When it does
    not, the answer is the same and no service can be started from the files.
    The numbers of messages and of their bytes are 64-bit ones. *)
Theorem acknowledged_write_is_durable `{Prost} (Hp : ProstLaws) `{RocksDB} `{Formats}
    (c : CallEnv) (cmd : MetadataCommand) (s : MetadataServiceImpl) (k : Z) (path : string)
    (st' : MetadataState) :
  raft_backend s = Some (mkBackend Memory k) → snapshot_path s = Some path →
  io_error c = None → path ≠ tmp_path c → wf (state s) → typed_state (state s) →
  typed (env c) = true → typed cmd = true →
  apply_command (env c) cmd (state s) = (st', Ok tt) → state_addressable st' →
  ∃ s', apply_and_persist c cmd s = (s', Ok tt) ∧ state s' = st' ∧
    let restarted := new_with_snapshot (config s) path (files s') in
    ((within_limits st' ∧ ∃ s'', restarted = Ok s'' ∧ state s'' = st') ∨
     (¬ within_limits st' ∧ ∃ err, restarted = Err err)).
Proof.
  intros Hb Hpath Hio Hne Hwf Ht He Hc Happ Haddr. rewrite (memory_apply c cmd s k st' Hb Happ).
  unfold persist_locked. cbn [snapshot_path state files]. rewrite Hpath, Hio.
  cbn [run_fs]. eexists. split; [reflexivity|]. split; [reflexivity|]. cbv zeta.
  cbn [files set_files]. unfold new_with_snapshot, load_snapshot, contains_key.
  rewrite run_save by done. rewrite bool_decide_eq_true_2 by eauto.
  assert (Hst : st' = (apply_command (env c) cmd (state s)).1) by by rewrite Happ.
  assert (Hwf' : wf st') by (rewrite Hst; by apply apply_command_wf).
  assert (Ht' : typed_state st') by (rewrite Hst; by apply apply_command_typed).
  destruct (decode_encode_reloads (order (env c)) st' Hwf' Ht' Haddr) as [[Hlim ->]|[Hlim [err ->]]];
    [left; by eauto|right; by eauto].
Qed.

Definition sample_call : CallEnv :=
  mkCallEnv (Sample.env 1) (Sample.env 1) "meta.tmp-1" None None.

Definition failing_call : CallEnv :=
  mkCallEnv (Sample.env 1) (Sample.env 1) "meta.tmp-1" None
    (Some (0%nat, "No space left on device")).

Definition sample_service : @MetadataServiceImpl MemDB.rocksdb :=
  @mkService MemDB.rocksdb MetadataConfig.default_config default_state (Some "meta")
    (Some (mkBackend Memory 0)) ∅.

Lemma one_bucket_limits :
  @within_limits BitCodec.prost
    (apply_command (Sample.env 1) (CreateBucket Sample.bucket) default_state).1.
Proof. apply (docs_log_limits [(Sample.env 1, CreateBucket Sample.bucket)]). by eexists [_]. Qed.

Lemma acknowledged_write_is_durable_witness :
  let _ := BitCodec.prost in let _ := MemDB.rocksdb in let _ := MemDB.formats in
  ∃ s' s'', apply_and_persist sample_call (CreateBucket Sample.bucket) sample_service
      = (s', Ok tt) ∧
    new_with_snapshot MetadataConfig.default_config "meta" (files s') = Ok s'' ∧
    is_Some (buckets (state s'') !! "docs").
Proof.
  cbv zeta.
  destruct (@acknowledged_write_is_durable BitCodec.prost BitCodec.prost_laws MemDB.rocksdb
    MemDB.formats sample_call (CreateBucket Sample.bucket) sample_service 0 "meta"
    (apply_command (Sample.env 1) (CreateBucket Sample.bucket) default_state).1)
    as (s' & Hrun & _ & [[_ (s'' & Hnew & Hst)]|[Hno _]]).
  - reflexivity.
  - reflexivity.
  - reflexivity.
  - discriminate.
  - exact wf_default.
  - exact typed_default.
  - reflexivity.
  - reflexivity.
  - reflexivity.
  - apply within_limits_addressable, one_bucket_limits.
  - exists s', s''. split; [exact Hrun|]. split; [exact Hnew|]. rewrite Hst. eexists. reflexivity.
  - exfalso. apply Hno, one_bucket_limits.
Defined.

(** A write that fails on disk is not undone: when the command is accepted
    and replacing the snapshot file fails at any of its steps, the answer is an
    internal error, the live state has the change, and a restart does not. *)
Theorem failed_persist_keeps_live_change `{Prost} `{RocksDB} `{Formats}
    (c : CallEnv) (cmd : MetadataCommand) (s : MetadataServiceImpl) (k : Z) (path : string)
    (st' : MetadataState) (n : nat) (err : string) :
  raft_backend s = Some (mkBackend Memory k) → snapshot_path s = Some path →
  path ≠ tmp_path c →
  apply_command (env c) cmd (state s) = (st', Ok tt) →
  io_error c = Some (n, err) →
  (n < length (save_snapshot (order (env c)) (parent_path c) path (tmp_path c) st'))%nat →
  ∃ s', apply_and_persist c cmd s
      = (s', Err (internal (String.append "persist metadata snapshot: " err))) ∧
    state s' = st' ∧ load_snapshot path (files s') = load_snapshot path (files s).
Proof.
  intros Hb Hpath Hne Happ Hio Hn. rewrite (memory_apply c cmd s k st' Hb Happ).
  unfold persist_locked. cbn [snapshot_path state files]. rewrite Hpath, Hio.
  unfold run_fs. rewrite (proj2 (Nat.ltb_lt _ _) Hn). eexists. split; [reflexivity|].
  split; [reflexivity|]. cbn [files set_files]. unfold load_snapshot.
  by rewrite run_save_cut.
Qed.

Lemma failed_persist_keeps_live_change_witness :
  let _ := BitCodec.prost in let _ := MemDB.rocksdb in let _ := MemDB.formats in
  ∃ s', apply_and_persist failing_call (CreateBucket Sample.bucket) sample_service
      = (s', Err (internal "persist metadata snapshot: No space left on device")) ∧
    is_Some (buckets (state s') !! "docs").
Proof.
  cbv zeta.
  destruct (@failed_persist_keeps_live_change BitCodec.prost MemDB.rocksdb
    MemDB.formats failing_call (CreateBucket Sample.bucket) sample_service 0 "meta"
    (apply_command (Sample.env 1) (CreateBucket Sample.bucket) default_state).1
    0%nat "No space left on device") as (s' & Hrun & Hst & _).
  - reflexivity.
  - reflexivity.
  - discriminate.
  - reflexivity.
  - reflexivity.
  - apply Nat.lt_0_succ.
  - exists s'. split; [exact Hrun|]. rewrite Hst. eexists. reflexivity.
Defined.
