(* ===== verification/Cluster.v ===== *)
(** * Starting a metadata node

    [src/crates/metadata/src/lib.rs]: parsing the cluster definition, the
    checks that keep this build to one metadata node, and the choice of the
    backend; the gRPC server itself is not modelled. *)

From Stdlib Require Import ZArith String Ascii.
From S2P Require Import Prelude Proto StateMachine Snapshot Raft RaftTheorems RustStr MetadataService.

Local Open Scope stdpp_scope.
Local Open Scope string_scope.

(** ** The cluster definition *)

Record MetadataClusterNode := mkClusterNode {
  cn_node_id : Z;
  cn_listen : string;
}.

Definition strip_listen_scheme (entry : string) : string :=
  trim_start_matches "grpc://"
    (trim_start_matches "https://" (trim_start_matches "http://" (trim entry))).

Definition normalize_listen_addr (listen : string) : string :=
  trim (trim_end_matches "/"%char (trim (strip_listen_scheme listen))).

(** The loop of [parse_cluster_nodes]: the entries left, the sets of ids and
    addresses seen, the nodes parsed so far. *)
Fixpoint parse_entries (entries : list string) (node_ids : gset Z)
    (listen_addrs : gset string) (parsed : list MetadataClusterNode)
    : result string (list MetadataClusterNode) :=
  match entries with
  | [] => Ok parsed
  | raw_entry :: entries =>
      '(node_id, listen) ← ok_or
        ("invalid cluster entry '" +:+ raw_entry +:+ "', expected node_id:listen_addr")
        (split_once ":"%char raw_entry);
      node_id ← ok_or ("invalid node id in cluster entry '" +:+ raw_entry +:+ "'")
        (parse_u64 (trim node_id));
      let listen := normalize_listen_addr listen in
      if listen == EmptyString then
        Err ("invalid cluster entry '" +:+ raw_entry +:+ "', listen address is empty") else
      if bool_decide (node_id ∈ node_ids) then
        Err ("duplicated metadata node_id '" +:+ u64_to_string node_id
             +:+ "' in cluster config") else
      if bool_decide (listen ∈ listen_addrs) then
        Err ("duplicated metadata listen address '" +:+ listen
             +:+ "' in cluster config") else
      parse_entries entries ({[node_id]} ∪ node_ids) ({[listen]} ∪ listen_addrs)
        (parsed ++ [mkClusterNode node_id listen])
  end.

(** [parse_cluster_nodes] *)
Definition parse_cluster_nodes (cluster : string)
    : result string (list MetadataClusterNode) :=
  parsed ← parse_entries
    (List.filter (λ entry, entry != EmptyString) (trim <$> split ","%char cluster)) ∅ ∅ [];
  if length parsed == 0%nat
  then Err "metadata cluster configuration is invalid or empty; expected node_id:listen_addr entries"
  else Ok parsed.

(** ** Checks *)

Definition is_wildcard_host (host : string) : bool :=
  (host == "0.0.0.0") || (host == "::") || (host == "*").

Definition split_host_port (addr : string) : option (string * string) :=
  '(host, port) ← rsplit_once ":"%char addr;
  if (host == EmptyString) || (port == EmptyString) then None
  else Some (trim_matches ["["%char; "]"%char] host, port).

Definition listen_addrs_match (local_listen cluster_listen : string) : bool :=
  let cluster_listen := normalize_listen_addr cluster_listen in
  if local_listen == cluster_listen then true else
  match split_host_port local_listen with
  | None => false
  | Some (local_host, local_port) =>
      match split_host_port cluster_listen with
      | None => false
      | Some (_, cluster_port) =>
          (local_port == cluster_port) && is_wildcard_host local_host
      end
  end.

(** [enforce_consensus_mode] *)
Definition enforce_consensus_mode (config : MetadataConfig.t)
    (cluster_nodes : list MetadataClusterNode) : result string unit :=
  let cluster_size := length cluster_nodes in
  local_node ← ok_or
    ("metadata node_id " +:+ u64_to_string config.(MetadataConfig.node_id)
     +:+ " not present in cluster definition")
    (List.find (λ node, cn_node_id node == config.(MetadataConfig.node_id)) cluster_nodes);
  let local_listen := normalize_listen_addr config.(MetadataConfig.listen) in
  if negb (listen_addrs_match local_listen (cn_listen local_node)) then
    Err ("metadata listen mismatch: node_id " +:+ u64_to_string config.(MetadataConfig.node_id)
         +:+ " uses " +:+ config.(MetadataConfig.listen)
         +:+ " but cluster entry expects " +:+ cn_listen local_node) else
  let is_clustered := (1 <? cluster_size)%nat in
  if cluster_size == 0%nat then Err "metadata cluster_size must be greater than 0" else
  match config.(MetadataConfig.consensus_mode), is_clustered with
  | Standalone, true =>
      Err "standalone mode only supports a single metadata node; distributed metadata clusters require a real Raft runtime"
  | LocalRaftMode, true =>
      Err "local_raft mode is not valid for multi-node metadata clusters; distributed metadata clusters require a real Raft runtime"
  | PersistentRaft, true =>
      Err "persistent_raft multi-node metadata clusters require the distributed Raft runtime; this build only supports single-node persistent_raft safely"
  | _, _ => Ok tt
  end.

(** ** Building the service *)

(** [Path::join] with a relative path *)
Definition path_join (a b : string) : string :=
  if a == EmptyString then b else
  match rsplit_once "/"%char a with
  | Some (_, EmptyString) => a +:+ b
  | _ => a +:+ "/" +:+ b
  end.

Definition default_snapshot_path (config : MetadataConfig.t) : string :=
  path_join config.(MetadataConfig.data_path)
    ("node-" +:+ u64_to_string config.(MetadataConfig.node_id) +:+ "-snapshot.bin").

Definition default_raft_path (config : MetadataConfig.t) : string :=
  path_join config.(MetadataConfig.data_path)
    ("node-" +:+ u64_to_string config.(MetadataConfig.node_id) +:+ "/raft").

Section start.
Context `{Prost} `{RocksDB} `{Formats}.

(** The part of [run] before the server starts, with both features of the
    crate on: [db_open] is [DB::open] on the raft path. *)
Definition start (h : hash_order) (db_open : string → result string DB)
    (config : MetadataConfig.t) (files : filesystem) : result string MetadataServiceImpl :=
  cluster_nodes ← parse_cluster_nodes config.(MetadataConfig.cluster);
  _ ← enforce_consensus_mode config cluster_nodes;
  let snapshot_path := default_snapshot_path config in
  match config.(MetadataConfig.consensus_mode) with
  | Standalone | LocalRaftMode =>
      new_with_snapshot_and_raft_backend h config snapshot_path new_backend files
  | PersistentRaft =>
      let raft_storage_path :=
        default (default_raft_path config) config.(MetadataConfig.raft_state_path) in
      db ← db_open raft_storage_path;
      raft_backend ← new_with_storage db;
      new_with_snapshot_and_raft_backend h config snapshot_path raft_backend files
  end.
End start.

(** ** Lemmas *)

(** What the parsed nodes satisfy, with respect to the sets seen so far. *)
Record nodes_ok (ids : gset Z) (addrs : gset string) (nodes : list MetadataClusterNode)
    : Prop := {
  no_ids : list_to_set (cn_node_id <$> nodes) = ids;
  no_addrs : list_to_set (cn_listen <$> nodes) = addrs;
  no_ids_nodup : NoDup (cn_node_id <$> nodes);
  no_addrs_nodup : NoDup (cn_listen <$> nodes);
  no_valid : Forall (λ n, is_u64 (cn_node_id n) ∧ cn_listen n ≠ EmptyString) nodes;
}.

Lemma parse_entries_ok entries ids addrs parsed nodes :
  nodes_ok ids addrs parsed → parse_entries entries ids addrs parsed = Ok nodes →
  ∃ ids' addrs', nodes_ok ids' addrs' nodes.
Proof.
  revert ids addrs parsed. induction entries as [|entry entries IH]; intros ids addrs parsed Hok.
  { intros [= <-]. eauto. }
  cbn [parse_entries]. intros ([node_id listen] & _ & Hrest)%result_bind_Ok.
  apply result_bind_Ok in Hrest as (id & Hid%ok_or_Ok%parse_u64_range & Hrest).
  case_bool_decide as Hne; [done|]. case_bool_decide as Hni; [done|].
  case_bool_decide as Hna; [done|]. apply IH in Hrest; [done|].
  destruct Hok as [<- <- Hnd1 Hnd2 Hv]. split; rewrite ?fmap_app, ?list_to_set_app_L; cbn.
  - set_solver.
  - set_solver.
  - apply NoDup_app. split; [done|]. split; [set_solver|apply NoDup_singleton].
  - apply NoDup_app. split; [done|]. split; [set_solver|apply NoDup_singleton].
  - apply Forall_app. split; [done|]. by apply Forall_singleton.
Qed.

(** An accepted cluster definition names at least one node; its node ids
    are 64-bit and pairwise distinct, and so are its non-empty addresses. *)
Theorem parse_cluster_nodes_ok (cluster : string) (nodes : list MetadataClusterNode) :
  parse_cluster_nodes cluster = Ok nodes →
  nodes ≠ [] ∧ NoDup (cn_node_id <$> nodes) ∧ NoDup (cn_listen <$> nodes) ∧
  Forall (λ n, is_u64 (cn_node_id n) ∧ cn_listen n ≠ EmptyString) nodes.
Proof.
  unfold parse_cluster_nodes. intros (parsed & Hparse & Hrest)%result_bind_Ok.
  case_bool_decide as Hlen; [done|]. injection Hrest as <-.
  apply parse_entries_ok in Hparse as (ids & addrs & []).
  - split_and!; [by intros ->|done..].
  - split; [done..| | |]; constructor.
Qed.

Lemma parse_cluster_nodes_ok_witness :
  ∃ nodes, parse_cluster_nodes " 1:http://10.0.0.1:21001/ , 2: 10.0.0.2:21001,," = Ok nodes ∧
    NoDup (cn_node_id <$> nodes) ∧ length nodes = 2%nat.
Proof.
  eexists. split; [vm_compute; reflexivity|]. split; [|reflexivity].
  refine (proj1 (proj2 (parse_cluster_nodes_ok
    " 1:http://10.0.0.1:21001/ , 2: 10.0.0.2:21001,," _ _))).
  vm_compute; reflexivity.
Defined.

(** This build starts only as a single metadata node: the checks accept a
    definition exactly when it has one node, the configured one, and the
    configured address matches its entry, whatever the consensus mode. *)
Theorem only_single_node_accepted (config : MetadataConfig.t)
    (nodes : list MetadataClusterNode) :
  enforce_consensus_mode config nodes = Ok tt ↔
  ∃ listen, nodes = [mkClusterNode config.(MetadataConfig.node_id) listen] ∧
    listen_addrs_match (normalize_listen_addr config.(MetadataConfig.listen)) listen = true.
Proof.
  unfold enforce_consensus_mode. split.
  - intros (node & Hfind%ok_or_Ok & Hrest)%result_bind_Ok.
    destruct (listen_addrs_match _ _) eqn:Hmatch; [|done]. cbn [negb] in Hrest.
    case_bool_decide as Hz; [done|].
    destruct nodes as [|n1 [|n2 nodes]]; [done| |].
    + cbn [List.find] in Hfind. case_bool_decide as Hid; [|done]. injection Hfind as <-.
      exists (cn_listen n1). split; [|done]. destruct n1; cbn in *; congruence.
    + by destruct (MetadataConfig.consensus_mode config).
  - intros (listen & -> & Hmatch). cbn [List.find cn_node_id length].
    rewrite (bool_decide_eq_true_2 (MetadataConfig.node_id config = _)) by done.
    unfold mbind, result_bind, ok_or. cbv beta iota.
    cbn [cn_listen]. rewrite Hmatch. cbn [negb].
    by destruct (MetadataConfig.consensus_mode config).
Qed.
