(* ===== verification/Vtl.v ===== *)
(** * The virtual tape library

    [src/crates/vtl/src/]: the tape model ([model.rs]), the error type
    ([error.rs], with the command type of [command.rs] it mentions) and the
    simulated library with its changer and drives ([simulator.rs]). *)

From Stdlib Require Import ZArith String Ascii.
From stdpp Require Import pretty.
From S2P Require Import Prelude RustStr.

Local Open Scope string_scope.
Local Open Scope list_scope.
Local Open Scope stdpp_scope.

(** ** Addresses and errors *)

Inductive ElementKind := SlotKind | DriveKind | ImportExportKind.
#[export] Instance ElementKind_eq_dec : EqDecision ElementKind.
Proof. solve_decision. Defined.

Definition kind_to_string (k : ElementKind) : string :=
  match k with
  | SlotKind => "slot"
  | DriveKind => "drive"
  | ImportExportKind => "import-export"
  end.

Record ElementAddress := mkAddress { kind : ElementKind; index : Z }.
#[export] Instance ElementAddress_eq_dec : EqDecision ElementAddress.
Proof. solve_decision. Defined.

Definition slot_addr (i : Z) : ElementAddress := mkAddress SlotKind i.
Definition drive_addr (i : Z) : ElementAddress := mkAddress DriveKind i.
Definition import_export_addr (i : Z) : ElementAddress := mkAddress ImportExportKind i.
Definition address_to_string (a : ElementAddress) : string :=
  kind_to_string (kind a) +:+ ":" +:+ u64_to_string (index a).

(** [CommandSpec] *)
Record CommandSpec := mkCommand { program : string; args : list string }.

(** [shell_quote] *)
Definition is_plain (a : ascii) : bool :=
  let z := byte_of a in
  ((48 <=? z) && (z <=? 57) || (65 <=? z) && (z <=? 90) || (97 <=? z) && (z <=? 122))%Z
  || existsb (λ c, a == c) ["/"%char; "_"%char; "-"%char; "."%char; ":"%char; "="%char].
Fixpoint replace_quotes (s : string) : string :=
  match s with
  | EmptyString => EmptyString
  | String a s =>
      if a == "'"%char then "'\''" +:+ replace_quotes s else String a (replace_quotes s)
  end.
Definition shell_quote (value : string) : string :=
  if forallb is_plain (String.list_ascii_of_string value) then value
  else "'" +:+ replace_quotes value +:+ "'".

(** [impl Display for CommandSpec] *)
Definition command_to_string (c : CommandSpec) : string :=
  foldl (λ out arg, out +:+ " " +:+ shell_quote arg) (shell_quote (program c)) (args c).

Inductive VtlError :=
| InvalidLsscsiLine (line : string)
| InvalidElementAddress (what : string)
| SlotOutOfRange (i : Z)
| DriveOutOfRange (i : Z)
| SlotEmpty (i : Z)
| SlotOccupied (i : Z)
| DriveEmpty (i : Z)
| DriveOccupied (i : Z)
| WrongElement (expected actual : string)
| FilemarkNotFound
| CommandFailed (command : CommandSpec) (status : Z) (stderr : string)
| Io (error : string).

(** The [#[error(..)]] messages *)
Definition vtl_error_to_string (err : VtlError) : string :=
  match err with
  | InvalidLsscsiLine s => "invalid SCSI/lsscsi line: " +:+ s
  | InvalidElementAddress s => "invalid element address: " +:+ s
  | SlotOutOfRange i => "slot " +:+ u64_to_string i +:+ " does not exist"
  | DriveOutOfRange i => "drive " +:+ u64_to_string i +:+ " does not exist"
  | SlotEmpty i => "slot " +:+ u64_to_string i +:+ " is empty"
  | SlotOccupied i => "slot " +:+ u64_to_string i +:+ " is already occupied"
  | DriveEmpty i => "drive " +:+ u64_to_string i +:+ " is empty"
  | DriveOccupied i => "drive " +:+ u64_to_string i +:+ " is already occupied"
  | WrongElement expected actual =>
      "expected " +:+ expected +:+ " element, got " +:+ actual
  | FilemarkNotFound => "filemark not found before end of tape"
  | CommandFailed command status stderr =>
      "command failed: " +:+ command_to_string command +:+ "; status=" +:+ pretty status
      +:+ "; stderr=" +:+ stderr
  | Io s => "I/O error: " +:+ s
  end.

(** ** Tapes *)

Inductive TapeRecord := Data (data : list Z) | Filemark.
#[export] Instance TapeRecord_eq_dec : EqDecision TapeRecord.
Proof. solve_decision. Defined.

(** [VirtualTape], with its [TapeCursor] inlined; a barcode is a string *)
Record VirtualTape := mkTape {
  barcode : string;
  records : list TapeRecord;
  record_index : nat;
  byte_offset : Z;
}.
#[export] Instance VirtualTape_eq_dec : EqDecision VirtualTape.
Proof. solve_decision. Defined.

(** [VirtualTape::new] *)
Definition new_tape (barcode : string) : VirtualTape := mkTape barcode [] 0 0.

Definition set_cursor (i : nat) (off : Z) (t : VirtualTape) : VirtualTape :=
  mkTape (barcode t) (records t) i off.

Definition record_len (r : TapeRecord) : Z :=
  match r with Data data => Z.of_nat (length data) | Filemark => 0 end.

Definition used_bytes (t : VirtualTape) : Z := u64_sum (record_len <$> records t).

Definition current_position (t : VirtualTape) : Z :=
  wrap64 (u64_sum (record_len <$>
            take (Nat.min (record_index t) (length (records t))) (records t))
          + byte_offset t).

Definition is_filemark (r : TapeRecord) : bool :=
  match r with Filemark => true | Data _ => false end.

Definition current_filemark (t : VirtualTape) : Z :=
  wrap32 (Z.of_nat (length (List.filter is_filemark
    (take (Nat.min (record_index t) (length (records t))) (records t))))).

Definition rewind_tape (t : VirtualTape) : VirtualTape := set_cursor 0 0 t.

(** [append_data] and [append_filemark]: what lies after the cursor is cut off. *)
Definition append_record (r : TapeRecord) (t : VirtualTape) : VirtualTape :=
  let kept :=
    if (record_index t <? length (records t))%nat
    then take (record_index t) (records t) else records t in
  let pushed := kept ++ [r] in
  mkTape (barcode t) pushed (length pushed) 0.
Definition append_data (data : list Z) : VirtualTape → VirtualTape :=
  append_record (Data data).
Definition append_filemark : VirtualTape → VirtualTape := append_record Filemark.

(** [&data[start..end]]: [None] is the panic on [start > end] or
    [end > data.len()]. *)
Definition slice (data : list Z) (start stop : Z) : option (list Z) :=
  if ((start <=? stop) && (stop <=? Z.of_nat (length data)))%Z
  then Some (take (Z.to_nat (stop - start)) (drop (Z.to_nat start) data)) else None.

(** The loop of [read], on the records from the cursor on. An iteration that
    stops inside a record has filled [out], so the loop ends there. *)
Fixpoint read_loop (max_len : Z) (rest : list TapeRecord) (i : nat) (off : Z)
    (out : list Z) : option (list Z * nat * Z) :=
  match rest with
  | [] => Some (out, i, off)
  | r :: rest =>
      if (Z.of_nat (length out) <? max_len)%Z then
        match r with
        | Filemark => Some (out, S i, 0%Z)
        | Data data =>
            let len := Z.of_nat (length data) in
            let start := Z.min off len in
            let remaining := (max_len - Z.of_nat (length out))%Z in
            let stop := Z.min (wrap64 (start + remaining)) len in
            chunk ← slice data start stop;
            if (stop =? len)%Z
            then read_loop max_len rest (S i) 0 (out ++ chunk)
            else Some (out ++ chunk, i, stop)
        end
      else Some (out, i, off)
  end.

(** [VirtualTape::read] *)
Definition read_tape (max_len : Z) (t : VirtualTape) : option (list Z * VirtualTape) :=
  '(out, i, off) ← read_loop max_len (drop (record_index t) (records t))
    (record_index t) (byte_offset t) [];
  Some (out, set_cursor i off t).

(** The loop of [seek_filemark], on the records from the cursor on *)
Fixpoint seek_loop (count : Z) (rest : list TapeRecord) (i : nat) (off : Z)
    : Z * nat * Z :=
  match rest with
  | [] => (count, i, off)
  | r :: rest =>
      if (0 <? count)%Z then
        match r with
        | Filemark => seek_loop (count - 1) rest (S i) 0
        | Data _ => seek_loop count rest (S i) 0
        end
      else (count, i, off)
  end.

(** [VirtualTape::seek_filemark] *)
Definition seek_filemark_tape (count : Z) (t : VirtualTape) : bool * VirtualTape :=
  let '(count, i, off) := seek_loop count (drop (record_index t) (records t))
    (record_index t) (byte_offset t) in
  ((count =? 0)%Z, set_cursor i off t).

(** ** The library *)

(** [Slot] and [Drive] have the same fields. *)
Record Element := mkElement { address : ElementAddress; tape : option VirtualTape }.
#[export] Instance Element_eq_dec : EqDecision Element.
Proof. solve_decision. Defined.

Definition is_vacant (s : Element) : bool := tape s == None.
Definition element_barcode (s : Element) : option string := barcode <$> tape s.

Record VirtualTapeLibrary := mkLibrary { slots : list Element; drives : list Element }.
#[export] Instance VirtualTapeLibrary_eq_dec : EqDecision VirtualTapeLibrary.
Proof. solve_decision. Defined.

(** [VirtualTapeLibrary::new] *)
Definition new_library (slot_count drive_count : Z) : VirtualTapeLibrary :=
  mkLibrary ((λ i, mkElement (slot_addr i) None) <$> seqZ 1 slot_count)
            ((λ i, mkElement (drive_addr i) None) <$> seqZ 0 drive_count).

Definition ensure_slot (l : VirtualTapeLibrary) (a : ElementAddress)
    : result VtlError unit :=
  if kind a != SlotKind then Err (WrongElement "slot" (address_to_string a)) else
  if (index a =? 0)%Z || (Z.of_nat (length (slots l)) <? index a)%Z
  then Err (SlotOutOfRange (index a)) else Ok tt.

Definition ensure_drive (l : VirtualTapeLibrary) (a : ElementAddress)
    : result VtlError unit :=
  if kind a != DriveKind then Err (WrongElement "drive" (address_to_string a)) else
  if (Z.of_nat (length (drives l)) <=? index a)%Z
  then Err (DriveOutOfRange (index a)) else Ok tt.

Definition find_element (a : ElementAddress) (l : list Element) : option Element :=
  List.find (λ s, address s == a) l.

Definition slot (a : ElementAddress) (l : VirtualTapeLibrary) : result VtlError Element :=
  _ ← ensure_slot l a;
  ok_or (SlotOutOfRange (index a)) (find_element a (slots l)).

Definition drive (a : ElementAddress) (l : VirtualTapeLibrary) : result VtlError Element :=
  _ ← ensure_drive l a;
  ok_or (DriveOutOfRange (index a)) (find_element a (drives l)).

(** Writes the tape of the first element at the address, the one a [&mut] from
    [slot_mut] or [drive_mut] points to. *)
Fixpoint write_element (a : ElementAddress) (t : option VirtualTape) (l : list Element)
    : list Element :=
  match l with
  | [] => []
  | s :: l => if address s == a then mkElement (address s) t :: l else s :: write_element a t l
  end.

Definition set_slot_tape (a : ElementAddress) (t : option VirtualTape)
    (l : VirtualTapeLibrary) : VirtualTapeLibrary :=
  mkLibrary (write_element a t (slots l)) (drives l).
Definition set_drive_tape (a : ElementAddress) (t : option VirtualTape)
    (l : VirtualTapeLibrary) : VirtualTapeLibrary :=
  mkLibrary (slots l) (write_element a t (drives l)).

Definition vtl := action VirtualTapeLibrary VtlError.

Definition take_from_slot (a : ElementAddress) : vtl VirtualTape :=
  s ← reads (slot a);
  modify (set_slot_tape a None);;
  lift (ok_or (SlotEmpty (index a)) (tape s)).

Definition put_into_slot (a : ElementAddress) (t : VirtualTape) : vtl unit :=
  s ← reads (slot a);
  reject_if (tape s != None) (SlotOccupied (index a));;
  modify (set_slot_tape a (Some t)).

Definition take_from_drive (a : ElementAddress) : vtl VirtualTape :=
  d ← reads (drive a);
  modify (set_drive_tape a None);;
  lift (ok_or (DriveEmpty (index a)) (tape d)).

Definition put_into_drive (a : ElementAddress) (t : VirtualTape) : vtl unit :=
  d ← reads (drive a);
  reject_if (tape d != None) (DriveOccupied (index a));;
  modify (set_drive_tape a (Some t)).

(** [loaded_tape_mut] *)
Definition loaded_tape (a : ElementAddress) : vtl VirtualTape :=
  d ← reads (drive a);
  lift (ok_or (DriveEmpty (index a)) (tape d)).

(** [TapeInventory::insert_tape] *)
Definition insert_tape (a : ElementAddress) (barcode : string) : vtl unit :=
  put_into_slot a (new_tape barcode).

(** [MediumChanger::move_medium] *)
Definition move_medium (from to : ElementAddress) : vtl unit :=
  match kind from, kind to with
  | SlotKind, SlotKind => tape ← take_from_slot from; put_into_slot to tape
  | SlotKind, DriveKind => tape ← take_from_slot from; put_into_drive to tape
  | DriveKind, SlotKind => tape ← take_from_drive from; put_into_slot to tape
  | DriveKind, DriveKind => tape ← take_from_drive from; put_into_drive to tape
  | _, _ =>
      throw (InvalidElementAddress
        ("unsupported move from " +:+ address_to_string from
         +:+ " to " +:+ address_to_string to))
  end.
Definition load (slot drive : ElementAddress) : vtl unit := move_medium slot drive.
Definition unload (drive slot : ElementAddress) : vtl unit := move_medium drive slot.

(** [TapeDrive] *)
Definition rewind (a : ElementAddress) : vtl unit :=
  t ← loaded_tape a;
  modify (set_drive_tape a (Some (rewind_tape t))).

Definition seek_filemark (a : ElementAddress) (count : Z) : vtl unit :=
  t ← loaded_tape a;
  let '(found, t) := seek_filemark_tape count t in
  modify (set_drive_tape a (Some t));;
  reject_if (negb found) FilemarkNotFound.

Definition write_filemark (a : ElementAddress) : vtl unit :=
  t ← loaded_tape a;
  modify (set_drive_tape a (Some (append_filemark t))).

Definition write (a : ElementAddress) (data : list Z) : vtl unit :=
  t ← loaded_tape a;
  modify (set_drive_tape a (Some (append_data data t))).

(** [None] is the panic of the slice in [VirtualTape::read]. *)
Definition read (a : ElementAddress) (max_len : Z) : vtl (option (list Z)) :=
  t ← loaded_tape a;
  match read_tape max_len t with
  | None => mret None
  | Some (out, t) =>
      modify (set_drive_tape a (Some t));; mret (Some out)
  end.
