(* ===== verification/HostTools.v ===== *)
(** * The host tools of the tape library

    [src/crates/vtl/src/]: the commands and their runner ([command.rs]), the
    tool chain that builds them ([mhvtl.rs]) and the reader of the output of
    [lsscsi] ([discover.rs]). Running a command is the effect of a
    [CommandRunner]; a path is a string. *)

From Stdlib Require Import ZArith Lia String Ascii.
From S2P Require Import Prelude RustStr Vtl.

Local Open Scope string_scope.
Local Open Scope list_scope.
Local Open Scope stdpp_scope.

(** ** Commands *)

Module CommandSpec.
Definition new (program : string) : CommandSpec := mkCommand program [].
Definition arg (a : string) (c : CommandSpec) : CommandSpec :=
  mkCommand (program c) (args c ++ [a]).
Definition with_args (l : list string) (c : CommandSpec) : CommandSpec :=
  mkCommand (program c) (args c ++ l).
Definition argv (c : CommandSpec) : list string := program c :: args c.
End CommandSpec.

Module CommandOutput.
Record t := mk { status : Z; stdout : string; stderr : string }.
Definition default_output : t := mk 0 EmptyString EmptyString.
Definition success (stdout : string) : t := mk 0 stdout EmptyString.
End CommandOutput.

(** [trait CommandRunner] *)
Class CommandRunner (W : Type) := run : CommandSpec → action W VtlError CommandOutput.t.

Definition run_checked {W} `{CommandRunner W} (command : CommandSpec)
    : action W VtlError CommandOutput.t :=
  output ← run command;
  if (output.(CommandOutput.status) =? 0)%Z then mret output
  else throw (CommandFailed command output.(CommandOutput.status) output.(CommandOutput.stderr)).

(** [SystemCommandRunner] runs the command on the host, [output], of which it
    gets the exit code, none of a process that a signal ended, and the bytes of
    both streams. *)
Definition system_runner {W} (output : CommandSpec → action W string (option Z * list Z * list Z))
    : CommandRunner W := λ command w,
  let '(w', r) := output command w in
  (w', '(code, stdout, stderr) ← map_err Io r;
       Ok (CommandOutput.mk (default (-1)%Z code) (from_utf8_lossy stdout)
             (from_utf8_lossy stderr))).

(** [RecordedCommandRunner]: what was run, and the answers to give *)
Record RecordedCommandRunner := mkRecorded {
  commands : list CommandSpec;
  responses : list CommandOutput.t;
}.
Definition push_response (response : CommandOutput.t) (r : RecordedCommandRunner)
    : RecordedCommandRunner :=
  mkRecorded (commands r) (responses r ++ [response]).
Definition push_stdout (stdout : string) (r : RecordedCommandRunner) : RecordedCommandRunner :=
  push_response (CommandOutput.success stdout) r.
#[export] Instance recorded_runner : CommandRunner RecordedCommandRunner := λ command r,
  (mkRecorded (commands r ++ [command]) (tail (responses r)),
   Ok (default CommandOutput.default_output (head (responses r)))).

(** ** The output of [lsscsi] *)

Module ScsiDeviceKind.
Inductive t := TapeDrive | MediumChanger | Disk | CdDvd | Other.
#[global] Instance t_eq_dec : EqDecision t.
Proof. solve_decision. Defined.
Definition from_lsscsi (value : string) : t :=
  if value == "tape" then TapeDrive
  else if value == "mediumx" then MediumChanger
  else if value == "disk" then Disk
  else if value == "cd/dvd" then CdDvd
  else Other.
End ScsiDeviceKind.

Module ScsiDevice.
Record t := mk {
  hctl : string;
  kind : ScsiDeviceKind.t;
  vendor : string;
  product : string;
  revision : string;
  primary_device : option string;
  sg_device : option string;
  non_rewinding_device : option string;
}.
End ScsiDevice.

(** [ScsiInventory] is its list of devices. *)
Definition ScsiInventory : Type := list ScsiDevice.t.
Definition tape_drives (inventory : ScsiInventory) : list ScsiDevice.t :=
  List.filter (λ d, d.(ScsiDevice.kind) == ScsiDeviceKind.TapeDrive) inventory.
Definition medium_changers (inventory : ScsiInventory) : list ScsiDevice.t :=
  List.filter (λ d, d.(ScsiDevice.kind) == ScsiDeviceKind.MediumChanger) inventory.

Definition non_rewinding_tape_device (path : string) : option string :=
  suffix ← strip_prefix "/dev/st" path;
  if forallb (λ c, bool_decide (is_Some (digit c))) (String.list_ascii_of_string suffix)
  then Some ("/dev/nst" +:+ suffix) else None.

(** [Option::filter] with [str::starts_with] *)
Definition filter_prefix (prefix : string) (value : option string) : option string :=
  v ← value; if str_starts_with v prefix then Some v else None.

(** The end of the address is in front of the bracket that was found: it is
    within the line and a boundary between characters; and it is taken of a
    line that starts with a bracket, so that [close - 1] does not underflow. *)
Definition parse_lsscsi_line (line : string) : result VtlError ScsiDevice.t :=
  match str_find "]" line with
  | None => Err (InvalidLsscsiLine line)
  | Some close =>
      hctl ← ok_or (InvalidLsscsiLine line)
        (rest ← strip_prefix "[" line; Some (str_take (close - 1) rest));
      let tokens := split_whitespace (str_drop (close + 1) line) in
      match tokens with
      | kind :: vendor :: product :: revision :: _ =>
          let primary_device := filter_prefix "/dev/" (tokens !! 4) in
          let sg_device :=
            match filter_prefix "/dev/sg" (tokens !! 5) with
            | Some sg => Some sg
            | None => List.find (λ value, str_starts_with value "/dev/sg") tokens
            end in
          Ok (ScsiDevice.mk hctl (ScsiDeviceKind.from_lsscsi kind) vendor product revision
            primary_device sg_device (primary_device ≫= non_rewinding_tape_device))
      | _ => Err (InvalidLsscsiLine line)
      end
  end.

Fixpoint parse_lines (l : list string) : result VtlError (list ScsiDevice.t) :=
  match l with
  | [] => Ok []
  | line :: l => device ← parse_lsscsi_line line; devices ← parse_lines l; Ok (device :: devices)
  end.
Definition parse_lsscsi (output : string) : result VtlError ScsiInventory :=
  parse_lines (List.filter (λ line, negb (line == EmptyString)) (trim <$> lines output)).

(** ** The tool chain *)

Module ToolPaths.
Record t := mk {
  lsscsi : string;
  mtx : string;
  mt : string;
  dd : string;
  sg_inq : string;
  sg_turs : string;
  sg_logs : string;
  sg_modes : string;
  vtlcmd : string;
}.
Definition default_paths : t :=
  mk "lsscsi" "mtx" "mt" "dd" "sg_inq" "sg_turs" "sg_logs" "sg_modes" "vtlcmd".
End ToolPaths.

(** [ElementAddress::mtx_address] *)
Definition mtx_address (a : ElementAddress) : Z := index a.

Section toolchain.
Context (paths : ToolPaths.t).
Abbreviation tool t l := (CommandSpec.with_args l (CommandSpec.new t)).

Definition discover_command : CommandSpec :=
  CommandSpec.arg "-g" (CommandSpec.new paths.(ToolPaths.lsscsi)).
Definition library_status_command (changer_sg : string) : CommandSpec :=
  tool paths.(ToolPaths.mtx) ["-f"; changer_sg; "status"].
Definition move_medium_command (changer_sg : string) (from to : ElementAddress) : CommandSpec :=
  tool paths.(ToolPaths.mtx)
    ["-f"; changer_sg; "transfer"; u64_to_string (mtx_address from); u64_to_string (mtx_address to)].
Definition load_command (changer_sg : string) (slot drive : ElementAddress) : CommandSpec :=
  tool paths.(ToolPaths.mtx)
    ["-f"; changer_sg; "load"; u64_to_string (mtx_address slot); u64_to_string (mtx_address drive)].
Definition unload_command (changer_sg : string) (slot drive : ElementAddress) : CommandSpec :=
  tool paths.(ToolPaths.mtx)
    ["-f"; changer_sg; "unload"; u64_to_string (mtx_address slot); u64_to_string (mtx_address drive)].
Definition tape_status_command (tape_device : string) : CommandSpec :=
  tool paths.(ToolPaths.mt) ["-f"; tape_device; "status"].
Definition rewind_command (tape_device : string) : CommandSpec :=
  tool paths.(ToolPaths.mt) ["-f"; tape_device; "rewind"].
Definition offline_command (tape_device : string) : CommandSpec :=
  tool paths.(ToolPaths.mt) ["-f"; tape_device; "offline"].
Definition write_filemark_command (tape_device : string) (count : Z) : CommandSpec :=
  tool paths.(ToolPaths.mt) ["-f"; tape_device; "weof"; u64_to_string count].
Definition seek_filemark_command (tape_device : string) (count : Z) : CommandSpec :=
  tool paths.(ToolPaths.mt) ["-f"; tape_device; "fsf"; u64_to_string count].
Definition write_tape_command (input_path tape_device : string) (block_size : Z) : CommandSpec :=
  tool paths.(ToolPaths.dd)
    ["if=" +:+ input_path; "of=" +:+ tape_device; "bs=" +:+ u64_to_string block_size;
     "status=none"].
Definition read_tape_command (tape_device output_path : string) (block_size count : Z)
    : CommandSpec :=
  tool paths.(ToolPaths.dd)
    ["if=" +:+ tape_device; "of=" +:+ output_path; "bs=" +:+ u64_to_string block_size;
     "count=" +:+ u64_to_string count; "iflag=fullblock"; "status=none"].
Definition inquiry_command (sg_device : string) : CommandSpec :=
  CommandSpec.arg sg_device (CommandSpec.new paths.(ToolPaths.sg_inq)).
Definition test_unit_ready_command (sg_device : string) : CommandSpec :=
  CommandSpec.arg sg_device (CommandSpec.new paths.(ToolPaths.sg_turs)).
Definition sg_logs_command (sg_device : string) : CommandSpec :=
  CommandSpec.arg sg_device (CommandSpec.new paths.(ToolPaths.sg_logs)).
Definition sg_modes_command (sg_device : string) : CommandSpec :=
  CommandSpec.arg sg_device (CommandSpec.new paths.(ToolPaths.sg_modes)).
Definition vtlcmd_command (l : list string) : CommandSpec := tool paths.(ToolPaths.vtlcmd) l.

Definition discover {W} `{CommandRunner W} : action W VtlError ScsiInventory :=
  output ← run_checked discover_command;
  lift (parse_lsscsi output.(CommandOutput.stdout)).
Definition run_library_status {W} `{CommandRunner W} (changer_sg : string)
    : action W VtlError CommandOutput.t :=
  run_checked (library_status_command changer_sg).
Definition run_test_unit_ready {W} `{CommandRunner W} (sg_device : string)
    : action W VtlError CommandOutput.t :=
  run_checked (test_unit_ready_command sg_device).
End toolchain.

(** ** Command lines are read back *)

(** How a POSIX shell reads a line into words, as far as quoting goes: single
    quotes keep everything between them, a backslash keeps the next character,
    blanks separate words. A character that may mean something else unquoted
    is refused. *)
Definition is_blank (a : ascii) : bool :=
  existsb (λ c, a == c) [" "%char; "009"%char; NEWLINE].
Fixpoint sh_read (cur : option string) (quoted : bool) (s : string) : option (list string) :=
  let more (a : ascii) := Some (default EmptyString cur +:+ String a EmptyString) in
  match s with
  | EmptyString => if quoted then None else Some (option_list cur)
  | String a s =>
      if quoted then
        if a == "'"%char then sh_read cur false s else sh_read (more a) true s
      else if a == "'"%char then sh_read (Some (default EmptyString cur)) true s
      else if a == "\"%char then
        match s with
        | String b s => if b == NEWLINE then None else sh_read (more b) false s
        | EmptyString => None
        end
      else if is_blank a then app (option_list cur) <$> sh_read None false s
      else if is_plain a then sh_read (more a) false s
      else None
  end.
Definition sh_words (line : string) : option (list string) := sh_read None false line.

Lemma append_cons (s t : string) (a : ascii) :
  (s +:+ String a EmptyString) +:+ t = s +:+ String a t.
Proof. by rewrite append_assoc. Qed.

Lemma is_plain_not_special a :
  is_plain a = true → a ≠ "'"%char ∧ a ≠ "\"%char ∧ is_blank a = false.
Proof.
  intros Ha. unfold is_blank, NEWLINE. simpl.
  rewrite !bool_decide_eq_false_2; [repeat split|..]; by intros ->.
Qed.

(** What a plain word and a quoted word do to the reader *)
Lemma read_plain w cur rest :
  forallb is_plain (String.list_ascii_of_string w) = true → w ≠ EmptyString →
  sh_read cur false (w +:+ rest) = sh_read (Some (default EmptyString cur +:+ w)) false rest.
Proof.
  revert cur. induction w as [|a w IH]; intros cur Hw Hne; [done|]. clear Hne.
  simpl in Hw. apply andb_true_iff in Hw as [Ha Hw].
  change (String a w +:+ rest) with (String a (w +:+ rest)). cbn [sh_read].
  pose proof (is_plain_not_special a Ha) as (Hq & Hb & Hbl).
  rewrite !bool_decide_eq_false_2, Hbl, Ha by done.
  destruct (decide (w = EmptyString)) as [->|Hne]; [done|].
  rewrite IH by done. cbn [from_option id]. by rewrite append_cons.
Qed.

Lemma read_quoted w cur rest :
  sh_read (Some cur) true (replace_quotes w +:+ String "'" rest)
  = sh_read (Some (cur +:+ w)) false rest.
Proof.
  revert cur. induction w as [|a w IH]; intros cur; [by cbn; rewrite append_nil|].
  cbn [replace_quotes]. case_bool_decide as Ha.
  - subst a. rewrite append_assoc.
    change ("'\''" +:+ (replace_quotes w +:+ String "'" rest))
      with (String "'" (String "\" (String "'" (String "'"
        (replace_quotes w +:+ String "'" rest))))).
    cbn [sh_read from_option id]. rewrite !bool_decide_eq_true_2, !bool_decide_eq_false_2 by done.
    cbn [from_option id]. by rewrite IH, append_cons.
  - change (String a (replace_quotes w) +:+ String "'" rest)
      with (String a (replace_quotes w +:+ String "'" rest)).
    cbn [sh_read from_option id]. rewrite bool_decide_eq_false_2 by done. by rewrite IH, append_cons.
Qed.

Lemma read_shell_quote w rest :
  w ≠ EmptyString → sh_read None false (shell_quote w +:+ rest) = sh_read (Some w) false rest.
Proof.
  intros Hne. unfold shell_quote. destruct (forallb _ _) eqn:Hp; [by rewrite read_plain|].
  rewrite !append_assoc. change ("'" +:+ ?x) with (String "'" x). cbn [sh_read from_option id].
  rewrite bool_decide_eq_true_2 by done. apply read_quoted.
Qed.

Lemma read_args (l : list string) (out : string) (w : option string) (pre : list string) :
  (∀ rest, sh_read None false (out +:+ rest) = app pre <$> sh_read w false rest) →
  sh_words (foldl (λ out arg, out +:+ " " +:+ shell_quote arg) out l)
  = Some (pre ++ option_list w ++ List.filter (λ a, negb (a == EmptyString)) l).
Proof.
  revert out w pre. induction l as [|a l IH]; intros out w pre Hout.
  - unfold sh_words. rewrite <-(append_nil (foldl _ _ _)). simpl. rewrite Hout. simpl.
    by rewrite app_nil_r.
  - cbn [foldl]. cbn [List.filter]. case_bool_decide as Ha; cbn [negb].
    + subst a. rewrite (IH _ None (pre ++ option_list w)); [by rewrite <-app_assoc|].
      intros rest. rewrite append_assoc, Hout. change ((" " +:+ ?x) +:+ rest) with (String " " rest).
      cbn [sh_read]. destruct (sh_read None false rest); simpl; [by rewrite app_assoc|done].
    + rewrite (IH _ (Some a) (pre ++ option_list w)); [by rewrite <-!app_assoc|].
      intros rest. rewrite append_assoc, Hout. rewrite append_assoc.
      change (" " +:+ ?x) with (String " " x). cbn [sh_read].
      rewrite bool_decide_eq_false_2, bool_decide_eq_false_2 by done. cbn.
      rewrite read_shell_quote by done.
      destruct (sh_read (Some a) false rest); simpl; [by rewrite app_assoc|done].
Qed.

(** The text of a command is a line that a shell reads as the words of
    the command, whatever characters they contain, without the empty ones:
    an empty argument is printed as nothing. *)
Theorem command_line_words (c : CommandSpec) :
  sh_words (command_to_string c)
  = Some (List.filter (λ a, negb (a == EmptyString)) (CommandSpec.argv c)).
Proof.
  unfold command_to_string, CommandSpec.argv. cbn [List.filter].
  case_bool_decide as Hp; cbn [negb].
  - rewrite Hp. apply (read_args _ _ None []). intros rest. change (shell_quote EmptyString +:+ rest) with rest.
    by destruct (sh_read _ _ _).
  - apply (read_args _ _ (Some (program c)) []). intros rest.
    rewrite read_shell_quote by done. by destruct (sh_read _ _ _).
Qed.

(** ** The output of [lsscsi -g] is read back *)

(** A row of the output: the address in brackets, then columns set apart by
    one or more blanks. A device node that is missing is printed as a dash. *)
Record LsscsiRow := mkRow {
  row_hctl : string;
  row_kind : string;
  row_vendor : string;
  row_product : string;
  row_revision : string;
  row_primary : option string;
  row_sg : option string;
  row_gaps : nat → nat;
}.

Definition spaces (n : nat) : string := String.string_of_list_ascii (replicate n " "%char).
Fixpoint columns (gaps : nat → nat) (tokens : list string) : string :=
  match tokens with
  | [] => EmptyString
  | token :: tokens => spaces (S (gaps O)) +:+ token +:+ columns (gaps ∘ S) tokens
  end.
Definition row_tokens (r : LsscsiRow) : list string :=
  [row_kind r; row_vendor r; row_product r; row_revision r;
   default "-" (row_primary r); default "-" (row_sg r)].
Definition lsscsi_line (r : LsscsiRow) : string :=
  String "[" (row_hctl r +:+ String "]" (columns (row_gaps r) (row_tokens r))).
Fixpoint lsscsi_output (rows : list LsscsiRow) : string :=
  match rows with
  | [] => EmptyString
  | r :: rows => lsscsi_line r +:+ String NEWLINE (lsscsi_output rows)
  end.

(** A token: visible characters, at least one. Only the column of the generic
    node has names of generic nodes. *)
Definition token_ok (token : string) : bool :=
  negb (token == EmptyString) && all_chars is_graphic token.
Definition is_sg (token : string) : bool := str_starts_with token "/dev/sg".
Definition row_ok (r : LsscsiRow) : bool :=
  all_chars (λ c, is_graphic c && negb (c == "]"%char)) (row_hctl r)
  && forallb (λ t, token_ok t && negb (is_sg t))
       [row_kind r; row_vendor r; row_product r; row_revision r; default "-" (row_primary r)]
  && from_option (λ p, str_starts_with p "/dev/") true (row_primary r)
  && from_option (λ sg, token_ok sg && is_sg sg) true (row_sg r).
Definition row_device (r : LsscsiRow) : ScsiDevice.t :=
  ScsiDevice.mk (row_hctl r) (ScsiDeviceKind.from_lsscsi (row_kind r)) (row_vendor r)
    (row_product r) (row_revision r) (row_primary r) (row_sg r)
    (row_primary r ≫= non_rewinding_tape_device).

Lemma token_ok_spec token : token_ok token = true →
  token ≠ EmptyString ∧ Forall (λ c, is_graphic c = true) (String.list_ascii_of_string token).
Proof.
  unfold token_ok, all_chars. intros [Hne Hg]%andb_true_iff.
  split; [by intros ->|]. apply Forall_forall. intros c Hc. rewrite forallb_forall in Hg.
  by apply Hg, list_elem_of_In.
Qed.

(** *** Columns *)

Lemma words_token n cur token l :
  Forall (λ c, is_graphic c = true) token →
  words (length token + n) cur (token ++ l) = words n (cur ++ token) l.
Proof.
  intros Ht. revert cur. induction Ht as [|c token Hc Ht IH]; intros cur.
  - simpl. by rewrite app_nil_r.
  - cbn [words app length Nat.add]. rewrite (find_graphic c (token ++ l) Hc), IH. by rewrite <-app_assoc.
Qed.
Definition flush (cur : list ascii) : list (list ascii) := match cur with [] => [] | _ => [cur] end.
Lemma words_space n cur l : words (S n) cur (" "%char :: l) = flush cur ++ words n [] l.
Proof.
  cbn [words]. change (List.find _ whitespace) with (Some [32%Z]). by destruct cur.
Qed.
Lemma words_spaces k n l : words (k + n) [] (replicate k " "%char ++ l) = words n [] l.
Proof. induction k as [|k IH]; [done|]. cbn [replicate app Nat.add]. by rewrite words_space. Qed.
Lemma list_spaces n : String.list_ascii_of_string (spaces n) = replicate n " "%char.
Proof. apply String.list_ascii_of_string_of_list_ascii. Qed.

Lemma words_columns tokens gaps cur :
  Forall (λ t, token_ok t = true) tokens →
  let l := String.list_ascii_of_string (columns gaps tokens) in
  words (length l) cur l = flush cur ++ (String.list_ascii_of_string <$> tokens).
Proof.
  intros Ht. revert gaps cur. induction Ht as [|t tokens Ht _ IH]; intros gaps cur.
  { by destruct cur. }
  apply token_ok_spec in Ht as [Hne Hg]. cbv zeta. cbn [columns].
  rewrite !list_ascii_append, list_spaces, !length_app, length_replicate.
  cbn [replicate Nat.add]. rewrite <-app_comm_cons, words_space, words_spaces, words_token by done.
  rewrite app_nil_l, (IH (gaps ∘ S)). f_equal. destruct t as [|a t]; done.
Qed.

Lemma split_columns tokens gaps :
  Forall (λ t, token_ok t = true) tokens → split_whitespace (columns gaps tokens) = tokens.
Proof.
  intros Ht. unfold split_whitespace. rewrite words_columns by done. cbn [flush app].
  rewrite <-list_fmap_compose. rewrite <-(list_fmap_id tokens) at 2. apply list_fmap_ext.
  intros i t _. apply String.string_of_list_ascii_of_string.
Qed.

(** *** Lines *)

Lemma find_bracket x y :
  all_chars (λ c, negb (c == "]"%char)) x = true →
  str_find "]" (x +:+ String "]" y) = Some (String.length x).
Proof.
  induction x as [|a x IH]; intros Hx; [by destruct y|].
  unfold all_chars in Hx. simpl in Hx. apply andb_true_iff in Hx as [Ha Hx].
  rewrite append_cons_l. cbn [str_find String.prefix]. rewrite IH by done.
  apply negb_true_iff, bool_decide_eq_false in Ha.
  destruct (ascii_dec "]" a); [by subst|done].
Qed.

Lemma tokens_ok r : row_ok r = true → Forall (λ t, token_ok t = true) (row_tokens r).
Proof.
  unfold row_ok, row_tokens. rewrite !andb_true_iff. intros [[[_ Ht] _] Hsg].
  rewrite forallb_forall in Ht. apply (Forall_app_2 _ [_;_;_;_;_] [_]).
  - apply Forall_forall. intros t Hin%list_elem_of_In. by apply Ht, andb_true_iff in Hin as [? _].
  - constructor; [|constructor]. destruct (row_sg r); [|done]. by apply andb_true_iff in Hsg as [? _].
Qed.

Lemma parse_row r : row_ok r = true → parse_lsscsi_line (lsscsi_line r) = Ok (row_device r).
Proof.
  intros Hr. pose proof (tokens_ok r Hr) as Htok. revert Hr. unfold row_ok.
  rewrite !andb_true_iff. intros [[[Hh Ht] Hp] Hsg].
  unfold parse_lsscsi_line, lsscsi_line.
  rewrite <-append_cons_l, find_bracket.
  2:{ unfold all_chars in *. cbn [String.list_ascii_of_string forallb]. rewrite andb_true_iff.
      split; [done|]. rewrite forallb_forall in *. intros c Hc.
      by apply Hh, andb_true_iff in Hc as [_ ?]. }
  change (strip_prefix "[" (String "[" (row_hctl r) +:+ ?x)) with (Some (row_hctl r +:+ x)).
  cbn [mbind option_bind ok_or result_bind String.length].
  rewrite Nat.sub_succ, Nat.sub_0_r, str_take_append.
  replace (str_drop (S (String.length (row_hctl r)) + 1) _)
    with (columns (row_gaps r) (row_tokens r)).
  2:{ rewrite Nat.add_1_r. change (String "]" ?x) with ("]" +:+ x) at 1.
      rewrite <-append_assoc.
      replace (S (S (String.length (row_hctl r))))
        with (String.length (String "[" (row_hctl r) +:+ "]")).
      - by rewrite str_drop_append.
      - clear. rewrite append_cons_l. simpl. f_equal. induction (row_hctl r) as [|a x IH]; [done|].
        rewrite append_cons_l. simpl. by rewrite IH. }
  rewrite split_columns by done. unfold row_tokens, row_device. cbn [lookup list_lookup].
  assert (Hpri : filter_prefix "/dev/" (Some (default "-" (row_primary r))) = row_primary r).
  { unfold filter_prefix. cbn. destruct (row_primary r) as [p|]; [|done]. simpl in *. by rewrite Hp. }
  rewrite forallb_forall in Ht.
  assert (Hno : ∀ t, t ∈ [row_kind r; row_vendor r; row_product r; row_revision r;
    default "-" (row_primary r)] → is_sg t = false).
  { intros t Hin%list_elem_of_In. apply Ht, andb_true_iff in Hin as [_ Hin]. by apply negb_true_iff. }
  rewrite Hpri. do 2 f_equal.
  unfold filter_prefix, is_sg in *. destruct (row_sg r) as [sg|]; simpl in *.
  - apply andb_true_iff in Hsg as [_ ->]. done.
  - rewrite !Hno by set_solver. done.
Qed.

(** What a row says of its device, in terms of the row alone: the words of the
    type column that are known, and the node that does not rewind, which a
    tape drive [/dev/stN] has and no other device *)
Record describes (r : LsscsiRow) (d : ScsiDevice.t) : Prop := {
  describes_hctl : d.(ScsiDevice.hctl) = row_hctl r;
  describes_tape : d.(ScsiDevice.kind) = ScsiDeviceKind.TapeDrive ↔ row_kind r = "tape";
  describes_changer : d.(ScsiDevice.kind) = ScsiDeviceKind.MediumChanger ↔ row_kind r = "mediumx";
  describes_disk : d.(ScsiDevice.kind) = ScsiDeviceKind.Disk ↔ row_kind r = "disk";
  describes_cd : d.(ScsiDevice.kind) = ScsiDeviceKind.CdDvd ↔ row_kind r = "cd/dvd";
  describes_vendor : d.(ScsiDevice.vendor) = row_vendor r;
  describes_product : d.(ScsiDevice.product) = row_product r;
  describes_revision : d.(ScsiDevice.revision) = row_revision r;
  describes_primary : d.(ScsiDevice.primary_device) = row_primary r;
  describes_sg : d.(ScsiDevice.sg_device) = row_sg r;
  describes_non_rewinding node : d.(ScsiDevice.non_rewinding_device) = Some node ↔
    ∃ number, all_chars is_digit number = true ∧ row_primary r = Some ("/dev/st" +:+ number) ∧
      node = "/dev/nst" +:+ number;
}.

Lemma digits_all s :
  forallb (λ c, bool_decide (is_Some (digit c))) (String.list_ascii_of_string s)
  = all_chars is_digit s.
Proof.
  unfold all_chars. induction (String.list_ascii_of_string s) as [|c l IH]; [done|].
  cbn [forallb]. rewrite IH. f_equal. unfold digit, is_digit, between.
  by destruct (_ && _).
Qed.
Lemma non_rewinding_spec primary node :
  primary ≫= non_rewinding_tape_device = Some node ↔
  ∃ number, all_chars is_digit number = true ∧ primary = Some ("/dev/st" +:+ number) ∧
    node = "/dev/nst" +:+ number.
Proof.
  destruct primary as [path|]; [|naive_solver]. cbn [mbind option_bind].
  unfold non_rewinding_tape_device. split.
  - destruct (strip_prefix "/dev/st" path) as [number|] eqn:Hs; [|done].
    apply strip_prefix_Some in Hs as ->. cbn [mbind option_bind]. rewrite digits_all.
    destruct (all_chars is_digit number) eqn:Hd; [|done]. intros [= <-]. by exists number.
  - intros (number & Hd & [= ->] & ->).
    rewrite (proj2 (strip_prefix_Some "/dev/st" _ number) eq_refl). cbn [mbind option_bind].
    by rewrite digits_all, Hd.
Qed.
Lemma row_device_describes r : describes r (row_device r).
Proof.
  split; cbn [row_device ScsiDevice.hctl ScsiDevice.kind ScsiDevice.vendor ScsiDevice.product
    ScsiDevice.revision ScsiDevice.primary_device ScsiDevice.sg_device
    ScsiDevice.non_rewinding_device]; try done; [..|intros; apply non_rewinding_spec].
  all: unfold ScsiDeviceKind.from_lsscsi; repeat case_bool_decide; split; congruence.
Qed.

Lemma split_nonempty c s : split c s ≠ [].
Proof. destruct s as [|a s]; simpl; [done|]. repeat case_match; done. Qed.
Lemma split_line c x y :
  all_chars (λ a, negb (a == c)) x = true → split c (x +:+ String c y) = x :: split c y.
Proof.
  induction x as [|a x IH]; intros Hx.
  - change (EmptyString +:+ String c y) with (String c y). cbn [split].
    by rewrite bool_decide_eq_true_2.
  - unfold all_chars in Hx. simpl in Hx. apply andb_true_iff in Hx as [Ha Hx].
    rewrite append_cons_l. cbn [split]. rewrite IH by done.
    apply negb_true_iff in Ha. by rewrite Ha.
Qed.

(** The characters of a line: visible ones and blanks, from a bracket to the
    end of its last token *)
Definition line_char (c : ascii) : bool := is_graphic c || (c == " "%char).
Lemma columns_chars gaps tokens :
  Forall (λ t, token_ok t = true) tokens → all_chars line_char (columns gaps tokens) = true.
Proof.
  intros Ht. revert gaps. induction Ht as [|t tokens Ht _ IH]; intros gaps; [done|].
  cbn [columns]. rewrite !all_chars_append, !andb_true_iff. split_and!; [| |apply IH].
  - unfold all_chars. rewrite list_spaces. by induction (S (gaps 0)).
  - unfold token_ok in Ht. apply andb_true_iff in Ht as [_ Ht].
    eapply all_chars_impl, Ht. unfold line_char. by intros c ->.
Qed.
Lemma columns_last gaps tokens c :
  Forall (λ t, token_ok t = true) tokens → tokens ≠ [] →
  last (String.list_ascii_of_string (columns gaps tokens)) = Some c → is_graphic c = true.
Proof.
  intros Ht. revert gaps. induction Ht as [|t tokens Ht Hts IH]; intros gaps; [done|]. intros _.
  cbn [columns]. rewrite !list_ascii_append, last_app, last_app.
  destruct tokens as [|t' tokens].
  - apply token_ok_spec in Ht as [Hne Hg]. cbn [columns String.list_ascii_of_string last].
    destruct (last (String.list_ascii_of_string t)) as [c'|] eqn:Hl.
    + intros [= <-]. rewrite Forall_forall in Hg. by apply Hg, last_Some_elem_of.
    + apply last_None in Hl. by destruct t.
  - destruct (last (String.list_ascii_of_string (columns _ (t' :: tokens)))) as [c'|] eqn:Hl.
    + intros [= <-]. by eapply IH.
    + apply last_None in Hl. cbn [columns] in Hl. by rewrite !list_ascii_append in Hl.
Qed.

Lemma line_chars r : row_ok r = true → all_chars line_char (lsscsi_line r) = true.
Proof.
  intros Hr. pose proof (columns_chars (row_gaps r) _ (tokens_ok r Hr)) as Hc.
  unfold lsscsi_line. change (String "[" ?x) with ("[" +:+ x).
  change (String "]" ?x) with ("]" +:+ x). rewrite !all_chars_append, Hc, !andb_true_iff.
  split_and!; try done. unfold row_ok in Hr. rewrite !andb_true_iff in Hr.
  destruct Hr as [[[Hh _] _] _]. eapply all_chars_impl, Hh.
  unfold line_char. by intros c [-> _]%andb_true_iff.
Qed.
Lemma line_last r c : row_ok r = true →
  last (String.list_ascii_of_string (lsscsi_line r)) = Some c → is_graphic c = true.
Proof.
  intros Hr%tokens_ok. unfold lsscsi_line. cbn [String.list_ascii_of_string].
  rewrite list_ascii_append. cbn [String.list_ascii_of_string].
  rewrite app_comm_cons, (cons_middle "]"%char), app_assoc, last_app.
  destruct (last (String.list_ascii_of_string (columns _ _))) as [c'|] eqn:Hl.
  - intros [= <-]. by eapply columns_last, Hl.
  - apply last_None in Hl. unfold row_tokens in Hl. cbn [columns] in Hl.
    by rewrite !list_ascii_append in Hl.
Qed.

Lemma lines_output rows :
  Forall (λ r, row_ok r = true) rows → lines (lsscsi_output rows) = lsscsi_line <$> rows.
Proof.
  intros Hr. unfold lines. induction Hr as [|r rows Hr _ IH]; [done|]. cbn [lsscsi_output].
  rewrite split_line.
  2:{ eapply all_chars_impl, line_chars, Hr. intros c Hc. apply negb_true_iff, bool_decide_eq_false.
      by intros ->. }
  pose proof (split_nonempty NEWLINE (lsscsi_output rows)) as Hne.
  destruct (split NEWLINE (lsscsi_output rows)) as [|p ps] eqn:Hs; [done|].
  cbn [lines_of]. change (match ps with [] => _ | _ => _ end) with (lines_of (p :: ps)).
  rewrite IH. csimpl. f_equal. unfold strip_return.
  destruct (reverse _) as [|c l] eqn:Hrev; [done|].
  assert (is_graphic c = true) as Hc.
  { eapply line_last; [exact Hr|]. by rewrite <-head_reverse, Hrev. }
  destruct (decide (c = "013"%char)) as [->|Hn]; [done|].
  destruct c as [[] [] [] [] [] [] [] []]; done.
Qed.

Lemma parse_rows rows :
  forallb row_ok rows = true → parse_lsscsi (lsscsi_output rows) = Ok (row_device <$> rows).
Proof.
  intros Hr. assert (Forall (λ r, row_ok r = true) rows) as Hall.
  { rewrite Forall_forall, forallb_forall in *. intros r ?%list_elem_of_In. auto. }
  clear Hr. unfold parse_lsscsi. rewrite lines_output by done.
  induction Hall as [|r rows Hr _ IH]; [done|]. csimpl.
  rewrite trim_id; [|by intros c [= <-]|intros c; by apply line_last].
  cbn [List.filter]. rewrite bool_decide_eq_false_2 by done. cbn [negb parse_lines].
  rewrite parse_row by done. cbn [mbind result_bind]. by rewrite IH.
Qed.

(** C37: What [lsscsi -g] prints is read back: from rows whose columns are
    tokens of visible characters, set apart by any number of blanks, the
    devices are found in order, each with its address, names and nodes, a
    dash being none. The words tape, mediumx, disk and cd/dvd give the kind,
    and a drive [/dev/stN] has the node [/dev/nstN] that does not rewind, and
    no other device has one. *)
Theorem lsscsi_read_back (rows : list LsscsiRow) :
  forallb row_ok rows = true →
  ∃ devices, parse_lsscsi (lsscsi_output rows) = Ok devices ∧ Forall2 describes rows devices.
Proof.
  intros Hr. exists (row_device <$> rows). split; [by apply parse_rows|].
  apply Forall2_fmap_r, Forall_Forall2_diag, Forall_true, row_device_describes.
Qed.

(** A changer and a drive of a library *)
Lemma lsscsi_read_back_witness :
  let changer := mkRow "3:0:0:0" "mediumx" "STK" "L700" "0105" None (Some "/dev/sg9") (λ _, 2) in
  let drive := mkRow "3:0:1:0" "tape" "IBM" "ULT3580-TD5" "0105" (Some "/dev/st0")
                 (Some "/dev/sg1") (λ _, 1) in
  ∃ devices, parse_lsscsi (lsscsi_output [changer; drive]) = Ok devices ∧
    Forall2 describes [changer; drive] devices ∧
    ScsiDevice.non_rewinding_device <$> tape_drives devices = [Some "/dev/nst0"].
Proof.
  cbv zeta. destruct (lsscsi_read_back [mkRow "3:0:0:0" "mediumx" "STK" "L700" "0105" None
      (Some "/dev/sg9") (λ _, 2); mkRow "3:0:1:0" "tape" "IBM" "ULT3580-TD5" "0105"
      (Some "/dev/st0") (Some "/dev/sg1") (λ _, 1)]) as (devices & Hd & Hall); [reflexivity|].
  exists devices. split; [exact Hd|]. split; [exact Hall|].
  vm_compute in Hd. injection Hd as <-. reflexivity.
Defined.
(** A product name may contain a blank, as that of this drive does. Its second
    word is then read as the revision, and the drive has no tape device. *)
Example blank_in_product :
  let line := "[0:0:1:0] tape HP Ultrium 5-SCSI Z64W /dev/st0 /dev/sg3" in
  parse_lsscsi_line line
  = Ok (ScsiDevice.mk "0:0:1:0" ScsiDeviceKind.TapeDrive "HP" "Ultrium" "5-SCSI" None
      (Some "/dev/sg3") None).
Proof. reflexivity. Qed.
