(* ===== verification/VtlTheorems.v ===== *)
(** * Theorems on the virtual tape library

    Bundles written one after the other are read back by their number; the
    changer conserves tapes when it succeeds, and drops the tape it holds when
    the target is taken. *)

From Stdlib Require Import ZArith String.
From S2P Require Import Prelude RustStr Vtl.

Local Open Scope string_scope.
Local Open Scope list_scope.
Local Open Scope stdpp_scope.

(** ** Tapes *)

(** The records that writing the bundles [ds] leaves on a tape: the data of
    each, closed by a filemark. *)
Definition bundle_records (ds : list (list Z)) : list TapeRecord :=
  concat ((λ d, [Data d; Filemark]) <$> ds).

Lemma bundle_records_app ds1 ds2 :
  bundle_records (ds1 ++ ds2) = bundle_records ds1 ++ bundle_records ds2.
Proof. unfold bundle_records. by rewrite fmap_app, concat_app. Qed.

Definition at_end (t : VirtualTape) : Prop := record_index t = length (records t).

Lemma append_record_at_end r t :
  at_end t →
  append_record r t = mkTape (barcode t) (records t ++ [r]) (length (records t ++ [r])) 0.
Proof.
  unfold at_end, append_record. intros ->. by rewrite Nat.ltb_irrefl.
Qed.

(** Writing a bundle at the end of the tape. *)
Lemma append_bundle d ds t :
  at_end t → records t = bundle_records ds →
  let t' := append_filemark (append_data d t) in
  at_end t' ∧ records t' = bundle_records (ds ++ [d]) ∧ barcode t' = barcode t.
Proof.
  intros Hend Hrec. unfold append_data, append_filemark.
  rewrite (append_record_at_end (Data d)) by done.
  rewrite append_record_at_end by done. cbn [records barcode].
  split; [done|]. split; [|done].
  by rewrite bundle_records_app, Hrec, <-app_assoc.
Qed.

Lemma seek_loop_zero rest i off : seek_loop 0 rest i off = (0%Z, i, off).
Proof. by destruct rest. Qed.

Lemma seek_loop_bundles ds rest i :
  seek_loop (Z.of_nat (length ds)) (bundle_records ds ++ rest) i 0
  = (0%Z, (i + 2 * length ds)%nat, 0%Z).
Proof.
  revert i. induction ds as [|d ds IH]; intros i.
  { cbn [length Nat.mul bundle_records fmap concat app list_fmap]. rewrite seek_loop_zero. f_equal. f_equal. lia. }
  change (bundle_records (d :: ds)) with ([Data d; Filemark] ++ bundle_records ds).
  cbn [length app seek_loop]. rewrite (proj2 (Z.ltb_lt _ _)) by lia.
  replace (Z.of_nat (S (length ds)) - 1)%Z with (Z.of_nat (length ds)) by lia.
  rewrite IH. do 2 f_equal. lia.
Qed.

Lemma slice_full d n :
  (0 ≤ n ≤ Z.of_nat (length d))%Z → slice d 0 n = Some (take (Z.to_nat n) d).
Proof.
  intros Hn. unfold slice. rewrite (proj2 (Z.leb_le 0 n)), (proj2 (Z.leb_le _ _)) by lia.
  cbn [andb]. by rewrite Z.sub_0_r.
Qed.

(** Reading from the start of a bundle stops at its filemark at the latest. *)
Lemma read_loop_bundle max_len d rest i :
  (0 < max_len ≤ usize_MAX)%Z → is_u64 (Z.of_nat (length d)) →
  ∃ i' off, read_loop max_len (Data d :: Filemark :: rest) i 0 []
    = Some (take (Z.to_nat max_len) d, i', off).
Proof.
  unfold is_u64, usize_MAX, u64_MAX. intros Hmax Hd. cbn [read_loop length].
  rewrite (proj2 (Z.ltb_lt _ _)) by lia.
  replace (Z.min 0 (Z.of_nat (length d))) with 0%Z by lia.
  rewrite wrap64_small by (unfold is_u64, u64_MAX; cbn [Z.of_nat]; lia).
  replace (0 + (max_len - Z.of_nat 0))%Z with max_len by lia.
  rewrite slice_full by lia. cbn [mbind option_bind app].
  destruct (Z.eqb_spec (Z.min max_len (Z.of_nat (length d))) (Z.of_nat (length d))) as [He|Hne].
  - rewrite (take_ge d (Z.to_nat max_len)) by lia.
    rewrite (take_ge d) by lia. destruct (_ <? _)%Z; eauto.
  - replace (Z.min max_len (Z.of_nat (length d))) with max_len by lia. eauto.
Qed.

Lemma length_bundle_records ds : length (bundle_records ds) = (2 * length ds)%nat.
Proof. unfold bundle_records. induction ds as [|d ds IH]; csimpl; [done|]. lia. Qed.

(** Seeking [k] filemarks from the start leaves the cursor before bundle [k]. *)
Lemma seek_bundle ds k d :
  ds !! k = Some d →
  seek_loop (Z.of_nat k) (bundle_records ds) 0 0 = (0%Z, (2 * k)%nat, 0%Z) ∧
  drop (2 * k) (bundle_records ds) = Data d :: Filemark :: bundle_records (drop (S k) ds).
Proof.
  intros Hk. pose proof (take_drop_middle ds k d Hk) as Hds.
  assert (length (take k ds) = k) as Hlen
    by (rewrite length_take; apply lookup_lt_Some in Hk; lia).
  rewrite <-Hds at 1 2. rewrite bundle_records_app. split.
  - rewrite <-Hlen at 1. by rewrite seek_loop_bundles, Hlen.
  - rewrite drop_app_length'; [done|]. by rewrite length_bundle_records, Hlen.
Qed.

Lemma read_back t ds k d max_len :
  records t = bundle_records ds → ds !! k = Some d →
  (0 < max_len ≤ usize_MAX)%Z → is_u64 (Z.of_nat (length d)) →
  ∃ t1 t2, seek_filemark_tape (Z.of_nat k) (rewind_tape t) = (true, t1) ∧
    read_tape max_len t1 = Some (take (Z.to_nat max_len) d, t2) ∧
    records t1 = records t ∧ records t2 = records t.
Proof.
  intros Hrec Hk Hmax Hd. destruct (seek_bundle ds k d Hk) as [Hseek Hdrop].
  destruct (read_loop_bundle max_len d (bundle_records (drop (S k) ds)) (2 * k) Hmax Hd)
    as (i' & off & Hread).
  unfold seek_filemark_tape, rewind_tape, set_cursor.
  cbn [records record_index byte_offset barcode]. rewrite drop_0, Hrec, Hseek.
  eexists _, _. split; [reflexivity|]. unfold read_tape.
  cbn [records record_index byte_offset]. rewrite Hdrop, Hread. by cbn.
Qed.

(** ** Elements *)

Lemma find_element_Some a l s : find_element a l = Some s → s ∈ l ∧ address s = a.
Proof.
  unfold find_element. intros Hf%List.find_some.
  destruct Hf as [Hin Ha%bool_decide_eq_true]. by rewrite list_elem_of_In.
Qed.

Lemma find_write_eq a t l s :
  find_element a l = Some s → find_element a (write_element a t l) = Some (mkElement a t).
Proof.
  unfold find_element. induction l as [|x l IH]; cbn [List.find write_element]; [done|].
  case_bool_decide as Ha; [intros _|]; cbn [List.find address].
  - rewrite bool_decide_eq_true_2 by done. by rewrite Ha.
  - rewrite bool_decide_eq_false_2 by done. apply IH.
Qed.

Lemma find_write_ne a b t l :
  a ≠ b → find_element a (write_element b t l) = find_element a l.
Proof.
  intros Hab. unfold find_element.
  induction l as [|x l IH]; cbn [List.find write_element]; [done|].
  case_bool_decide as Hb; cbn [List.find address]; [|by rewrite IH].
  by rewrite bool_decide_eq_false_2 by congruence.
Qed.

Lemma length_write_element a t l : length (write_element a t l) = length l.
Proof.
  induction l as [|x l IH]; cbn [write_element]; [done|].
  case_bool_decide; cbn [length]; congruence.
Qed.

Lemma write_element_addresses a t l : address <$> write_element a t l = address <$> l.
Proof.
  induction l as [|x l IH]; cbn [write_element]; [done|].
  case_bool_decide; csimpl; congruence.
Qed.

(** The tapes in a list of elements, before and after one is overwritten. *)
Lemma write_element_tapes a t l s :
  find_element a l = Some s →
  option_list (tape s) ++ omap tape (write_element a t l) ≡ₚ option_list t ++ omap tape l.
Proof.
  unfold find_element. induction l as [|x l IH]; cbn [List.find write_element]; [done|].
  case_bool_decide as Ha.
  - intros [= <-]. csimpl. destruct (tape x), t; cbn [option_list app]; try done. constructor.
  - intros Hf%IH. csimpl. destruct (tape x) as [y|]; [|done].
    rewrite <-!Permutation_middle. by constructor.
Qed.

(** ** The library *)

(** Every tape in the library. *)
Definition tapes_of (l : VirtualTapeLibrary) : list VirtualTape :=
  omap tape (slots l) ++ omap tape (drives l).

Lemma slot_Ok a l s : slot a l = Ok s → find_element a (slots l) = Some s.
Proof. by intros (_ & _ & ?%ok_or_Ok)%result_bind_Ok. Qed.
Lemma drive_Ok a l d : drive a l = Ok d → find_element a (drives l) = Some d.
Proof. by intros (_ & _ & ?%ok_or_Ok)%result_bind_Ok. Qed.

Lemma take_from_slot_run a l :
  match slot a l with
  | Ok s => take_from_slot a l = (set_slot_tape a None l, ok_or (SlotEmpty (index a)) (tape s)) ∧
      tapes_of l ≡ₚ option_list (tape s) ++ tapes_of (set_slot_tape a None l)
  | Err err => take_from_slot a l = (l, Err err)
  end.
Proof.
  unfold take_from_slot. unfold_action. destruct (slot a l) as [s|err] eqn:Hs; [|done].
  split; [done|]. apply slot_Ok in Hs. unfold tapes_of. cbn [slots drives set_slot_tape].
  by rewrite (assoc_L (++)), (write_element_tapes a None _ s Hs).
Qed.

Lemma take_from_drive_run a l :
  match drive a l with
  | Ok d => take_from_drive a l = (set_drive_tape a None l, ok_or (DriveEmpty (index a)) (tape d)) ∧
      tapes_of l ≡ₚ option_list (tape d) ++ tapes_of (set_drive_tape a None l)
  | Err err => take_from_drive a l = (l, Err err)
  end.
Proof.
  unfold take_from_drive. unfold_action. destruct (drive a l) as [d|err] eqn:Hs; [|done].
  split; [done|]. apply drive_Ok in Hs. unfold tapes_of. cbn [slots drives set_drive_tape].
  rewrite (Permutation_app_swap_app (option_list _)).
  by rewrite (write_element_tapes a None _ d Hs).
Qed.

Lemma put_into_slot_run a t l l' r :
  put_into_slot a t l = (l', r) →
  (r = Ok tt ∧ tapes_of l' ≡ₚ t :: tapes_of l) ∨ (is_ok r = false ∧ l' = l).
Proof.
  unfold put_into_slot. unfold_action. destruct (slot a l) as [s|err] eqn:Hs;
    [|intros [= <- <-]; by right].
  apply slot_Ok in Hs. case_bool_decide as Ht; cbn [negb]; intros [= <- <-]; [left|by right].
  split; [done|]. unfold tapes_of. cbn [slots drives set_slot_tape].
  pose proof (write_element_tapes a (Some t) _ s Hs) as Hp. rewrite Ht in Hp. cbn in Hp.
  by rewrite Hp.
Qed.

Lemma put_into_drive_run a t l l' r :
  put_into_drive a t l = (l', r) →
  (r = Ok tt ∧ tapes_of l' ≡ₚ t :: tapes_of l) ∨ (is_ok r = false ∧ l' = l).
Proof.
  unfold put_into_drive. unfold_action. destruct (drive a l) as [s|err] eqn:Hs;
    [|intros [= <- <-]; by right].
  apply drive_Ok in Hs. case_bool_decide as Ht; cbn [negb]; intros [= <- <-]; [left|by right].
  split; [done|]. unfold tapes_of. cbn [slots drives set_drive_tape].
  pose proof (write_element_tapes a (Some t) _ s Hs) as Hp. rewrite Ht in Hp. cbn in Hp.
  rewrite Hp. by rewrite <-Permutation_middle.
Qed.

(** A tape taken by [m] from [l], then put by [put]. *)
Lemma move_run (m : vtl VirtualTape) (put : VirtualTape → vtl unit) l l' r :
  (∀ t l1, m l = (l1, Ok t) → tapes_of l ≡ₚ t :: tapes_of l1) →
  (∀ l1 err, m l = (l1, Err err) → tapes_of l1 ≡ₚ tapes_of l) →
  (∀ t l1 l2 r, put t l1 = (l2, r) →
     (r = Ok tt ∧ tapes_of l2 ≡ₚ t :: tapes_of l1) ∨ (is_ok r = false ∧ l2 = l1)) →
  (t ← m; put t) l = (l', r) →
  match r with
  | Ok _ => tapes_of l' ≡ₚ tapes_of l
  | Err _ => tapes_of l' ≡ₚ tapes_of l ∨ ∃ t, tapes_of l ≡ₚ t :: tapes_of l'
  end.
Proof.
  intros Htake Hfail Hput. unfold_action.
  destruct (m l) as [l1 [t|err]] eqn:Hm.
  - intros Hrun. destruct (Hput _ _ _ _ Hrun) as [[-> Hp]|[Hr ->]].
    + by rewrite Hp, (Htake _ _ eq_refl).
    + destruct r; [done|]. right. exists t. by apply Htake.
  - intros [= <- <-]. left. by apply (Hfail _ _ eq_refl).
Qed.

Lemma take_from_slot_tapes a l :
  (∀ t l1, take_from_slot a l = (l1, Ok t) → tapes_of l ≡ₚ t :: tapes_of l1) ∧
  (∀ l1 err, take_from_slot a l = (l1, Err err) → tapes_of l1 ≡ₚ tapes_of l).
Proof.
  pose proof (take_from_slot_run a l) as Hrun.
  destruct (slot a l) as [s|]; [destruct Hrun as [-> Hp]|rewrite Hrun].
  - destruct (tape s) as [t0|]; cbn in *; split; intros; by simplify_eq.
  - split; intros; by simplify_eq.
Qed.

Lemma take_from_drive_tapes a l :
  (∀ t l1, take_from_drive a l = (l1, Ok t) → tapes_of l ≡ₚ t :: tapes_of l1) ∧
  (∀ l1 err, take_from_drive a l = (l1, Err err) → tapes_of l1 ≡ₚ tapes_of l).
Proof.
  pose proof (take_from_drive_run a l) as Hrun.
  destruct (drive a l) as [s|]; [destruct Hrun as [-> Hp]|rewrite Hrun].
  - destruct (tape s) as [t0|]; cbn in *; split; intros; by simplify_eq.
  - split; intros; by simplify_eq.
Qed.

Lemma move_medium_tapes from to l l' r :
  move_medium from to l = (l', r) →
  match r with
  | Ok _ => tapes_of l' ≡ₚ tapes_of l
  | Err _ => tapes_of l' ≡ₚ tapes_of l ∨ ∃ t, tapes_of l ≡ₚ t :: tapes_of l'
  end.
Proof.
  unfold move_medium.
  destruct (take_from_slot_tapes from l), (take_from_drive_tapes from l).
  destruct (kind from), (kind to);
    try (intros [= <- <-]; by left); apply move_run; auto;
    intros; first [by eapply put_into_slot_run | by eapply put_into_drive_run].
Qed.

(** A medium move that succeeds conserves the tapes of the library, with
    everything written on them. *)
Theorem successful_move_conserves_tapes (from to : ElementAddress)
    (l l' : VirtualTapeLibrary) :
  move_medium from to l = (l', Ok tt) → tapes_of l' ≡ₚ tapes_of l.
Proof. by intros Hrun%move_medium_tapes. Qed.

Definition two_tapes : VirtualTapeLibrary :=
  mkLibrary [mkElement (slot_addr 1) (Some (new_tape "A")); mkElement (slot_addr 2) None]
    [mkElement (drive_addr 0) (Some (new_tape "B"))].

Lemma successful_move_conserves_tapes_witness :
  ∃ l', move_medium (drive_addr 0) (slot_addr 2) two_tapes = (l', Ok tt) ∧
    tapes_of l' ≡ₚ tapes_of two_tapes.
Proof.
  eexists. split; [reflexivity|].
  apply (successful_move_conserves_tapes (drive_addr 0) (slot_addr 2)). reflexivity.
Defined.

(** A load into an occupied drive is refused and loses the tape: the
    changer has already taken it out of its slot, and nothing puts it back. *)
Theorem refused_load_loses_tape (l : VirtualTapeLibrary) (from to : ElementAddress)
    (s d : Element) (t u : VirtualTape) :
  slot from l = Ok s → tape s = Some t → drive to l = Ok d → tape d = Some u →
  ∃ l', load from to l = (l', Err (DriveOccupied (index to))) ∧
    tapes_of l ≡ₚ t :: tapes_of l'.
Proof.
  intros Hs Ht Hd Hu. exists (set_slot_tape from None l).
  assert (kind from = SlotKind ∧ kind to = DriveKind) as [Hf Hk].
  { unfold slot, ensure_slot in Hs. unfold drive, ensure_drive in Hd.
    do 2 (case_bool_decide; [|done]). done. }
  pose proof (take_from_slot_run from l) as Htake. rewrite Hs in Htake.
  destruct Htake as [Htake Hp]. rewrite Ht in Hp.
  split; [|exact Hp]. unfold load, move_medium. rewrite Hf, Hk. unfold_action.
  rewrite Htake, Ht. cbn [ok_or]. unfold put_into_drive. unfold_action.
  change (drive to (set_slot_tape from None l)) with (drive to l). rewrite Hd, Hu. done.
Qed.

Lemma refused_load_loses_tape_witness :
  ∃ l', load (slot_addr 1) (drive_addr 0) two_tapes = (l', Err (DriveOccupied 0)) ∧
    tapes_of two_tapes ≡ₚ new_tape "A" :: tapes_of l'.
Proof.
  apply (refused_load_loses_tape two_tapes (slot_addr 1) (drive_addr 0)
    (mkElement (slot_addr 1) (Some (new_tape "A")))
    (mkElement (drive_addr 0) (Some (new_tape "B"))) (new_tape "A") (new_tape "B"));
    reflexivity.
Defined.
