(* ===== verification/TapeService.v ===== *)
(** * The tape worker

    [src/crates/tape/src/service.rs]: the [TapeBackend] trait, the simulator
    that implements it, and the service that streams bundles to and from a
    backend. *)

From Stdlib Require Import ZArith String Ascii.
From S2P Require Import Prelude Proto RustStr Vtl.

Local Open Scope string_scope.
Local Open Scope list_scope.
Local Open Scope stdpp_scope.

Definition SIMULATED_TAPE_CAPACITY_BYTES : Z := 12 * 1024 * 1024 * 1024 * 1024.

(** ** Messages ([tape.proto]) *)

Module AcquireDriveResponse.
Record t := mk { drive_id : string; current_tape : option string }.
End AcquireDriveResponse.

Module TapeMediaStatus.
Record t := mk {
  drive_id : string;
  tape_id : option string;
  tape_status : Z;
  capacity_bytes : Z;
  used_bytes : Z;
  remaining_bytes : Z;
  current_position : Z;
  current_filemark : Z;
  is_write_protected : bool;
}.
End TapeMediaStatus.

Module SlotInfo.
Record t := mk {
  slot_id : string;
  tape_id : option string;
  is_drive : bool;
  drive_id : option string;
  is_import_export : bool;
}.
End SlotInfo.

Module WriteBundleMeta.
Record t := mk {
  drive_id : string;
  bundle_id : string;
  total_size : Z;
  object_count : Z;
  block_size : Z;
}.
End WriteBundleMeta.

Inductive WritePayload := WriteMeta (meta : WriteBundleMeta.t) | WriteData (data : list Z).

Module WriteBundleResponse.
Record t := mk {
  drive_id : string;
  bundle_id : string;
  bytes_written : Z;
  filemark_start : Z;
  filemark_end : Z;
  checksum : option string;
  success : bool;
  error : option string;
}.
End WriteBundleResponse.

Inductive Location := LocFilemark (filemark : Z) | LocBlockOffset (block_offset : Z).
Inductive ReadPayload := ReadMeta (total_size : Z) (checksum : option string) | ReadData (data : list Z).

(** ** The backend trait *)

Class TapeBackend (B : Type) := {
  list_drives : action B (fault Status) (list DriveEndpoint.t);
  get_drive_status : string → action B (fault Status) DriveEndpoint.t;
  acquire_drive : option string → option string →
    action B (fault Status) AcquireDriveResponse.t;
  release_drive : string → action B (fault Status) unit;
  load_tape : string → string → option string → action B (fault Status) unit;
  unload_tape : string → option string → action B (fault Status) unit;
  rewind_drive : string → action B (fault Status) unit;
  seek_to_filemark : string → Z → action B (fault Status) unit;
  get_tape_media_status : string → action B (fault Status) TapeMediaStatus.t;
  inventory : action B (fault Status) (list SlotInfo.t);
  write_bundle : string → list Z → action B (fault Status) (Z * Z);
  read_bundle : string → Z → Z → action B (fault Status) (list Z);
}.

(** ** Identifiers and errors *)

(** [parse_slot_id] *)
Definition parse_slot_id (slot_id : string) : result Status ElementAddress :=
  let raw := default slot_id (strip_prefix "slot-" slot_id) in
  index ← ok_or (invalid_argument ("invalid slot id: " +:+ slot_id)) (parse_u32 raw);
  if (index =? 0)%Z then Err (invalid_argument "slot ids are 1-based")
  else Ok (slot_addr index).

(** [parse_drive_id] *)
Definition parse_drive_id (drive_id : string) : result Status ElementAddress :=
  let raw := default drive_id (strip_prefix "drive-" drive_id) in
  index ← ok_or (invalid_argument ("invalid drive id: " +:+ drive_id)) (parse_u32 raw);
  Ok (drive_addr index).

Definition slot_id (index : Z) : string := "slot-" +:+ u64_to_string index.
Definition drive_id_string (index : Z) : string := "drive-" +:+ u64_to_string index.

(** [vtl_status] *)
Definition vtl_status (error : VtlError) : Status :=
  let text := vtl_error_to_string error in
  match error with
  | SlotEmpty _ | SlotOccupied _ | DriveEmpty _ | DriveOccupied _ | FilemarkNotFound =>
      failed_precondition text
  | SlotOutOfRange _ | DriveOutOfRange _ | WrongElement _ _ | InvalidLsscsiLine _
  | InvalidElementAddress _ => invalid_argument text
  | CommandFailed _ _ _ => unavailable text
  | Io _ => unavailable text
  end.

(** ** The simulator *)

Record SimulatorState := mkSim {
  library : VirtualTapeLibrary;
  acquired : list bool;
  next_filemark : list Z;
}.
#[export] Instance SimulatorState_eq_dec : EqDecision SimulatorState.
Proof. solve_decision. Defined.

Definition sim := action SimulatorState (fault Status).

(** [SimulatorState::new] *)
Definition new_sim (slot_count drive_count : Z) : SimulatorState :=
  mkSim (new_library slot_count drive_count) (replicate (Z.to_nat drive_count) false)
    (replicate (Z.to_nat drive_count) 0%Z).

Definition fail {A} (s : Status) : sim A := throw (Raised s).
(** [r?] on a [Result<_, Status>] *)
Definition check {A} (r : result Status A) : sim A := lift (map_err Raised r).
(** [state.library.f(..).map_err(vtl_status)?] *)
Definition on_library {A} (m : vtl A) : sim A := λ s,
  let '(l, r) := m (library s) in
  (mkSim l (acquired s) (next_filemark s), map_err (λ err, Raised (vtl_status err)) r).
(** [v[i] = x] on the vectors of the state *)
Definition set_acquired (i : Z) (x : bool) : sim unit := λ s,
  if (Z.to_nat i <? length (acquired s))%nat
  then (mkSim (library s) (<[Z.to_nat i := x]> (acquired s)) (next_filemark s), Ok tt)
  else (s, Err Panicked).
Definition set_next_filemark (i : Z) (x : Z) : sim unit := λ s,
  if (Z.to_nat i <? length (next_filemark s))%nat
  then (mkSim (library s) (acquired s) (<[Z.to_nat i := x]> (next_filemark s)), Ok tt)
  else (s, Err Panicked).

(** [SimulatorState::drive_endpoint] *)
Definition drive_endpoint (drive_index : Z) : sim DriveEndpoint.t :=
  d ← on_library (reads (drive (drive_addr drive_index)));
  s ← get_state;
  let acquired := default false (acquired s !! Z.to_nat drive_index) in
  mret (DriveEndpoint.mk (drive_id_string drive_index)
    ("vtl://drive/" +:+ u64_to_string drive_index) "virtual-lto"
    (if acquired then DriveStatus.as_i32 DriveStatus.DriveInUse
     else DriveStatus.as_i32 DriveStatus.DriveIdle)
    (element_barcode d)).

(** [SimulatorState::drive_index] *)
Definition drive_index (drive_id : string) : sim Z :=
  address ← check (parse_drive_id drive_id);
  _ ← on_library (reads (drive address));
  mret (index address).

(** [SimulatorState::find_slot_with_tape] *)
Definition find_slot_with_tape (tape_id : string) (s : SimulatorState)
    : result Status ElementAddress :=
  ok_or (not_found ("tape " +:+ tape_id +:+ " not found in simulator slots"))
    (address <$> List.find (λ slot, element_barcode slot == Some tape_id) (slots (library s))).

(** [SimulatorState::find_empty_slot] *)
Definition find_empty_slot (s : SimulatorState) : result Status ElementAddress :=
  ok_or (failed_precondition "no empty simulator slot is available")
    (address <$> List.find is_vacant (slots (library s))).

(** [SimulatorTapeBackend::insert_tape] *)
Definition sim_insert_tape (slot_id tape_id : string) : sim unit :=
  slot ← check (parse_slot_id slot_id);
  on_library (insert_tape slot tape_id).

Definition sim_list_drives : sim (list DriveEndpoint.t) :=
  s ← get_state;
  foldr (λ i rest, d ← drive_endpoint i; ds ← rest; mret (d :: ds)) (mret [])
    (seqZ 0 (Z.of_nat (length (drives (library s))))).

Definition sim_get_drive_status (drive_id : string) : sim DriveEndpoint.t :=
  drive_index ← drive_index drive_id;
  drive_endpoint drive_index.

(** The search of [acquire_drive] for a free drive with the required tape *)
Fixpoint find_free (acquired : list bool) (required : option string) (ds : list Element)
    : sim (option Element) :=
  match ds with
  | [] => mret None
  | d :: ds =>
      taken ← vec_get acquired (index (address d));
      if negb taken && match required with
                       | None => true
                       | Some tape_id => element_barcode d == Some tape_id
                       end
      then mret (Some d) else find_free acquired required ds
  end.

Definition sim_acquire_drive (preferred_drive_id required_tape_id : option string)
    : sim AcquireDriveResponse.t :=
  drive_index ←
    match preferred_drive_id with
    | Some preferred => drive_index preferred
    | None =>
        s ← get_state;
        found ← find_free (acquired s) required_tape_id (drives (library s));
        check (ok_or (resource_exhausted "no matching simulator drive is free")
          ((λ d, index (address d)) <$> found))
    end;
  s ← get_state;
  taken ← vec_get (acquired s) drive_index;
  (if (taken : bool)
   then fail (failed_precondition
     ("drive " +:+ drive_id_string drive_index +:+ " is already acquired"))
   else mret tt);;
  match required_tape_id with
  | Some tape_id =>
      d ← on_library (reads (drive (drive_addr drive_index)));
      if element_barcode d != Some tape_id
      then fail (failed_precondition
        ("drive " +:+ drive_id_string drive_index +:+ " does not contain required tape "
         +:+ tape_id))
      else mret tt
  | None => mret tt
  end;;
  set_acquired drive_index true;;
  d ← on_library (reads (drive (drive_addr drive_index)));
  mret (AcquireDriveResponse.mk (drive_id_string drive_index) (element_barcode d)).

Definition sim_release_drive (drive_id : string) : sim unit :=
  drive_index ← drive_index drive_id;
  set_acquired drive_index false.

Definition sim_load_tape (tape_id drive_id : string) (slot_id : option string) : sim unit :=
  drive_address ← check (parse_drive_id drive_id);
  _ ← on_library (reads (drive drive_address));
  slot_address ←
    match slot_id with
    | Some slot_id => check (parse_slot_id slot_id)
    | None => s ← get_state; check (find_slot_with_tape tape_id s)
    end;
  slot_ref ← on_library (reads (slot slot_address));
  if element_barcode slot_ref != Some tape_id
  then fail (failed_precondition
    ("slot " +:+ address_to_string slot_address +:+ " does not contain tape " +:+ tape_id))
  else on_library (load slot_address drive_address).

Definition sim_unload_tape (drive_id : string) (target_slot_id : option string) : sim unit :=
  drive_address ← check (parse_drive_id drive_id);
  _ ← on_library (reads (drive drive_address));
  slot_address ←
    match target_slot_id with
    | Some slot_id => check (parse_slot_id slot_id)
    | None => s ← get_state; check (find_empty_slot s)
    end;
  on_library (unload drive_address slot_address).

Definition sim_rewind (drive_id : string) : sim unit :=
  drive_address ← check (parse_drive_id drive_id);
  on_library (rewind drive_address).

Definition sim_seek_to_filemark (drive_id : string) (filemark : Z) : sim unit :=
  drive_address ← check (parse_drive_id drive_id);
  on_library (rewind drive_address);;
  if (0 <? filemark)%Z then on_library (seek_filemark drive_address filemark) else mret tt.

Definition sim_get_tape_media_status (drive_id : string) : sim TapeMediaStatus.t :=
  drive_index ← drive_index drive_id;
  d ← on_library (reads (drive (drive_addr drive_index)));
  match tape d with
  | None =>
      mret (TapeMediaStatus.mk (drive_id_string drive_index) None
        (TapeStatus.as_i32 TapeStatus.TapeOffline) SIMULATED_TAPE_CAPACITY_BYTES 0
        SIMULATED_TAPE_CAPACITY_BYTES 0 0 false)
  | Some tape =>
      let used_bytes := used_bytes tape in
      mret (TapeMediaStatus.mk (drive_id_string drive_index) (Some (barcode tape))
        (TapeStatus.as_i32 TapeStatus.TapeOnline) SIMULATED_TAPE_CAPACITY_BYTES used_bytes
        (saturating_sub SIMULATED_TAPE_CAPACITY_BYTES used_bytes)
        (current_position tape) (current_filemark tape) false)
  end.

Definition sim_inventory : sim (list SlotInfo.t) :=
  s ← get_state;
  mret (((λ slot, SlotInfo.mk (slot_id (index (address slot))) (element_barcode slot)
            false None false) <$> slots (library s)) ++
        ((λ drive, SlotInfo.mk (drive_id_string (index (address drive)))
            (element_barcode drive) true
            (Some (drive_id_string (index (address drive)))) false) <$> drives (library s))).

Definition sim_write_bundle (drive_id : string) (data : list Z) : sim (Z * Z) :=
  drive_address ← check (parse_drive_id drive_id);
  _ ← on_library (reads (drive drive_address));
  let drive_index := index drive_address in
  s ← get_state;
  filemark_start ← vec_get (next_filemark s) drive_index;
  on_library (write drive_address data);;
  on_library (write_filemark drive_address);;
  set_next_filemark drive_index (wrap32 (filemark_start + 1));;
  s ← get_state;
  filemark_end ← vec_get (next_filemark s) drive_index;
  mret (filemark_start, filemark_end).

Definition sim_read_bundle (drive_id : string) (filemark length : Z) : sim (list Z) :=
  drive_address ← check (parse_drive_id drive_id);
  on_library (rewind drive_address);;
  (if (0 <? filemark)%Z then on_library (seek_filemark drive_address filemark) else mret tt);;
  let max_len := if (length =? 0)%Z then usize_MAX else Z.min length usize_MAX in
  out ← on_library (read drive_address max_len);
  match out with Some out => mret out | None => throw Panicked end.

(** [impl TapeBackend for SimulatorTapeBackend] *)
#[export] Instance simulator_backend : TapeBackend SimulatorState := {|
  list_drives := sim_list_drives;
  get_drive_status := sim_get_drive_status;
  acquire_drive := sim_acquire_drive;
  release_drive := sim_release_drive;
  load_tape := sim_load_tape;
  unload_tape := sim_unload_tape;
  rewind_drive := sim_rewind;
  seek_to_filemark := sim_seek_to_filemark;
  get_tape_media_status := sim_get_tape_media_status;
  inventory := sim_inventory;
  write_bundle := sim_write_bundle;
  read_bundle := sim_read_bundle |}.

(** [SimulatorTapeBackend::from_config], on the parts of the configuration it reads *)
Definition from_config (device_count slot_count : Z) (tape_ids : list string)
    (autoload_tape_id : option string) : result (fault Status) SimulatorState :=
  let drive_count := wrap32 (Z.max device_count 1) in
  let backend := new_sim (Z.max slot_count 1) drive_count in
  let '(backend, r) :=
    foldl (λ '(s, r) '(i, tape_id),
        match r with
        | Err err => (s, Err err)
        | Ok _ => sim_insert_tape ("slot-" +:+ u64_to_string (Z.of_nat i + 1)) tape_id s
        end) (backend, Ok tt) (imap pair tape_ids) in
  _ ← r;
  match autoload_tape_id with
  | Some tape_id =>
      let '(backend, r) := sim_load_tape tape_id "drive-0" None backend in
      _ ← r; Ok backend
  | None => Ok backend
  end.

(** ** The service *)

Section service.
Context {B : Type} `{TapeBackend B}.

(** The loop of [write_bundle_from_messages] over the chunks *)
Fixpoint collect_chunks (messages : list (result Status (option WritePayload)))
    (data : list Z) : result Status (list Z) :=
  match messages with
  | [] => Ok data
  | message :: messages =>
      payload ← message;
      match payload with
      | Some (WriteData chunk) => collect_chunks messages (data ++ chunk)
      | Some (WriteMeta _) =>
          Err (invalid_argument
            "write_bundle metadata must appear only once as the first message")
      | None => Err (invalid_argument "write_bundle message has no payload")
      end
  end.

(** [TapeServiceImpl::write_bundle_from_messages], also the handler [write_bundle] *)
Definition write_bundle_from_messages (messages : list (result Status (option WritePayload)))
    : action B (fault Status) WriteBundleResponse.t :=
  '(first, messages) ←
    match messages with
    | Ok request :: messages => mret (request, messages)
    | Err status :: _ => throw (Raised status)
    | [] => throw (Raised (invalid_argument "write_bundle stream is empty"))
    end;
  meta ←
    match first with
    | Some (WriteMeta meta) => mret meta
    | Some (WriteData _) =>
        throw (Raised (invalid_argument "first write_bundle message must carry metadata"))
    | None => throw (Raised (invalid_argument "write_bundle message has no payload"))
    end;
  data ← lift (map_err Raised (collect_chunks messages []));
  reject_if (meta.(WriteBundleMeta.total_size) != Z.of_nat (length data))
    (Raised (invalid_argument
      ("write_bundle total_size=" +:+ u64_to_string meta.(WriteBundleMeta.total_size)
       +:+ " does not match received bytes=" +:+ u64_to_string (Z.of_nat (length data)))));;
  '(filemark_start, filemark_end) ← write_bundle meta.(WriteBundleMeta.drive_id) data;
  mret (WriteBundleResponse.mk meta.(WriteBundleMeta.drive_id)
    meta.(WriteBundleMeta.bundle_id) (Z.of_nat (length data)) filemark_start filemark_end
    None true None).

(** The handler [read_bundle], with the messages of its stream *)
Definition read_bundle_stream (drive_id : string) (location : option Location) (length : Z)
    : action B (fault Status) (list ReadPayload) :=
  filemark ←
    match location with
    | Some (LocFilemark filemark) => mret filemark
    | Some (LocBlockOffset _) =>
        throw (Raised (unimplemented "phase-1 simulator supports filemark-based reads; block offset reads require live SCSI/tape integration"))
    | None => throw (Raised (invalid_argument "read_bundle location is required"))
    end;
  data ← read_bundle drive_id filemark length;
  mret (ReadMeta (Z.of_nat (List.length data)) None ::
        match data with [] => [] | _ => [ReadData data] end).
End service.
