(* ===== verification/TapeTheorems.v ===== *)
(** * Theorems on the tape worker

    The simulator keeps its vectors in step with its drives and never panics;
    bundles written to a tape are read back by their place on it, which is the
    number the write returned for the first tape of a drive, until a read moves
    the tape back and the next write cuts it off. *)

From Stdlib Require Import ZArith String.
From S2P Require Import Prelude Proto RustStr Vtl VtlTheorems TapeService.

Local Open Scope string_scope.
Local Open Scope list_scope.
Local Open Scope stdpp_scope.

(** ** What the operations of the library leave alone *)

(** The addresses of the elements never change. *)
Definition keeps_addresses {A} (m : vtl A) : Prop :=
  ∀ l, address <$> slots (m l).1 = address <$> slots l ∧
       address <$> drives (m l).1 = address <$> drives l.

Lemma keeps_bind {A B} (m : vtl A) (k : A → vtl B) :
  keeps_addresses m → (∀ a, keeps_addresses (k a)) → keeps_addresses (m ≫= k).
Proof.
  intros Hm Hk l. destruct (Hm l) as [Hs Hd]. unfold mbind, action_bind.
  destruct (m l) as [l1 [a|err]]; simpl in *; [|done].
  destruct (Hk a l1) as [-> ->]. done.
Qed.
Lemma keeps_reads {A} (f : VirtualTapeLibrary → result VtlError A) : keeps_addresses (reads f).
Proof. done. Qed.
Lemma keeps_lift {A} (r : result VtlError A) : keeps_addresses (lift r).
Proof. done. Qed.
Lemma keeps_ret {A} (a : A) : keeps_addresses (mret a : vtl A).
Proof. done. Qed.
Lemma keeps_throw {A} err : keeps_addresses (throw err : vtl A).
Proof. done. Qed.
Lemma keeps_reject b err : keeps_addresses (reject_if b err).
Proof. done. Qed.
Lemma keeps_set_slot a t : keeps_addresses (modify (set_slot_tape a t)).
Proof. intros l. simpl. by rewrite write_element_addresses. Qed.
Lemma keeps_set_drive a t : keeps_addresses (modify (set_drive_tape a t)).
Proof. intros l. simpl. by rewrite write_element_addresses. Qed.

Create HintDb keeps.
#[export] Hint Resolve keeps_reads keeps_lift keeps_ret keeps_throw keeps_reject
  keeps_set_slot keeps_set_drive : keeps.
Ltac solve_keeps := repeat (apply keeps_bind; [|intros ?]); auto with keeps.

Lemma keeps_take_from_slot a : keeps_addresses (take_from_slot a).
Proof. unfold take_from_slot. solve_keeps. Qed.
Lemma keeps_take_from_drive a : keeps_addresses (take_from_drive a).
Proof. unfold take_from_drive. solve_keeps. Qed.
Lemma keeps_put_into_slot a t : keeps_addresses (put_into_slot a t).
Proof. unfold put_into_slot. solve_keeps. Qed.
Lemma keeps_put_into_drive a t : keeps_addresses (put_into_drive a t).
Proof. unfold put_into_drive. solve_keeps. Qed.
#[export] Hint Resolve keeps_take_from_slot keeps_take_from_drive keeps_put_into_slot
  keeps_put_into_drive : keeps.

Lemma keeps_move_medium from to : keeps_addresses (move_medium from to).
Proof. unfold move_medium. destruct (kind from), (kind to); solve_keeps. Qed.
Lemma keeps_insert_tape a b : keeps_addresses (insert_tape a b).
Proof. unfold insert_tape. solve_keeps. Qed.
Lemma keeps_loaded_tape a : keeps_addresses (loaded_tape a).
Proof. unfold loaded_tape. solve_keeps. Qed.
#[export] Hint Resolve keeps_move_medium keeps_insert_tape keeps_loaded_tape : keeps.

Lemma keeps_rewind a : keeps_addresses (rewind a).
Proof. unfold rewind. solve_keeps. Qed.
Lemma keeps_seek a n : keeps_addresses (seek_filemark a n).
Proof.
  unfold seek_filemark. apply keeps_bind; [auto with keeps|]. intros t.
  destruct (seek_filemark_tape n t). solve_keeps.
Qed.
Lemma keeps_write a d : keeps_addresses (write a d).
Proof. unfold write. solve_keeps. Qed.
Lemma keeps_write_filemark a : keeps_addresses (write_filemark a).
Proof. unfold write_filemark. solve_keeps. Qed.
Lemma keeps_read a n : keeps_addresses (read a n).
Proof.
  unfold read. apply keeps_bind; [auto with keeps|]. intros t.
  destruct (read_tape n t) as [[out t']|]; solve_keeps.
Qed.
#[export] Hint Resolve keeps_rewind keeps_seek keeps_write keeps_write_filemark keeps_read
  : keeps.

(** ** The invariant of the simulator *)

(** [m] slots and [n] drives, numbered from 1 and from 0, and one entry per
    drive in each vector. *)
Record sim_wf (m n : Z) (s : SimulatorState) : Prop := {
  sw_slots : address <$> slots (library s) = slot_addr <$> seqZ 1 m;
  sw_drives : address <$> drives (library s) = drive_addr <$> seqZ 0 n;
  sw_acquired : length (acquired s) = Z.to_nat n;
  sw_filemarks : length (next_filemark s) = Z.to_nat n;
}.

Lemma new_sim_wf m n : sim_wf m n (new_sim m n).
Proof.
  split; simpl; rewrite ?length_replicate; try done; by rewrite <-list_fmap_compose.
Qed.

Section safety.
Context (m n : Z).
Implicit Types (s : SimulatorState).
Abbreviation safe := (safe (sim_wf m n)).

Lemma length_drives s : sim_wf m n s → length (drives (library s)) = Z.to_nat n.
Proof using Type.
  intros Hs. pose proof (f_equal length (sw_drives _ _ _ Hs)) as Hl.
  rewrite !length_fmap in Hl. by rewrite length_seqZ in Hl.
Qed.

Lemma safe_library {A} (f : vtl A) :
  keeps_addresses f → safe (on_library f) (λ _, True).
Proof using Type.
  intros Hf s [Hsl Hdr Hac Hfm]. unfold on_library.
  destruct (Hf (library s)) as [Hs Hd].
  destruct (f (library s)) as [l r]; simpl in *.
  split; [split; simpl; congruence|]. by destruct r.
Qed.

(** A drive that exists has an entry in the vectors. *)
Lemma safe_drive a :
  (0 ≤ index a)%Z →
  safe (on_library (reads (drive a))) (λ _, (index a < n)%Z).
Proof using Type.
  intros Ha s Hs. unfold on_library, reads. simpl. split; [by destruct Hs|].
  unfold drive, ensure_drive. case_bool_decide; simpl; [|done].
  destruct (Z.leb_spec (Z.of_nat (length (drives (library s)))) (index a)); simpl; [done|].
  rewrite (length_drives s Hs) in *. destruct (find_element _ _); simpl; [lia|done].
Qed.

Lemma safe_check {A} (r : result Status A) (Q : A → Prop) :
  (∀ a, r = Ok a → Q a) → safe (check r) Q.
Proof using Type. apply safe_lift_raised. Qed.

Lemma parse_drive_id_Ok id a :
  parse_drive_id id = Ok a → kind a = DriveKind ∧ is_u32 (index a).
Proof using Type.
  intros (i & Hi%ok_or_Ok%parse_u32_range & Heq)%result_bind_Ok. by injection Heq as <-.
Qed.

Lemma safe_parse_drive id :
  safe (check (parse_drive_id id)) (λ a, (0 ≤ index a)%Z).
Proof using Type. apply safe_check. intros a [_ Ha]%parse_drive_id_Ok. apply Ha. Qed.

Lemma safe_any {A} (r : result Status A) : safe (check r) (λ _, True).
Proof using Type. by apply safe_check. Qed.

Lemma safe_drive_index id : safe (drive_index id) (λ i, 0 ≤ i < n)%Z.
Proof using Type.
  unfold drive_index. eapply safe_bind; [apply safe_parse_drive|]. intros a Ha.
  eapply safe_bind; [by apply safe_drive|]. intros d Hi. apply safe_ret. simpl in *. lia.
Qed.

Lemma safe_set_acquired i x :
  (0 ≤ i < n)%Z → safe (set_acquired i x) (λ _, True).
Proof using Type.
  intros Hi s Hs. unfold set_acquired.
  pose proof (sw_acquired _ _ _ Hs) as Hl.
  rewrite (proj2 (Nat.ltb_lt _ _)) by lia. split; [|done].
  destruct Hs. split; simpl; rewrite ?length_insert; done.
Qed.

Lemma safe_set_next_filemark i x :
  (0 ≤ i < n)%Z → safe (set_next_filemark i x) (λ _, True).
Proof using Type.
  intros Hi s Hs. unfold set_next_filemark.
  pose proof (sw_filemarks _ _ _ Hs) as Hl.
  rewrite (proj2 (Nat.ltb_lt _ _)) by lia. split; [|done].
  destruct Hs. split; simpl; rewrite ?length_insert; done.
Qed.

Lemma safe_drive_endpoint i : (0 ≤ i)%Z → safe (drive_endpoint i) (λ _, True).
Proof using Type.
  intros Hi. unfold drive_endpoint.
  eapply safe_bind; [by apply (safe_drive (drive_addr i))|]. intros d _.
  eapply safe_bind; [apply safe_get|]. intros s _. by apply safe_ret.
Qed.

Lemma safe_find_free acq required ds :
  length acq = Z.to_nat n →
  Forall (λ d, 0 ≤ index (address d) < n)%Z ds →
  safe (find_free acq required ds)
    (λ o, ∀ d, o = Some d → 0 ≤ index (address d) < n)%Z.
Proof using Type.
  intros Hacq. induction 1 as [|d ds Hd _ IH]; cbn [find_free]; [by apply safe_ret|].
  eapply safe_bind; [apply safe_vec_get; lia|]. intros taken _.
  destruct (negb taken && _); [|done]. apply safe_ret. by intros ? [= <-].
Qed.

Lemma drives_in_range s :
  sim_wf m n s → Forall (λ d, 0 ≤ index (address d) < n)%Z (drives (library s)).
Proof using Type.
  intros Hs. pose proof (sw_drives _ _ _ Hs) as Hd. rewrite Forall_forall. intros d Hin.
  assert (address d ∈ address <$> drives (library s)) as Ha
    by (apply list_elem_of_fmap; eauto).
  rewrite Hd, list_elem_of_fmap in Ha. destruct Ha as (i & -> & Hi%elem_of_seqZ).
  simpl. lia.
Qed.

(** Reading from a record boundary does not panic. *)
Lemma read_loop_total max_len rest i out :
  (0 ≤ max_len ≤ usize_MAX)%Z → is_Some (read_loop max_len rest i 0 out).
Proof using Type.
  intros Hmax. revert i out. induction rest as [|r rest IH]; intros i out;
    cbn [read_loop]; [eauto|].
  destruct (Z.ltb_spec (Z.of_nat (length out)) max_len); [|eauto].
  destruct r as [d|]; [|eauto]. replace (Z.min 0 (Z.of_nat (length d))) with 0%Z by lia.
  rewrite wrap64_small by (unfold is_u64, usize_MAX in *; lia).
  rewrite slice_full by lia. cbn [mbind option_bind]. destruct (_ =? _)%Z; eauto.
Qed.

Definition tape_at_record (t : VirtualTape) : Prop := byte_offset t = 0%Z.

Lemma seek_loop_offset count rest i : (seek_loop count rest i 0).2 = 0%Z.
Proof using Type.
  revert count i. induction rest as [|[d|] rest IH]; intros count i; cbn [seek_loop];
    [done| |]; by destruct (0 <? count)%Z.
Qed.

(** [read_bundle]: rewinding and seeking leave the cursor between records. *)
Definition drive_at_record (a : ElementAddress) (s : SimulatorState) : Prop :=
  ∀ d t, drive a (library s) = Ok d → tape d = Some t → tape_at_record t.

Lemma drive_set_drive a t l d :
  drive a l = Ok d → drive a (set_drive_tape a t l) = Ok (mkElement a t).
Proof using Type.
  unfold drive, ensure_drive. cbn [drives set_drive_tape].
  rewrite length_write_element. intros (u & Hu & Hd%ok_or_Ok)%result_bind_Ok.
  rewrite Hu. unfold mbind, result_bind. cbv beta iota. by rewrite (find_write_eq a t _ d).
Qed.
End safety.

(** ** Operations on a loaded drive *)

Definition loaded (a : ElementAddress) (l : VirtualTapeLibrary) (t : VirtualTape) : Prop :=
  ∃ d, drive a l = Ok d ∧ tape d = Some t.

Lemma loaded_set a l t t' : loaded a l t → loaded a (set_drive_tape a (Some t') l) t'.
Proof. intros (d & Hd & _). eexists. split; [by eapply drive_set_drive|done]. Qed.

Lemma write_element_twice a x y l : write_element a x (write_element a y l) = write_element a x l.
Proof.
  induction l as [|e l IH]; cbn [write_element]; [done|].
  case_bool_decide as Ha; cbn [write_element address];
    [by rewrite bool_decide_eq_true_2|by rewrite bool_decide_eq_false_2, IH].
Qed.

Lemma set_drive_tape_twice a x y l :
  set_drive_tape a x (set_drive_tape a y l) = set_drive_tape a x l.
Proof. unfold set_drive_tape. cbn [slots drives]. by rewrite write_element_twice. Qed.

Lemma loaded_tape_run a l t : loaded a l t → loaded_tape a l = (l, Ok t).
Proof. intros (d & Hd & Ht). unfold loaded_tape. unfold_action. by rewrite Hd, Ht. Qed.

Lemma not_loaded_run a l :
  (∃ t, loaded a l t) ∨ ∃ err, loaded_tape a l = (l, Err err).
Proof.
  unfold loaded, loaded_tape. unfold_action. destruct (drive a l) as [d|err]; [|by eauto].
  destruct (tape d) as [t|] eqn:Ht; [left; eauto|right; eauto].
Qed.

(** The simulator with the tape [t] in the drive at [a]. *)
Definition with_tape (a : ElementAddress) (t : VirtualTape) (s : SimulatorState)
    : SimulatorState :=
  mkSim (set_drive_tape a (Some t) (library s)) (acquired s) (next_filemark s).

Lemma with_tape_twice a t t' s : with_tape a t (with_tape a t' s) = with_tape a t s.
Proof. unfold with_tape; simpl. by rewrite set_drive_tape_twice. Qed.

Lemma loaded_with_tape a t t' s :
  loaded a (library s) t → loaded a (library (with_tape a t' s)) t'.
Proof. apply loaded_set. Qed.

Section loaded_ops.
Context (a : ElementAddress) (s : SimulatorState) (t : VirtualTape).
Hypothesis (Hload : loaded a (library s) t).

Lemma rewind_run : on_library (rewind a) s = (with_tape a (rewind_tape t) s, Ok tt).
Proof using Hload.
  unfold on_library, rewind. unfold_action. by rewrite (loaded_tape_run _ _ _ Hload).
Qed.

Lemma seek_run k :
  on_library (seek_filemark a k) s =
    let '(found, t') := seek_filemark_tape k t in
    (with_tape a t' s,
     if found then Ok tt else Err (Raised (vtl_status FilemarkNotFound))).
Proof using Hload.
  unfold on_library, seek_filemark. unfold_action.
  rewrite (loaded_tape_run _ _ _ Hload). cbv beta iota.
  destruct (seek_filemark_tape k t) as [[] t']; done.
Qed.

Lemma write_run data :
  on_library (write a data) s = (with_tape a (append_data data t) s, Ok tt).
Proof using Hload.
  unfold on_library, write. unfold_action. by rewrite (loaded_tape_run _ _ _ Hload).
Qed.

Lemma write_filemark_run :
  on_library (write_filemark a) s = (with_tape a (append_filemark t) s, Ok tt).
Proof using Hload.
  unfold on_library, write_filemark. unfold_action.
  by rewrite (loaded_tape_run _ _ _ Hload).
Qed.

Lemma read_run k :
  on_library (read a k) s =
    match read_tape k t with
    | None => (s, Ok None)
    | Some (out, t') => (with_tape a t' s, Ok (Some out))
    end.
Proof using Hload.
  unfold on_library, read. unfold_action. rewrite (loaded_tape_run _ _ _ Hload).
  cbv beta iota. destruct (read_tape k t) as [[out t']|]; [done|]. by destruct s.
Qed.
End loaded_ops.

Lemma rewind_empty_run a s err :
  loaded_tape a (library s) = (library s, Err err) →
  on_library (rewind a) s = (s, Err (Raised (vtl_status err))).
Proof.
  intros Herr. unfold on_library, rewind. unfold_action. rewrite Herr. by destruct s.
Qed.

Definition read_len (len : Z) : Z := if (len =? 0)%Z then usize_MAX else Z.min len usize_MAX.

(** The tape after the rewind and the seek of [read_bundle] *)
Definition seek_bundle_start (k : Z) (t : VirtualTape) : bool * VirtualTape :=
  if (0 <? k)%Z then seek_filemark_tape k (rewind_tape t) else (true, rewind_tape t).

Lemma read_bundle_run id a s t k len :
  parse_drive_id id = Ok a → loaded a (library s) t →
  sim_read_bundle id k len s =
    let '(found, t1) := seek_bundle_start k t in
    if found then
      match read_tape (read_len len) t1 with
      | Some (out, t2) => (with_tape a t2 s, Ok out)
      | None => (with_tape a t1 s, Err Panicked)
      end
    else (with_tape a t1 s, Err (Raised (vtl_status FilemarkNotFound))).
Proof.
  intros Hid Hload. unfold sim_read_bundle, seek_bundle_start, check.
  rewrite Hid. unfold_action. cbn [map_err]. cbv beta iota.
  rewrite (rewind_run a s t Hload). cbv beta iota.
  pose proof (loaded_with_tape a t (rewind_tape t) s Hload) as Hload1.
  fold (read_len len).
  destruct (0 <? k)%Z; cbv beta iota.
  - rewrite (seek_run _ _ _ Hload1 k). destruct (seek_filemark_tape k (rewind_tape t)) as [[] t1].
    + rewrite with_tape_twice. pose proof (loaded_with_tape a t t1 s Hload) as Hload2.
      rewrite (read_run _ _ _ Hload2). destruct (read_tape _ t1) as [[out t2]|]; [|done].
      by rewrite with_tape_twice.
    + by rewrite with_tape_twice.
  - rewrite (read_run _ _ _ Hload1). destruct (read_tape _ _) as [[out t2]|]; [|done].
    by rewrite with_tape_twice.
Qed.

Lemma write_bundle_run id a s t data f :
  parse_drive_id id = Ok a → loaded a (library s) t →
  next_filemark s !! Z.to_nat (index a) = Some f →
  sim_write_bundle id data s =
    (mkSim (set_drive_tape a (Some (append_filemark (append_data data t))) (library s))
       (acquired s) (<[Z.to_nat (index a) := wrap32 (f + 1)]> (next_filemark s)),
     Ok (f, wrap32 (f + 1))).
Proof.
  intros Hid Hload Hf. unfold sim_write_bundle, check. rewrite Hid. unfold_action.
  cbn [map_err]. cbv beta iota. pose proof Hload as (d & Hd & _).
  unfold on_library at 1, reads. rewrite Hd. cbn [map_err]. cbv beta iota.
  replace (mkSim (library s) (acquired s) (next_filemark s)) with s by by destruct s.
  unfold vec_get at 1. rewrite Hf. cbv beta iota.
  rewrite (write_run a s t Hload). cbv beta iota.
  pose proof (loaded_with_tape a t (append_data data t) s Hload) as Hload1.
  rewrite (write_filemark_run _ _ _ Hload1). cbv beta iota. rewrite with_tape_twice.
  unfold set_next_filemark, with_tape. cbn [next_filemark library acquired].
  pose proof (lookup_lt_Some _ _ _ Hf) as Hlt. rewrite (proj2 (Nat.ltb_lt _ _) Hlt).
  unfold vec_get. cbn [next_filemark]. by rewrite list_lookup_insert_eq by done.
Qed.

(** ** No operation panics *)

Section no_panic.
Context (m n : Z).
Implicit Types (s : SimulatorState).
Abbreviation safe := (safe (sim_wf m n)).

Lemma sim_wf_with_tape a t s : sim_wf m n s → sim_wf m n (with_tape a t s).
Proof using Type. intros []. split; simpl; rewrite ?write_element_addresses; done. Qed.

Lemma safe_read_bundle id k len :
  (0 ≤ len)%Z → safe (sim_read_bundle id k len) (λ _, True).
Proof using Type.
  intros Hlen s Hs. destruct (parse_drive_id id) as [a|err] eqn:Hid.
  2:{ unfold sim_read_bundle, check. by rewrite Hid. }
  destruct (not_loaded_run a (library s)) as [[t Hload]|[err Herr]].
  - rewrite (read_bundle_run id a s t k len Hid Hload).
    assert (byte_offset (seek_bundle_start k t).2 = 0%Z) as Hoff.
    { unfold seek_bundle_start, seek_filemark_tape. destruct (0 <? k)%Z; [|done].
      pose proof (seek_loop_offset k (records t) 0) as Hsl.
      cbn [rewind_tape set_cursor records record_index byte_offset].
      rewrite drop_0. by destruct (seek_loop k (records t) 0 0) as [[] ?]. }
    destruct (seek_bundle_start k t) as [[] t1]; simpl in Hoff.
    + unfold read_tape. rewrite Hoff.
      destruct (read_loop_total (read_len len) (drop (record_index t1) (records t1))
        (record_index t1) []) as [[[out i] off] ->].
      { unfold read_len, usize_MAX, u64_MAX. destruct (_ =? _)%Z; lia. }
      cbn. split; [by apply sim_wf_with_tape|done].
    + split; [by apply sim_wf_with_tape|done].
  - unfold sim_read_bundle, check. rewrite Hid. unfold_action. cbn [map_err]. cbv beta iota.
    by rewrite (rewind_empty_run _ _ _ Herr).
Qed.

Lemma safe_write_bundle id data : safe (sim_write_bundle id data) (λ _, True).
Proof using Type.
  unfold sim_write_bundle. eapply safe_bind; [apply safe_parse_drive|]. intros a Ha.
  eapply safe_bind; [by apply safe_drive|]. intros d Hi. simpl in Ha, Hi.
  eapply safe_bind; [apply safe_get|]. intros s Hs.
  eapply safe_bind; [apply safe_vec_get; pose proof (sw_filemarks _ _ _ Hs); lia|].
  intros f _. eapply safe_bind; [apply safe_library; auto with keeps|]. intros _ _.
  eapply safe_bind; [apply safe_library; auto with keeps|]. intros _ _.
  eapply safe_bind; [apply safe_set_next_filemark; lia|]. intros _ _.
  eapply safe_bind; [apply safe_get|]. intros s' Hs'.
  eapply safe_bind; [apply safe_vec_get; pose proof (sw_filemarks _ _ _ Hs'); lia|].
  intros f' _. by apply safe_ret.
Qed.

Lemma safe_acquire preferred required :
  safe (sim_acquire_drive preferred required) (λ _, True).
Proof using Type.
  unfold sim_acquire_drive. eapply (safe_bind _ _ _ (λ i, 0 ≤ i < n)%Z).
  { destruct preferred as [id|]; [apply safe_drive_index|].
    eapply safe_bind; [apply safe_get|]. intros s Hs.
    eapply safe_bind; [apply safe_find_free; [by eapply sw_acquired|by eapply drives_in_range]|].
    intros o Ho. apply safe_check. destruct o as [d|]; simpl; [|done].
    intros i [= <-]. by apply Ho. }
  intros i Hi. simpl in Hi. eapply safe_bind; [apply safe_get|]. intros s Hs.
  eapply safe_bind; [apply safe_vec_get; pose proof (sw_acquired _ _ _ Hs); lia|].
  intros taken _. eapply (safe_bind _ _ _ (λ _, True)).
  { destruct taken; [apply safe_raise|by apply safe_ret]. }
  intros _ _. eapply (safe_bind _ _ _ (λ _, True)).
  { destruct required; [|by apply safe_ret].
    eapply safe_bind; [apply (safe_drive _ _ (drive_addr i)); simpl; lia|]. intros d _.
    case_match; [apply safe_raise|by apply safe_ret]. }
  intros _ _. eapply safe_bind; [by apply safe_set_acquired|]. intros _ _.
  eapply safe_bind; [apply (safe_drive _ _ (drive_addr i)); simpl; lia|]. intros d _.
  by apply safe_ret.
Qed.

Lemma safe_load tape_id id slot : safe (sim_load_tape tape_id id slot) (λ _, True).
Proof using Type.
  unfold sim_load_tape. eapply safe_bind; [apply safe_parse_drive|]. intros a Ha.
  eapply safe_bind; [by apply safe_drive|]. intros d _.
  eapply (safe_bind _ _ _ (λ _, True)).
  { destruct slot; [apply safe_any|]. eapply safe_bind; [apply safe_get|].
    intros s _. apply safe_any. }
  intros sl _. eapply safe_bind; [apply safe_library; auto with keeps|]. intros e _.
  case_match; [apply safe_raise|]. apply safe_library. apply keeps_move_medium.
Qed.

Lemma safe_unload id slot : safe (sim_unload_tape id slot) (λ _, True).
Proof using Type.
  unfold sim_unload_tape. eapply safe_bind; [apply safe_parse_drive|]. intros a Ha.
  eapply safe_bind; [by apply safe_drive|]. intros d _.
  eapply (safe_bind _ _ _ (λ _, True)).
  { destruct slot; [apply safe_any|]. eapply safe_bind; [apply safe_get|].
    intros s _. apply safe_any. }
  intros sl _. apply safe_library. apply keeps_move_medium.
Qed.

Lemma safe_list_drives : safe sim_list_drives (λ _, True).
Proof using Type.
  unfold sim_list_drives. eapply safe_bind; [apply safe_get|]. intros s _.
  assert (Forall (λ i, 0 ≤ i)%Z (seqZ 0 (Z.of_nat (length (drives (library s)))))) as Hall.
  { rewrite Forall_forall. intros i Hi%elem_of_seqZ. lia. }
  induction Hall as [|i l Hi _ IH]; cbn [foldr]; [by apply safe_ret|].
  eapply safe_bind; [by apply safe_drive_endpoint|]. intros d _.
  eapply safe_bind; [exact IH|]. intros ds _. by apply safe_ret.
Qed.
End no_panic.

(** The calls a client of the worker can make, with the ranges of their
    numeric arguments. *)
Inductive TapeOp :=
| OpInsert (slot_id tape_id : string)
| OpListDrives
| OpGetDriveStatus (id : string)
| OpAcquire (preferred required : option string)
| OpRelease (id : string)
| OpLoad (tape_id id : string) (slot : option string)
| OpUnload (id : string) (slot : option string)
| OpRewind (id : string)
| OpSeek (id : string) (filemark : Z)
| OpMediaStatus (id : string)
| OpInventory
| OpWrite (id : string) (data : list Z)
| OpRead (id : string) (filemark len : Z).

Definition ignore {A} (m : sim A) : sim unit := _ ← m; mret tt.

Definition run_op (op : TapeOp) : sim unit :=
  match op with
  | OpInsert slot_id tape_id => sim_insert_tape slot_id tape_id
  | OpListDrives => ignore list_drives
  | OpGetDriveStatus id => ignore (get_drive_status id)
  | OpAcquire preferred required => ignore (acquire_drive preferred required)
  | OpRelease id => release_drive id
  | OpLoad tape_id id slot => load_tape tape_id id slot
  | OpUnload id slot => unload_tape id slot
  | OpRewind id => rewind_drive id
  | OpSeek id filemark => seek_to_filemark id filemark
  | OpMediaStatus id => ignore (get_tape_media_status id)
  | OpInventory => ignore inventory
  | OpWrite id data => ignore (write_bundle id data)
  | OpRead id filemark len => ignore (read_bundle id filemark len)
  end.

Definition op_ok (op : TapeOp) : Prop :=
  match op with
  | OpRead _ filemark len => is_u32 filemark ∧ is_u64 len
  | _ => True
  end.

Lemma safe_ignore m n {A} (f : sim A) :
  safe (sim_wf m n) f (λ _, True) → safe (sim_wf m n) (ignore f) (λ _, True).
Proof. intros Hf. eapply safe_bind; [exact Hf|]. intros _ _. by apply safe_ret. Qed.

Lemma run_op_safe m n op : op_ok op → safe (sim_wf m n) (run_op op) (λ _, True).
Proof.
  destruct op; simpl; intros Hop; try apply safe_ignore.
  - eapply safe_bind; [apply safe_any|]. intros a _. apply safe_library. auto with keeps.
  - apply safe_list_drives.
  - eapply safe_bind; [apply safe_drive_index|]. intros i Hi. simpl in Hi. apply safe_drive_endpoint. lia.
  - apply safe_acquire.
  - eapply safe_bind; [apply safe_drive_index|]. intros i Hi. by apply safe_set_acquired.
  - apply safe_load.
  - apply safe_unload.
  - eapply safe_bind; [apply safe_any|]. intros a _. apply safe_library. auto with keeps.
  - eapply safe_bind; [apply safe_any|]. intros a _.
    eapply safe_bind; [apply safe_library; auto with keeps|]. intros _ _.
    destruct (0 <? filemark)%Z; [apply safe_library; auto with keeps|by apply safe_ret].
  - eapply safe_bind; [apply safe_drive_index|]. intros i Hi. simpl in Hi.
    eapply safe_bind; [apply (safe_drive _ _ (drive_addr i)); simpl; lia|]. intros d _.
    case_match; by apply safe_ret.
  - eapply safe_bind; [apply safe_get|]. intros s _. by apply safe_ret.
  - apply safe_write_bundle.
  - apply safe_read_bundle. apply Hop.
Qed.

(** C23: The simulator never panics: whatever calls a client makes on a library
    of any size, none of them indexes a vector out of range or slices a record
    out of bounds. *)
Theorem simulator_never_panics (slot_count drive_count : Z) (ops : list TapeOp) (op : TapeOp) :
  Forall op_ok (op :: ops) →
  let s := foldl (λ s op, (run_op op s).1) (new_sim slot_count drive_count) ops in
  (run_op op s).2 ≠ Err Panicked.
Proof.
  intros [Hop Hops]%Forall_cons s.
  assert (sim_wf slot_count drive_count s) as Hs.
  { unfold s. generalize (new_sim_wf slot_count drive_count).
    generalize (new_sim slot_count drive_count). clear s.
    induction Hops as [|op1 ops Hop1 _ IH]; intros s Hs; [done|]. simpl. apply IH.
    by apply (run_op_safe _ _ op1 Hop1). }
  destruct (run_op_safe _ _ op Hop s Hs) as [_ Hres]. intros Heq. by rewrite Heq in Hres.
Qed.

Lemma simulator_never_panics_witness :
  (run_op (OpRead "drive-0" 1 0) (foldl (λ s op, (run_op op s).1) (new_sim 2 1)
    [OpInsert "slot-1" "T1"; OpLoad "T1" "drive-0" None; OpWrite "drive-0" [1; 2]%Z])).2
  ≠ Err Panicked.
Proof.
  apply (simulator_never_panics 2 1
    [OpInsert "slot-1" "T1"; OpLoad "T1" "drive-0" None; OpWrite "drive-0" [1; 2]%Z]
    (OpRead "drive-0" 1 0)).
  repeat constructor; vm_compute; discriminate.
Defined.

(** ** Bundles written are read back *)

(** The drive at [a] holds a tape with the bundles [ds], positioned at its end,
    and its counter stands at [n] and the number of these bundles. *)
Definition holds_from (n : nat) (a : ElementAddress) (ds : list (list Z)) (s : SimulatorState) : Prop :=
  ∃ t, loaded a (library s) t ∧ at_end t ∧ records t = bundle_records ds ∧
    next_filemark s !! Z.to_nat (index a) = Some (Z.of_nat (n + length ds)).
(** The drive wrote nothing else. *)
Definition holds : ElementAddress → list (list Z) → SimulatorState → Prop := holds_from 0.

Lemma write_bundle_holds id a n ds d s :
  parse_drive_id id = Ok a → is_u32 (Z.of_nat (S (n + length ds))) → holds_from n a ds s →
  (sim_write_bundle id d s).2 = Ok (Z.of_nat (n + length ds), Z.of_nat (S (n + length ds))) ∧
  holds_from n a (ds ++ [d]) (sim_write_bundle id d s).1.
Proof.
  intros Hid Hlen (t & Hload & Hend & Hrec & Hf).
  rewrite (write_bundle_run id a s t d _ Hid Hload Hf); simpl.
  assert (wrap32 (Z.of_nat (n + length ds) + 1) = Z.of_nat (S (n + length ds))) as ->.
  { unfold wrap32, is_u32, u32_MAX in *. rewrite Z.mod_small; lia. }
  split; [done|]. destruct (append_bundle d ds t Hend Hrec) as (Hend' & Hrec' & _).
  eexists. split; [by eapply loaded_set|]. split; [done|]. split; [done|]. simpl.
  rewrite list_lookup_insert_eq by (by eapply lookup_lt_Some).
  rewrite length_app; simpl. f_equal. lia.
Qed.

Definition write_all (id : string) (ds : list (list Z)) (s : SimulatorState)
    : SimulatorState :=
  foldl (λ s d, (sim_write_bundle id d s).1) s ds.

Lemma write_all_holds id a n ds s :
  parse_drive_id id = Ok a → is_u32 (Z.of_nat (n + length ds)) → holds_from n a [] s →
  holds_from n a ds (write_all id ds s).
Proof.
  intros Hid. induction ds as [|d ds IH] using rev_ind; intros Hlen Hs; [done|].
  unfold write_all. rewrite foldl_app. simpl. rewrite length_app in Hlen; simpl in Hlen.
  apply write_bundle_holds; [done| |].
  - unfold is_u32 in *. lia.
  - apply IH; [|done]. unfold is_u32 in *. lia.
Qed.

Lemma seek_bundle_start_eq k t :
  seek_bundle_start (Z.of_nat k) t = seek_filemark_tape (Z.of_nat k) (rewind_tape t).
Proof.
  unfold seek_bundle_start. destruct k as [|k]; [|done].
  unfold seek_filemark_tape. by rewrite seek_loop_zero.
Qed.

Lemma read_len_range len : is_u64 len → (0 < read_len len ≤ usize_MAX)%Z.
Proof.
  unfold is_u64, read_len, usize_MAX, u64_MAX. intros Hlen.
  destruct (Z.eqb_spec len 0); lia.
Qed.

Lemma read_bundle_holds id a n ds s k d len :
  parse_drive_id id = Ok a → holds_from n a ds s → ds !! k = Some d →
  is_u64 (Z.of_nat (length d)) → is_u64 len →
  (sim_read_bundle id (Z.of_nat k) len s).2 = Ok (take (Z.to_nat (read_len len)) d).
Proof.
  intros Hid (t & Hload & _ & Hrec & _) Hk Hd Hlen.
  rewrite (read_bundle_run id a s t _ _ Hid Hload), seek_bundle_start_eq.
  destruct (read_back t ds k d (read_len len) Hrec Hk (read_len_range _ Hlen) Hd)
    as (t1 & t2 & -> & -> & _). done.
Qed.

(** C21: Bundles written one after the other to a blank tape, in a drive that
    wrote [n] bundles to other tapes before, are numbered from [n], and each is
    read back by its place on the tape, in full for length 0 and up to the
    requested length otherwise. So the first tape of a drive, for which [n] is
    0, is read back by the numbers that the writes reported. The bundles are
    fewer than 2^32 and shorter than 2^64 bytes. *)
Theorem bundles_read_back (id : string) (a : ElementAddress) (ds : list (list Z))
    (s : SimulatorState) (n k : nat) (d : list Z) (len : Z) :
  parse_drive_id id = Ok a → holds_from n a [] s →
  is_u32 (Z.of_nat (n + length ds)) → Forall (λ d, is_u64 (Z.of_nat (length d))) ds →
  ds !! k = Some d → is_u64 len →
  (sim_write_bundle id d (write_all id (take k ds) s)).2
    = Ok (Z.of_nat (n + k), Z.of_nat (S (n + k))) ∧
  (sim_read_bundle id (Z.of_nat k) len (write_all id ds s)).2
    = Ok (if (len =? 0)%Z then d else take (Z.to_nat len) d).
Proof.
  intros Hid Hs Hlen Hall Hk Hu.
  assert (k < length ds)%nat as Hlt by (by eapply lookup_lt_Some).
  assert (length (take k ds) = k) as Htk by (rewrite length_take; lia). split.
  - destruct (write_bundle_holds id a n (take k ds) d (write_all id (take k ds) s)) as [-> _];
      [done| | |by rewrite Htk].
    + rewrite Htk. unfold is_u32 in *. lia.
    + apply write_all_holds; [done| |done]. rewrite Htk. unfold is_u32 in *. lia.
  - rewrite (read_bundle_holds id a n ds _ k d len); [|done|by apply write_all_holds|done| |done].
    2:{ rewrite Forall_forall in Hall. apply Hall. by eapply list_elem_of_lookup_2. }
    rewrite Forall_lookup in Hall. specialize (Hall k d Hk). simpl in Hall.
    unfold read_len, is_u64, usize_MAX, u64_MAX in *. destruct (Z.eqb_spec len 0).
    + f_equal. apply take_ge. lia.
    + by rewrite Z.min_l by lia.
Qed.

(** The simulator of the default configuration: one drive, tape [T1] loaded. *)
Definition sample_sim : SimulatorState :=
  mkSim (mkLibrary ((λ i, mkElement (slot_addr i) None) <$> seqZ 1 2)
           [mkElement (drive_addr 0) (Some (new_tape "T1"))]) [false] [0%Z].

Lemma bundles_read_back_witness :
  (sim_read_bundle "drive-0" 1 0
     (write_all "drive-0" [[1; 2]; [3]; [4; 5]]%Z sample_sim)).2 = Ok [3%Z].
Proof.
  refine (proj2 (bundles_read_back "drive-0" (drive_addr 0) [[1; 2]; [3]; [4; 5]]%Z
    sample_sim 0 1 [3%Z] 0 _ _ _ _ _ _)).
  - reflexivity.
  - exists (new_tape "T1"). split; [|done]. exists (mkElement (drive_addr 0) (Some (new_tape "T1"))).
    done.
  - split; discriminate.
  - repeat constructor; discriminate.
  - reflexivity.
  - split; discriminate.
Defined.

(** The counter belongs to the drive and not to the tape: a bundle on the second
    tape of a drive is reported under a number at which it cannot be read. *)
Theorem second_tape_not_found_by_number :
  let ops := [OpInsert "slot-1" "T1"; OpInsert "slot-2" "T2"; OpLoad "T1" "drive-0" None;
    OpWrite "drive-0" [1]%Z; OpUnload "drive-0" (Some "slot-1"); OpLoad "T2" "drive-0" None] in
  let s := foldl (λ s op, (run_op op s).1) (new_sim 2 1) ops in
  let '(s', r) := sim_write_bundle "drive-0" [2]%Z s in
  r = Ok (1%Z, 2%Z) ∧ (sim_read_bundle "drive-0" 0 0 s').2 = Ok [2%Z] ∧
  (sim_read_bundle "drive-0" 1 0 s').2 ≠ Ok [2%Z].
Proof. vm_compute. split_and!; [done..|discriminate]. Qed.

(** A read moves the tape, and the next write cuts off what lies behind:
    after two bundles and a read of the first, a third bundle destroys the
    second. The write reports number 2 for the third, but it is read back under
    number 1, and number 2 reads as empty. *)
Theorem write_after_read_destroys_bundles :
  let s2 := write_all "drive-0" [[1]; [2]]%Z sample_sim in
  let '(s3, r3) := sim_read_bundle "drive-0" 0 0 s2 in
  let '(s4, r4) := sim_write_bundle "drive-0" [3]%Z s3 in
  r3 = Ok [1%Z] ∧ r4 = Ok (2%Z, 3%Z) ∧
  (sim_read_bundle "drive-0" 1 0 s2).2 = Ok [2%Z] ∧
  (sim_read_bundle "drive-0" 1 0 s4).2 = Ok [3%Z] ∧
  (sim_read_bundle "drive-0" 2 0 s4).2 = Ok [].
Proof. vm_compute. done. Qed.

(** ** Acquiring a drive *)

Lemma find_free_Some acq required ds s s' d :
  find_free acq required ds s = (s', Ok (Some d)) →
  s' = s ∧ d ∈ ds ∧ acq !! Z.to_nat (index (address d)) = Some false.
Proof.
  induction ds as [|x ds IH]; cbn [find_free]; [done|].
  intros (s1 & taken & Hget & Hrest)%action_bind_Ok. unfold vec_get in Hget.
  destruct (acq !! Z.to_nat (index (address x))) as [b|] eqn:Hb; simplify_eq/=.
  destruct taken; simpl in Hrest.
  - destruct (IH Hrest) as (-> & ? & ?). split; [done|]. split; [set_solver|done].
  - case_match; [injection Hrest as <- <-|destruct (IH Hrest) as (-> & ? & ?)];
      (split; [done|]; split; [set_solver|done]).
Qed.

Lemma on_library_reads {A} (f : VirtualTapeLibrary → result VtlError A) s s' x :
  on_library (reads f) s = (s', Ok x) → s' = s ∧ f (library s) = Ok x.
Proof.
  unfold on_library, reads. destruct (f (library s)); simpl; [|done].
  intros [= <- <-]. split; [by destruct s|done].
Qed.

Lemma drive_index_Ok id s s' i : drive_index id s = (s', Ok i) → s' = s.
Proof.
  intros (s1 & a & Ha & Hrest)%action_bind_Ok. unfold check, lift in Ha. simplify_eq.
  apply action_bind_Ok in Hrest as (s2 & d & [-> _]%on_library_reads & Hrest).
  unfold mret, action_ret in Hrest. by simplify_eq.
Qed.

(** C38: A drive is acquired exclusively: an acquisition succeeds only on a
    drive that was free, marks it taken and changes nothing else; the drive
    holds the required tape, if one was required. *)
Theorem acquire_is_exclusive (preferred required : option string) (s s' : SimulatorState)
    (resp : AcquireDriveResponse.t) :
  sim_acquire_drive preferred required s = (s', Ok resp) →
  ∃ i d, resp.(AcquireDriveResponse.drive_id) = drive_id_string i ∧
    acquired s !! Z.to_nat i = Some false ∧
    s' = mkSim (library s) (<[Z.to_nat i := true]> (acquired s)) (next_filemark s) ∧
    drive (drive_addr i) (library s) = Ok d ∧
    resp.(AcquireDriveResponse.current_tape) = element_barcode d ∧
    (∀ tape_id, required = Some tape_id → element_barcode d = Some tape_id).
Proof.
  intros (s1 & i & Hi & Hrest)%action_bind_Ok.
  assert (s1 = s) as ->.
  { destruct preferred; [by eapply drive_index_Ok|].
    apply action_bind_Ok in Hi as (s2 & s3 & [= <- <-] & Hi).
    apply action_bind_Ok in Hi as (s2 & o & Hfree & Hi).
    unfold check, lift in Hi. destruct o; simplify_eq/=.
    by destruct (find_free_Some _ _ _ _ _ _ Hfree). }
  apply action_bind_Ok in Hrest as (s2 & s3 & [= <- <-] & Hrest).
  apply action_bind_Ok in Hrest as (s2 & taken & Hget & Hrest).
  unfold vec_get in Hget. destruct (acquired s !! Z.to_nat i) as [b|] eqn:Hb; [|done].
  injection Hget as <- <-.
  apply action_bind_Ok in Hrest as (s1 & [] & Htaken & Hrest).
  destruct b; [done|]. injection Htaken as <-.
  apply action_bind_Ok in Hrest as (s1 & [] & Hreq & Hrest).
  apply action_bind_Ok in Hrest as (s4 & [] & Hset & Hrest).
  apply action_bind_Ok in Hrest as (s5 & d & [-> Hd]%on_library_reads & [= <- <-]).
  assert (s1 = s ∧ (∀ tape_id, required = Some tape_id →
    ∃ d, drive (drive_addr i) (library s) = Ok d ∧ element_barcode d = Some tape_id))
    as [-> Hreq'].
  { destruct required as [tape_id|]; [|by injection Hreq as <-].
    apply action_bind_Ok in Hreq as (s3 & d' & [-> Hd']%on_library_reads & Hreq).
    case_bool_decide as Hbar; [|discriminate Hreq]. injection Hreq as <-. split; [done|].
    intros ? [= <-]. eauto. }
  unfold set_acquired in Hset.
  destruct (Z.to_nat i <? length (acquired s))%nat; [|discriminate Hset]. injection Hset as <-.
  exists i, d. split_and!; try done.
  intros tape_id (d' & Hd' & Hbar)%Hreq'. simpl in Hd. congruence.
Qed.

Lemma acquire_is_exclusive_witness :
  ∃ i d s' resp, sim_acquire_drive None (Some "T1") sample_sim = (s', Ok resp) ∧
    s' = mkSim (library sample_sim) (<[Z.to_nat i := true]> (acquired sample_sim))
           (next_filemark sample_sim) ∧ element_barcode d = Some "T1".
Proof.
  destruct (acquire_is_exclusive None (Some "T1") sample_sim
    (mkSim (library sample_sim) [true] [0%Z])
    (AcquireDriveResponse.mk "drive-0" (Some "T1")))
    as (i & d & _ & _ & Hs & _ & _ & Hreq).
  - vm_compute. reflexivity.
  - exists i, d, (mkSim (library sample_sim) [true] [0%Z]),
      (AcquireDriveResponse.mk "drive-0" (Some "T1")).
    split; [vm_compute; reflexivity|]. split; [exact Hs|]. by apply Hreq.
Defined.

(** ** Streaming a bundle *)

Section streaming.
Context {B : Type} `{TapeBackend B}.

Lemma collect_chunks_Ok messages data out :
  collect_chunks messages data = Ok out →
  ∃ chunks, messages = (λ c, Ok (Some (WriteData c))) <$> chunks ∧
    out = data ++ concat chunks.
Proof using Type.
  revert data. induction messages as [|[[[meta|chunk]|]|err] messages IH]; intros data;
    cbn; try done.
  - intros [= <-]. exists []. by rewrite app_nil_r.
  - intros (chunks & -> & ->)%IH. exists (chunk :: chunks). by rewrite <-app_assoc.
Qed.
End streaming.

(** C11: A bundle reaches the backend only from a well-formed stream: metadata
    first, then data chunks only, whose total length is the announced one; the
    backend is then called once with the concatenated chunks. Any other stream
    is answered with an error before the backend is touched. Proved for every
    backend. *)
Theorem stream_writes_whole_bundle {B : Type} `{TapeBackend B}
    (messages : list (result Status (option WritePayload))) (b : B) :
  (∃ err, write_bundle_from_messages messages b = (b, Err (Raised err))) ∨
  ∃ meta chunks,
    messages = Ok (Some (WriteMeta meta)) :: ((λ c, Ok (Some (WriteData c))) <$> chunks) ∧
    meta.(WriteBundleMeta.total_size) = Z.of_nat (length (concat chunks)) ∧
    write_bundle_from_messages messages b =
      match write_bundle meta.(WriteBundleMeta.drive_id) (concat chunks) b with
      | (b', Ok (start, stop)) =>
          (b', Ok (WriteBundleResponse.mk meta.(WriteBundleMeta.drive_id)
             meta.(WriteBundleMeta.bundle_id) (Z.of_nat (length (concat chunks)))
             start stop None true None))
      | (b', Err err) => (b', Err err)
      end.
Proof.
  unfold write_bundle_from_messages. unfold_action.
  destruct messages as [|[[[meta|chunk]|]|err] messages]; try (left; by eauto).
  destruct (collect_chunks messages []) as [data|err] eqn:Hc; cbn [map_err]; [|left; by eauto].
  case_bool_decide as Hsize; cbn [negb]; [|left; by eauto].
  apply collect_chunks_Ok in Hc as (chunks & -> & ->). rewrite app_nil_l in *.
  right. exists meta, chunks. split; [done|]. split; [done|].
  destruct (write_bundle _ _ b) as [b' [[start stop]|err]]; done.
Qed.
