(* ===== verification/F64.v ===== *)
(** * Double-precision numbers

    The operations on [f64] the capacity configuration of the cache uses,
    over the Standard Library's specification of IEEE 754 binary64: a number
    is a [spec_float], arithmetic rounds to nearest even. *)

From Stdlib Require Import ZArith Lia SpecFloat.
From S2P Require Import Prelude.

Local Open Scope stdpp_scope.

Definition f64 : Type := spec_float.
Definition f64_prec : Z := 53.
Definition f64_emax : Z := 1024.

(** [m * 2^e] rounded to the nearest double *)
Definition f64_of (m e : Z) : f64 := binary_normalize f64_prec f64_emax m e false.

Definition f64_zero : f64 := S754_zero false.
Definition f64_one : f64 := f64_of 1 0.
(** The literals [0.8], [0.35] and [0.65]: the doubles nearest to them *)
Definition f64_0_8 : f64 := f64_of 7205759403792794 (-53).
Definition f64_0_35 : f64 := f64_of 6305039478318694 (-54).
Definition f64_0_65 : f64 := f64_of 5854679515581645 (-53).

Definition f64_add : f64 → f64 → f64 := SFadd f64_prec f64_emax.
Definition f64_mul : f64 → f64 → f64 := SFmul f64_prec f64_emax.
Definition f64_div : f64 → f64 → f64 := SFdiv f64_prec f64_emax.
Definition f64_eqb : f64 → f64 → bool := SFeqb.
Definition f64_ltb : f64 → f64 → bool := SFltb.
Definition f64_leb : f64 → f64 → bool := SFleb.

Definition is_nan (x : f64) : bool := match x with S754_nan => true | _ => false end.
Definition is_finite (x : f64) : bool :=
  match x with S754_zero _ | S754_finite _ _ _ => true | _ => false end.

(** [f64::clamp] *)
Definition clamp (x lo hi : f64) : f64 :=
  if f64_ltb x lo then lo else if f64_ltb hi x then hi else x.

(** The integer below [m * 2^e] *)
Definition scale_floor (m e : Z) : Z :=
  if (0 <=? e)%Z then m * 2 ^ e else m `div` 2 ^ (- e).

(** [f64::floor] *)
Definition f64_floor (x : f64) : f64 :=
  match x with
  | S754_finite s m e =>
      if (0 <=? e)%Z then x
      else binary_normalize f64_prec f64_emax
             (scale_floor (cond_Zopp s (Zpos m)) e) 0 s
  | _ => x
  end.

(** [n as f64] on a [u64] *)
Definition u64_as_f64 (n : Z) : f64 := f64_of n 0.
(** [x as u64]: towards zero, saturating, 0 for NaN *)
Definition f64_as_u64 (x : f64) : Z :=
  match x with
  | S754_finite false m e => Z.min (scale_floor (Zpos m) e) u64_MAX
  | S754_infinity false => u64_MAX
  | _ => 0
  end.

(** The literals are the doubles nearest to the decimals they are written as:
    off by at most half a unit in the last place. *)
Example literal_0_8 : (Z.abs (10 * 7205759403792794 - 8 * 2 ^ 53) * 2 ≤ 10)%Z.
Proof. vm_compute. discriminate. Qed.
Example literal_0_35 : (Z.abs (100 * 6305039478318694 - 35 * 2 ^ 54) * 2 ≤ 100)%Z.
Proof. vm_compute. discriminate. Qed.
Example literal_0_65 : (Z.abs (100 * 5854679515581645 - 65 * 2 ^ 53) * 2 ≤ 100)%Z.
Proof. vm_compute. discriminate. Qed.

Lemma f64_as_u64_range x : is_u64 (f64_as_u64 x).
Proof.
  assert (0 < u64_MAX)%Z by reflexivity.
  unfold is_u64, f64_as_u64, scale_floor.
  destruct x as [s|[]| |[] m e]; try lia.
  destruct (Z.leb_spec 0 e).
  - pose proof (Z.pow_nonneg 2 e). lia.
  - pose proof (Z.pow_pos_nonneg 2 (- e)). pose proof (Z.div_pos (Z.pos m) (2 ^ (- e))). lia.
Qed.
