(* ===== verification/CacheBackend.v ===== *)
(** * Storage backends of the cache

    [src/crates/cache/src/backend.rs]: the [CacheBackend] trait as a class,
    with the laws the cache relies on; [hdd.rs]: the backend that keeps two
    files per object, over a file system whose operations can fail, with the
    proof that it keeps the laws; [spdk.rs]: the backend that wraps it.
    [serde_json] is code outside the repository and is an interface. *)

From Stdlib Require Import ZArith Lia String Ascii.
From S2P Require Import Prelude Hoare RustStr.

Local Open Scope string_scope.
Local Open Scope list_scope.
Local Open Scope stdpp_scope.

(** ** Objects *)

Inductive CacheCategory := Staging | Restored.
#[export] Instance CacheCategory_eq_dec : EqDecision CacheCategory.
Proof. solve_decision. Defined.

Module CacheXattrs.
Record t := mk {
  bucket : string;
  key : string;
  version_id : option string;
  size : Z;
  expire_at : Z;
  cached_at : Z;
  last_access_at : Z;
  access_count : Z;
  checksum : option string;
  content_type : option string;
  etag : option string;
  category : CacheCategory;
}.
#[global] Instance t_eq_dec : EqDecision t.
Proof. solve_decision. Defined.

Definition set_access (last_access_at access_count : Z) (x : t) : t :=
  mk (bucket x) (key x) (version_id x) (size x) (expire_at x) (cached_at x)
    last_access_at access_count (checksum x) (content_type x) (etag x) (category x).
End CacheXattrs.

(** ** The trait

    Errors are [anyhow::Error], kept as their text. *)

Class CacheBackend (B : Type) := {
  be_write : string → list Z → CacheXattrs.t → action B string Z;
  be_read : Z → action B string (list Z);
  be_delete : Z → action B string unit;
  be_read_xattrs : Z → action B string CacheXattrs.t;
  be_list_all : action B string (list (Z * CacheXattrs.t));
  be_available_bytes : action B string Z;
}.

(** What the cache relies on. [stored] is what the backend holds under an
    identifier: attributes and, unless a deletion was cut short, data.
    [writable n]: identifiers are left for [n] more writes. [healthy]: no
    operation on the device will fail. *)
Class CacheBackendLaws (B : Type) `{CacheBackend B} := {
  stored : B → Z → option (CacheXattrs.t * option (list Z));
  writable : nat → B → Prop;
  healthy : B → Prop;

  writable_S n b : writable (S n) b → writable n b;
  be_write_spec n key data x b b' r :
    writable (S n) b → be_write key data x b = (b', r) →
    writable n b' ∧
    match r with
    | Ok id =>
        is_u64 id ∧ stored b id = None ∧ stored b' id = Some (x, Some data) ∧
        ∀ id', is_u64 id' → id' ≠ id → stored b' id' = stored b id'
    | Err _ => ∀ id', is_u64 id' → is_Some (stored b id') → stored b' id' = stored b id'
    end;
  be_read_spec id b b' r :
    is_u64 id → be_read id b = (b', r) →
    (∀ id', is_u64 id' → stored b' id' = stored b id') ∧
    (∀ n, writable n b → writable n b') ∧
    (∀ data, r = Ok data → ∃ x, stored b id = Some (x, Some data)) ∧
    (∀ x data, healthy b → stored b id = Some (x, Some data) → r = Ok data);
  be_delete_spec id b b' r :
    is_u64 id → be_delete id b = (b', r) →
    (∀ n, writable n b → writable n b') ∧
    match r with
    | Ok _ => ∀ id', is_u64 id' → id' ≠ id → stored b' id' = stored b id'
    | Err _ => ∀ id', is_u64 id' → stored b' id' = stored b id'
    end;
  be_list_all_spec b b' r :
    be_list_all b = (b', r) →
    (∀ id', is_u64 id' → stored b' id' = stored b id') ∧
    (∀ n, writable n b → writable n b') ∧
    ∀ l id x, r = Ok l → (id, x) ∈ l → is_u64 id ∧ ∃ data, stored b id = Some (x, data);
  be_available_spec b b' r :
    be_available_bytes b = (b', r) →
    (∀ id', is_u64 id' → stored b' id' = stored b id') ∧
    (∀ n, writable n b → writable n b') ∧
    ∀ n, r = Ok n → (0 ≤ n)%Z;
}.

(** A device without failures stays one while it is read, and deletes what it
    holds for good. *)
Class CacheBackendWorks (B : Type) `{CacheBackendLaws B} : Prop := {
  be_read_healthy id b : healthy b → healthy (be_read id b).1;
  be_delete_works id b : healthy b → is_Some (stored b id) →
    ∃ b', be_delete id b = (b', Ok tt) ∧ healthy b' ∧ stored b' id = None;
}.

(** ** The file system

    The files below [base_path], by directory and name. The outcome of each
    operation on the device is decided in advance by [io]: [None] is
    success, and a failed write can have stored a prefix of the data. *)

Record io_failure := mkFailure {
  io_message : string;
  io_written : option nat;
}.

Record Hdd := mkHdd {
  files : gmap (string * string) (list Z);
  max_size_bytes : Z;
  next_id : Z;
  io : list (option io_failure);
}.

Definition hdd := action Hdd string.

Definition set_files (files : gmap (string * string) (list Z)) (b : Hdd) : Hdd :=
  mkHdd files (max_size_bytes b) (next_id b) (io b).

(** The outcome of the next operation *)
Definition next_io : action Hdd string (option io_failure) := λ b,
  match io b with
  | [] => (b, Ok None)
  | o :: io => (mkHdd (files b) (max_size_bytes b) (next_id b) io, Ok o)
  end.

(** [tokio::fs::write] *)
Definition fs_write (path : string * string) (data : list Z) : hdd unit :=
  o ← next_io;
  match o with
  | None => modify (λ b, set_files (<[path := data]> (files b)) b)
  | Some failure =>
      match io_written failure with
      | Some n => modify (λ b, set_files (<[path := take n data]> (files b)) b)
      | None => mret tt
      end;;
      throw (io_message failure)
  end.

(** [tokio::fs::read] *)
Definition fs_read (path : string * string) : hdd (list Z) :=
  o ← next_io;
  match o with
  | None => reads (λ b, ok_or "No such file or directory (os error 2)" (files b !! path))
  | Some failure => throw (io_message failure)
  end.

(** [tokio::fs::remove_file] *)
Definition fs_remove_file (path : string * string) : hdd unit :=
  o ← next_io;
  match o with
  | None =>
      b ← get_state;
      match files b !! path with
      | Some _ => modify (λ b, set_files (delete path (files b)) b)
      | None => throw "No such file or directory (os error 2)"
      end
  | Some failure => throw (io_message failure)
  end.

(** The names in a directory, in the order the device lists them *)
Definition dir_names (h : hash_order) (dir : string) (b : Hdd) : list string :=
  (List.filter (λ p : string * string, p.1 == dir) (hm_keys h (files b))).*2.

(** ** The JSON of the attributes *)

Module XattrsJson.
Record t := mk {
  bucket : string;
  key : string;
  version_id : option string;
  size : Z;
  expire_at : Z;
  cached_at : Z;
  last_access_at : option Z;
  access_count : option Z;
  checksum : option string;
  content_type : option string;
  etag : option string;
  category : string;
}.
#[global] Instance t_eq_dec : EqDecision t.
Proof. solve_decision. Defined.
#[global] Instance t_countable : Countable t.
Proof.
  refine (inj_countable'
    (λ r, ((bucket r, key r, version_id r, size r, expire_at r, cached_at r),
           (last_access_at r, access_count r, checksum r, content_type r, etag r, category r)))
    (λ '((b, k, v, s, e, c), (l, a, ch, ct, et, ca)), mk b k v s e c l a ch ct et ca) _).
  by intros [].
Defined.
End XattrsJson.

(** [serde_json::to_vec] and [serde_json::from_slice] *)
Class Json := {
  json_to_vec : XattrsJson.t → result string (list Z);
  json_from_slice : list Z → result string XattrsJson.t;
}.
(** What its documentation promises *)
Class JsonLaw `{Json} : Prop :=
  json_roundtrip j bytes : json_to_vec j = Ok bytes → json_from_slice bytes = Ok j.

Definition to_json (x : CacheXattrs.t) : XattrsJson.t :=
  XattrsJson.mk x.(CacheXattrs.bucket) x.(CacheXattrs.key) x.(CacheXattrs.version_id)
    x.(CacheXattrs.size) x.(CacheXattrs.expire_at) x.(CacheXattrs.cached_at)
    (Some x.(CacheXattrs.last_access_at)) (Some x.(CacheXattrs.access_count))
    x.(CacheXattrs.checksum) x.(CacheXattrs.content_type) x.(CacheXattrs.etag)
    match x.(CacheXattrs.category) with Staging => "staging" | Restored => "restored" end.

Definition from_json (j : XattrsJson.t) : CacheXattrs.t :=
  CacheXattrs.mk j.(XattrsJson.bucket) j.(XattrsJson.key) j.(XattrsJson.version_id)
    j.(XattrsJson.size) j.(XattrsJson.expire_at) j.(XattrsJson.cached_at)
    (default j.(XattrsJson.cached_at) j.(XattrsJson.last_access_at))
    (default 0%Z j.(XattrsJson.access_count))
    j.(XattrsJson.checksum) j.(XattrsJson.content_type) j.(XattrsJson.etag)
    (if j.(XattrsJson.category) == "staging" then Staging else Restored).

(** ** The backend *)

Definition data_path (id : Z) (cat : CacheCategory) : string * string :=
  (match cat with Staging => "staging" | Restored => "restored" end,
   u64_to_string id +:+ ".dat").
Definition meta_path (id : Z) : string * string := ("meta", u64_to_string id +:+ ".json").

(** [str::strip_suffix] *)
Definition strip_suffix (suffix s : string) : option string :=
  let n := (String.length s - String.length suffix)%nat in
  if (String.length suffix <=? String.length s)%nat
     && (String.substring n (String.length suffix) s == suffix)
  then Some (String.substring 0 n s) else None.

(** The identifier in the name of an attribute file *)
Definition meta_name_id (name : string) : option Z :=
  strip_suffix ".json" name ≫= parse_u64.

Section hdd.
Context (h : hash_order) `{Json}.

(** [HddBackend::read_xattrs] *)
Definition hdd_read_xattrs (id : Z) : hdd CacheXattrs.t :=
  raw ← fs_read (meta_path id);
  j ← lift (json_from_slice raw);
  mret (from_json j).

(** [HddBackend::write]; the atomic counter wraps *)
Definition hdd_write (_key : string) (data : list Z) (xattrs : CacheXattrs.t) : hdd Z :=
  b ← get_state;
  let id := next_id b in
  modify (λ b, mkHdd (files b) (max_size_bytes b) (wrap64 (id + 1)) (io b));;
  fs_write (data_path id xattrs.(CacheXattrs.category)) data;;
  bytes ← lift (json_to_vec (to_json xattrs));
  fs_write (meta_path id) bytes;;
  mret id.

(** [HddBackend::read] *)
Definition hdd_read (id : Z) : hdd (list Z) :=
  x ← hdd_read_xattrs id;
  fs_read (data_path id x.(CacheXattrs.category)).

(** [HddBackend::delete] *)
Definition hdd_delete (id : Z) : hdd unit :=
  x ← hdd_read_xattrs id;
  discard (fs_remove_file (data_path id x.(CacheXattrs.category)));;
  discard (fs_remove_file (meta_path id)).

(** [rd.next_entry().await?]: reading the next name can fail *)
Definition next_entry : hdd unit :=
  o ← next_io;
  match o with None => mret tt | Some failure => throw (io_message failure) end.

(** The loop of [HddBackend::list_all] over the names left *)
Fixpoint list_loop (names : list string) (out : list (Z * CacheXattrs.t))
    : hdd (list (Z * CacheXattrs.t)) :=
  _ ← next_entry;
  match names with
  | [] => mret out
  | n :: names =>
      match meta_name_id n with
      | Some id =>
          x ← if_ok (hdd_read_xattrs id);
          list_loop names match x with Some x => out ++ [(id, x)] | None => out end
      | None => list_loop names out
      end
  end.

(** [HddBackend::list_all] *)
Definition hdd_list_all : hdd (list (Z * CacheXattrs.t)) :=
  next_entry;;
  b ← get_state;
  list_loop (dir_names h "meta" b) [].

(** [HddBackend::available_bytes] *)
Definition hdd_available_bytes : hdd Z :=
  all ← hdd_list_all;
  b ← get_state;
  mret (saturating_sub (max_size_bytes b)
          (u64_sum ((λ p : Z * CacheXattrs.t, p.2.(CacheXattrs.size)) <$> all))).

(** The loop of [discover_next_id] *)
Fixpoint discover_loop (names : list string) (max_id : Z) : hdd Z :=
  _ ← next_entry;
  match names with
  | [] => mret (wrap64 (max_id + 1))
  | name :: names =>
      discover_loop names
        match meta_name_id name with Some id => Z.max max_id id | None => max_id end
  end.
Definition discover_next_id : hdd Z :=
  next_entry;;
  b ← get_state;
  discover_loop (dir_names h "meta" b) 0.

(** [HddBackend::new]: three directories, then the next identifier. The state
    it is run on gives the files and the outcomes of the operations. *)
Definition hdd_new (max_size_gb : Z) : hdd unit :=
  next_entry;; next_entry;; next_entry;;
  id ← discover_next_id;
  modify (λ b, mkHdd (files b) (wrap64 (max_size_gb * 1024 * 1024 * 1024)) id (io b)).

#[export] Instance hdd_backend : CacheBackend Hdd := {|
  be_write := hdd_write;
  be_read := hdd_read;
  be_delete := hdd_delete;
  be_read_xattrs := hdd_read_xattrs;
  be_list_all := hdd_list_all;
  be_available_bytes := hdd_available_bytes |}.
End hdd.

(** [impl CacheBackend for SpdkBackend]: every operation is that of the
    [HddBackend] it keeps below [config_file/spdk/<bdev_name>]. *)
Definition spdk_backend (h : hash_order) `{Json} : CacheBackend Hdd := {|
  be_write cache_key data xattrs := hdd_write cache_key data xattrs;
  be_read storage_id := hdd_read storage_id;
  be_delete storage_id := hdd_delete storage_id;
  be_read_xattrs storage_id := hdd_read_xattrs storage_id;
  be_list_all := hdd_list_all h;
  be_available_bytes := hdd_available_bytes h |}.


(** ** The laws of the backend *)

Definition same_files (b b' : Hdd) : Prop :=
  files b' = files b ∧ next_id b' = next_id b ∧ max_size_bytes b' = max_size_bytes b.
Definition no_failures (b : Hdd) : Prop := Forall (λ o, o = None) (io b).

#[export] Instance same_files_preorder : PreOrder same_files.
Proof. split; [done|]. unfold same_files. intros x y z. intuition congruence. Qed.

Lemma next_io_spec b :
  ∃ b' o, next_io b = (b', Ok o) ∧ same_files b b' ∧ (no_failures b → o = None ∧ no_failures b').
Proof.
  unfold next_io. destruct (io b) as [|o l] eqn:Hio; (do 2 eexists; split; [done|]).
  - split; [done|]. by intros.
  - split; [done|]. unfold no_failures. rewrite Hio. simpl. intros H. by inversion H.
Qed.

Lemma fs_read_spec path b b' r :
  fs_read path b = (b', r) →
  same_files b b' ∧ (∀ data, r = Ok data → files b !! path = Some data) ∧
  (no_failures b → no_failures b' ∧ ∀ data, files b !! path = Some data → r = Ok data).
Proof.
  unfold fs_read. destruct (next_io_spec b) as (b1 & o & Hio & (Hf & Hs) & Hno).
  unfold_action. rewrite Hio. destruct o as [f|]; intros [= <- <-].
  - split; [done|]. split; [done|]. intros Hb. by destruct (Hno Hb).
  - rewrite Hf. split; [done|]. split; [by intros data ?%ok_or_Ok|].
    intros Hb. split; [by apply Hno|]. by intros data ->.
Qed.

Lemma fs_write_spec path data b b' r :
  fs_write path data b = (b', r) →
  next_id b' = next_id b ∧
  (files b' = files b ∨ ∃ data', files b' = <[path := data']> (files b)) ∧
  (r = Ok tt → files b' = <[path := data]> (files b)).
Proof.
  unfold fs_write. destruct (next_io_spec b) as (b1 & o & Hio & (Hf & Hn & _) & _).
  unfold_action. rewrite Hio. destruct o as [f|].
  - destruct (io_written f); intros [= <- <-]; simpl; rewrite ?Hf; naive_solver.
  - intros [= <- <-]; simpl; rewrite Hf; naive_solver.
Qed.

Lemma fs_remove_spec path b b' r :
  fs_remove_file path b = (b', r) →
  next_id b' = next_id b ∧ (files b' = files b ∨ files b' = delete path (files b)).
Proof.
  unfold fs_remove_file. destruct (next_io_spec b) as (b1 & o & Hio & (Hf & Hn & _) & _).
  unfold_action. rewrite Hio. destruct o as [f|]; [by intros [= <- <-]; auto|].
  destruct (files b1 !! path); intros [= <- <-]; simpl; rewrite ?Hf; auto.
Qed.

Lemma next_entry_spec b b' r : next_entry b = (b', r) → same_files b b'.
Proof.
  unfold next_entry. destruct (next_io_spec b) as (b1 & o & Hio & Hs & _).
  unfold_action. rewrite Hio. by destruct o; intros [= <- <-].
Qed.

Lemma string_length_app s t :
  String.length (s +:+ t) = (String.length s + String.length t)%nat.
Proof. induction s; simpl; auto. Qed.

(** Distinct identifiers have distinct files. *)
Lemma string_app_inj_r s : Inj (=) (=) (λ t, t +:+ s).
Proof.
  intros t1 t2 E.
  assert (String.length t1 = String.length t2) as Hlen.
  { apply (f_equal String.length) in E. rewrite !string_length_app in E. lia. }
  revert t2 E Hlen. induction t1 as [|a t1 IH]; intros [|c t2] E Hlen; simpl in *; try done.
  injection E as -> E. f_equal. apply IH; [done|lia].
Qed.

Lemma meta_path_inj x y : is_u64 x → is_u64 y → meta_path x = meta_path y → x = y.
Proof.
  intros [??] [??] [= E%(string_app_inj_r ".json")]. by apply u64_to_string_inj.
Qed.
Lemma data_path_inj x cx y cy :
  is_u64 x → is_u64 y → data_path x cx = data_path y cy → x = y.
Proof.
  intros [??] [??] [= _ E%(string_app_inj_r ".dat")]. by apply u64_to_string_inj.
Qed.
Lemma meta_path_data_path x y c : meta_path x ≠ data_path y c.
Proof. by destruct c. Qed.

Section hdd_laws.
Context (h : hash_order) `{Json}.

(** What the files say of an identifier *)
Definition hdd_stored (b : Hdd) (id : Z) : option (CacheXattrs.t * option (list Z)) :=
  raw ← files b !! meta_path id;
  j ← ok (json_from_slice raw);
  Some (from_json j, files b !! data_path id (from_json j).(CacheXattrs.category)).

(** No attribute file has an identifier that is still to be given out, and
    the counter does not wrap in the next [n] writes. *)
Definition hdd_writable (n : nat) (b : Hdd) : Prop :=
  (0 ≤ next_id b)%Z ∧ (next_id b + Z.of_nat n ≤ u64_MAX)%Z ∧
  ∀ id, is_u64 id → (next_id b ≤ id)%Z → files b !! meta_path id = None.

Lemma from_to_json x : from_json (to_json x) = x.
Proof using. by destruct x as [???????????[]]. Qed.

Lemma hdd_stored_ext b b' id :
  files b' !! meta_path id = files b !! meta_path id →
  (∀ c, files b' !! data_path id c = files b !! data_path id c) →
  hdd_stored b' id = hdd_stored b id.
Proof.
  unfold hdd_stored. intros -> Hd. destruct (files b !! meta_path id) as [raw|]; [simpl|done].
  destruct (ok (json_from_slice raw)); simpl; [by rewrite Hd|done].
Qed.

Lemma same_files_stored b b' id : same_files b b' → hdd_stored b' id = hdd_stored b id.
Proof. intros (Hf & _). apply hdd_stored_ext; by rewrite Hf. Qed.

Lemma same_files_writable b b' n : same_files b b' → hdd_writable n b → hdd_writable n b'.
Proof. unfold hdd_writable. by intros (-> & -> & _). Qed.

(** Writing or removing the files of one identifier keeps the others. *)
Definition only (id : Z) (b b' : Hdd) : Prop :=
  ∀ p, p ≠ meta_path id → (∀ c, p ≠ data_path id c) → files b' !! p = files b !! p.

Lemma only_trans id b1 b2 b3 : only id b1 b2 → only id b2 b3 → only id b1 b3.
Proof. unfold only. intros H1 H2 p Hm Hd. by rewrite H2, H1. Qed.

Lemma only_stored id b b' id' :
  is_u64 id → is_u64 id' → id' ≠ id → only id b b' → hdd_stored b' id' = hdd_stored b id'.
Proof.
  intros Hid Hid' Hne Honly. apply hdd_stored_ext; [|intros c]; apply Honly.
  - intros E. by apply meta_path_inj in E.
  - intros c. apply meta_path_data_path.
  - intros E. symmetry in E. by apply meta_path_data_path in E.
  - intros c' E. by apply data_path_inj in E.
Qed.

Lemma hdd_read_xattrs_spec id b b' r :
  hdd_read_xattrs id b = (b', r) →
  same_files b b' ∧
  (∀ x, r = Ok x → ∃ data, hdd_stored b id = Some (x, data)) ∧
  (no_failures b → no_failures b' ∧
    ∀ x data, hdd_stored b id = Some (x, data) → r = Ok x).
Proof.
  unfold hdd_read_xattrs, hdd_stored. unfold_action.
  destruct (fs_read (meta_path id) b) as [b1 r1] eqn:Hr.
  apply fs_read_spec in Hr as (Hs & Hok & Hno). destruct r1 as [raw|err].
  - rewrite (Hok raw eq_refl). simpl. destruct (json_from_slice raw) as [j|err]; intros [= <- <-].
    + split; [done|]. split; [intros x [= <-]; by eexists|].
      intros Hb. split; [by apply Hno|]. simpl. by intros x data [= <- _].
    + split; [done|]. split; [done|]. intros Hb. split; [by apply Hno|]. done.
  - intros [= <- <-]. split; [done|]. split; [done|]. intros Hb.
    destruct (Hno Hb) as [Hb' Hread]. split; [done|]. intros x data.
    destruct (files b !! meta_path id) as [raw|]; [|done]. by specialize (Hread raw eq_refl).
Qed.

Lemma fs_write_only path data id b b' r :
  (path = meta_path id ∨ ∃ c, path = data_path id c) →
  fs_write path data b = (b', r) → only id b b'.
Proof using.
  intros Hp (_ & Hf & _)%fs_write_spec p Hm Hd.
  destruct Hf as [->|[data' ->]]; [done|]. apply lookup_insert_ne.
  destruct Hp as [->|[c ->]]; auto.
Qed.

Lemma fs_remove_only path id b b' r :
  (path = meta_path id ∨ ∃ c, path = data_path id c) →
  fs_remove_file path b = (b', r) → only id b b'.
Proof using.
  intros Hp (_ & Hf)%fs_remove_spec p Hm Hd.
  destruct Hf as [->| ->]; [done|]. apply lookup_delete_ne.
  destruct Hp as [->|[c ->]]; auto.
Qed.

(** A write touches the files of the identifier it takes from the counter. *)
Lemma hdd_write_run key data x b b' r :
  hdd_write key data x b = (b', r) →
  next_id b' = wrap64 (next_id b + 1) ∧ only (next_id b) b b' ∧
  ∀ id, r = Ok id → id = next_id b ∧ ∃ bytes, json_to_vec (to_json x) = Ok bytes ∧
    files b' !! meta_path id = Some bytes ∧
    files b' !! data_path id x.(CacheXattrs.category) = Some data.
Proof using.
  unfold hdd_write. unfold_action.
  set (b0 := mkHdd _ _ _ _). set (id := next_id b) in *.
  destruct (fs_write (data_path _ _) data b0) as [b1 r1] eqn:Hw1.
  pose proof (fs_write_only _ _ id _ _ _ (or_intror (ex_intro _ _ eq_refl)) Hw1) as Ho1.
  apply fs_write_spec in Hw1 as (Hn1 & _ & Hok1).
  destruct r1 as [[]|err]; [|by intros [= <- <-]].
  destruct (json_to_vec (to_json x)) as [bytes|err]; [|by intros [= <- <-]].
  destruct (fs_write (meta_path id) bytes b1) as [b2 r2] eqn:Hw2.
  pose proof (fs_write_only _ _ id _ _ _ (or_introl eq_refl) Hw2) as Ho2.
  apply fs_write_spec in Hw2 as (Hn2 & _ & Hok2).
  assert (only id b b2) by (eapply only_trans; [exact Ho1|exact Ho2]).
  destruct r2 as [[]|err]; intros [= <- <-]; rewrite Hn2, Hn1;
    (split; [done|]; split; [done|]); [|done].
  intros ? [= <-]. split; [done|]. exists bytes. split; [done|].
  rewrite Hok2, Hok1 by done. split; [apply lookup_insert_eq|].
  rewrite lookup_insert_ne by apply meta_path_data_path. apply lookup_insert_eq.
Qed.

Lemma hdd_delete_run id b b' r :
  hdd_delete id b = (b', r) →
  next_id b' = next_id b ∧
  match r with
  | Ok _ => only id b b' ∧ ∀ p, is_Some (files b' !! p) → is_Some (files b !! p)
  | Err _ => same_files b b'
  end.
Proof using.
  unfold hdd_delete, discard. unfold_action.
  destruct (hdd_read_xattrs id b) as [b1 r1] eqn:Hx.
  apply hdd_read_xattrs_spec in Hx as (Hs & _). destruct Hs as (Hf & Hn & Hm).
  destruct r1 as [x|err]; [|by intros [= <- <-]].
  destruct (fs_remove_file (data_path _ _) b1) as [b2 r2] eqn:Hr2.
  cbn [fst snd]. destruct (fs_remove_file (meta_path id) b2) as [b3 r3] eqn:Hr3.
  intros [= <- <-].
  pose proof (fs_remove_only _ id _ _ _ (or_intror (ex_intro _ _ eq_refl)) Hr2) as Ho2.
  pose proof (fs_remove_only _ id _ _ _ (or_introl eq_refl) Hr3) as Ho3.
  apply fs_remove_spec in Hr2 as (Hn2 & Hf2). apply fs_remove_spec in Hr3 as (Hn3 & Hf3).
  split; [congruence|]. split.
  - intros p Hpm Hpd. by rewrite (Ho3 p Hpm Hpd), (Ho2 p Hpm Hpd), Hf.
  - intros p. rewrite <-Hf. destruct Hf3 as [->| ->], Hf2 as [->| ->];
      rewrite ?lookup_delete_is_Some; naive_solver.
Qed.

Lemma list_loop_spec names out b b' r :
  list_loop names out b = (b', r) →
  same_files b b' ∧
  ∀ l id x, r = Ok l → (id, x) ∈ l →
    (id, x) ∈ out ∨ is_u64 id ∧ ∃ data, hdd_stored b id = Some (x, data).
Proof using.
  revert out b. induction names as [|n names IH]; intros out b; simpl; unfold_action;
    (destruct (next_entry b) as [b1 r1] eqn:He; apply next_entry_spec in He;
     destruct r1 as [[]|err]; [|by intros [= <- <-]]).
  - intros [= <- <-]. split; [done|]. intros l id x [= <-]. auto.
  - assert (Hback : ∀ b2 id, same_files b b2 →
      hdd_stored b2 id = hdd_stored b id) by (intros; by apply same_files_stored).
    destruct (meta_name_id n) as [id|] eqn:Hid.
    + unfold if_ok. destruct (hdd_read_xattrs id b1) as [b2 r2] eqn:Hx.
      apply hdd_read_xattrs_spec in Hx as (Hs & Hok & _). simpl.
      assert (same_files b b2) by (by transitivity b1).
      intros [Hs' Hl]%IH. split; [by transitivity b2|]. intros l id' x Hr Hin.
      specialize (Hl l id' x Hr Hin). rewrite Hback in Hl by done.
      destruct r2 as [x2|err]; simpl in Hl; [|done].
      destruct Hl as [[Hl|[= -> ->]%list_elem_of_singleton]%elem_of_app|Hl]; [by left| |by right].
      right. destruct (Hok x2 eq_refl) as [data Hdata]. rewrite Hback in Hdata by done.
      split; [|by exists data]. unfold meta_name_id in Hid.
      apply bind_Some in Hid as (s & _ & Hs3). by apply parse_u64_range in Hs3.
    + intros [Hs' Hl]%IH. split; [by transitivity b1|]. intros l id' x Hr Hin.
      rewrite <-(Hback b1) by done. by apply (Hl l).
Qed.

Lemma hdd_list_all_spec b b' r :
  hdd_list_all h b = (b', r) →
  same_files b b' ∧
  ∀ l id x, r = Ok l → (id, x) ∈ l → is_u64 id ∧ ∃ data, hdd_stored b id = Some (x, data).
Proof using.
  unfold hdd_list_all. unfold_action.
  destruct (next_entry b) as [b1 r1] eqn:He. apply next_entry_spec in He.
  destruct r1 as [[]|err]; [|by intros [= <- <-]].
  intros [Hs Hl]%list_loop_spec. split; [by transitivity b1|].
  intros l id x Hr Hin. rewrite <-(same_files_stored b b1) by done.
  destruct (Hl l id x Hr Hin) as [?%elem_of_nil|?]; done.
Qed.

Lemma hdd_available_spec b b' r :
  hdd_available_bytes h b = (b', r) → same_files b b' ∧ ∀ n, r = Ok n → (0 ≤ n)%Z.
Proof using.
  unfold hdd_available_bytes. unfold_action.
  destruct (hdd_list_all h b) as [b1 r1] eqn:Hl. apply hdd_list_all_spec in Hl as [Hs _].
  destruct r1 as [l|err]; intros [= <- <-]; (split; [done|]); [|done].
  intros n [= <-]. unfold saturating_sub. lia.
Qed.

Lemma hdd_read_run id b b' r :
  hdd_read id b = (b', r) →
  same_files b b' ∧
  (∀ data, r = Ok data → ∃ x, hdd_stored b id = Some (x, Some data)) ∧
  (∀ x data, no_failures b → hdd_stored b id = Some (x, Some data) → r = Ok data).
Proof using.
  unfold hdd_read. unfold_action. destruct (hdd_read_xattrs id b) as [b1 r1] eqn:Hx.
  apply hdd_read_xattrs_spec in Hx as (Hs & Hok & Hno). pose proof Hs as (Hf & _).
  destruct r1 as [x|err].
  - intros (Hs' & Hok' & Hno')%fs_read_spec. rewrite Hf in *.
    destruct (Hok x eq_refl) as [data Hst]. split; [by transitivity b1|].
    assert (data = files b !! data_path id x.(CacheXattrs.category)) as ->.
    { revert Hst. unfold hdd_stored. destruct (files b !! meta_path id) as [raw|]; [|done].
      simpl. destruct (ok _); [|done]. simpl. by intros [= <- <-]. }
    split.
    + intros data Hr. exists x. by rewrite Hst, (Hok' data Hr).
    + intros y data Hb Hy. rewrite Hy in Hst. injection Hst as -> Hst.
      apply Hno'; [by apply Hno|done].
  - intros [= <- <-]. split; [done|]. split; [done|]. intros x data Hb Hst.
    destruct (Hno Hb) as [_ Hx]. by specialize (Hx _ _ Hst).
Qed.

Context {json_law : JsonLaw}.

Lemma hdd_write_law n key data x b b' r :
  hdd_writable (S n) b → hdd_write key data x b = (b', r) →
  hdd_writable n b' ∧
  match r with
  | Ok id =>
      is_u64 id ∧ hdd_stored b id = None ∧ hdd_stored b' id = Some (x, Some data) ∧
      ∀ id', is_u64 id' → id' ≠ id → hdd_stored b' id' = hdd_stored b id'
  | Err _ =>
      ∀ id', is_u64 id' → is_Some (hdd_stored b id') → hdd_stored b' id' = hdd_stored b id'
  end.
Proof using json_law.
  intros (Hpos & Hmax & Hfresh) (Hn & Honly & Hok)%hdd_write_run.
  assert (Hid : is_u64 (next_id b)) by (unfold is_u64; lia).
  assert (Hnone : hdd_stored b (next_id b) = None)
    by (unfold hdd_stored; by rewrite Hfresh by (done || lia)).
  rewrite wrap64_small in Hn by (unfold is_u64 in *; lia). split.
  { unfold hdd_writable. rewrite Hn. split_and!; [lia..|]. intros id Hu Hle.
    rewrite Honly; [apply Hfresh; [done|lia]|..].
    - intros E%meta_path_inj; [lia|done..].
    - intros c. apply meta_path_data_path. }
  destruct r as [id|err].
  - destruct (Hok id eq_refl) as (-> & bytes & Hjson & Hm & Hd).
    do 2 (split; [done|]). split; [|intros; by apply only_stored with (id := next_id b)].
    unfold hdd_stored, mbind, option_bind. rewrite Hm, (json_roundtrip _ _ Hjson).
    unfold ok. by rewrite from_to_json, Hd.
  - intros id' Hu Hst. apply only_stored with (id := next_id b); [done..| |done].
    intros ->. rewrite Hnone in Hst. by destruct Hst.
Qed.

(** [HddBackend] keeps the laws of the trait. *)
#[export] Instance hdd_laws : @CacheBackendLaws Hdd (hdd_backend h).
Proof using json_law.
  refine {| stored := hdd_stored; writable := hdd_writable; healthy := no_failures |}.
  - unfold hdd_writable. intros n b. intuition lia.
  - exact hdd_write_law.
  - intros id b b' r _ (Hs & Hok & Hno)%hdd_read_run.
    split; [intros; by apply same_files_stored|].
    split; [intros; by eapply same_files_writable|]. done.
  - intros id b b' r Hid (Hn & Hr)%hdd_delete_run. destruct r as [[]|err].
    + destruct Hr as [Honly Hsub]. split; [|intros; by apply only_stored with (id := id)].
      unfold hdd_writable. rewrite Hn. intros n (? & ? & Hfresh). split_and!; [done..|].
      intros id' Hu Hle. specialize (Hfresh id' Hu Hle). specialize (Hsub (meta_path id')).
      rewrite Hfresh in Hsub. apply eq_None_not_Some. intros Hp. by destruct (Hsub Hp).
    + split; [intros; by eapply same_files_writable|intros; by apply same_files_stored].
  - intros b b' r [Hs Hl]%hdd_list_all_spec. split; [intros; by apply same_files_stored|].
    split; [intros; by eapply same_files_writable|]. done.
  - intros b b' r [Hs Hl]%hdd_available_spec. split; [intros; by apply same_files_stored|].
    split; [intros; by eapply same_files_writable|]. done.
Defined.

Lemma fs_read_healthy path b : no_failures b → no_failures (fs_read path b).1.
Proof using.
  intros Hb. destruct (fs_read path b) as [b' r] eqn:Hr. by apply fs_read_spec in Hr as (_ & _ & []).
Qed.
Lemma fs_remove_healthy path b :
  no_failures b →
  no_failures (fs_remove_file path b).1 ∧ files (fs_remove_file path b).1 !! path = None.
Proof using.
  intros Hb. unfold fs_remove_file. destruct (next_io_spec b) as (b1 & o & Hio & _ & Hno).
  destruct (Hno Hb) as [-> Hb1]. unfold_action. rewrite Hio.
  destruct (files b1 !! path) eqn:Hp; (split; [done|]); simpl; [by rewrite lookup_delete_eq|done].
Qed.
#[export] Instance hdd_works : @CacheBackendWorks Hdd (hdd_backend h) hdd_laws.
Proof using.
  split; intros id b Hb.
  - change (no_failures (hdd_read id b).1). unfold hdd_read. unfold_action.
    destruct (hdd_read_xattrs id b) as [b1 r1] eqn:Hx.
    apply hdd_read_xattrs_spec in Hx as (_ & _ & Hno). destruct (Hno Hb) as [Hb1 _].
    destruct r1; [by apply fs_read_healthy|done].
  - intros [[x data] Hst].
    change (∃ b', hdd_delete id b = (b', Ok tt) ∧ no_failures b' ∧ hdd_stored b' id = None).
    unfold hdd_delete, discard. unfold_action. destruct (hdd_read_xattrs id b) as [b1 r1] eqn:Hx.
    apply hdd_read_xattrs_spec in Hx as (_ & _ & Hno). destruct (Hno Hb) as [Hb1 Hok].
    rewrite (Hok _ _ Hst). eexists. split; [done|].
    apply (fs_remove_healthy (data_path id (CacheXattrs.category x))) in Hb1 as [Hb2 _].
    apply (fs_remove_healthy (meta_path id)) in Hb2 as [Hb3 Hgone].
    split; [done|]. unfold hdd_stored. by rewrite Hgone.
Qed.
End hdd_laws.

(** ** Starting on an existing directory *)

Lemma substring_app_l t s : String.substring 0 (String.length t) (t +:+ s) = t.
Proof. induction t as [|a t IH]; simpl; [by destruct s|]. by rewrite IH. Qed.
Lemma substring_app_r t s : String.substring (String.length t) (String.length s) (t +:+ s) = s.
Proof.
  induction t as [|a t IH]; simpl; [|done].
  induction s as [|b s IH]; simpl; [done|]. f_equal. exact IH.
Qed.

Lemma strip_suffix_app t s : strip_suffix s (t +:+ s) = Some t.
Proof.
  unfold strip_suffix. rewrite string_length_app.
  replace (String.length t + String.length s - String.length s)%nat with (String.length t) by lia.
  rewrite substring_app_l, substring_app_r, bool_decide_eq_true_2 by done.
  by rewrite (proj2 (Nat.leb_le _ _)) by lia.
Qed.

Lemma meta_name_id_spec id : is_u64 id → meta_name_id (meta_path id).2 = Some id.
Proof.
  intros Hid. unfold meta_name_id, meta_path. cbn [snd]. rewrite strip_suffix_app. simpl.
  by apply parse_u64_to_string.
Qed.

Lemma elem_of_dir_names h dir b name :
  name ∈ dir_names h dir b ↔ is_Some (files b !! (dir, name)).
Proof.
  unfold dir_names. rewrite list_elem_of_fmap. split.
  - intros ([d n] & -> & [Hin Hd]%elem_of_Lfilter). simpl in Hd.
    apply bool_decide_eq_true in Hd as ->. by apply elem_of_hm_keys in Hin.
  - intros Hs. exists (dir, name). split; [done|]. apply elem_of_Lfilter.
    split; [by apply elem_of_hm_keys|by apply bool_decide_eq_true].
Qed.

Lemma discover_loop_spec names m b b' r :
  discover_loop names m b = (b', r) →
  same_files b b' ∧
  ∀ next, r = Ok next → ∃ max_id, next = wrap64 (max_id + 1) ∧ (m ≤ max_id)%Z ∧
    (∀ name id, name ∈ names → meta_name_id name = Some id → (id ≤ max_id)%Z) ∧
    (is_u64 m → is_u64 max_id).
Proof.
  revert m b. induction names as [|n names IH]; intros m b; simpl; unfold_action;
    (destruct (next_entry b) as [b1 r1] eqn:He; apply next_entry_spec in He;
     destruct r1 as [[]|err]; [|by intros [= <- <-]]).
  - intros [= <- <-]. split; [done|]. intros next [= <-]. exists m. split_and!; [done..| |done].
    by intros name id ?%elem_of_nil.
  - intros [Hs Hr]%IH. split; [by transitivity b1|]. intros next Hn.
    destruct (Hr next Hn) as (M & -> & Hm & Hall & Hu). exists M.
    destruct (meta_name_id n) as [i|] eqn:Hi.
    + split_and!; [done|lia| |].
      * intros name id [->|Hin]%elem_of_cons Hid; [|by eapply Hall]. simplify_eq. lia.
      * intros Hm'. apply Hu. unfold meta_name_id in Hi.
        apply bind_Some in Hi as (s & _ & Hi%parse_u64_range). unfold is_u64 in *. lia.
    + split_and!; [done|lia| |done]. intros name id [->|Hin]%elem_of_cons Hid; [congruence|].
      by eapply Hall.
Qed.

(** A backend opened on a directory gives out unused identifiers, for as many
    writes as are left below the largest [u64]. *)
Lemma hdd_new_writable h max_size_gb b b' n :
  hdd_new h max_size_gb b = (b', Ok tt) → next_id b' ≠ 0%Z →
  (next_id b' + Z.of_nat n ≤ u64_MAX)%Z → files b' = files b ∧ hdd_writable n b'.
Proof.
  unfold hdd_new, discover_next_id. unfold_action.
  destruct (next_entry b) as [b1 [[]|]] eqn:H1; [|done].
  destruct (next_entry b1) as [b2 [[]|]] eqn:H2; [|done].
  destruct (next_entry b2) as [b3 [[]|]] eqn:H3; [|done].
  destruct (next_entry b3) as [b4 [[]|]] eqn:H4; [|done].
  apply next_entry_spec in H1 as (F1 & _), H2 as (F2 & _), H3 as (F3 & _), H4 as (F4 & _).
  destruct (discover_loop _ 0 b4) as [b5 [id|]] eqn:H5; [|done].
  apply discover_loop_spec in H5 as ((F5 & _) & Hid). intros [= <-]. simpl.
  destruct (Hid id eq_refl) as (M & -> & HM & Hall & HuM).
  assert (is_u64 M) by (apply HuM; done). intros Hne Hroom.
  assert (wrap64 (M + 1) = M + 1)%Z as E.
  { apply wrap64_small. unfold is_u64 in *. destruct (decide (M = u64_MAX)); [by subst|lia]. }
  rewrite E in *. split; [congruence|]. unfold hdd_writable; simpl.
  split_and!; [lia..|]. intros i Hi Hle. rewrite F5. apply eq_None_not_Some. intros Hs.
  assert (i ≤ M)%Z; [|lia]. eapply Hall; [|by apply meta_name_id_spec].
  apply elem_of_dir_names. exact Hs.
Qed.
