(* ===== verification/Cache.v ===== *)
(** * The cache worker

    [src/crates/cache/src/service.rs]: the index of cached objects, the
    capacity budgets and the eviction that keeps them, and the handlers of
    the service, against any [CacheBackend]. A handler runs to completion
    before the next one starts; clones of the service share the state. *)

From Stdlib Require Import ZArith Lia String Ascii.
From S2P Require Import Prelude Hoare Proto RustStr F64 CacheBackend.

Local Open Scope string_scope.
Local Open Scope list_scope.
Local Open Scope stdpp_scope.

Definition STREAM_CHUNK_SIZE : Z := 64 * 1024.

(** ** Messages ([cache.proto]) *)

Module PutStagingMeta.
Record t := mk {
  bucket : string;
  key : string;
  version_id : option string;
  size : Z;
  checksum : option string;
  content_type : option string;
  etag : option string;
}.
End PutStagingMeta.

Module PutRestoredMeta.
Record t := mk {
  bucket : string;
  key : string;
  version_id : option string;
  size : Z;
  checksum : option string;
  content_type : option string;
  etag : option string;
  expire_at : option Timestamp.t;
}.
End PutRestoredMeta.

(** The payload of a chunk: the [oneof] of the streamed requests and responses *)
Inductive Payload (M : Type) := Meta (meta : M) | Data (data : list Z).
Arguments Meta {M} meta.
Arguments Data {M} data.

Module CachedObjectMeta.
Record t := mk {
  size : Z;
  expire_at : option Timestamp.t;
  content_type : option string;
  etag : option string;
  checksum : option string;
}.
End CachedObjectMeta.

Module StagingObjectMeta.
Record t := mk {
  bucket : string;
  key : string;
  version_id : option string;
  size : Z;
  checksum : option string;
  content_type : option string;
  etag : option string;
  staged_at : option Timestamp.t;
}.
End StagingObjectMeta.

Module StagingKeyEntry.
Record t := mk {
  bucket : string;
  key : string;
  version_id : option string;
  size : Z;
  staged_at : option Timestamp.t;
}.
End StagingKeyEntry.

Module CacheStats.
Record t := mk {
  total_capacity : Z;
  used_capacity : Z;
  object_count : Z;
  staging_count : Z;
  staging_bytes : Z;
  restored_count : Z;
  restored_bytes : Z;
  hit_count : Z;
  miss_count : Z;
  evict_count : Z;
  evict_bytes : Z;
}.
End CacheStats.

(** ** Keys and the index *)

Module CacheKey.
Record t := new {
  bucket : string;
  key : string;
  version_id : option string;
}.
#[global] Instance t_eq_dec : EqDecision t.
Proof. solve_decision. Defined.
#[global] Instance t_countable : Countable t.
Proof.
  refine (inj_countable' (λ k, (bucket k, key k, version_id k)) (λ '(b, k, v), new b k v) _).
  by intros [].
Defined.

Definition NUL : string := String "000"%char EmptyString.
Definition as_cursor (k : t) : string :=
  bucket k +:+ NUL +:+ key k +:+ NUL +:+ default EmptyString (version_id k).
End CacheKey.

Module StoredEntry.
Record t := mk {
  storage_id : Z;
  xattrs : CacheXattrs.t;
}.
#[global] Instance t_eq_dec : EqDecision t.
Proof. solve_decision. Defined.

Definition size (e : t) : Z := e.(xattrs).(CacheXattrs.size).
End StoredEntry.

Abbreviation entry_map := (gmap CacheKey.t StoredEntry.t).

Record CacheIndex := mkIndex {
  staging : entry_map;
  restored : entry_map;
  used_capacity : Z;
  hit_count : Z;
  miss_count : Z;
  evict_count : Z;
  evict_bytes : Z;
}.

(** [CacheIndex::default()] *)
Definition default_index : CacheIndex := mkIndex ∅ ∅ 0 0 0 0 0.

(** The [match category] of the methods: the map of a category *)
Definition entries (cat : CacheCategory) (index : CacheIndex) : entry_map :=
  match cat with Staging => staging index | Restored => restored index end.
Definition set_entries (cat : CacheCategory) (m : entry_map) (index : CacheIndex) : CacheIndex :=
  match cat with
  | Staging => mkIndex m (restored index) (used_capacity index) (hit_count index)
      (miss_count index) (evict_count index) (evict_bytes index)
  | Restored => mkIndex (staging index) m (used_capacity index) (hit_count index)
      (miss_count index) (evict_count index) (evict_bytes index)
  end.

Section index.
Context (h : hash_order).

Definition sizes (m : entry_map) : list Z := StoredEntry.size <$> hm_values h m.

Definition recompute_used_capacity (index : CacheIndex) : CacheIndex :=
  mkIndex (staging index) (restored index)
    (u64_sum (sizes (staging index) ++ sizes (restored index)))
    (hit_count index) (miss_count index) (evict_count index) (evict_bytes index).
Definition staging_used (index : CacheIndex) : Z := u64_sum (sizes (staging index)).
Definition restored_used (index : CacheIndex) : Z := u64_sum (sizes (restored index)).
End index.

(** [index.evict_count += 1; index.evict_bytes += size] *)
Definition count_eviction (size : Z) (index : CacheIndex) : CacheIndex :=
  mkIndex (staging index) (restored index) (used_capacity index) (hit_count index)
    (miss_count index) (wrap64 (evict_count index + 1)) (wrap64 (evict_bytes index + size)).

(** ** Rejections *)

Inductive CapacityRejectReason :=
| ZeroCapacity
| IncomingLargerThanCapacity
| NoEvictionCandidate
| StagingBudgetExceeded
| RestoredBudgetExceeded
| GlobalCapacityExceeded
| LowWatermarkExceeded.

(** [CapacityRejectReason::code] *)
Definition reason_code (r : CapacityRejectReason) : string :=
  match r with
  | ZeroCapacity => "zero_capacity"
  | IncomingLargerThanCapacity => "incoming_larger_than_capacity"
  | NoEvictionCandidate => "no_eviction_candidate"
  | StagingBudgetExceeded => "staging_budget_exceeded"
  | RestoredBudgetExceeded => "restored_budget_exceeded"
  | GlobalCapacityExceeded => "global_capacity_exceeded"
  | LowWatermarkExceeded => "low_watermark_exceeded"
  end.

Definition capacity_reject_error (reason : CapacityRejectReason) (detail : string) : string :=
  "capacity_reject:" +:+ reason_code reason +:+ ": " +:+ detail.

(** ** Configuration *)

Inductive EvictionPolicy := Lru | Lfu.

(** [EvictionPolicy::from_config] *)
Definition policy_from_config (value : string) : EvictionPolicy :=
  if to_lowercase value == "lfu" then Lfu else Lru.

Inductive CacheBackendConfig :=
| HddConfig (path : string) (max_size_gb : Z)
| SpdkConfig (config_file bdev_name : string) (max_size_gb cluster_size_mb : Z).

Module CacheConfig.
Record t := mk {
  listen : string;
  metadata_addrs : list string;
  backend : CacheBackendConfig;
  default_ttl_secs : Z;
  eviction_policy : string;
  eviction_batch_size : Z;
  eviction_low_watermark : f64;
  staging_capacity_ratio : f64;
  restored_capacity_ratio : f64;
}.

(** [CacheConfig::default()] *)
Definition default_config : t :=
  mk "0.0.0.0:23001" ["127.0.0.1:21001"] (HddConfig "/var/lib/coldstore/cache" 100)
    86400 "Lru" 64 f64_0_8 f64_0_35 f64_0_65.
End CacheConfig.

Definition backend_capacity_bytes (config : CacheBackendConfig) : Z :=
  match config with
  | HddConfig _ max_size_gb => saturating_mul max_size_gb (1024 * 1024 * 1024)
  | SpdkConfig _ _ max_size_gb _ => saturating_mul max_size_gb (1024 * 1024 * 1024)
  end.

Definition normalize_watermark (watermark : f64) : f64 :=
  if is_nan watermark || negb (is_finite watermark) then f64_0_8
  else clamp watermark f64_zero f64_one.

Definition normalize_cache_ratio (ratio : f64) : f64 :=
  if is_nan ratio || negb (is_finite ratio) then f64_zero
  else clamp ratio f64_zero f64_one.

Definition split_cache_capacity (total_bytes : Z) (staging_ratio restored_ratio : f64) : Z * Z :=
  let staging := normalize_cache_ratio staging_ratio in
  let restored := normalize_cache_ratio restored_ratio in
  let normalized_total := f64_add staging restored in
  if f64_eqb normalized_total f64_zero then (0%Z, total_bytes) else
  let staging_bytes := f64_as_u64 (f64_floor
    (f64_mul (u64_as_f64 total_bytes) (f64_div staging normalized_total))) in
  (staging_bytes, saturating_sub total_bytes staging_bytes).

(** The fields of [CacheServiceImpl] that do not change *)
Record Settings := mkSettings {
  cs_max_size_bytes : Z;
  cs_eviction_policy : EvictionPolicy;
  cs_eviction_batch_size : Z;
  cs_eviction_low_watermark : f64;
  cs_staging_capacity_bytes : Z;
  cs_restored_capacity_bytes : Z;
}.

(** The settings [CacheServiceImpl::new] takes from its configuration *)
Definition settings_of (config : CacheConfig.t) : Settings :=
  let max_size_bytes := backend_capacity_bytes config.(CacheConfig.backend) in
  let '(staging_capacity_bytes, restored_capacity_bytes) :=
    split_cache_capacity max_size_bytes config.(CacheConfig.staging_capacity_ratio)
      config.(CacheConfig.restored_capacity_ratio) in
  mkSettings max_size_bytes (policy_from_config config.(CacheConfig.eviction_policy))
    (Z.max config.(CacheConfig.eviction_batch_size) 1)
    (normalize_watermark config.(CacheConfig.eviction_low_watermark))
    staging_capacity_bytes restored_capacity_bytes.

(** ** Budgets *)

Record CapacityPressure := mkPressure {
  staging_after : Z;
  restored_after : Z;
  used_after : Z;
  staging_budget : Z;
  restored_budget : Z;
  low_watermark_target : option Z;
  total_capacity : Z;
}.

Definition split_capacity_by_static_ratio (svc : Settings) (total_capacity : Z) : Z * Z :=
  let configured_budget_total :=
    saturating_add (cs_staging_capacity_bytes svc) (cs_restored_capacity_bytes svc) in
  if (configured_budget_total =? 0)%Z then (0%Z, total_capacity) else
  let staging_budget :=
    (saturating_mul total_capacity (cs_staging_capacity_bytes svc)
     `div` configured_budget_total)%Z in
  (staging_budget, saturating_sub total_capacity staging_budget).

Definition effective_low_watermark_used (svc : Settings) (total_bytes : Z) : option Z :=
  let watermark := clamp (cs_eviction_low_watermark svc) f64_zero f64_one in
  if negb (is_finite watermark) || f64_leb watermark f64_zero then None
  else Some (f64_as_u64 (f64_mul (u64_as_f64 total_bytes) watermark)).

Definition over_watermark (p : CapacityPressure) : bool :=
  match low_watermark_target p with
  | Some target => (target <? used_after p)%Z
  | None => false
  end.

Definition should_evict (p : CapacityPressure) : bool :=
  (staging_budget p <? staging_after p)%Z || (restored_budget p <? restored_after p)%Z
  || over_watermark p || (total_capacity p <? used_after p)%Z.

Definition choose_victim_category (p : CapacityPressure) (index : CacheIndex)
    : option CacheCategory :=
  if (staging_budget p <? staging_after p)%Z then None else
  if (restored index != ∅) &&
     ((restored_budget p <? restored_after p)%Z || over_watermark p
      || (total_capacity p <? used_after p)%Z)
  then Some Restored else None.

(** The keys of [min_by_key], compared as tuples *)
Definition lfu_cmp : CacheKey.t * StoredEntry.t → CacheKey.t * StoredEntry.t → comparison :=
  let x f := cmp_on (λ p : CacheKey.t * StoredEntry.t, f p.2.(StoredEntry.xattrs)) Z.compare in
  cmp_then (x CacheXattrs.access_count) (cmp_then (x CacheXattrs.last_access_at)
    (cmp_then (x CacheXattrs.cached_at) (cmp_then (x CacheXattrs.size)
      (cmp_on (λ p, CacheKey.as_cursor p.1) String.compare)))).
Definition lru_cmp : CacheKey.t * StoredEntry.t → CacheKey.t * StoredEntry.t → comparison :=
  let x f := cmp_on (λ p : CacheKey.t * StoredEntry.t, f p.2.(StoredEntry.xattrs)) Z.compare in
  cmp_then (x CacheXattrs.last_access_at) (cmp_then (x CacheXattrs.cached_at)
    (cmp_then (x CacheXattrs.size) (cmp_then (x CacheXattrs.access_count)
      (cmp_on (λ p, p.2.(StoredEntry.xattrs).(CacheXattrs.key)) String.compare)))).
Definition policy_cmp (policy : EvictionPolicy) :=
  match policy with Lfu => lfu_cmp | Lru => lru_cmp end.

Definition select_eviction_candidate (h : hash_order) (svc : Settings) (index : CacheIndex)
    (category : CacheCategory) : option (CacheKey.t * StoredEntry.t) :=
  match category with
  | Staging => None
  | Restored => min_by (policy_cmp (cs_eviction_policy svc)) (hm_iter h (restored index))
  end.

Definition is_expired_at (expire_at now : Z) : bool :=
  ((0 <? expire_at) && (expire_at <=? now))%Z.

Definition timestamp_from_unix (seconds : Z) : Timestamp.t := Timestamp.mk seconds 0.

Definition internal_status (err : string) : Status := internal err.

Definition map_capacity_error (err : string) : Status :=
  let message_lc := to_lowercase err in
  if existsb (λ needle, str_contains needle message_lc)
       ["capacity"; "not enough"; "not enough staging"; "not enough restored"; "exceeds";
        "no available"; "insufficient"]
  then resource_exhausted err else internal_status err.

(** [(a, b) > (c, d)] on the times and identifiers of two entries *)
Definition rebuilt_entry_should_replace (current candidate : StoredEntry.t) : bool :=
  let rank e := (e.(StoredEntry.xattrs).(CacheXattrs.cached_at), e.(StoredEntry.storage_id)) in
  ((rank current).1 <? (rank candidate).1)%Z
  || ((rank current).1 =? (rank candidate).1)%Z && ((rank current).2 <? (rank candidate).2)%Z.

(** [data.chunks(n)]; the chunks left are at most the elements left *)
Fixpoint chunks_loop {A} (fuel n : nat) (l : list A) : list (list A) :=
  match fuel, l with
  | S fuel, _ :: _ => take n l :: chunks_loop fuel n (drop n l)
  | _, _ => []
  end.
Definition chunks {A} (n : Z) (l : list A) : list (list A) :=
  chunks_loop (length l) (Z.to_nat n) l.

(** ** The service *)

(** The state the clones of the service share: the index, the backend, and how
    often the clock has been read *)
Record CacheState (B : Type) := mkCache {
  index : CacheIndex;
  backend : B;
  ticks : nat;
}.
Arguments mkCache {B}.
Arguments index {B}.
Arguments backend {B}.
Arguments ticks {B}.

Definition key_of (x : CacheXattrs.t) : CacheKey.t :=
  CacheKey.new x.(CacheXattrs.bucket) x.(CacheXattrs.key) x.(CacheXattrs.version_id).

Section service.
Context {B : Type} `{CacheBackend B}.
(** The iteration order of the hash maps, the readings of [now_unix] in the
    order they are taken, and the configuration *)
Context (h : hash_order) (clock : nat → Z) (svc : Settings).

Abbreviation cache := (action (CacheState B) string).
Abbreviation handler := (action (CacheState B) Status).

Definition now_unix {E} : action (CacheState B) E Z := λ s,
  (mkCache (index s) (backend s) (S (ticks s)), Ok (clock (ticks s))).

Definition get_index {E} : action (CacheState B) E CacheIndex := reads (λ s, Ok (index s)).
Definition modify_index {E} (f : CacheIndex → CacheIndex) : action (CacheState B) E unit :=
  modify (λ s, mkCache (f (index s)) (backend s) (ticks s)).
Definition on_backend {A} (m : action B string A) : cache A := λ s,
  let '(b, r) := m (backend s) in (mkCache (index s) b (ticks s), r).
(** [m.map_err(f)] *)
Definition map_err_of {E F A} (f : E → F) (m : action (CacheState B) E A)
    : action (CacheState B) F A := λ s, let '(s, r) := m s in (s, map_err f r).

(** [is_expired] *)
Definition is_expired {E} (expire_at : Z) : action (CacheState B) E bool :=
  if (0 <? expire_at)%Z then now ← now_unix; mret (expire_at <=? now)%Z else mret false.

Definition find_entry {E} (key : CacheKey.t) (category : CacheCategory)
    : action (CacheState B) E (option StoredEntry.t) :=
  index ← get_index; mret (entries category index !! key).

Definition insert_entry {E} (key : CacheKey.t) (entry : StoredEntry.t)
    : action (CacheState B) E (option StoredEntry.t) :=
  index ← get_index;
  let category := entry.(StoredEntry.xattrs).(CacheXattrs.category) in
  let previous := entries category index !! key in
  modify_index (λ index, recompute_used_capacity h
    (set_entries category (<[key := entry]> (entries category index)) index));;
  mret previous.

Definition update_hit_state {E} (hit : bool) : action (CacheState B) E unit :=
  modify_index (λ i,
    if hit
    then mkIndex (staging i) (restored i) (used_capacity i) (wrap64 (hit_count i + 1))
           (miss_count i) (evict_count i) (evict_bytes i)
    else mkIndex (staging i) (restored i) (used_capacity i) (hit_count i)
           (wrap64 (miss_count i + 1)) (evict_count i) (evict_bytes i)).

Definition touch (now : Z) (e : StoredEntry.t) : StoredEntry.t :=
  StoredEntry.mk e.(StoredEntry.storage_id)
    (CacheXattrs.set_access now
       (wrap64 (e.(StoredEntry.xattrs).(CacheXattrs.access_count) + 1)) e.(StoredEntry.xattrs)).

Definition touch_entry {E} (key : CacheKey.t) (category : CacheCategory)
    : action (CacheState B) E unit :=
  now ← now_unix;
  modify_index (λ index,
    match entries category index !! key with
    | Some entry => set_entries category (<[key := touch now entry]> (entries category index)) index
    | None => index
    end).

Definition delete_entry (key : CacheKey.t) (category : CacheCategory) : cache bool :=
  index ← get_index;
  match entries category index !! key with
  | None => mret false
  | Some entry =>
      let storage_id := entry.(StoredEntry.storage_id) in
      on_backend (be_delete storage_id);;
      index ← get_index;
      match entries category index !! key with
      | Some entry =>
          if (entry.(StoredEntry.storage_id) =? storage_id)%Z then
            modify_index (λ index, recompute_used_capacity h
              (set_entries category (delete key (entries category index)) index));;
            mret true
          else mret false
      | None => mret false
      end
  end.

Definition reclaim_expired_restored_except (skip : option CacheKey.t) : cache unit :=
  now ← now_unix;
  index ← get_index;
  let expired :=
    List.filter (λ p : CacheKey.t * StoredEntry.t,
        is_expired_at p.2.(StoredEntry.xattrs).(CacheXattrs.expire_at) now)
      (List.filter (λ p, skip != Some p.1) (hm_iter h (restored index))) in
  foldr (λ p rest, discard (delete_entry p.1 Restored);; rest) (mret tt) expired.

Definition effective_total_capacity : cache Z :=
  index ← get_index;
  available_bytes ← on_backend be_available_bytes;
  mret (Z.min (saturating_add (used_capacity index) available_bytes) (cs_max_size_bytes svc)).

Definition ensure_object_size_within_total_capacity (object_size : Z) : cache unit :=
  total_capacity ← effective_total_capacity;
  reject_if (total_capacity =? 0)%Z
    (capacity_reject_error ZeroCapacity "cache capacity is zero");;
  reject_if (total_capacity <? object_size)%Z
    (capacity_reject_error IncomingLargerThanCapacity "incoming object exceeds cache capacity").

(** The [CapacityPressure] of an incoming object, as it is computed before
    each eviction and after the last *)
Definition pressure_of (incoming_size : Z) (category : CacheCategory)
    (total_capacity : Z) (index : CacheIndex) : CapacityPressure :=
  let '(staging_budget, restored_budget) := split_capacity_by_static_ratio svc total_capacity in
  mkPressure
    (saturating_add (staging_used h index) (if category == Staging then incoming_size else 0%Z))
    (saturating_add (restored_used h index) (if category == Restored then incoming_size else 0%Z))
    (saturating_add (used_capacity index) incoming_size)
    staging_budget restored_budget
    (effective_low_watermark_used svc total_capacity) total_capacity.

(** Evicting one victim: out of the index first, put back if the backend
    cannot delete it. [false]: it was gone ([continue]). *)
Definition evict_victim (category : CacheCategory) (victim : CacheKey.t * StoredEntry.t)
    : cache bool :=
  index ← get_index;
  let exists_ :=
    match entries category index !! victim.1 with
    | Some entry => (entry.(StoredEntry.storage_id) =? victim.2.(StoredEntry.storage_id))%Z
    | None => false
    end in
  if negb exists_ then mret false else
  modify_index (λ index, recompute_used_capacity h
    (count_eviction (StoredEntry.size victim.2)
      (set_entries category (delete victim.1 (entries category index)) index)));;
  deleted ← (λ s, let '(s, r) := on_backend (be_delete victim.2.(StoredEntry.storage_id)) s in
             (s, Ok r));
  match deleted : result string unit with
  | Ok _ => mret true
  | Err err =>
      modify_index (λ index, recompute_used_capacity h
        (set_entries category (<[victim.1 := victim.2]> (entries category index)) index));;
      throw err
  end.

(** The loop of [evict_if_needed], [n] rounds left. [true]: there is room
    ([return Ok(())]); [false]: out of rounds or of victims. *)
Fixpoint evict_loop (n : nat) (incoming_size : Z) (category : CacheCategory)
    (total_capacity : Z) : cache bool :=
  match n with
  | O => mret false
  | S n =>
      index ← get_index;
      let pressure := pressure_of incoming_size category total_capacity index in
      if negb (should_evict pressure) then mret true else
      match choose_victim_category pressure index with
      | None => mret false
      | Some victim_category =>
          victim ← lift (ok_or (capacity_reject_error NoEvictionCandidate
              "no restored cache victim is available for eviction")
            (select_eviction_candidate h svc index victim_category));
          _ ← evict_victim victim_category victim;
          evict_loop n incoming_size category total_capacity
      end
  end.

Definition evict_batch_size : Z := Z.max (cs_eviction_batch_size svc) 1.

(** The end of [evict_if_needed], out of rounds or of victims: why there is
    still no room *)
Definition check_room (incoming_size : Z) (category : CacheCategory) (total : Z) : cache unit :=
  index ← get_index;
  let pressure := pressure_of incoming_size category total index in
  if negb (should_evict pressure) then mret tt else
  if (staging_budget pressure <? staging_after pressure)%Z
  then throw (capacity_reject_error StagingBudgetExceeded
    "not enough staging cache budget for write path; cannot fit after eviction") else
  if (restored_budget pressure <? restored_after pressure)%Z
  then throw (capacity_reject_error RestoredBudgetExceeded
    "not enough restored cache budget for write path; cannot fit after eviction") else
  if (total_capacity pressure <? used_after pressure)%Z
  then throw (capacity_reject_error GlobalCapacityExceeded
    "not enough global cache capacity") else
  if over_watermark pressure
  then throw (capacity_reject_error LowWatermarkExceeded
    "not enough cache capacity to satisfy low-watermark") else
  mret tt.

Definition evict_if_needed (incoming_size : Z) (category : CacheCategory) : cache unit :=
  if (incoming_size =? 0)%Z then mret tt else
  total ← effective_total_capacity;
  reject_if (total =? 0)%Z
    (capacity_reject_error ZeroCapacity "cache capacity is zero");;
  reject_if (total <? incoming_size)%Z
    (capacity_reject_error IncomingLargerThanCapacity "incoming object exceeds cache capacity");;
  done ← evict_loop (Z.to_nat evict_batch_size) incoming_size category total;
  if (done : bool) then mret tt else
  check_room incoming_size category total.

Definition put_bytes (key : CacheKey.t) (data : list Z) (xattrs : CacheXattrs.t) : cache Z :=
  ensure_object_size_within_total_capacity xattrs.(CacheXattrs.size);;
  existing ← find_entry key xattrs.(CacheXattrs.category);
  let capacity_delta := saturating_sub xattrs.(CacheXattrs.size)
    (default 0%Z (StoredEntry.size <$> existing)) in
  let reclaim_skip := if xattrs.(CacheXattrs.category) == Restored then Some key else None in
  reclaim_expired_restored_except reclaim_skip;;
  evict_if_needed capacity_delta xattrs.(CacheXattrs.category);;
  storage_id ← on_backend (be_write (CacheKey.as_cursor key) data xattrs);
  previous ← insert_entry key (StoredEntry.mk storage_id xattrs);
  match previous with
  | Some previous =>
      if (previous.(StoredEntry.storage_id) =? storage_id)%Z then mret tt
      else discard (on_backend (be_delete previous.(StoredEntry.storage_id)))
  | None => mret tt
  end;;
  mret storage_id.

Definition read_restored (key : CacheKey.t) : handler StoredEntry.t :=
  found ← find_entry key Restored;
  match found with
  | None => update_hit_state false;; throw (not_found "restored object not found in cache")
  | Some entry =>
      expired ← is_expired entry.(StoredEntry.xattrs).(CacheXattrs.expire_at);
      if (expired : bool) then
        map_err_of internal_status (discard (delete_entry key Restored));;
        update_hit_state false;;
        throw (not_found "restored object has expired")
      else
        touch_entry key Restored;;
        update_hit_state true;;
        mret entry
  end.

(** The loop of [rebuild_index]: the index so far and the identifiers of the
    duplicates that lost *)
Definition rebuild_step (acc : CacheIndex * list Z) (p : Z * CacheXattrs.t)
    : CacheIndex * list Z :=
  let '(index, stale) := acc in
  let '(storage_id, xattrs) := p in
  let key := key_of xattrs in
  let entry := StoredEntry.mk storage_id xattrs in
  let category := xattrs.(CacheXattrs.category) in
  match entries category index !! key with
  | Some current =>
      if negb (rebuilt_entry_should_replace current entry)
      then (index, stale ++ [storage_id])
      else (set_entries category (<[key := entry]> (entries category index)) index,
            stale ++ [current.(StoredEntry.storage_id)])
  | None => (set_entries category (<[key := entry]> (entries category index)) index, stale)
  end.

Definition rebuild_index : cache unit :=
  all ← on_backend be_list_all;
  let '(index, stale_storage_ids) := foldl rebuild_step (default_index, []) all in
  modify_index (λ _, recompute_used_capacity h index);;
  foldr (λ id rest, discard (on_backend (be_delete id));; rest) (mret tt) stale_storage_ids.
(** [CacheServiceImpl::new], once the backend is open *)
Definition cache_new (b : B) : CacheState B * result string unit :=
  rebuild_index (mkCache default_index b 0).

(** *** Handlers *)

(** The loop over a stream of chunks: the last metadata and all the data *)
Fixpoint collect_stream {M} (empty_chunk : string)
    (stream : list (result Status (option (Payload M)))) (meta : option M) (data : list Z)
    : result Status (option M * list Z) :=
  match stream with
  | [] => Ok (meta, data)
  | message :: stream =>
      chunk ← message;
      match chunk with
      | Some (Meta m) => collect_stream empty_chunk stream (Some m) data
      | Some (Data bytes) => collect_stream empty_chunk stream meta (data ++ bytes)
      | None => Err (invalid_argument empty_chunk)
      end
  end.

Definition put_staging (stream : list (result Status (option (Payload PutStagingMeta.t))))
    : handler string :=
  '(meta, data) ← lift (collect_stream "empty put_staging chunk" stream None []);
  meta ← lift (ok_or (invalid_argument "missing staging metadata") meta);
  reject_if (meta.(PutStagingMeta.size) != Z.of_nat (length data))
    (invalid_argument "staging object size does not match payload");;
  let key := CacheKey.new meta.(PutStagingMeta.bucket) meta.(PutStagingMeta.key)
    meta.(PutStagingMeta.version_id) in
  cached_at ← now_unix;
  last_access_at ← now_unix;
  let xattrs := CacheXattrs.mk meta.(PutStagingMeta.bucket) meta.(PutStagingMeta.key)
    meta.(PutStagingMeta.version_id) meta.(PutStagingMeta.size) 0 cached_at last_access_at 0
    meta.(PutStagingMeta.checksum) meta.(PutStagingMeta.content_type)
    meta.(PutStagingMeta.etag) Staging in
  storage_id ← map_err_of map_capacity_error (put_bytes key data xattrs);
  mret (u64_to_string storage_id).

Definition put_restored (stream : list (result Status (option (Payload PutRestoredMeta.t))))
    : handler unit :=
  '(meta, data) ← lift (collect_stream "empty put_restored chunk" stream None []);
  meta ← lift (ok_or (invalid_argument "missing restored metadata") meta);
  reject_if (meta.(PutRestoredMeta.size) != Z.of_nat (length data))
    (invalid_argument "restored object size does not match payload");;
  expire_at ← lift (ok_or (invalid_argument "restored object missing expire_at")
    meta.(PutRestoredMeta.expire_at));
  let key := CacheKey.new meta.(PutRestoredMeta.bucket) meta.(PutRestoredMeta.key)
    meta.(PutRestoredMeta.version_id) in
  cached_at ← now_unix;
  last_access_at ← now_unix;
  let xattrs := CacheXattrs.mk meta.(PutRestoredMeta.bucket) meta.(PutRestoredMeta.key)
    meta.(PutRestoredMeta.version_id) meta.(PutRestoredMeta.size)
    expire_at.(Timestamp.seconds) cached_at last_access_at 0
    meta.(PutRestoredMeta.checksum) meta.(PutRestoredMeta.content_type)
    meta.(PutRestoredMeta.etag) Restored in
  _ ← map_err_of map_capacity_error (put_bytes key data xattrs);
  mret tt.

Definition delete_ (key : CacheKey.t) : handler unit :=
  _ ← map_err_of internal_status (delete_entry key Restored);
  mret tt.

(** The messages of [build_get_stream] *)
Definition build_get_stream (entry : StoredEntry.t)
    : handler (list (Payload CachedObjectMeta.t)) :=
  data ← map_err_of internal_status (on_backend (be_read entry.(StoredEntry.storage_id)));
  let x := entry.(StoredEntry.xattrs) in
  mret (Meta (CachedObjectMeta.mk x.(CacheXattrs.size)
          (Some (timestamp_from_unix x.(CacheXattrs.expire_at))) x.(CacheXattrs.content_type)
          x.(CacheXattrs.etag) x.(CacheXattrs.checksum))
        :: (Data <$> chunks STREAM_CHUNK_SIZE data)).

Definition get (key : CacheKey.t) : handler (list (Payload CachedObjectMeta.t)) :=
  entry ← read_restored key;
  build_get_stream entry.

Definition contains (key : CacheKey.t) : handler (bool * option Timestamp.t) :=
  found ← find_entry key Restored;
  match found with
  | Some entry =>
      let expire_at := entry.(StoredEntry.xattrs).(CacheXattrs.expire_at) in
      expired ← is_expired expire_at;
      if (expired : bool) then
        map_err_of internal_status (discard (delete_entry key Restored));;
        update_hit_state false;;
        mret (false, None)
      else
        update_hit_state true;;
        mret (true, Some (timestamp_from_unix expire_at))
  | None => update_hit_state false;; mret (false, None)
  end.

(** The messages of [build_staging_stream] *)
Definition build_staging_stream (entry : StoredEntry.t)
    : handler (list (Payload StagingObjectMeta.t)) :=
  data ← map_err_of internal_status (on_backend (be_read entry.(StoredEntry.storage_id)));
  let x := entry.(StoredEntry.xattrs) in
  mret (Meta (StagingObjectMeta.mk x.(CacheXattrs.bucket) x.(CacheXattrs.key)
          x.(CacheXattrs.version_id) x.(CacheXattrs.size) x.(CacheXattrs.checksum)
          x.(CacheXattrs.content_type) x.(CacheXattrs.etag)
          (Some (timestamp_from_unix x.(CacheXattrs.cached_at))))
        :: (Data <$> chunks STREAM_CHUNK_SIZE data)).

Definition get_staging (key : CacheKey.t) : handler (list (Payload StagingObjectMeta.t)) :=
  found ← find_entry key Staging;
  match found with
  | Some entry => build_staging_stream entry
  | None => throw (not_found "staging object not found")
  end.

(** With [limit = 0] the limit is [usize::MAX], which no list exceeds. *)
Definition list_staging_keys (limit : Z) (after : option string)
    : handler (list StagingKeyEntry.t * bool) :=
  let after := default EmptyString after in
  let limit := if (limit =? 0)%Z then usize_MAX else limit in
  index ← get_index;
  let found := sort_by (cmp_on (λ p, CacheKey.as_cursor p.1) String.compare)
    (List.filter (λ p : CacheKey.t * StoredEntry.t, str_gtb (CacheKey.as_cursor p.1) after)
      (hm_iter h (staging index))) in
  let has_more := (limit <? Z.of_nat (length found))%Z in
  mret ((λ '(key, entry),
          StagingKeyEntry.mk key.(CacheKey.bucket) key.(CacheKey.key) key.(CacheKey.version_id)
            (StoredEntry.size entry)
            (Some (timestamp_from_unix entry.(StoredEntry.xattrs).(CacheXattrs.cached_at))))
          <$> (if has_more then take (Z.to_nat limit) found else found), has_more).

Definition delete_staging (key : CacheKey.t) : handler unit :=
  _ ← map_err_of internal_status (delete_entry key Staging);
  mret tt.

Definition stats : handler CacheStats.t :=
  i ← get_index;
  let staging_bytes := u64_sum (sizes h (staging i)) in
  let restored_bytes := u64_sum (sizes h (restored i)) in
  let used_capacity := wrap64 (staging_bytes + restored_bytes) in
  available_capacity ← map_err_of internal_status (on_backend be_available_bytes);
  mret (CacheStats.mk
    (Z.min (saturating_add used_capacity available_capacity) (cs_max_size_bytes svc))
    used_capacity (Z.of_nat (size (staging i) + size (restored i)))
    (Z.of_nat (size (staging i))) staging_bytes (Z.of_nat (size (restored i))) restored_bytes
    (hit_count i) (miss_count i) (evict_count i) (evict_bytes i)).
End service.

(** ** Requests

    The calls a client can make, and a history of them. *)

Inductive Request :=
| RPutStaging (stream : list (result Status (option (Payload PutStagingMeta.t))))
| RPutRestored (stream : list (result Status (option (Payload PutRestoredMeta.t))))
| RDelete (key : CacheKey.t)
| RGet (key : CacheKey.t)
| RContains (key : CacheKey.t)
| RGetStaging (key : CacheKey.t)
| RListStagingKeys (limit : Z) (after : option string)
| RDeleteStaging (key : CacheKey.t)
| RStats.

Section history.
Context {B : Type} `{CacheBackend B} (h : hash_order) (clock : nat → Z) (svc : Settings).

(** The state a request leaves *)
Definition serve (s : CacheState B) (r : Request) : CacheState B :=
  match r with
  | RPutStaging stream => (put_staging h clock svc stream s).1
  | RPutRestored stream => (put_restored h clock svc stream s).1
  | RDelete key => (delete_ h key s).1
  | RGet key => (get h clock key s).1
  | RContains key => (contains h clock key s).1
  | RGetStaging key => (get_staging key s).1
  | RListStagingKeys limit after => (list_staging_keys h limit after s).1
  | RDeleteStaging key => (delete_staging h key s).1
  | RStats => (stats h svc s).1
  end.
Definition serve_all (s : CacheState B) (rs : list Request) : CacheState B := foldl serve s rs.
End history.
