(* ===== verification/CacheInvariants.v ===== *)
(** * Invariants of the cache worker

    The well-formedness of the index with respect to the backend, and the files
    a reader can tell: for each handler, how bounds from below and from above
    on the files before it become bounds on those after it. *)

From Stdlib Require Import ZArith Lia String.
From S2P Require Import Prelude Hoare Proto RustStr F64 CacheBackend Cache.

Local Open Scope string_scope.
Local Open Scope list_scope.
Local Open Scope stdpp_scope.

(** ** The index *)

Lemma entries_set_eq c m i : entries c (set_entries c m i) = m.
Proof. by destruct c. Qed.
Lemma entries_set_ne c c' m i : c' ≠ c → entries c' (set_entries c m i) = entries c' i.
Proof. by destruct c, c'. Qed.
Lemma entries_recompute h c i : entries c (recompute_used_capacity h i) = entries c i.
Proof. by destruct c. Qed.

(** The sizes of a map with one entry set apart *)
Lemma sizes_delete h (m : entry_map) k e :
  m !! k = Some e → sizes h m ≡ₚ StoredEntry.size e :: sizes h (delete k m).
Proof.
  intros Hk. unfold sizes. rewrite !hm_values_perm, <-(insert_id m k e) at 1 by done.
  rewrite <-insert_delete_eq, map_to_list_insert by apply lookup_delete_eq. done.
Qed.

Lemma sizes_insert_new h (m : entry_map) k e :
  m !! k = None → sizes h (<[k := e]> m) ≡ₚ StoredEntry.size e :: sizes h m.
Proof.
  intros Hk. unfold sizes. rewrite !hm_values_perm, map_to_list_insert by done. done.
Qed.

Lemma sizes_insert h (m : entry_map) k e :
  sizes h (<[k := e]> m) ≡ₚ StoredEntry.size e :: sizes h (delete k m).
Proof.
  rewrite <-insert_delete_eq. apply sizes_insert_new, lookup_delete_eq.
Qed.

Section wf.
Context {B : Type} `{CacheBackendLaws B}.
Context (h : hash_order).

(** The sum the counter of used bytes stands for *)
Definition used_of (i : CacheIndex) : Z :=
  u64_sum (sizes h (staging i) ++ sizes h (restored i)).

(** Each entry of the index is filed under the key and the category of its
    attributes, has an object in the backend, and shares it with no other
    entry; the counter of used bytes is the sum of the sizes. *)
Record cache_wf (i : CacheIndex) (b : B) : Prop := {
  wf_entry c k e : entries c i !! k = Some e →
    key_of e.(StoredEntry.xattrs) = k ∧ e.(StoredEntry.xattrs).(CacheXattrs.category) = c ∧
    is_u64 e.(StoredEntry.storage_id) ∧ is_Some (stored b e.(StoredEntry.storage_id));
  wf_ids c1 k1 e1 c2 k2 e2 :
    entries c1 i !! k1 = Some e1 → entries c2 i !! k2 = Some e2 →
    e1.(StoredEntry.storage_id) = e2.(StoredEntry.storage_id) → c1 = c2 ∧ k1 = k2;
  wf_used : used_capacity i = used_of i;
}.

Lemma default_wf b : cache_wf default_index b.
Proof using.
  split; [|by intros [] k1 e1 c2 k2 e2; simpl; rewrite lookup_empty|].
  - by intros [] k e; simpl; rewrite lookup_empty.
  - unfold used_of, sizes, hm_values. simpl.
    replace (hm_iter h (∅ : entry_map)) with (@nil (CacheKey.t * StoredEntry.t)); [done|].
    symmetry. apply Permutation_nil. by rewrite hm_iter_perm, map_to_list_empty.
Qed.

(** The backend can change under the index where the index has no entry. *)
Lemma wf_backend i b b' :
  cache_wf i b →
  (∀ c k e, entries c i !! k = Some e →
     stored b' e.(StoredEntry.storage_id) = stored b e.(StoredEntry.storage_id)) →
  cache_wf i b'.
Proof using.
  intros [He Hids Hu] Hb. split; [|done..]. intros c k e Hk.
  destruct (He _ _ _ Hk) as (?&?&?&?). by rewrite (Hb _ _ _ Hk).
Qed.

(** Removing an entry *)
Definition removal (c : CacheCategory) (k : CacheKey.t) (i i' : CacheIndex) : Prop :=
  entries c i' = delete k (entries c i) ∧ (∀ c', c' ≠ c → entries c' i' = entries c' i) ∧
  used_capacity i' = used_of i'.

Lemma removal_lookup c k i i' c' k' :
  removal c k i i' →
  entries c' i' !! k' = if decide (c' = c ∧ k' = k) then None else entries c' i !! k'.
Proof using.
  intros (Hd & Hne & _). destruct (decide (c' = c)) as [->|Hc].
  - rewrite Hd. destruct (decide (k' = k)) as [->|Hk].
    + by rewrite lookup_delete_eq, decide_True.
    + by rewrite lookup_delete_ne, decide_False by naive_solver.
  - by rewrite Hne, decide_False by naive_solver.
Qed.

Lemma wf_removal c k i i' b : cache_wf i b → removal c k i i' → cache_wf i' b.
Proof using.
  intros [He Hids Hu] Hr. pose proof Hr as (_ & _ & Hu'). split; [| |done].
  - intros c' k' e. rewrite (removal_lookup _ _ _ _ _ _ Hr). case_decide; [done|]. apply He.
  - intros c1 k1 e1 c2 k2 e2. rewrite !(removal_lookup _ _ _ _ _ _ Hr).
    do 2 (case_decide; [done|]). apply Hids.
Qed.

(** Deleting the object of a removed entry leaves the others in place. *)
Lemma removed_unused c k e i i' b :
  cache_wf i b → removal c k i i' → entries c i !! k = Some e →
  ∀ c' k' e', entries c' i' !! k' = Some e' →
    e'.(StoredEntry.storage_id) ≠ e.(StoredEntry.storage_id).
Proof using.
  intros Hwf Hr Hk c' k' e'. rewrite (removal_lookup _ _ _ _ _ _ Hr). case_decide; [done|].
  intros Hk' Heq. destruct (wf_ids _ _ Hwf _ _ _ _ _ _ Hk' Hk Heq). tauto.
Qed.

(** Inserting an entry with a fresh object *)
Lemma wf_insert c k i b b' id x :
  cache_wf i b → key_of x = k → x.(CacheXattrs.category) = c → is_u64 id →
  stored b id = None → is_Some (stored b' id) →
  (∀ id', is_u64 id' → id' ≠ id → stored b' id' = stored b id') →
  cache_wf (recompute_used_capacity h
    (set_entries c (<[k := StoredEntry.mk id x]> (entries c i)) i)) b'.
Proof using.
  intros Hwf Hkey Hcat Hid Hnone Hsome Hframe.
  assert (Hlook : ∀ c' k' e,
    entries c' (set_entries c (<[k := StoredEntry.mk id x]> (entries c i)) i) !! k' = Some e →
    (c' = c ∧ k' = k ∧ e = StoredEntry.mk id x) ∨
    (entries c' i !! k' = Some e ∧ e.(StoredEntry.storage_id) ≠ id)).
  { intros c' k' e. destruct (decide (c' = c)) as [->|Hc].
    - rewrite entries_set_eq, lookup_insert. case_decide as Hk; [intros [= <-]; auto|].
      intros Hl. right. split; [done|]. intros <-.
      destruct (wf_entry _ _ Hwf _ _ _ Hl) as (_ & _ & _ & [? ?]). congruence.
    - rewrite entries_set_ne by done. intros Hl. right. split; [done|]. intros <-.
      destruct (wf_entry _ _ Hwf _ _ _ Hl) as (_ & _ & _ & [? ?]). congruence. }
  split; [| |done].
  - intros c' k' e. rewrite entries_recompute.
    intros [(-> & -> & ->)|[Hl Hne]]%Hlook; [done|].
    destruct (wf_entry _ _ Hwf _ _ _ Hl) as (? & ? & ? & ?). by rewrite Hframe.
  - intros c1 k1 e1 c2 k2 e2. rewrite !entries_recompute.
    intros [(-> & -> & ->)|[Hl1 Hne1]]%Hlook [(-> & -> & ->)|[Hl2 Hne2]]%Hlook; simpl;
      [done|congruence..|]. by apply (wf_ids _ _ Hwf).
Qed.
End wf.

(** ** Files

    What a reader can tell of an entry: its attributes, but for the counts of
    accesses, and the bytes that the backend holds for it *)

Module File.
Record t := mk { attrs : CacheXattrs.t; bytes : option (list Z) }.
End File.

Section files.
Context {B : Type} `{CacheBackendLaws B}.

Definition file_of (b : B) (e : StoredEntry.t) : File.t :=
  File.mk (CacheXattrs.set_access 0 0 e.(StoredEntry.xattrs))
    (stored b e.(StoredEntry.storage_id) ≫= snd).
Definition cached (c : CacheCategory) (s : CacheState B) : gmap CacheKey.t File.t :=
  file_of (backend s) <$> entries c (index s).

Lemma lookup_cached c s k f :
  cached c s !! k = Some f ↔ ∃ e, entries c (index s) !! k = Some e ∧ f = file_of (backend s) e.
Proof using.
  unfold cached. rewrite lookup_fmap, fmap_Some. naive_solver.
Qed.

(** Files depend on the entries and on what the backend holds for them. *)
Lemma cached_same c s s' :
  entries c (index s') = entries c (index s) →
  (∀ k e, entries c (index s) !! k = Some e →
     stored (backend s') e.(StoredEntry.storage_id) = stored (backend s) e.(StoredEntry.storage_id)) →
  cached c s' = cached c s.
Proof using.
  intros He Hb. unfold cached. rewrite He. apply map_fmap_ext. intros k e Hk.
  unfold file_of. by rewrite (Hb k e Hk).
Qed.
End files.

(** Bounds on the files of a cache *)
Abbreviation bound := (CacheCategory → CacheKey.t → File.t → Prop).
Definition no_files : bound := λ _ _ _, False.
Definition any_files : bound := λ _ _ _, True.
(** A bound for a cache that has no file, or the file [f], under a key *)
Definition without (c : CacheCategory) (k : CacheKey.t) (P : bound) : bound :=
  λ c' k' f, ¬ (c' = c ∧ k' = k) ∧ P c' k' f.
Definition filing (c : CacheCategory) (k : CacheKey.t) (f : File.t) (P : bound) : bound :=
  λ c' k' f', if decide (c' = c ∧ k' = k) then f' = f else P c' k' f'.

(** ** What the handlers keep *)

Section keeps.
Context {B : Type} `{CacheBackendLaws B}.
Context (h : hash_order) (clock : nat → Z) (svc : Settings).
Implicit Types (L P : bound).

(** The index is well-formed, [n] more writes can be made, the files of [L] are
    there, and all files are among those of [P]. *)
Definition inv (L P : bound) (n : nat) (s : CacheState B) : Prop :=
  cache_wf h (index s) (backend s) ∧ writable n (backend s) ∧
  (∀ c k f, L c k f → cached c s !! k = Some f) ∧ (∀ c k f, cached c s !! k = Some f → P c k f).
(** Nothing is said of the restored copies: they may be evicted. *)
Definition evictable L : Prop := ∀ k f, ¬ L Restored k f.

Lemma inv_weaken L L' P P' n s :
  (∀ c k f, L' c k f → L c k f) → (∀ c k f, P c k f → P' c k f) → inv L P n s → inv L' P' n s.
Proof using. intros HL HP (? & ? & ? & ?). split_and!; auto. Qed.
Lemma inv_S L P n s : inv L P (S n) s → inv L P n s.
Proof using. intros (? & ?%writable_S & ? & ?). by split_and!. Qed.
Lemma without_weaken c k L P n s :
  (∀ f, ¬ L c k f) → inv (without c k L) (without c k P) n s → inv L P n s.
Proof using.
  intros Hno. apply inv_weaken; [|by intros ??? []].
  intros c' k' f Hf. split; [|done]. intros [-> ->]. by destruct (Hno f).
Qed.

Abbreviation keeps L P n m := (hoare (inv L P n) m (λ _, inv L P n) (inv L P n)).

(** The index is as before, the backend may have worked on its own objects. *)
Lemma inv_same L P n s i' b' t :
  inv L P n s → staging i' = staging (index s) → restored i' = restored (index s) →
  used_capacity i' = used_capacity (index s) →
  (∀ id, is_u64 id → stored b' id = stored (backend s) id) →
  (∀ n, writable n (backend s) → writable n b') → inv L P n (mkCache i' b' t).
Proof using.
  intros (Hwf & Hw & HL & HP) Hs Hr Hu Hb Hwb.
  assert (He : ∀ c, entries c i' = entries c (index s)) by (intros []; done).
  assert (Hkeep : ∀ c k e, entries c (index s) !! k = Some e →
    stored b' e.(StoredEntry.storage_id) = stored (backend s) e.(StoredEntry.storage_id)).
  { intros c k e Hk. apply Hb, (wf_entry _ _ _ Hwf _ _ _ Hk). }
  assert (Hf : ∀ c, cached c (mkCache i' b' t) = cached c s) by (intros c; apply cached_same; eauto).
  split; [|split; [by apply Hwb|split; intros *; rewrite Hf; auto]].
  apply (wf_backend h _ (backend s)).
  - destruct Hwf as [Hent Hids Hused]. split; intros *; cbn [index].
    + rewrite He. apply Hent.
    + rewrite !He. apply Hids.
    + by rewrite Hu, Hused; unfold used_of; rewrite Hs, Hr.
  - intros c k e. cbn [index]. rewrite He. apply Hkeep.
Qed.

(** An entry leaves the index and its object the backend. *)
Lemma inv_removal L P n s c k e i' b' t :
  inv L P n s → entries c (index s) !! k = Some e → removal h c k (index s) i' →
  be_delete e.(StoredEntry.storage_id) (backend s) = (b', Ok tt) →
  inv (without c k L) (without c k P) n (mkCache i' b' t).
Proof using.
  intros (Hwf & Hw & HL & HP) Hk Hr Hdel.
  destruct (wf_entry _ _ _ Hwf _ _ _ Hk) as (_ & _ & Hid & _).
  apply be_delete_spec in Hdel as [Hwb Hst]; [|done].
  pose proof (removed_unused h _ _ _ _ _ _ Hwf Hr Hk) as Hunused.
  pose proof (wf_removal h _ _ _ _ _ Hwf Hr) as Hwf'.
  assert (Hkeep : ∀ c' k' e', entries c' i' !! k' = Some e' →
    stored b' e'.(StoredEntry.storage_id) = stored (backend s) e'.(StoredEntry.storage_id)).
  { intros c' k' e' Hk'. apply Hst; [|by eapply Hunused].
    by apply (wf_entry _ _ _ Hwf' _ _ _ Hk'). }
  assert (Hf : ∀ c' k' f, cached c' (mkCache i' b' t) !! k' = Some f ↔
    ¬ (c' = c ∧ k' = k) ∧ cached c' s !! k' = Some f).
  { intros c' k' f. rewrite !lookup_cached. cbn [index backend].
    rewrite (removal_lookup h _ _ _ _ _ _ Hr). case_decide as Hc.
    { split; [by intros (? & ? & _)|by intros []]. }
    assert (Hfile : ∀ e', entries c' (index s) !! k' = Some e' → file_of b' e' = file_of (backend s) e').
    { intros e' He'. unfold file_of. rewrite (Hkeep c' k' e'); [done|].
      by rewrite (removal_lookup h _ _ _ _ _ _ Hr), decide_False. }
    split.
    - intros (e' & He' & ->). split; [done|]. exists e'. by rewrite Hfile.
    - intros (_ & e' & He' & ->). exists e'. by rewrite Hfile. }
  split; [by apply (wf_backend h _ (backend s))|]. split; [by apply Hwb|].
  split; intros c' k' f; rewrite Hf; intros [Hne ?]; (split; [done|by auto]).
Qed.

(** A new object is filed. *)
Lemma inv_insert L P n s key data x b' id t :
  inv L P (S n) s → be_write key data x (backend s) = (b', Ok id) →
  let c := x.(CacheXattrs.category) in
  let f := File.mk (CacheXattrs.set_access 0 0 x) (Some data) in
  inv (filing c (key_of x) f L) (filing c (key_of x) f P) n
    (mkCache (recompute_used_capacity h
      (set_entries c (<[key_of x := StoredEntry.mk id x]> (entries c (index s))) (index s))) b' t).
Proof using.
  intros (Hwf & Hw & HL & HP) Hwr c f. set (k := key_of x).
  apply (be_write_spec n) in Hwr as (Hw' & Hid & Hnone & Hsome & Hframe); [|done].
  set (s' := mkCache _ b' t).
  assert (Hkeep : ∀ c' k' e', entries c' (index s) !! k' = Some e' →
    file_of b' e' = file_of (backend s) e').
  { intros c' k' e' Hl. destruct (wf_entry _ _ _ Hwf _ _ _ Hl) as (_ & _ & Hu & [? Hin]).
    unfold file_of. rewrite Hframe; [done|done|]. intros Heq. congruence. }
  assert (Hlook : ∀ c' k', cached c' s' !! k' =
    if decide (c' = c ∧ k' = k) then Some f else cached c' s !! k').
  { intros c' k'. unfold cached, s'. cbn [index backend]. rewrite entries_recompute, !lookup_fmap.
    destruct (decide (c' = c)) as [->|Hc].
    - rewrite entries_set_eq, lookup_insert. case_decide as Hk.
      + subst k'. rewrite decide_True by done. cbn. unfold file_of. cbn. by rewrite Hsome.
      + rewrite decide_False by (intros [_ ?]; congruence).
        destruct (entries c (index s) !! k') as [e'|] eqn:Hl; [|done]. cbn. by rewrite (Hkeep c k' e').
    - rewrite entries_set_ne, decide_False by (try intros [? _]; done).
      destruct (entries c' (index s) !! k') as [e'|] eqn:Hl; [|done]. cbn. by rewrite (Hkeep c' k' e'). }
  split; [by apply (wf_insert h _ _ _ (backend s))|]. split; [done|]. unfold filing.
  split; intros c' k' f'; rewrite Hlook; case_decide; [by intros ->|by auto|by intros [= ->]|by auto].
Qed.

(** What the backend does to other objects changes nothing. *)
Lemma inv_backend L P n n' s b' t :
  inv L P n s → writable n' b' →
  (∀ c k e, entries c (index s) !! k = Some e →
     stored b' e.(StoredEntry.storage_id) = stored (backend s) e.(StoredEntry.storage_id)) →
  inv L P n' (mkCache (index s) b' t).
Proof using.
  intros (Hwf & Hw & HL & HP) Hw' Hkeep. split; [by apply (wf_backend h _ (backend s))|].
  split; [done|]. assert (Hf : ∀ c, cached c (mkCache (index s) b' t) = cached c s)
    by (intros c; apply cached_same; eauto).
  split; intros *; rewrite Hf; auto.
Qed.

Lemma inv_failed_write L P n s key data x b' err t :
  inv L P (S n) s → be_write key data x (backend s) = (b', Err err) →
  inv L P n (mkCache (index s) b' t).
Proof using.
  intros Hinv Hwr. pose proof Hinv as (Hwf & Hw & _).
  apply (be_write_spec n) in Hwr as (Hw' & Hframe); [|done]. eapply inv_backend; [exact Hinv|done|].
  intros c k e Hk. destruct (wf_entry _ _ _ Hwf _ _ _ Hk) as (_ & _ & ? & ?). by apply Hframe.
Qed.

(** Deleting an object the index does not use *)
Lemma inv_orphan L P n s id b' r t :
  inv L P n s → is_u64 id →
  (∀ c k e, entries c (index s) !! k = Some e → e.(StoredEntry.storage_id) ≠ id) →
  be_delete id (backend s) = (b', r) → inv L P n (mkCache (index s) b' t).
Proof using.
  intros Hinv Hid Hno Hdel. pose proof Hinv as (Hwf & Hw & _).
  apply be_delete_spec in Hdel as [Hwb Hst]; [|done]. eapply inv_backend; [exact Hinv|by apply Hwb|].
  intros c k e Hk. destruct (wf_entry _ _ _ Hwf _ _ _ Hk) as (_ & _ & ? & _).
  destruct r; apply Hst; eauto.
Qed.

Lemma removal_delete c k i :
  removal h c k i (recompute_used_capacity h (set_entries c (delete k (entries c i)) i)).
Proof using.
  split; [by rewrite entries_recompute, entries_set_eq|]. split; [|done].
  intros c' Hc. by rewrite entries_recompute, entries_set_ne.
Qed.

(** A deletion that succeeds removes the file, one that fails changes nothing. *)
Lemma delete_entry_removes L P n k c :
  hoare (inv L P n) (delete_entry h k c) (λ _, inv (without c k L) (without c k P) n) (inv L P n).
Proof using.
  intros s Hinv. unfold delete_entry, get_index, on_backend, modify_index. unfold_action.
  destruct (entries c (index s) !! k) as [e|] eqn:Hk.
  - destruct (be_delete _ (backend s)) as [b' [[]|err]] eqn:Hdel; cbn [index backend ticks].
    + rewrite Hk, Z.eqb_refl. eapply inv_removal; eauto using removal_delete.
    + pose proof Hinv as (Hwf & _).
      pose proof (wf_entry _ _ _ Hwf _ _ _ Hk) as (_ & _ & Hid & _).
      pose proof (be_delete_spec _ _ _ _ Hid Hdel) as [Hw Hst].
      by apply inv_same with (s := s).
  - destruct Hinv as (Hwf & Hw & HL & HP). split_and!; [done..|by intros c' k' f [_ ?]; auto|].
    intros c' k' f Hf. split; [|by apply HP]. intros [-> ->].
    apply lookup_cached in Hf as (e & He & _). congruence.
Qed.
Lemma delete_entry_keeps L P n k c : (∀ f, ¬ L c k f) → keeps L P n (delete_entry h k c).
Proof using.
  intros Hno. eapply hoare_weaken; [apply delete_entry_removes|done| |done].
  intros ? s. by apply without_weaken.
Qed.

(** The clock, the counters and the reads of the index *)
Lemma now_keeps {E} L P n : keeps L P n (now_unix clock : action _ E _).
Proof using. intros s Hinv. unfold now_unix. by apply inv_same with (s := s). Qed.
Lemma get_index_keeps {E} L P n : keeps L P n (get_index : action _ E _).
Proof using. by intros s Hinv. Qed.
Lemma find_keeps {E} L P n k c : keeps L P n (find_entry k c : action _ E _).
Proof using. by intros s Hinv. Qed.
Lemma hit_keeps {E} L P n b : keeps L P n (update_hit_state b : action _ E _).
Proof using. intros s Hinv. by apply inv_same with (s := s); destruct b. Qed.
Lemma expired_keeps {E} L P n t : keeps L P n (is_expired clock t : action _ E _).
Proof using.
  unfold is_expired. destruct (0 <? t)%Z; [|by apply hoare_ret].
  eapply hoare_bind; [apply now_keeps|]. intros a. by apply hoare_ret.
Qed.

Lemma map_err_hoare {E F A} (f : E → F) (m : action (CacheState B) E A) R Q X :
  hoare R m Q X → hoare R (map_err_of f m) Q X.
Proof using.
  intros Hm s Hs. specialize (Hm s Hs). unfold map_err_of. by destruct (m s) as [s' []].
Qed.

Lemma available_keeps L P n : keeps L P n (on_backend be_available_bytes).
Proof using.
  intros s Hinv. unfold on_backend. destruct (be_available_bytes (backend s)) as [b' r] eqn:Hr.
  apply be_available_spec in Hr as (Hb & Hw & _). destruct r; by apply inv_same with (s := s).
Qed.

Lemma total_keeps L P n : keeps L P n (effective_total_capacity svc).
Proof using.
  unfold effective_total_capacity. eapply hoare_bind; [apply get_index_keeps|]. intros i.
  eapply hoare_bind; [apply available_keeps|]. intros a. by apply hoare_ret.
Qed.

Lemma ensure_keeps L P n size : keeps L P n (ensure_object_size_within_total_capacity svc size).
Proof using.
  unfold ensure_object_size_within_total_capacity.
  eapply hoare_bind; [apply total_keeps|]. intros a.
  eapply hoare_bind; [apply hoare_reject|]. intros b. apply hoare_reject.
Qed.

Lemma reclaim_keeps L P n skip :
  evictable L → keeps L P n (reclaim_expired_restored_except h clock skip).
Proof using.
  intros HL. unfold reclaim_expired_restored_except.
  eapply hoare_bind; [apply now_keeps|]. intros now.
  eapply hoare_bind; [apply get_index_keeps|]. intros i. apply hoare_foldr.
  intros p. apply hoare_discard, delete_entry_keeps, HL.
Qed.
(** One eviction: a restored entry and its object, or nothing when the
    backend cannot delete it. *)
Lemma evict_victim_run s victim :
  restored (index s) !! victim.1 = Some victim.2 →
  ∃ s' r b' t, evict_victim h Restored victim s = (s', r) ∧
    be_delete victim.2.(StoredEntry.storage_id) (backend s) = (b', t) ∧
    match t with
    | Ok _ => r = Ok true ∧ removal h Restored victim.1 (index s) (index s') ∧ backend s' = b'
    | Err err => r = Err err ∧ backend s' = b' ∧
        staging (index s') = staging (index s) ∧ restored (index s') = restored (index s) ∧
        used_capacity (index s') = used_of h (index s)
    end.
Proof using.
  intros Hk. unfold evict_victim, get_index, on_backend, modify_index. unfold_action.
  unfold entries. rewrite Hk, Z.eqb_refl. cbn [negb index backend ticks].
  destruct (be_delete _ (backend s)) as [b' t] eqn:Hdel.
  destruct t as [[]|err]; do 4 eexists; (split; [done|]); (split; [done|]).
  - split; [done|]. split; [|done]. split; [done|]. split; [by intros []|done].
  - do 2 (split; [done|]). cbn. split; [done|]. unfold used_of.
    by rewrite insert_delete_eq, insert_id.
Qed.

Lemma evict_victim_inv L P n s victim :
  evictable L → inv L P n s → restored (index s) !! victim.1 = Some victim.2 →
  inv L P n (evict_victim h Restored victim s).1.
Proof using.
  intros HL Hinv Hk. pose proof Hinv as (Hwf & _).
  destruct (evict_victim_run s victim Hk) as (s' & r & b' & t & -> & Hdel & Hcase).
  simpl. destruct t as [[]|err].
  - destruct Hcase as (_ & Hr & <-). destruct s'.
    apply (without_weaken Restored victim.1); [apply HL|].
    by apply (inv_removal L P _ s Restored _ victim.2).
  - destruct Hcase as (_ & <- & Hst & Hre & Hu).
    pose proof (wf_entry _ _ _ Hwf Restored _ _ Hk) as (_ & _ & Hid & _).
    pose proof (be_delete_spec _ _ _ _ Hid Hdel) as [Hwb Hb]. destruct s'.
    apply inv_same with (s := s); try done. simpl in *. by rewrite Hu, (wf_used _ _ _ Hwf).
Qed.

Lemma select_Some i victim :
  select_eviction_candidate h svc i Restored = Some victim →
  restored i !! victim.1 = Some victim.2 ∧
  ∀ k e, restored i !! k = Some e →
    cmp_le (policy_cmp (cs_eviction_policy svc)) victim (k, e).
Proof using.
  unfold select_eviction_candidate. destruct victim as [k0 e0].
  assert (TotalCmp (policy_cmp (cs_eviction_policy svc)))
    by (unfold policy_cmp, lfu_cmp, lru_cmp; destruct (cs_eviction_policy svc); apply _).
  intros Hm. apply min_by_Some in Hm as [Hin Hmin]; [|done]. split; [by apply elem_of_hm_iter in Hin|].
  intros k e Hk. apply Hmin. by apply elem_of_hm_iter.
Qed.

(** What each eviction keeps, the loop keeps. *)
Lemma evict_loop_ind (R : CacheState B → Prop) n size c total s :
  (∀ s victim, R s →
     should_evict (pressure_of h svc size c total (index s)) = true →
     select_eviction_candidate h svc (index s) Restored = Some victim →
     R (evict_victim h Restored victim s).1) →
  R s → R (evict_loop h svc n size c total s).1.
Proof using.
  intros Hstep. revert s. induction n as [|n IH]; intros s Hs; simpl; unfold_action; [done|].
  unfold get_index. unfold_action.
  destruct (should_evict _) eqn:Hev; cbn [negb]; [|done].
  destruct (choose_victim_category _ _) as [vc|] eqn:Hvc; [|done].
  assert (vc = Restored) as ->.
  { unfold choose_victim_category in Hvc. by repeat case_match; simplify_eq. }
  destruct (select_eviction_candidate h svc (index s) Restored) as [victim|] eqn:Hsel; [|done].
  simpl. pose proof (Hstep s victim Hs Hev Hsel) as Hs'.
  destruct (evict_victim h Restored victim s) as [s' [b|err]]; [by apply IH|done].
Qed.

(** The loop says there is room only when there is. *)
Lemma evict_loop_true n size c total s s' :
  evict_loop h svc n size c total s = (s', Ok true) →
  should_evict (pressure_of h svc size c total (index s')) = false.
Proof using.
  revert s. induction n as [|n IH]; intros s; simpl; unfold_action; [done|].
  unfold get_index. unfold_action.
  destruct (should_evict (pressure_of h svc size c total (index s))) eqn:Hev; cbn [negb];
    [|by intros [= <-]].
  destruct (choose_victim_category _ _) as [vc|]; [|done].
  destruct (select_eviction_candidate h svc (index s) vc) as [victim|]; [|done]. simpl.
  destruct (evict_victim h vc victim s) as [s1 [b|err]]; [apply IH|done].
Qed.

Lemma evict_loop_keeps L P n m size c total :
  evictable L → keeps L P n (evict_loop h svc m size c total).
Proof using.
  intros HL s Hinv. assert (inv L P n (evict_loop h svc m size c total s).1) as Hres.
  { apply evict_loop_ind; [|done]. intros s' victim Hs' _ [Hk _]%select_Some.
    by apply evict_victim_inv. }
  by destruct (evict_loop h svc m size c total s) as [s' []].
Qed.

Lemma evict_keeps L P n size c : evictable L → keeps L P n (evict_if_needed h svc size c).
Proof using.
  intros HL. unfold evict_if_needed. destruct (size =? 0)%Z; [by apply hoare_ret|].
  eapply hoare_bind; [apply total_keeps|]. intros total.
  eapply hoare_bind; [apply hoare_reject|]. intros ?.
  eapply hoare_bind; [apply hoare_reject|]. intros ?.
  eapply hoare_bind; [by apply evict_loop_keeps|]. intros [].
  { by apply hoare_ret. }
  unfold check_room. eapply hoare_bind; [apply get_index_keeps|]. intros i.
  repeat case_match; first [by apply hoare_ret|apply hoare_throw].
Qed.

(** [put_bytes] files the object, or changes nothing but what it evicts. *)
Lemma put_bytes_files L P n data x :
  evictable L →
  let c := x.(CacheXattrs.category) in
  let f := File.mk (CacheXattrs.set_access 0 0 x) (Some data) in
  hoare (inv L P (S n)) (put_bytes h clock svc (key_of x) data x)
    (λ _, inv (filing c (key_of x) f L) (filing c (key_of x) f P) n) (inv L P n).
Proof using.
  intros HL c f. unfold put_bytes.
  assert (Hbefore : ∀ A (m : action (CacheState B) string A), keeps L P (S n) m →
    hoare (inv L P (S n)) m (λ _, inv L P (S n)) (inv L P n)).
  { intros A m Hm. eapply hoare_weaken; [apply Hm|done|done|]. intros s. apply inv_S. }
  eapply hoare_bind; [apply Hbefore, ensure_keeps|]. intros ?.
  eapply hoare_bind; [apply Hbefore, find_keeps|]. intros existing.
  eapply hoare_bind; [by apply Hbefore, reclaim_keeps|]. intros ?.
  eapply hoare_bind; [by apply Hbefore, evict_keeps|].
  intros _ s Hinv. unfold on_backend, insert_entry, get_index, modify_index. unfold_action.
  destruct (be_write _ data x (backend s)) as [b' [id|err]] eqn:Hw.
  2: { eapply inv_failed_write; eauto. }
  cbn [index backend ticks StoredEntry.xattrs].
  pose proof (inv_insert _ _ _ s _ _ _ _ _ (ticks s) Hinv Hw) as Hinv'.
  destruct Hinv as (Hwf & Hwr & _). apply (be_write_spec n) in Hw as (_ & _ & Hnone & _); [|done].
  set (k := key_of x) in *. fold c f in Hinv' |- *.
  set (s1 := mkCache _ b' _) in *.
  destruct (entries c (index s) !! k) as [prev|] eqn:Hprev; [|done].
  assert (Hpid : is_u64 prev.(StoredEntry.storage_id) ∧ prev.(StoredEntry.storage_id) ≠ id).
  { destruct (wf_entry _ _ _ Hwf _ _ _ Hprev) as (_ & _ & ? & [? ?]).
    split; [done|]. intros <-. congruence. }
  destruct Hpid as [Hpid Hpne]. rewrite (proj2 (Z.eqb_neq _ _)) by done.
  unfold discard, on_backend. cbn [index backend ticks].
  change (backend s1) with b'. change (ticks s1) with (ticks s).
  destruct (be_delete prev.(StoredEntry.storage_id) b') as [b2 r2] eqn:Hdel. cbn [fst].
  eapply (inv_orphan _ _ n s1); [exact Hinv'|done| |exact Hdel]. intros c' k' e' Hl' Heq.
  unfold s1 in Hl'. cbn [index] in Hl'. rewrite entries_recompute in Hl'.
  destruct (decide (c' = c)) as [->|Hc].
  - rewrite entries_set_eq, lookup_insert in Hl'. case_decide as Hk.
    + injection Hl' as <-. by rewrite <-Heq in Hpne.
    + destruct (wf_ids _ _ _ Hwf _ _ _ _ _ _ Hl' Hprev Heq). congruence.
  - rewrite entries_set_ne in Hl' by done.
    destruct (wf_ids _ _ _ Hwf _ _ _ _ _ _ Hl' Hprev Heq). congruence.
Qed.

(** Touching an entry keeps its file. *)
Lemma touch_entry_keeps {E} L P n k : keeps L P n (touch_entry clock k Restored : action _ E _).
Proof using.
  intros s Hinv. unfold touch_entry, now_unix, modify_index. unfold_action.
  cbn [index backend ticks]. unfold entries, set_entries.
  destruct (restored (index s) !! k) as [e|] eqn:Hk; [|by apply inv_same with (s := s)].
  destruct Hinv as (Hwf & Hw & HL & HP).
  set (i' := mkIndex _ _ _ _ _ _ _).
  assert (Hlook : ∀ c k' e', entries c i' !! k' = Some e' → ∃ e'',
    entries c (index s) !! k' = Some e'' ∧
    key_of e''.(StoredEntry.xattrs) = key_of e'.(StoredEntry.xattrs) ∧
    e''.(StoredEntry.xattrs).(CacheXattrs.category) =
      e'.(StoredEntry.xattrs).(CacheXattrs.category) ∧
    e''.(StoredEntry.storage_id) = e'.(StoredEntry.storage_id)).
  { intros [] k' e'; [by eauto|]. simpl. rewrite lookup_insert.
    case_decide as Ek; [intros [= <-]; subst k'; by eauto|by eauto]. }
  assert (Hf : ∀ c, cached c (mkCache i' (backend s) (S (ticks s))) = cached c s).
  { intros []; [done|]. unfold cached. cbn. rewrite fmap_insert. apply insert_id.
    by rewrite lookup_fmap, Hk. }
  split_and!; [|done|intros *; rewrite Hf; apply HL|intros *; rewrite Hf; apply HP].
  split; simpl.
  - intros c k' e' (e'' & Hl & <- & <- & <-)%Hlook. by apply (wf_entry _ _ _ Hwf).
  - intros c1 k1 e1 c2 k2 e2 (? & Hl1 & _ & _ & <-)%Hlook (? & Hl2 & _ & _ & <-)%Hlook.
    by apply (wf_ids _ _ _ Hwf).
  - rewrite (wf_used _ _ _ Hwf). unfold used_of. simpl.
    by rewrite sizes_insert, (sizes_delete _ (restored (index s)) k e).
Qed.

(** Requests about a restored copy may find it expired and remove it. *)
Abbreviation may_expire L P k n m Q := (hoare (inv L P n) m Q (inv (without Restored k L) P n)).
Lemma inv_expired L P n k s : inv L P n s → inv (without Restored k L) P n s.
Proof using. apply inv_weaken; [by intros ??? []|done]. Qed.
Lemma expire_removes L P n k :
  hoare (inv L P n) (map_err_of internal_status (discard (delete_entry h k Restored)))
    (λ _, inv (without Restored k L) P n) (inv (without Restored k L) P n).
Proof using.
  apply map_err_hoare, hoare_discard. eapply hoare_weaken; [apply delete_entry_removes|done| |].
  - intros ? s. apply inv_weaken; [done|by intros ??? []].
  - intros s. apply inv_expired.
Qed.

(** The entry [e] of a reader still names the file under the key. *)
Definition names (c : CacheCategory) (k : CacheKey.t) (e : StoredEntry.t) (s : CacheState B)
    : Prop :=
  is_u64 e.(StoredEntry.storage_id) ∧ cached c s !! k = Some (file_of (backend s) e).

Lemma find_names {E} L P n k c :
  hoare (inv L P n) (find_entry k c : action _ E _)
    (λ o s, inv L P n s ∧
       match o with Some e => names c k e s | None => cached c s !! k = None end) (inv L P n).
Proof using.
  intros s Hinv. split; [done|]. unfold names, cached. cbn. rewrite lookup_fmap.
  destruct (entries c (index s) !! k) as [e|] eqn:Hk; [|done].
  destruct Hinv as (Hwf & _). split; [|done]. by apply (wf_entry _ _ _ Hwf _ _ _ Hk).
Qed.

(** Expiry is told by the clock; the index stays as it is. *)
Lemma expired_names {E} L P n c k e t :
  hoare (λ s, inv L P n s ∧ names c k e s) (is_expired clock t : action _ E _)
    (λ _ s, inv L P n s ∧ names c k e s) (inv L P n).
Proof using.
  intros s [Hinv Hn]. pose proof (expired_keeps (E := E) L P n t s Hinv) as Hx. revert Hx.
  unfold is_expired, now_unix. destruct (0 <? t)%Z; by unfold_action.
Qed.
Lemma touch_names {E} L P n c k e :
  hoare (λ s, inv L P n s ∧ names c k e s) (touch_entry clock k Restored : action _ E _)
    (λ _ s, inv L P n s ∧ names c k e s) (inv L P n).
Proof using.
  intros s [Hinv [Hid Hf]].
  (* the file stays, as a bound that is tight for it *)
  set (F := λ c' k' f, c' = c ∧ k' = k ∧ f = file_of (backend s) e).
  assert (Htight : inv F P n s).
  { destruct Hinv as (? & ? & _ & ?). split_and!; try done. by intros ??? (-> & -> & ->). }
  pose proof (touch_entry_keeps (E := E) F P n k s Htight) as HF.
  pose proof (touch_entry_keeps (E := E) L P n k s Hinv) as HL.
  assert (Hb : backend (touch_entry (E := E) clock k Restored s).1 = backend s)
    by (unfold touch_entry, now_unix, modify_index; by unfold_action).
  destruct (touch_entry clock k Restored s) as [s' [a|err]]; [|done]. split; [done|].
  split; [done|]. destruct HF as (_ & _ & HF & _). simpl in Hb. rewrite Hb. by apply HF.
Qed.

Lemma read_restored_names L P n k :
  may_expire L P k n (read_restored h clock k) (λ e s, inv L P n s ∧ names Restored k e s).
Proof using.
  unfold read_restored.
  apply (hoare_bind _ _ (λ o s, inv L P n s ∧
    match o with Some e => names Restored k e s | None => cached Restored s !! k = None end)).
  { eapply hoare_weaken; [apply find_names|done|done|intros s; apply inv_expired]. }
  assert (Hmiss : ∀ (R : CacheState B → Prop) A msg (Q : A → CacheState B → Prop),
    (∀ s, R s → inv (without Restored k L) P n s) →
    hoare R (update_hit_state false;; throw (not_found msg) : action _ Status A) Q
      (inv (without Restored k L) P n)).
  { intros R A msg Q HR. eapply hoare_bind; [|intros ?; apply hoare_throw].
    eapply hoare_weaken; [apply hit_keeps|exact HR|done|done]. }
  intros [e|]; [|apply Hmiss; intros s [? _]; by apply inv_expired].
  eapply hoare_bind.
  { eapply hoare_weaken; [apply (expired_names L P n Restored k e)|done|intros ?? Hq; exact Hq|intros s; apply inv_expired]. }
  intros [].
  - apply (hoare_bind _ _ (λ _, inv (without Restored k L) P n)); [|intros ?; by apply Hmiss].
    eapply hoare_weaken; [apply expire_removes|by intros s []|done|done].
  - eapply hoare_bind.
    { eapply hoare_weaken; [apply (touch_names L P n Restored k e)|done|intros ?? Hq; exact Hq|intros s; apply inv_expired]. }
    intros ?. apply (hoare_bind _ _ (λ _ s, inv L P n s ∧ names Restored k e s));
      [|intros ?; by apply hoare_ret].
    intros s [Hinv Hn]. by pose proof (hit_keeps (E := Status) L P n true s Hinv).
Qed.

Lemma read_filed L P n e c k :
  hoare (λ s, inv L P n s ∧ names c k e s) (on_backend (be_read e.(StoredEntry.storage_id)))
    (λ data s, inv L P n s ∧ ∃ f, P c k f ∧ File.bytes f = Some data ∧
       File.attrs f = CacheXattrs.set_access 0 0 e.(StoredEntry.xattrs)) (inv L P n).
Proof using.
  intros s (Hinv & Hid & Hk). unfold on_backend.
  destruct (be_read _ (backend s)) as [b' r] eqn:Hr.
  apply be_read_spec in Hr as (Hb & Hw & Hdata & _); [|done].
  destruct r as [data|err]; [|by apply inv_same with (s := s)].
  split; [by apply inv_same with (s := s)|].
  destruct (Hdata data eq_refl) as [x Hst]. destruct Hinv as (_ & _ & _ & HP).
  eexists. split; [by apply HP|]. split; [|done]. unfold file_of. cbn. by rewrite Hst.
Qed.

(** What a reader is sent of a file *)
Definition get_messages (x : CacheXattrs.t) (data : list Z) : list (Payload CachedObjectMeta.t) :=
  Meta (CachedObjectMeta.mk x.(CacheXattrs.size)
    (Some (timestamp_from_unix x.(CacheXattrs.expire_at))) x.(CacheXattrs.content_type)
    x.(CacheXattrs.etag) x.(CacheXattrs.checksum)) :: (Data <$> chunks STREAM_CHUNK_SIZE data).
Definition staging_messages (x : CacheXattrs.t) (data : list Z) : list (Payload StagingObjectMeta.t) :=
  Meta (StagingObjectMeta.mk x.(CacheXattrs.bucket) x.(CacheXattrs.key) x.(CacheXattrs.version_id)
    x.(CacheXattrs.size) x.(CacheXattrs.checksum) x.(CacheXattrs.content_type)
    x.(CacheXattrs.etag) (Some (timestamp_from_unix x.(CacheXattrs.cached_at))))
  :: (Data <$> chunks STREAM_CHUNK_SIZE data).
(** The messages [sends] makes of a file that has bytes *)
Definition sent_of {M} (sends : CacheXattrs.t → list Z → list (Payload M)) (f : File.t)
    (messages : list (Payload M)) : Prop :=
  ∃ data, File.bytes f = Some data ∧ messages = sends (File.attrs f) data.

(** A download is sent a file of the key. *)
Lemma get_filed L P n k :
  may_expire L P k n (get h clock k)
    (λ messages s, inv L P n s ∧ ∃ f, P Restored k f ∧ sent_of get_messages f messages).
Proof using.
  unfold get, build_get_stream. eapply hoare_bind; [apply read_restored_names|]. intros e.
  eapply hoare_bind.
  { apply map_err_hoare. eapply hoare_weaken; [apply (read_filed L P n e Restored k)|done|intros ?? Hq; exact Hq|
      intros s; apply inv_expired]. }
  intros data. apply hoare_ret. intros s [Hinv (f & HP & Hb & Ha)]. split; [done|].
  exists f. split; [done|]. exists data. by rewrite Ha.
Qed.
Lemma get_staging_filed L P n k :
  hoare (inv L P n) (get_staging k)
    (λ messages s, inv L P n s ∧ ∃ f, P Staging k f ∧ sent_of staging_messages f messages)
    (inv L P n).
Proof using.
  unfold get_staging, build_staging_stream. eapply hoare_bind; [apply find_names|].
  intros [e|]; [|intros s []; done].
  eapply hoare_bind; [apply map_err_hoare, read_filed|]. intros data.
  apply hoare_ret. intros s [Hinv (f & HP & Hb & Ha)]. split; [done|].
  exists f. split; [done|]. exists data. by rewrite Ha.
Qed.

(** What [contains] tells: a copy is there, or not or no longer *)
Definition contained L P k n (r : bool * option Timestamp.t) (s : CacheState B) : Prop :=
  if r.1
  then inv L P n s ∧ ∃ f, P Restored k f ∧
    r.2 = Some (timestamp_from_unix (File.attrs f).(CacheXattrs.expire_at))
  else inv (without Restored k L) P n s ∧ r.2 = None.
Lemma contains_filed L P n k : may_expire L P k n (contains h clock k) (contained L P k n).
Proof using.
  unfold contains.
  apply (hoare_bind _ _ (λ o s, inv L P n s ∧
    match o with Some e => names Restored k e s | None => cached Restored s !! k = None end)).
  { eapply hoare_weaken; [apply find_names|done|done|intros s; apply inv_expired]. }
  assert (Hmiss : ∀ R : CacheState B → Prop, (∀ s, R s → inv (without Restored k L) P n s) →
    hoare R (update_hit_state false;; mret (false, None) : action _ Status (bool * option Timestamp.t))
      (contained L P k n) (inv (without Restored k L) P n)).
  { intros R HR. apply (hoare_bind _ _ (λ _, inv (without Restored k L) P n)).
    - eapply hoare_weaken; [apply hit_keeps|exact HR|done|done].
    - intros ?. by apply hoare_ret. }
  intros [e|]; [|apply Hmiss; intros s [? _]; by apply inv_expired].
  eapply hoare_bind.
  { eapply hoare_weaken; [apply (expired_names L P n Restored k e)|done|intros ?? Hq; exact Hq|intros s; apply inv_expired]. }
  intros [].
  - apply (hoare_bind _ _ (λ _, inv (without Restored k L) P n)); [|intros ?; by apply Hmiss].
    eapply hoare_weaken; [apply expire_removes|by intros s []|done|done].
  - apply (hoare_bind _ _ (λ _ s, inv L P n s ∧ names Restored k e s)).
    + intros s [Hinv Hn]. by pose proof (hit_keeps (E := Status) L P n true s Hinv).
    + intros ?. apply hoare_ret. intros s [Hinv [_ Hk]]. split; [done|].
      exists (file_of (backend s) e). split; [|done]. by apply Hinv.
Qed.

Lemma delete_removes L P n k :
  hoare (inv L P n) (delete_ h k) (λ _, inv (without Restored k L) (without Restored k P) n) (inv L P n).
Proof using.
  unfold delete_. eapply hoare_bind; [apply map_err_hoare, delete_entry_removes|].
  intros ?. by apply hoare_ret.
Qed.
Lemma delete_staging_removes L P n k :
  hoare (inv L P n) (delete_staging h k) (λ _, inv (without Staging k L) (without Staging k P) n)
    (inv L P n).
Proof using.
  unfold delete_staging. eapply hoare_bind; [apply map_err_hoare, delete_entry_removes|].
  intros ?. by apply hoare_ret.
Qed.
Lemma list_keeps L P n limit after : keeps L P n (list_staging_keys h limit after).
Proof using. by intros s Hinv. Qed.
Lemma stats_keeps L P n : keeps L P n (stats h svc).
Proof using.
  unfold stats. eapply hoare_bind; [apply get_index_keeps|]. intros i.
  eapply hoare_bind; [apply map_err_hoare, available_keeps|]. intros a. by apply hoare_ret.
Qed.

(** *** Writes *)

Definition staging_key (m : PutStagingMeta.t) : CacheKey.t :=
  CacheKey.new m.(PutStagingMeta.bucket) m.(PutStagingMeta.key) m.(PutStagingMeta.version_id).
Definition restored_key (m : PutRestoredMeta.t) : CacheKey.t :=
  CacheKey.new m.(PutRestoredMeta.bucket) m.(PutRestoredMeta.key) m.(PutRestoredMeta.version_id).

(** The file of an upload that was cached at a given time, and of a restored
    copy that expires at a given time *)
Definition staged_file (m : PutStagingMeta.t) (data : list Z) (cached_at : Z) : File.t :=
  File.mk (CacheXattrs.mk m.(PutStagingMeta.bucket) m.(PutStagingMeta.key)
    m.(PutStagingMeta.version_id) m.(PutStagingMeta.size) 0 cached_at 0 0
    m.(PutStagingMeta.checksum) m.(PutStagingMeta.content_type) m.(PutStagingMeta.etag) Staging)
    (Some data).
Definition restored_file (m : PutRestoredMeta.t) (data : list Z) (expire_at cached_at : Z) : File.t :=
  File.mk (CacheXattrs.mk m.(PutRestoredMeta.bucket) m.(PutRestoredMeta.key)
    m.(PutRestoredMeta.version_id) m.(PutRestoredMeta.size) expire_at cached_at 0 0
    m.(PutRestoredMeta.checksum) m.(PutRestoredMeta.content_type) m.(PutRestoredMeta.etag) Restored)
    (Some data).

Lemma put_staging_files L P n stream :
  evictable L →
  hoare (inv L P (S n)) (put_staging h clock svc stream)
    (λ _ s, ∃ m data t,
      collect_stream "empty put_staging chunk" stream None [] = Ok (Some m, data) ∧
      m.(PutStagingMeta.size) = Z.of_nat (length data) ∧
      inv (filing Staging (staging_key m) (staged_file m data t) L)
        (filing Staging (staging_key m) (staged_file m data t) P) n s)
    (inv L P n).
Proof using.
  intros HL s Hinv. unfold put_staging, now_unix. unfold_action.
  destruct (collect_stream _ stream None []) as [[[m|] data]|err]; [|by apply inv_S..].
  unfold ok_or. case_bool_decide as Hsize; simpl; [|by apply inv_S].
  assert (Hinv2 : inv L P (S n) (mkCache (index s) (backend s) (S (S (ticks s)))))
    by (by apply inv_same with (s := s)).
  set (x := CacheXattrs.mk _ _ _ _ _ _ _ _ _ _ _ _).
  pose proof (put_bytes_files L P n data x HL _ Hinv2) as Hput. unfold map_err_of.
  destruct (put_bytes _ _ _ _ _ _ _) as [s' [id|err]]; simpl; [|done].
  exists m, data, (clock (ticks s)). split; [done|]. split; [done|]. exact Hput.
Qed.

Lemma put_restored_files L P n stream :
  evictable L →
  hoare (inv L P (S n)) (put_restored h clock svc stream)
    (λ _ s, ∃ m data at_ t,
      collect_stream "empty put_restored chunk" stream None [] = Ok (Some m, data) ∧
      m.(PutRestoredMeta.size) = Z.of_nat (length data) ∧ m.(PutRestoredMeta.expire_at) = Some at_ ∧
      let f := restored_file m data at_.(Timestamp.seconds) t in
      inv (filing Restored (restored_key m) f L) (filing Restored (restored_key m) f P) n s)
    (inv L P n).
Proof using.
  intros HL s Hinv. unfold put_restored, now_unix. unfold_action.
  destruct (collect_stream _ stream None []) as [[[m|] data]|err]; [|by apply inv_S..].
  unfold ok_or. case_bool_decide as Hsize; simpl; [|by apply inv_S].
  destruct (PutRestoredMeta.expire_at m) as [ts|] eqn:Hts; simpl; [|by apply inv_S].
  assert (Hinv2 : inv L P (S n) (mkCache (index s) (backend s) (S (S (ticks s)))))
    by (by apply inv_same with (s := s)).
  set (x := CacheXattrs.mk _ _ _ _ _ _ _ _ _ _ _ _).
  pose proof (put_bytes_files L P n data x HL _ Hinv2) as Hput. unfold map_err_of.
  destruct (put_bytes _ _ _ _ _ _ _) as [s' [id|err]]; simpl; [|done].
  exists m, data, ts, (clock (ticks s)). split_and!; [done..|exact Hput].
Qed.

Lemma filing_weaken c k f L P n s :
  P c k f → (∀ f', ¬ L c k f') → inv (filing c k f L) (filing c k f P) n s → inv L P n s.
Proof using.
  intros HP HL. apply inv_weaken; intros c' k' f'; unfold filing; case_decide as Hc; try done.
  - destruct Hc as [-> ->]. intros Hf. by destruct (HL f').
  - by destruct Hc as [-> ->]; intros ->.
Qed.

(** Requests that can replace or delete a staged object *)
Definition replaces (k : CacheKey.t) (r : Request) : bool :=
  match r with
  | RPutStaging stream =>
      match collect_stream "empty put_staging chunk" stream None [] with
      | Ok (Some m, _) => staging_key m == k
      | _ => false
      end
  | RDeleteStaging k' => k' == k
  | _ => false
  end.

(** What a handler leaves, however it ends *)
Lemma run_inv {E A} (m : action (CacheState B) E A) R (I : CacheState B → Prop) s :
  hoare R m (λ _, I) I → R s → I (m s).1.
Proof using. intros Hm Hs. specialize (Hm s Hs). by destruct (m s) as [s' []]. Qed.

Lemma serve_inv L n s r :
  evictable L → inv L any_files (S n) s → (∀ k f, L Staging k f → replaces k r = false) →
  inv L any_files n (serve h clock svc s r).
Proof using.
  intros HL Hinv Hr.
  assert (Hexpired : ∀ k s', inv (without Restored k L) any_files n s' → inv L any_files n s').
  { intros k s'. apply inv_weaken; [|done]. intros c k' f Hf. split; [|done].
    intros [-> ->]. by destruct (HL k f). }
  assert (Hremoved : ∀ c k s', (∀ f, ¬ L c k f) →
    inv (without c k L) (without c k any_files) n s' → inv L any_files n s')
    by (intros c k s'; apply without_weaken).
  destruct r as [stream|stream|k|k|k|k|l a|k|]; cbn [serve].
  - eapply run_inv; [|exact Hinv]. eapply hoare_weaken; [by apply put_staging_files|done| |done].
    intros resp s' (m & data & t & Hm & _ & Hs'). eapply filing_weaken; [done| |exact Hs'].
    intros f Hf. specialize (Hr _ _ Hf). simpl in Hr. rewrite Hm in Hr.
    by rewrite bool_decide_eq_true_2 in Hr.
  - eapply run_inv; [|exact Hinv]. eapply hoare_weaken; [by apply put_restored_files|done| |done].
    intros resp s' (m & data & at_ & t & _ & _ & _ & Hs'). eapply filing_weaken; [done|apply HL|exact Hs'].
  - eapply run_inv; [|by apply inv_S]. eapply hoare_weaken; [apply delete_removes|done| |done].
    intros ? s'. apply Hremoved, HL.
  - eapply run_inv; [|by apply inv_S].
    eapply hoare_weaken; [apply get_filed|done|by intros ?? []|apply Hexpired].
  - eapply run_inv; [|by apply inv_S].
    eapply hoare_weaken; [apply contains_filed|done| |apply Hexpired].
    intros [[] t] s'; [by intros []|intros [Hs' _]; by eapply Hexpired].
  - eapply run_inv; [|by apply inv_S].
    eapply hoare_weaken; [apply get_staging_filed|done|by intros ?? []|done].
  - by apply inv_S.
  - eapply run_inv; [|by apply inv_S]. eapply hoare_weaken; [apply delete_staging_removes|done| |done].
    intros ? s'. apply Hremoved. intros f Hf. specialize (Hr _ _ Hf). simpl in Hr.
    by rewrite bool_decide_eq_true_2 in Hr.
  - eapply run_inv; [|by apply inv_S]. apply stats_keeps.
Qed.

Lemma serve_all_inv L n s rs :
  evictable L → inv L any_files (length rs + n) s →
  Forall (λ r, ∀ k f, L Staging k f → replaces k r = false) rs →
  inv L any_files n (serve_all h clock svc s rs).
Proof using.
  intros HL Hinv Hrs. revert s Hinv. induction Hrs as [|r rs Hr _ IH]; intros s Hinv; [done|].
  simpl. apply IH. by apply serve_inv.
Qed.

(** *** Upper bounds only *)

Abbreviation bounded P n := (inv no_files P n).
Abbreviation keeps_bound P n m := (hoare (bounded P n) m (λ _, bounded P n) (bounded P n)).
Lemma evictable_none : evictable no_files.
Proof using. by intros k f []. Qed.
Lemma none_filed c k f : ¬ no_files c k f.
Proof using. by intros []. Qed.
Lemma empty_bounded P n s : index s = default_index → writable n (backend s) → bounded P n s.
Proof using.
  intros Hi Hw. split; [rewrite Hi; apply default_wf|]. split; [done|]. split; [by intros ??? []|].
  intros c k f (e & He & _)%lookup_cached. rewrite Hi in He. destruct c; simpl in He;
    by rewrite lookup_empty in He.
Qed.
Lemma nothing_required c k P n s : inv (without c k no_files) P n s → bounded P n s.
Proof using. apply inv_weaken; [by intros ??? []|done]. Qed.

Lemma put_staging_keeps P n stream :
  (∀ m data t, collect_stream "empty put_staging chunk" stream None [] = Ok (Some m, data) →
     P Staging (staging_key m) (staged_file m data t)) →
  hoare (bounded P (S n)) (put_staging h clock svc stream) (λ _, bounded P n) (bounded P n).
Proof using.
  intros HP. eapply hoare_weaken; [apply put_staging_files, evictable_none|done| |done].
  intros ? s (m & data & t & Hm & _ & Hs). eapply filing_weaken; [by apply HP|apply none_filed|exact Hs].
Qed.
Lemma put_restored_keeps P n stream :
  (∀ m data expire_at t,
     collect_stream "empty put_restored chunk" stream None [] = Ok (Some m, data) →
     P Restored (restored_key m) (restored_file m data expire_at t)) →
  hoare (bounded P (S n)) (put_restored h clock svc stream) (λ _, bounded P n) (bounded P n).
Proof using.
  intros HP. eapply hoare_weaken; [apply put_restored_files, evictable_none|done| |done].
  intros ? s (m & data & at_ & t & Hm & _ & _ & Hs). eapply filing_weaken; [by apply HP|apply none_filed|exact Hs].
Qed.
Lemma get_bounded P n k :
  hoare (bounded P n) (get h clock k)
    (λ messages s, bounded P n s ∧ ∃ f, P Restored k f ∧ sent_of get_messages f messages)
    (bounded P n).
Proof using.
  eapply hoare_weaken; [apply get_filed|done|done|]. intros s. apply nothing_required.
Qed.
Lemma get_keeps P n k : keeps_bound P n (get h clock k).
Proof using. eapply hoare_weaken; [apply get_bounded|done|by intros ?? []|done]. Qed.
Lemma get_staging_keeps P n k : keeps_bound P n (get_staging k).
Proof using. eapply hoare_weaken; [apply get_staging_filed|done|by intros ?? []|done]. Qed.
Lemma delete_keeps P n k : keeps_bound P n (delete_ h k).
Proof using.
  eapply hoare_weaken; [apply delete_removes|done| |done]. intros ? s. apply without_weaken, none_filed.
Qed.
Lemma delete_staging_keeps P n k : keeps_bound P n (delete_staging h k).
Proof using.
  eapply hoare_weaken; [apply delete_staging_removes|done| |done]. intros ? s. apply without_weaken, none_filed.
Qed.
End keeps.
