(* ===== verification/CacheEviction.v ===== *)
(** * Eviction

    What eviction and the reclaiming of expired objects do to the index: only
    restored entries leave it, in the order of the policy; and the arithmetic
    of the bytes the index accounts for. *)

From Stdlib Require Import ZArith Lia String.
From S2P Require Import Prelude Hoare Proto RustStr F64 CacheBackend Cache CacheInvariants.

Local Open Scope string_scope.
Local Open Scope list_scope.
Local Open Scope stdpp_scope.

(** ** Bytes *)

(** The bytes of the entries of an index, not wrapped to 64 bits *)
Definition footprint (h : hash_order) (i : CacheIndex) : Z :=
  (Zsum (sizes h (staging i)) + Zsum (sizes h (restored i)))%Z.

(** Sizes are unsigned. *)
Definition sized (i : CacheIndex) : Prop :=
  ∀ c k e, entries c i !! k = Some e → (0 ≤ StoredEntry.size e)%Z.

(** Staged entries stay, restored ones can leave, and the counter of used bytes
    stays the sum if it was. *)
Definition shrinks (h : hash_order) (i i' : CacheIndex) : Prop :=
  staging i' = staging i ∧ restored i' ⊆ restored i ∧
  (used_capacity i = used_of h i → used_capacity i' = used_of h i').

#[export] Instance shrinks_preorder h : PreOrder (shrinks h).
Proof.
  split; [by split|]. intros i1 i2 i3 (Hs1 & Hr1 & Hu1) (Hs2 & Hr2 & Hu2).
  split; [congruence|]. split; [by transitivity (restored i2)|auto].
Qed.

Lemma Zsum_sizes_nonneg h (m : entry_map) :
  (∀ k e, m !! k = Some e → (0 ≤ StoredEntry.size e)%Z) → (0 ≤ Zsum (sizes h m))%Z.
Proof.
  intros Hm. apply Zsum_nonneg, Forall_forall. intros z Hz. unfold sizes in Hz.
  apply list_elem_of_fmap in Hz as (e & -> & [k Hk]%elem_of_hm_values). eauto.
Qed.

Lemma Zsum_sizes_mono h (m' m : entry_map) :
  m' ⊆ m → (∀ k e, m !! k = Some e → (0 ≤ StoredEntry.size e)%Z) →
  (Zsum (sizes h m') ≤ Zsum (sizes h m))%Z.
Proof.
  revert m. induction m' as [|k e m' Hk IH] using map_ind; intros m Hsub Hpos.
  { unfold sizes at 1. rewrite hm_values_perm, map_to_list_empty.
    by apply Zsum_sizes_nonneg. }
  assert (m !! k = Some e) as Hm by (eapply lookup_weaken; [apply lookup_insert_eq|done]).
  rewrite (sizes_delete h m k e Hm), sizes_insert_new by done. rewrite !Zsum_cons.
  assert (Zsum (sizes h m') ≤ Zsum (sizes h (delete k m)))%Z; [|lia]. apply IH.
  - apply map_subseteq_spec. intros k' e' Hk'.
    rewrite lookup_delete_ne by congruence. eapply lookup_weaken; [|exact Hsub].
    by rewrite lookup_insert_ne by congruence.
  - intros k' e' [_ Hk']%lookup_delete_Some. eauto.
Qed.

Lemma footprint_shrinks h i i' : sized i → shrinks h i i' → (footprint h i' ≤ footprint h i)%Z.
Proof.
  intros Hi (Hs & Hr & _). unfold footprint. rewrite Hs.
  pose proof (Zsum_sizes_mono h _ _ Hr (Hi Restored)). lia.
Qed.

Lemma sized_shrinks h i i' : sized i → shrinks h i i' → sized i'.
Proof.
  intros Hi (Hs & Hr & _) [] k e; simpl; [rewrite Hs; apply (Hi Staging)|].
  intros Hk. apply (Hi Restored k). by eapply lookup_weaken.
Qed.

Lemma footprint_nonneg h i : sized i → (0 ≤ footprint h i)%Z.
Proof.
  intros Hi. unfold footprint. pose proof (Zsum_sizes_nonneg h _ (Hi Staging)).
  pose proof (Zsum_sizes_nonneg h _ (Hi Restored)). simpl in *. lia.
Qed.

(** While it fits in 64 bits the counter is the sum. *)
Lemma used_of_footprint h i :
  sized i → (footprint h i ≤ u64_MAX)%Z → used_of h i = footprint h i.
Proof.
  intros Hi Hmax. unfold used_of. rewrite u64_sum_wrap, Zsum_app. apply wrap64_small.
  pose proof (footprint_nonneg h i Hi). unfold is_u64, footprint in *. lia.
Qed.

(** The bytes after an entry is put *)
Lemma footprint_put h c k e i :
  footprint h (recompute_used_capacity h (set_entries c (<[k := e]> (entries c i)) i)) =
  (footprint h i - default 0 (StoredEntry.size <$> entries c i !! k) + StoredEntry.size e)%Z.
Proof.
  unfold footprint. destruct (entries c i !! k) as [e'|] eqn:Hk; destruct c; simpl in *;
    rewrite ?(sizes_insert h _ k e), ?(sizes_delete h _ k e' Hk), ?Zsum_cons;
    rewrite ?(sizes_insert_new h _ k e Hk), ?Zsum_cons; try lia;
    rewrite delete_id by done; lia.
Qed.

(** ** The policies *)

(** Lists of numbers in lexicographic order *)
Fixpoint lex_le (a b : list Z) : Prop :=
  match a, b with
  | x :: a, y :: b => (x < y)%Z ∨ (x = y ∧ lex_le a b)
  | _, _ => True
  end.

(** What comes first: least recently, or least frequently used *)
Definition evicted_before (policy : EvictionPolicy) (e e' : StoredEntry.t) : Prop :=
  let x := e.(StoredEntry.xattrs) in
  let y := e'.(StoredEntry.xattrs) in
  match policy with
  | Lru => lex_le
      [x.(CacheXattrs.last_access_at); x.(CacheXattrs.cached_at); x.(CacheXattrs.size);
       x.(CacheXattrs.access_count)]
      [y.(CacheXattrs.last_access_at); y.(CacheXattrs.cached_at); y.(CacheXattrs.size);
       y.(CacheXattrs.access_count)]
  | Lfu => lex_le
      [x.(CacheXattrs.access_count); x.(CacheXattrs.last_access_at); x.(CacheXattrs.cached_at);
       x.(CacheXattrs.size)]
      [y.(CacheXattrs.access_count); y.(CacheXattrs.last_access_at); y.(CacheXattrs.cached_at);
       y.(CacheXattrs.size)]
  end.

Lemma cmp_then_le {A} (f : A → Z) (rest : A → A → comparison) (x y : A) :
  cmp_le (cmp_then (cmp_on f Z.compare) rest) x y →
  (f x < f y)%Z ∨ (f x = f y ∧ cmp_le rest x y).
Proof.
  unfold cmp_le, cmp_then, cmp_on, then_with. destruct (Z.compare_spec (f x) (f y)); auto. done.
Qed.
Lemma policy_before policy p q :
  cmp_le (policy_cmp policy) p q → evicted_before policy p.2 q.2.
Proof.
  unfold policy_cmp, lfu_cmp, lru_cmp, evicted_before. destruct policy; simpl.
  all: do 4 (intros [?|[? Hle]]%cmp_then_le; [by auto|right; split; [done|]; revert Hle]); done.
Qed.

(** ** Bytes against the budgets *)

(** While the sums fit in 64 bits, no pressure means that the bytes fit. *)
Lemma no_pressure_fits (h : hash_order) (svc : Settings) size c total i :
  used_capacity i = used_of h i → sized i → (0 ≤ size)%Z → (footprint h i ≤ u64_MAX)%Z →
  (total < u64_MAX)%Z → should_evict (pressure_of h svc size c total i) = false →
  let budgets := split_capacity_by_static_ratio svc total in
  (footprint h i + size ≤ total)%Z ∧
  (Zsum (sizes h (staging i)) + (if decide (c = Staging) then size else 0) ≤ budgets.1)%Z ∧
  (Zsum (sizes h (restored i)) + (if decide (c = Restored) then size else 0) ≤ budgets.2)%Z.
Proof.
  intros Hused Hi Hsize Hfoot Htotal. unfold should_evict, pressure_of.
  destruct (split_capacity_by_static_ratio svc total) as [sb rb]. simpl.
  rewrite !orb_false_iff, !Z.ltb_ge. intros [[[Hs Hr] _] Hu].
  pose proof (Zsum_sizes_nonneg h _ (Hi Staging)) as Hsn.
  pose proof (Zsum_sizes_nonneg h _ (Hi Restored)) as Hrn. simpl in Hsn, Hrn.
  rewrite Hused, used_of_footprint in Hu by done.
  unfold staging_used, restored_used in *. rewrite u64_sum_wrap, wrap64_small in Hs, Hr
    by (unfold is_u64, footprint in *; lia).
  unfold saturating_add, footprint in *. destruct c; simpl in *; repeat case_decide; try done; lia.
Qed.

(** ** Runs *)

Section runs.
Context {B : Type} `{CacheBackend B}.
Context (h : hash_order) (clock : nat → Z) (svc : Settings).

Abbreviation order := (policy_cmp (cs_eviction_policy svc)).

(** What leaves the index is before what stays, in the order of the policy. *)
Definition evicts (i i' : CacheIndex) : Prop :=
  shrinks h i i' ∧
  ∀ k e k' e', restored i !! k = Some e → restored i' !! k = None →
    restored i' !! k' = Some e' → cmp_le order (k, e) (k', e').

Lemma removal_shrinks k i i' : removal h Restored k i i' → shrinks h i i'.
Proof using.
  intros (Hd & Hne & Hu). split; [by apply (Hne Staging)|]. split; [|done].
  simpl in Hd. rewrite Hd. apply delete_subseteq.
Qed.

Lemma evict_victim_evicts i0 s victim :
  evicts i0 (index s) → select_eviction_candidate h svc (index s) Restored = Some victim →
  evicts i0 (index (evict_victim h Restored victim s).1).
Proof using.
  intros [Hsh Hord] [Hk Hmin]%select_Some.
  destruct (evict_victim_run h s victim Hk) as (s' & r & b' & t & -> & _ & Hcase). simpl.
  destruct t as [[]|err].
  - destruct Hcase as (_ & Hr & _). split; [transitivity (index s); eauto using removal_shrinks|].
    destruct Hr as (Hd & _). simpl in Hd. rewrite Hd. intros k e k' e' Hin Hout Hin'.
    apply lookup_delete_Some in Hin' as [Hne' Hin'].
    apply lookup_delete_None in Hout as [<-|Hout]; [|by apply Hord].
    assert ((victim.1, e) = victim) as ->; [|by apply Hmin].
    assert (e = victim.2) as ->; [|by destruct victim].
    destruct Hsh as (_ & Hsub & _). pose proof (lookup_weaken _ _ _ _ Hk Hsub). congruence.
  - destruct Hcase as (_ & _ & Hs & Hr & Hu). unfold evicts, shrinks, used_of.
    rewrite Hs, Hr, Hu. split; [|done]. by destruct Hsh as (? & ? & ?).
Qed.

Lemma total_run s s' r :
  effective_total_capacity svc s = (s', r) →
  index s' = index s ∧ ∀ total, r = Ok total → (total ≤ cs_max_size_bytes svc)%Z.
Proof using.
  unfold effective_total_capacity, get_index, on_backend. unfold_action.
  destruct (be_available_bytes (backend s)) as [b' [n|err]]; intros [= <- <-];
    (split; [done|]); [|done]. intros total [= <-]. lia.
Qed.

(** [evict_if_needed] evicts in the order of the policy, and succeeds only
    when the incoming bytes fit. *)
Lemma evict_if_needed_run size c s s' r :
  evict_if_needed h svc size c s = (s', r) →
  evicts (index s) (index s') ∧
  (r = Ok tt → size ≠ 0%Z → ∃ total, (total ≤ cs_max_size_bytes svc)%Z ∧
     should_evict (pressure_of h svc size c total (index s')) = false).
Proof using.
  assert (Hrefl : ∀ i, evicts i i) by (intros i; split; [done|congruence]).
  unfold evict_if_needed. destruct (Z.eqb_spec size 0) as [->|Hne]; [by intros [= <- <-]|].
  unfold_action. destruct (effective_total_capacity svc s) as [s1 r1] eqn:Ht.
  apply total_run in Ht as [Hi Hmax]. rewrite <-Hi.
  destruct r1 as [total|err]; [|by intros [= <- <-]]. specialize (Hmax total eq_refl).
  destruct (total =? 0)%Z; [by intros [= <- <-]|].
  destruct (total <? size)%Z; [by intros [= <- <-]|].
  pose proof (evict_loop_ind h svc (λ s, evicts (index s1) (index s))
    (Z.to_nat (evict_batch_size svc)) size c total s1) as Hloop.
  pose proof (evict_loop_true h svc (Z.to_nat (evict_batch_size svc)) size c total s1) as Htrue.
  specialize (Hloop (λ s v Hs _ Hsel, evict_victim_evicts _ s v Hs Hsel) (Hrefl _)).
  destruct (evict_loop h svc _ size c total s1) as [s2 [[]|err]]; simpl in Hloop.
  - intros [= <- <-]. split; [done|]. eauto.
  - unfold check_room, get_index. unfold_action.
    destruct (should_evict _) eqn:Hev; cbn [negb]; [|intros [= <- <-]; eauto].
    intros Hrun. assert (s' = s2 ∧ (r = Ok tt → False)) as [-> Herr]; [|by split].
    revert Hrun. unfold should_evict in Hev. 
    destruct (staging_budget _ <? _)%Z; [by intros [= <- <-]|].
    destruct (restored_budget _ <? _)%Z; [by intros [= <- <-]|].
    destruct (total_capacity _ <? _)%Z; [by intros [= <- <-]|].
    destruct (over_watermark _); [by intros [= <- <-]|]. done.
  - intros [= <- <-]. by split.
Qed.

Lemma delete_entry_shrinks i k :
  hoare (λ s, shrinks h i (index s)) (delete_entry h k Restored)
    (λ _ s, shrinks h i (index s)) (λ s, shrinks h i (index s)).
Proof using.
  intros s Hs. unfold delete_entry, get_index, on_backend, modify_index. unfold_action.
  destruct (entries Restored (index s) !! k) as [e|] eqn:Hk; [|done].
  destruct (be_delete _ (backend s)) as [b' [[]|err]]; [|done].
  cbn [index backend ticks]. rewrite Hk, Z.eqb_refl. etrans; [exact Hs|].
  apply (removal_shrinks k), removal_delete.
Qed.

Lemma reclaim_shrinks skip s :
  shrinks h (index s) (index (reclaim_expired_restored_except h clock skip s).1).
Proof using.
  unfold reclaim_expired_restored_except, now_unix, get_index. unfold_action.
  cbn [index backend ticks]. set (l := List.filter _ _).
  pose proof (hoare_foldr (λ p : CacheKey.t * StoredEntry.t,
    discard (delete_entry h p.1 Restored)) l (λ s', shrinks h (index s) (index s'))) as Hf.
  specialize (Hf (λ p, hoare_discard _ _ _ _ (delete_entry_shrinks (index s) p.1))).
  specialize (Hf (mkCache (index s) (backend s) (S (ticks s)))). simpl in Hf.
  specialize (Hf (reflexivity _)). unfold_action.
  match goal with |- shrinks _ _ (index ?run.1) => destruct run as [s' []] end; exact Hf.
Qed.

Lemma ensure_run size s s' r :
  ensure_object_size_within_total_capacity svc size s = (s', r) → index s' = index s.
Proof using.
  unfold ensure_object_size_within_total_capacity. unfold_action.
  destruct (effective_total_capacity svc s) as [s1 [total|err]] eqn:Ht;
    apply total_run in Ht as [Hi _]; [|by intros [= <- _]].
  destruct (total =? 0)%Z; [by intros [= <- _]|]. by intros [= <- _].
Qed.

(** [put_bytes] shrinks the index to one that has room for the new bytes, then
    files the object; when it fails it only shrinks it. *)
Lemma put_bytes_run k data x s s' r :
  put_bytes h clock svc k data x s = (s', r) →
  ∃ i1, shrinks h (index s) i1 ∧
  match r with
  | Err _ => index s' = i1
  | Ok id =>
      let c := x.(CacheXattrs.category) in
      let delta := saturating_sub x.(CacheXattrs.size)
        (default 0%Z (StoredEntry.size <$> entries c (index s) !! k)) in
      index s' = recompute_used_capacity h
        (set_entries c (<[k := StoredEntry.mk id x]> (entries c i1)) i1) ∧
      (delta ≠ 0%Z → ∃ total, (total ≤ cs_max_size_bytes svc)%Z ∧
         should_evict (pressure_of h svc delta c total i1) = false)
  end.
Proof using.
  unfold put_bytes, find_entry, get_index. unfold_action.
  destruct (ensure_object_size_within_total_capacity svc _ s) as [s1 [[]|err]] eqn:He;
    apply ensure_run in He as Hi1; [|by intros [= <- <-]; exists (index s); rewrite Hi1].
  cbn [negb]. set (skip := if CacheXattrs.category x == Restored then Some k else None).
  set (c := CacheXattrs.category x). rewrite Hi1. set (delta := saturating_sub _ _).
  pose proof (reclaim_shrinks skip s1) as Hsh.
  destruct (reclaim_expired_restored_except h clock skip s1) as [s2 [[]|err]];
    simpl in Hsh; rewrite Hi1 in Hsh; [|by intros [= <- <-]; eauto].
  destruct (evict_if_needed h svc delta c s2) as [s3 r3] eqn:Hev.
  apply evict_if_needed_run in Hev as [[Hsh3 _] Hroom].
  assert (Hsh' : shrinks h (index s) (index s3)) by (by transitivity (index s2)).
  destruct r3 as [[]|err]; [|by intros [= <- <-]; eauto].
  unfold on_backend, insert_entry, get_index, modify_index, discard. unfold_action.
  destruct (be_write _ data x (backend s3)) as [b' [id|err]]; [|by intros [= <- <-]; eauto].
  cbn [index backend ticks StoredEntry.xattrs]. fold c. intros Hrun.
  exists (index s3). split; [done|].
  assert (r = Ok id ∧ index s' = recompute_used_capacity h
    (set_entries c (<[k := StoredEntry.mk id x]> (entries c (index s3))) (index s3)))
    as [-> Hi']; [|by split; [|intros; apply Hroom]].
  revert Hrun. destruct (entries c (index s3) !! k) as [prev|]; [|by intros [= <- <-]].
  destruct (_ =? id)%Z; [by intros [= <- <-]|].
  cbn [index backend ticks].
  destruct (be_delete prev.(StoredEntry.storage_id) b') as [b2 r2]. by intros [= <- <-].
Qed.
End runs.
