(* ===== verification/CacheRebuild.v ===== *)
(** * Rebuilding the index

    What the loop of [rebuild_index] computes from the list of stored objects:
    for each category and key the newest object, and the identifiers of the
    others. *)

From Stdlib Require Import ZArith Lia String.
From S2P Require Import Prelude Hoare Proto RustStr F64 CacheBackend Cache CacheInvariants.

Local Open Scope list_scope.
Local Open Scope stdpp_scope.

Abbreviation object := (Z * CacheXattrs.t)%type.

Definition entry_of (p : object) : StoredEntry.t := StoredEntry.mk p.1 p.2.
Definition object_of (e : StoredEntry.t) : object :=
  (e.(StoredEntry.storage_id), e.(StoredEntry.xattrs)).

(** The place of an object in the index *)
Definition slot_of (p : object) : CacheCategory * CacheKey.t :=
  (p.2.(CacheXattrs.category), key_of p.2).

(** [p] was cached later than [q], or at the same second under a greater
    identifier. *)
Definition outranks (p q : object) : Prop :=
  (q.2.(CacheXattrs.cached_at) < p.2.(CacheXattrs.cached_at))%Z ∨
  (q.2.(CacheXattrs.cached_at) = p.2.(CacheXattrs.cached_at) ∧ q.1 < p.1)%Z.

(** [p] is the newest object of its place. *)
Definition newest (l : list object) (p : object) : Prop :=
  p ∈ l ∧ ∀ q, q ∈ l → slot_of q = slot_of p → q = p ∨ outranks p q.

Lemma should_replace_spec current candidate :
  rebuilt_entry_should_replace current candidate = true ↔
  outranks (object_of candidate) (object_of current).
Proof.
  unfold rebuilt_entry_should_replace, outranks. simpl.
  rewrite orb_true_iff, andb_true_iff, !Z.ltb_lt, Z.eqb_eq. lia.
Qed.

Lemma outranks_trans p q r : outranks p q → outranks q r → outranks p r.
Proof. unfold outranks. lia. Qed.

Lemma outranks_total p q : p.1 ≠ q.1 → outranks p q ∨ outranks q p.
Proof. unfold outranks. lia. Qed.

Lemma outranks_irrefl p : ¬ outranks p p.
Proof. unfold outranks. lia. Qed.

(** What is known after the objects [l] *)
Record rebuilt (l : list object) (i : CacheIndex) (stale : list Z) : Prop := {
  rebuilt_entries c k e :
    entries c i !! k = Some e ↔ newest l (object_of e) ∧ slot_of (object_of e) = (c, k);
  rebuilt_covers p : p ∈ l → is_Some (entries (slot_of p).1 i !! (slot_of p).2);
  rebuilt_stale id : id ∈ stale → id ∈ l.*1 ∧
    ∀ c k e, entries c i !! k = Some e → e.(StoredEntry.storage_id) ≠ id;
  rebuilt_sorted p : p ∈ l → newest l p ∨ p.1 ∈ stale;
  rebuilt_once : NoDup stale;
}.

Lemma newest_snoc l p q :
  p.1 ∉ l.*1 → newest (l ++ [p]) q ↔
    (q = p ∧ ∀ q', q' ∈ l → slot_of q' = slot_of p → outranks p q') ∨
    (newest l q ∧ (slot_of p = slot_of q → outranks q p)).
Proof.
  intros Hp. assert (Hnp : p ∉ l).
  { intros Hin. apply Hp, list_elem_of_fmap. by exists p. }
  unfold newest. setoid_rewrite elem_of_app. setoid_rewrite list_elem_of_singleton.
  split.
  - intros [[Hq| ->] Hmax]; [right|left].
    + split; [split; [done|]|].
      * intros q' Hq'. apply Hmax. by left.
      * intros Hs. destruct (Hmax p (or_intror eq_refl) Hs) as [->|?]; done.
    + split; [done|]. intros q' Hq' Hs.
      destruct (Hmax q' (or_introl Hq') Hs) as [->|?]; done.
  - intros [[-> Hmax]|[[Hq Hmax] Hp']].
    + split; [by right|]. intros q' [Hq'| ->] Hs; [right; by apply Hmax|by left].
    + split; [by left|]. intros q' [Hq'| ->] Hs; [by apply Hmax|right; by apply Hp'].
Qed.

Lemma lookup_set_insert c k e i c' k' :
  entries c' (set_entries c (<[k := e]> (entries c i)) i) !! k' =
  if decide ((c', k') = (c, k)) then Some e else entries c' i !! k'.
Proof.
  destruct (decide (c' = c)) as [->|Hc].
  - rewrite entries_set_eq, lookup_insert. repeat case_decide; naive_solver.
  - rewrite entries_set_ne by done. case_decide; naive_solver.
Qed.

Lemma NoDup_fst_inj {A C} (l : list (A * C)) p q :
  NoDup l.*1 → p ∈ l → q ∈ l → p.1 = q.1 → p = q.
Proof.
  intros Hnd [i Hi]%list_elem_of_lookup [j Hj]%list_elem_of_lookup E.
  assert (i = j) as ->; [|congruence].
  eapply (NoDup_lookup l.*1 i j p.1); rewrite ?list_lookup_fmap; [done|by rewrite Hi|].
  by rewrite Hj, E.
Qed.

(** Filing [p], which outranks whatever was in its place *)
Lemma rebuilt_file l i stale p old :
  rebuilt l i stale → NoDup l.*1 → p.1 ∉ l.*1 →
  entries (slot_of p).1 i !! (slot_of p).2 = old →
  (∀ e, old = Some e → outranks p (object_of e)) →
  rebuilt (l ++ [p])
    (set_entries (slot_of p).1
      (<[(slot_of p).2 := entry_of p]> (entries (slot_of p).1 i)) i)
    (stale ++ match old with Some e => [e.(StoredEntry.storage_id)] | None => [] end).
Proof.
  intros [Hent Hcov Hst Hsort Honce] Hnd Hp Hold Hout.
  assert (Hbest : ∀ q, q ∈ l → slot_of q = slot_of p → outranks p q).
  { intros q Hq Hs. destruct (Hcov q Hq) as [e He]. rewrite Hs, Hold in He.
    specialize (Hout e He). rewrite He in Hold. apply Hent in Hold as [[_ Hmax] Hse].
    assert (Hs' : slot_of q = slot_of (object_of e))
      by (rewrite Hse, Hs; by destruct (slot_of p)).
    destruct (Hmax q Hq Hs') as [->|Hqe]; [done|]. by eapply outranks_trans. }
  split.
  - intros c k e. rewrite lookup_set_insert, newest_snoc by done. case_decide as Hck.
    + injection Hck as -> ->. split.
      * intros [= <-]. split; [left; by split; [destruct p|]|by destruct p].
      * intros [[[He _]|[Hn Hpe]] Hs].
        -- f_equal. destruct e, p. unfold object_of in He. simpl in He. by simplify_eq.
        -- exfalso. destruct (outranks_irrefl p). eapply outranks_trans.
           ++ apply (Hbest (object_of e)); [apply Hn|]. exact Hs.
           ++ apply Hpe. exact (eq_sym Hs).
    + rewrite Hent. split.
      * intros [Hn Hs]. split; [right; split; [done|]|done].
        intros E. destruct Hck. rewrite <-Hs, <-E. by destruct (slot_of p).
      * intros [[[He _]|[Hn _]] Hs]; [|done]. destruct Hck. rewrite <-Hs, He.
        by destruct (slot_of p).
  - intros q [Hq| ->%list_elem_of_singleton]%elem_of_app; rewrite lookup_set_insert.
    + case_decide; [by eexists|by apply Hcov].
    + rewrite decide_True by done. by eexists.
  - assert (Hnew : ∀ id, id ∈ l.*1 → p.1 ≠ id) by (intros id Hid <-; done).
    intros id. rewrite elem_of_app, fmap_app, elem_of_app. intros [Hid|Hid].
    + destruct (Hst id Hid) as [Hin Hne]. split; [by left|]. intros c k e.
      rewrite lookup_set_insert. case_decide; [|apply Hne]. intros [= <-]. by apply Hnew.
    + destruct old as [e0|]; [|by apply elem_of_nil in Hid].
      apply list_elem_of_singleton in Hid as ->. pose proof Hold as He0.
      apply Hent in He0 as [[Hin0 _] Hs0].
      assert (Hin : e0.(StoredEntry.storage_id) ∈ l.*1)
        by (apply list_elem_of_fmap; by exists (object_of e0)).
      split; [by left|]. intros c k e. rewrite lookup_set_insert.
      case_decide as Hck; [intros [= <-]; by apply Hnew|]. intros He Heq.
      apply Hent in He as [[Hine _] Hse].
      pose proof (NoDup_fst_inj _ _ _ Hnd Hine Hin0 Heq) as E.
      destruct Hck. rewrite <-Hse, E, Hs0. by destruct (slot_of p).
  - intros q. rewrite elem_of_app, list_elem_of_singleton, newest_snoc by done.
    intros [Hq| ->]; [|left; left; by split]. destruct (Hsort q Hq) as [Hn|Hs];
      [|right; apply elem_of_app; by left].
    destruct (decide (slot_of p = slot_of q)) as [Hpq|Hpq]; [|left; right; by split].
    right. apply elem_of_app. right. destruct (Hcov q Hq) as [e He].
    assert (object_of e = q) as Heq.
    { apply Hent in He as [[Hine Hmax] Hse]. destruct Hn as [_ Hmaxq].
      rewrite <-surjective_pairing in Hse. destruct (Hmaxq _ Hine Hse) as [|Ho]; [done|].
      destruct (Hmax q Hq (eq_sym Hse)) as [|Ho']; [done|].
      by destruct (outranks_irrefl q); eapply outranks_trans. }
    rewrite <-Hpq, Hold in He. rewrite He. apply list_elem_of_singleton. by rewrite <-Heq.
  - apply NoDup_app. split_and!; [done| |destruct old; repeat constructor; set_solver].
    destruct old as [e|]; [|set_solver]. intros id Hid Hin%list_elem_of_singleton.
    by destruct (Hst id Hid) as [_ Hne]; eapply Hne.
Qed.

(** An object that is outranked is stale. *)
Lemma rebuilt_lose l i stale p e :
  rebuilt l i stale → p.1 ∉ l.*1 →
  entries (slot_of p).1 i !! (slot_of p).2 = Some e → ¬ outranks p (object_of e) →
  rebuilt (l ++ [p]) i (stale ++ [p.1]).
Proof.
  intros [Hent Hcov Hst Hsort Honce] Hp He Hlose.
  assert (Hse : slot_of (object_of e) = slot_of p) by (apply Hent in He as [_ Hs]; exact Hs).
  assert (Hine : object_of e ∈ l) by (apply Hent in He as [[Hin _] _]; done).
  assert (Hids : ∀ q, q ∈ l → q.1 ≠ p.1)
    by (intros q Hq E; apply Hp; rewrite <-E; apply list_elem_of_fmap; by exists q).
  assert (Hwin : outranks (object_of e) p).
  { destruct (outranks_total p (object_of e)); [|done..]. intros E. by apply (Hids _ Hine). }
  split.
  - intros c k e'. rewrite Hent, newest_snoc by done. split.
    + intros [Hn Hs]. split; [right; split; [done|]|done]. intros Hps.
      destruct Hn as [Hin Hmax]. rewrite <-Hse in Hps.
      by destruct (Hmax _ Hine Hps) as [<-|Hr]; [|eapply outranks_trans].
    + intros [[[He' Hbest]|[Hn _]] Hs]; [|done].
      by destruct Hlose; apply Hbest.
  - intros q [Hq| ->%list_elem_of_singleton]%elem_of_app; [by apply Hcov|by eexists].
  - intros id. rewrite fmap_app, !elem_of_app. intros [Hid|Hid].
    + destruct (Hst id Hid). auto.
    + apply list_elem_of_singleton in Hid as ->. split; [right; by apply list_elem_of_singleton|].
      intros c k e' [[Hin _] _]%Hent. by apply (Hids _ Hin).
  - intros q. rewrite elem_of_app, list_elem_of_singleton, newest_snoc by done.
    intros [Hq| ->]; [|right; apply elem_of_app; right; by apply list_elem_of_singleton].
    destruct (Hsort q Hq) as [Hn|Hs]; [|right; apply elem_of_app; by left].
    left. right. split; [done|]. intros Hpq. destruct Hn as [_ Hmax].
    rewrite <-Hse in Hpq. by destruct (Hmax _ Hine Hpq) as [<-|Hr]; [|eapply outranks_trans].
  - apply NoDup_app. split_and!; [done| |repeat constructor; set_solver].
    intros id Hid ->%list_elem_of_singleton. apply Hp. by apply Hst.
Qed.

Lemma rebuild_step_spec l i stale p :
  rebuilt l i stale → NoDup l.*1 → p.1 ∉ l.*1 →
  rebuilt (l ++ [p]) (rebuild_step (i, stale) p).1 (rebuild_step (i, stale) p).2.
Proof.
  intros Hreb Hnd Hp. destruct p as [id x]. unfold rebuild_step.
  change (entries (CacheXattrs.category x) i !! key_of x)
    with (entries (slot_of (id, x)).1 i !! (slot_of (id, x)).2).
  destruct (entries (slot_of (id, x)).1 i !! (slot_of (id, x)).2) as [e|] eqn:He.
  - destruct (rebuilt_entry_should_replace e _) eqn:Hr; simpl.
    + apply should_replace_spec in Hr.
      apply (rebuilt_file l i stale (id, x) (Some e)); try done. by intros e' [= <-].
    + apply (rebuilt_lose l i stale (id, x) e); try done.
      intros Hout. change (id, x) with (object_of (StoredEntry.mk id x)) in Hout.
      apply should_replace_spec in Hout. congruence.
  - rewrite <-(app_nil_r stale) at 2. by apply (rebuilt_file l i stale (id, x) None).
Qed.

Lemma rebuild_fold l :
  NoDup l.*1 →
  rebuilt l (foldl rebuild_step (default_index, []) l).1
    (foldl rebuild_step (default_index, []) l).2.
Proof.
  induction l as [|p l IH] using rev_ind; intros Hnd.
  - split; simpl.
    + intros [] k e; simpl; rewrite lookup_empty; (split; [done|]);
        by intros [[?%elem_of_nil _] _].
    + by intros p ?%elem_of_nil.
    + by intros id ?%elem_of_nil.
    + by intros p ?%elem_of_nil.
    + constructor.
  - rewrite fmap_app in Hnd. apply NoDup_app in Hnd as (Hnd & Hni & _).
    rewrite foldl_snoc. destruct (foldl rebuild_step (default_index, []) l) as [i stale].
    apply rebuild_step_spec; [by apply IH|done|].
    intros Hin. apply (Hni _ Hin). by apply list_elem_of_singleton.
Qed.

Section run.
Context {B : Type} `{CacheBackendLaws B}.
Context (h : hash_order).

Lemma rebuilt_wf l i stale b :
  rebuilt l i stale → NoDup l.*1 →
  (∀ id x, (id, x) ∈ l → is_u64 id ∧ is_Some (stored b id)) →
  cache_wf h (recompute_used_capacity h i) b.
Proof using.
  intros [Hent Hcov Hst Hsort Honce] Hnd Hb. split; [| |done].
  - intros c k e. rewrite entries_recompute. intros [[Hin _] [= Hc Hk]]%Hent.
    by destruct (Hb _ _ Hin).
  - intros c1 k1 e1 c2 k2 e2. rewrite !entries_recompute.
    intros [[Hin1 _] Hs1]%Hent [[Hin2 _] Hs2]%Hent E.
    pose proof (NoDup_fst_inj _ _ _ Hnd Hin1 Hin2 E) as Eo. rewrite Eo, Hs2 in Hs1.
    by injection Hs1 as -> ->.
Qed.

(** Deleting the stale objects keeps the index and its well-formedness. *)
Lemma delete_stale_keeps n i stale s :
  inv h no_files any_files n s → index s = i → Forall is_u64 stale →
  (∀ id c k e, id ∈ stale → entries c i !! k = Some e → e.(StoredEntry.storage_id) ≠ id) →
  ∃ s', foldr (λ id rest, discard (on_backend (be_delete id));; rest) (mret tt) stale s =
    (s', Ok tt) ∧ inv h no_files any_files n s' ∧ index s' = i.
Proof using.
  intros Hinv Hi Hu Hst. revert s Hinv Hi.
  induction Hu as [|id stale Hid Hu IH]; intros s Hinv Hi; [by eexists|].
  cbn [foldr]. unfold discard, on_backend. unfold_action.
  destruct (be_delete id (backend s)) as [b' r] eqn:Hdel. cbn [fst].
  apply (IH (λ id' c k e Hin, Hst id' c k e (list_elem_of_further _ _ _ Hin))); [|done].
  eapply inv_orphan; [done|done| |exact Hdel]. intros c k e Hk. rewrite Hi in Hk.
  eapply Hst; [|exact Hk]. set_solver.
Qed.

(** What it leaves alone, and what is gone when the device works *)
Lemma delete_stale_others stale s :
  Forall is_u64 stale → ∀ id, is_u64 id → id ∉ stale →
  stored (backend (foldr (λ id rest, discard (on_backend (be_delete id));; rest) (mret tt) stale s
    : CacheState B * result string unit).1) id = stored (backend s) id.
Proof using.
  intros Hu id Hid. revert s. induction Hu as [|id0 stale Hid0 Hu IH]; intros s Hni; [done|].
  apply not_elem_of_cons in Hni as [Hne Hni]. cbn [foldr]. unfold discard, on_backend. unfold_action.
  destruct (be_delete id0 (backend s)) as [b' r] eqn:Hdel. cbn [fst]. rewrite IH by done.
  simpl. apply be_delete_spec in Hdel as [_ Hst]; [|done]. destruct r; by apply Hst.
Qed.
Lemma delete_stale_gone {works : CacheBackendWorks B} stale s :
  healthy (backend s) → NoDup stale → Forall is_u64 stale →
  (∀ id, id ∈ stale → is_Some (stored (backend s) id)) → ∀ id, id ∈ stale →
  stored (backend (foldr (λ id rest, discard (on_backend (be_delete id));; rest) (mret tt) stale s
    : CacheState B * result string unit).1) id = None.
Proof using.
  intros Hh Hnd Hu. revert s Hh. induction Hu as [|id0 stale Hid0 Hu IH]; intros s Hh Hst id; [set_solver|].
  apply NoDup_cons in Hnd as [Hni Hnd]. cbn [foldr]. unfold discard, on_backend. unfold_action.
  destruct (be_delete_works id0 (backend s) Hh) as (b' & Hdel & Hh' & Hgone); [apply Hst; set_solver|].
  rewrite Hdel. cbn [fst]. set (s1 := mkCache _ b' _).
  intros [->|Hin]%elem_of_cons.
  - etrans; [by apply (delete_stale_others stale s1 Hu id0 Hid0 Hni)|done].
  - apply (IH Hnd s1 Hh'); [|done]. intros id' Hid'. apply be_delete_spec in Hdel as [_ Hsame]; [|done].
    unfold s1. cbn [backend]. rewrite Hsame; [apply Hst; set_solver| |by intros ->].
    by apply (Forall_forall is_u64 stale).
Qed.

(** The run: the index, and what becomes of the stored objects *)
Lemma rebuild_index_stale s b1 l :
  be_list_all (backend s) = (b1, Ok l) → NoDup l.*1 →
  ∃ i stale, rebuilt l i stale ∧ Forall is_u64 stale ∧
    rebuild_index h s = foldr (λ id rest, discard (on_backend (be_delete id));; rest) (mret tt) stale
      (mkCache (recompute_used_capacity h i) b1 (ticks s)).
Proof using All.
  intros Hl Hnd. unfold rebuild_index, on_backend, modify_index. unfold_action. rewrite Hl.
  apply be_list_all_spec in Hl as (Hb & Hwb & Hin).
  pose proof (rebuild_fold l Hnd) as Hreb.
  destruct (foldl rebuild_step (default_index, []) l) as [i stale]. cbn [fst snd] in Hreb.
  exists i, stale. split; [done|]. split; [|done]. apply Forall_forall.
  intros id [Hid _]%(rebuilt_stale _ _ _ Hreb). apply list_elem_of_fmap in Hid as ([? x] & -> & Hx).
  by destruct (Hin l _ x eq_refl Hx).
Qed.
Lemma rebuild_index_objects {works : CacheBackendWorks B} s b1 l :
  be_list_all (backend s) = (b1, Ok l) → NoDup l.*1 →
  ∀ p, p ∈ l →
    (newest l p → stored (backend (rebuild_index h s).1) p.1 = stored (backend s) p.1) ∧
    (¬ newest l p → healthy b1 → stored (backend (rebuild_index h s).1) p.1 = None).
Proof using.
  intros Hl Hnd p Hp. destruct (rebuild_index_stale s b1 l Hl Hnd) as (i & stale & Hreb & Hu & ->).
  apply be_list_all_spec in Hl as (Hb & _ & Hin). destruct p as [id x].
  destruct (Hin l id x eq_refl Hp) as [Hid _]. simpl. split.
  - intros Hn. rewrite delete_stale_others; [by apply Hb|done..|]. intros [_ Hne]%(rebuilt_stale _ _ _ Hreb).
    pose proof (proj2 (rebuilt_entries _ _ _ Hreb (slot_of (id, x)).1 (slot_of (id, x)).2
      (StoredEntry.mk id x)) (conj Hn eq_refl)) as He. by apply (Hne _ _ _ He).
  - intros Hn Hh. destruct (rebuilt_sorted _ _ _ Hreb _ Hp) as [|Hstale]; [done|].
    apply delete_stale_gone; [done|apply (rebuilt_once _ _ _ Hreb)|done| |done].
    intros id' [Hid' _]%(rebuilt_stale _ _ _ Hreb). apply list_elem_of_fmap in Hid' as ([? x'] & -> & Hx').
    destruct (Hin l _ x' eq_refl Hx') as [Hu' [d Hd]]. simpl. rewrite Hb by done. by rewrite Hd.
Qed.

Lemma rebuild_index_run n s b1 l :
  be_list_all (backend s) = (b1, Ok l) → NoDup l.*1 → writable n (backend s) →
  ∃ s', rebuild_index h s = (s', Ok tt) ∧ inv h no_files any_files n s' ∧
    ∀ c k e, entries c (index s') !! k = Some e ↔
      newest l (object_of e) ∧ slot_of (object_of e) = (c, k).
Proof using.
  intros Hl Hnd Hw. destruct (rebuild_index_stale s b1 l Hl Hnd) as (i & stale & Hreb & Hu & ->).
  apply be_list_all_spec in Hl as (Hb & Hwb & Hin). pose proof Hreb as [Hent Hcov Hst Hsort Honce].
  destruct (delete_stale_keeps n (recompute_used_capacity h i) stale
    (mkCache (recompute_used_capacity h i) b1 (ticks s))) as (s' & Hrun & Hinv & Hi); try done.
  - split; [|split; [by apply Hwb|by split]]. cbn [index backend].
    eapply rebuilt_wf; [done..|]. intros id x Hx.
    destruct (Hin l id x eq_refl Hx) as [Hid [d Hd]]. rewrite Hb by done. by rewrite Hd.
  - intros id c k e Hid. rewrite entries_recompute. by apply Hst.
  - exists s'. split; [done|]. split; [done|]. intros c k e. rewrite Hi, entries_recompute.
    apply Hent.
Qed.
End run.
