(* ===== verification/CacheTheorems.v ===== *)
(** * Theorems on the cache worker

    What the cache promises to the services that use it: staged objects are
    kept until they are replaced or deleted, writes stay within the capacity,
    eviction follows the policy, a restart rebuilds the index; and where the
    code does not keep to its configuration. *)

From Stdlib Require Import ZArith Lia String.
From S2P Require Import Prelude Hoare Proto RustStr F64 CacheBackend Cache CacheInvariants CacheEviction CacheRebuild Snapshot.

Local Open Scope string_scope.
Local Open Scope list_scope.
Local Open Scope stdpp_scope.

(** ** Chunks *)

Lemma concat_chunks_loop {A} fuel n (l : list A) :
  (0 < n)%nat → (length l ≤ fuel)%nat → concat (chunks_loop fuel n l) = l.
Proof.
  intros Hn. revert l. induction fuel as [|fuel IH]; intros [|a l] Hl; simpl in *; try done; [lia|].
  destruct n as [|n]; [lia|]. simpl. f_equal. rewrite IH.
  - apply take_drop.
  - rewrite length_drop. lia.
Qed.

Lemma concat_chunks {A} n (l : list A) : (0 < n)%Z → concat (chunks n l) = l.
Proof. intros Hn. apply concat_chunks_loop; [lia|done]. Qed.

(** ** A cache to try the theorems on *)

Module SampleCache.
(** A codec for the attributes, in place of the JSON one *)
#[global] Instance json : Json := {|
  json_to_vec j := Ok (BitCodec.pos_bits (encode j));
  json_from_slice bs := ok_or "undecodable attributes" (BitCodec.bits_pos bs ≫= decode) |}.
Lemma json_law : JsonLaw.
Proof.
  intros j bytes [= <-]. simpl. by rewrite BitCodec.bits_pos_bits; simpl; rewrite decode_encode.
Qed.
#[global] Instance disk_backend : CacheBackend Hdd := hdd_backend canonical_order.
#[global] Instance disk_laws : CacheBackendLaws Hdd := @hdd_laws canonical_order json json_law.

(** A clock that ticks at every reading, an empty disk of 100 GiB *)
Definition clock (n : nat) : Z := 1000 + Z.of_nat n.
Definition disk : Hdd := mkHdd ∅ (100 * 1024 * 1024 * 1024) 1 [].
Definition settings : Settings := settings_of CacheConfig.default_config.
Definition empty : CacheState Hdd := mkCache default_index disk 0.

Definition meta (key : string) (size : Z) : PutStagingMeta.t :=
  PutStagingMeta.mk "b" key None size None None None.
Definition upload (key : string) (data : list Z)
    : list (result Status (option (Payload PutStagingMeta.t))) :=
  [Ok (Some (Meta (meta key (Z.of_nat (length data))))); Ok (Some (Data data))].
Definition restore (key : string) (data : list Z) (expire_at : Z)
    : list (result Status (option (Payload PutRestoredMeta.t))) :=
  [Ok (Some (Meta (PutRestoredMeta.mk "b" key None (Z.of_nat (length data)) None None None
     (Some (Timestamp.mk expire_at 0))))); Ok (Some (Data data))].

(** A cache of ten bytes, all of them for restored objects, that evicts one
    object at a time *)
Definition small : Settings := mkSettings 10 Lru 1 f64_one 0 10.
Definition small_disk : Hdd := mkHdd ∅ 10 1 [].
Definition restored_xattrs (key : string) (size at_ : Z) : CacheXattrs.t :=
  CacheXattrs.mk "b" key None size 0 at_ at_ 0 None None None Restored.
Definition key (k : string) : CacheKey.t := CacheKey.new "b" k None.
(** Nine bytes under [k], then one under [o] *)
Definition filled : CacheState Hdd :=
  let put k data at_ (s : CacheState Hdd) := (put_bytes canonical_order clock small (key k) data
    (restored_xattrs k (Z.of_nat (length data)) at_) s).1 in
  put "o" [10]%Z 2%Z (put "k" [1; 2; 3; 4; 5; 6; 7; 8; 9]%Z 1%Z (mkCache default_index small_disk 0)).

Lemma disk_healthy (b : Hdd) : io b = [] → healthy b.
Proof. intros Hio. change (Forall (λ o, o = None) (io b)). by rewrite Hio. Qed.
Lemma disk_writable n : (Z.of_nat n < 2 ^ 63)%Z → writable n disk.
Proof.
  intros Hn. split; [done|]. split; [unfold u64_MAX; simpl; lia|].
  intros id _ _. apply lookup_empty.
Qed.

Lemma filled_writable : writable 5 (backend filled).
Proof.
  replace (backend filled) with (mkHdd (files (backend filled)) 10 3 [])
    by (vm_compute; reflexivity).
  split; [done|]. split; [vm_compute; discriminate|]. intros id Hid Hle.
  apply eq_None_not_Some. intros [raw Hraw]. cbn [files] in Hraw.
  apply elem_of_map_to_list in Hraw.
  assert (Forall (λ p : (string * string) * list Z,
      p.1.1 = "meta" → ∃ i, (0 ≤ i < 3)%Z ∧ p.1 = meta_path i)
    (map_to_list (files (backend filled)))) as Hall.
  { vm_compute (map_to_list _). repeat constructor; simpl; try done; intros _.
    - exists 1%Z. done.
    - exists 2%Z. done. }
  rewrite Forall_forall in Hall. destruct (Hall _ Hraw eq_refl) as (i & Hi & Heq).
  simpl in Heq, Hle. apply meta_path_inj in Heq; [lia|done|].
  unfold is_u64, u64_MAX. lia.
Qed.
End SampleCache.

(** ** Theorems *)

Section staged.
Context {B : Type} `{CacheBackendLaws B}.
Context (h : hash_order) (clock : nat → Z) (svc : Settings).

(** C12: An object whose staging was acknowledged stays readable, with its
    data and its description, whatever requests follow (failing ones,
    evictions, restores and deletions included), until a request stages or
    deletes the same key. *)
Theorem staged_object_survives (s s1 : CacheState B) stream m data resp rs :
  cache_wf h (index s) (backend s) → writable (S (length rs)) (backend s) →
  collect_stream "empty put_staging chunk" stream None [] = Ok (Some m, data) →
  put_staging h clock svc stream s = (s1, Ok resp) →
  Forall (λ r, replaces (staging_key m) r = false) rs →
  healthy (backend (serve_all h clock svc s1 rs)) →
  ∃ s3 at_ blocks,
    get_staging (staging_key m) (serve_all h clock svc s1 rs) =
      (s3, Ok (Meta (StagingObjectMeta.mk m.(PutStagingMeta.bucket) m.(PutStagingMeta.key)
                m.(PutStagingMeta.version_id) m.(PutStagingMeta.size)
                m.(PutStagingMeta.checksum) m.(PutStagingMeta.content_type)
                m.(PutStagingMeta.etag) (Some at_)) :: (Data <$> blocks))) ∧
    concat blocks = data.
Proof using.
  intros Hwf Hw Hm Hput Hrs Hhealthy.
  pose proof (put_staging_files h clock svc no_files any_files (length rs) stream) as Hk.
  specialize (Hk (λ k f Hf, Hf) s ltac:(by split_and!)). rewrite Hput in Hk.
  destruct Hk as (m' & data' & t & Hm' & _ & Hs1).
  rewrite Hm in Hm'. injection Hm' as <- <-. set (f := staged_file m data t) in *.
  set (L := λ c k f', c = Staging ∧ k = staging_key m ∧ f' = f).
  assert (Hinv : inv h L any_files 0 (serve_all h clock svc s1 rs)).
  { apply serve_all_inv; [by intros k f' [? _]| |].
    - rewrite Nat.add_0_r. revert Hs1. apply inv_weaken; [|done].
      intros c k f' (-> & -> & ->). unfold filing. by rewrite decide_True.
    - eapply Forall_impl; [exact Hrs|]. by intros r Hr k f' (_ & -> & _). }
  destruct Hinv as (Hwf2 & _ & HL & _).
  specialize (HL Staging (staging_key m) f ltac:(done)).
  apply lookup_cached in HL as (e & Hl2 & Hf).
  pose proof (f_equal File.attrs Hf) as Hx. pose proof (f_equal File.bytes Hf) as Hbytes.
  cbn [File.attrs File.bytes f staged_file file_of] in Hx, Hbytes.
  destruct (wf_entry _ _ _ Hwf2 Staging _ _ Hl2) as (_ & _ & Hid & _).
  unfold get_staging, find_entry, get_index, build_staging_stream, map_err_of, on_backend.
  unfold_action. rewrite Hl2. destruct (be_read _ _) as [b' r] eqn:Hread.
  apply be_read_spec in Hread as (_ & _ & _ & Hok); [|done].
  symmetry in Hbytes. apply bind_Some in Hbytes as ([x bytes] & Hst & Hbytes). cbn in Hbytes. subst bytes.
  rewrite (Hok _ _ Hhealthy Hst). destruct e as [id ea]. cbn in Hx |- *. destruct ea. cbn in Hx.
  injection Hx as <- <- <- <- <- <- <- <- <- <-.
  do 3 eexists. split; [done|]. by apply concat_chunks.
Qed.
End staged.

Lemma staged_object_survives_witness :
  let s1 := (put_staging canonical_order SampleCache.clock SampleCache.settings
    (SampleCache.upload "k" [1; 2; 3]%Z) SampleCache.empty).1 in
  let rs := [RPutStaging (SampleCache.upload "other" [9]%Z);
             RPutRestored (SampleCache.restore "k" [4; 5]%Z 1001);
             RDelete (CacheKey.new "b" "k" None); RStats] in
  ∃ s3 at_ blocks,
    get_staging (CacheKey.new "b" "k" None)
      (serve_all canonical_order SampleCache.clock SampleCache.settings s1 rs) =
      (s3, Ok (Meta (StagingObjectMeta.mk "b" "k" None 3 None None None (Some at_))
               :: (Data <$> blocks))) ∧
    concat blocks = [1; 2; 3]%Z.
Proof.
  intros s1 rs.
  apply (staged_object_survives canonical_order SampleCache.clock SampleCache.settings
    SampleCache.empty s1 (SampleCache.upload "k" [1; 2; 3]%Z) (SampleCache.meta "k" 3)
    [1; 2; 3]%Z "1" rs).
  - apply default_wf.
  - by apply SampleCache.disk_writable.
  - reflexivity.
  - apply injective_projections; [reflexivity|vm_compute; reflexivity].
  - repeat constructor.
  - apply SampleCache.disk_healthy. vm_compute. reflexivity.
Defined.

Section capacity.
Context {B : Type} `{CacheBackend B}.
Context (h : hash_order) (clock : nat → Z) (svc : Settings).

(** C22: A write keeps the cache within its configured capacity: if the objects
    of the index fit in it they still do afterwards, whether the write succeeds
    or fails, for a staged object and for a restored object that is not in the
    cache yet. *)
Theorem put_within_capacity (s s' : CacheState B) k data x r :
  used_capacity (index s) = used_of h (index s) → sized (index s) →
  (0 ≤ x.(CacheXattrs.size))%Z → (cs_max_size_bytes svc < u64_MAX)%Z →
  x.(CacheXattrs.category) = Staging ∨ restored (index s) !! k = None →
  (footprint h (index s) ≤ cs_max_size_bytes svc)%Z →
  put_bytes h clock svc k data x s = (s', r) →
  (footprint h (index s') ≤ cs_max_size_bytes svc)%Z.
Proof using.
  intros Hused Hsized Hx Hmax Hfresh Hfit Hput.
  apply put_bytes_run in Hput as (i1 & Hsh & Hr).
  pose proof (footprint_shrinks h _ _ Hsized Hsh) as Hle.
  pose proof (sized_shrinks h _ _ Hsized Hsh) as Hsized1.
  destruct r as [id|err]; [|subst i1; lia]. destruct Hr as [-> Hroom].
  rewrite footprint_put. set (c := CacheXattrs.category x) in *.
  assert (entries c i1 !! k = entries c (index s) !! k) as ->.
  { destruct Hsh as (Hs & Hsub & _). destruct c; simpl; [by rewrite Hs|].
    destruct Hfresh as [|Hnone]; [done|]. rewrite Hnone.
    by apply (lookup_weaken_None _ _ _ Hnone). }
  set (old := default 0%Z _) in *. change (StoredEntry.size _) with x.(CacheXattrs.size).
  unfold saturating_sub in Hroom.
  destruct (decide (x.(CacheXattrs.size) ≤ old)%Z) as [|Hgt]; [lia|].
  destruct Hroom as (total & Htotal & Hev); [lia|].
  replace (Z.max (CacheXattrs.size x - old) 0) with (CacheXattrs.size x - old)%Z in Hev by lia.
  unfold should_evict in Hev. apply orb_false_iff in Hev as [_ Hev%Z.ltb_ge].
  unfold pressure_of in Hev. destruct (split_capacity_by_static_ratio svc total).
  simpl in Hev. destruct Hsh as (_ & _ & Hu). rewrite (Hu Hused) in Hev.
  rewrite used_of_footprint in Hev by (done || lia). unfold saturating_add in Hev. lia.
Qed.

End capacity.

(** The hypotheses of the capacity theorem on a cache with objects in it *)
Lemma filled_sized : sized (index SampleCache.filled).
Proof.
  intros [] k e Hk.
  - change (staging (index SampleCache.filled) !! k = Some e) in Hk.
    replace (staging (index SampleCache.filled)) with (∅ : entry_map) in Hk
      by (vm_compute; reflexivity).
    by rewrite lookup_empty in Hk.
  - change (restored (index SampleCache.filled) !! k = Some e) in Hk.
    apply elem_of_map_to_list in Hk.
    assert (Forall (λ p : CacheKey.t * StoredEntry.t, 0 ≤ StoredEntry.size p.2)%Z
      (map_to_list (restored (index SampleCache.filled)))) as Hall
      by (vm_compute; repeat constructor; discriminate).
    rewrite Forall_forall in Hall. by apply (Hall _ Hk).
Qed.

Lemma put_within_capacity_witness :
  (footprint canonical_order (index (put_bytes canonical_order SampleCache.clock
     SampleCache.small (SampleCache.key "n") [1; 2; 3]%Z
     (SampleCache.restored_xattrs "n" 3 7) SampleCache.filled).1) ≤ 10)%Z.
Proof.
  eapply (put_within_capacity canonical_order SampleCache.clock SampleCache.small
    SampleCache.filled _ (SampleCache.key "n") [1; 2; 3]%Z
    (SampleCache.restored_xattrs "n" 3 7)).
  - vm_compute. reflexivity.
  - apply filled_sized.
  - vm_compute. discriminate.
  - vm_compute. reflexivity.
  - right. vm_compute. reflexivity.
  - vm_compute. discriminate.
  - apply surjective_pairing.
Defined.


(** Replacing a restored object can break the limit the theorem above states
    for new ones: [put_bytes] makes room for the growth only, and the entry
    being replaced can be the one that is evicted. *)
Theorem restored_overwrite_exceeds_capacity :
  let s' := (put_bytes canonical_order SampleCache.clock SampleCache.small
    (SampleCache.key "k") [1; 2; 3; 4; 5; 6; 7; 8; 9; 0]%Z
    (SampleCache.restored_xattrs "k" 10 3) SampleCache.filled).1 in
  footprint canonical_order (index SampleCache.filled) = 10%Z ∧
  footprint canonical_order (index s') = 11%Z ∧ cs_max_size_bytes SampleCache.small = 10%Z.
Proof. vm_compute. auto. Qed.

Section rebuild.
Context {B : Type} `{CacheBackendLaws B} {works : CacheBackendWorks B}.
Context (h : hash_order).

(** C25: A restart rebuilds a well-formed index from what the backend lists: each
    category and key gets its most recent object, by the time it was cached and
    then by identifier. The objects of the index are stored as before; the
    older duplicates are no longer stored, unless the device fails to delete
    them. *)
Theorem rebuild_index_newest n (s : CacheState B) b1 l :
  be_list_all (backend s) = (b1, Ok l) → NoDup l.*1 → writable n (backend s) →
  ∃ s', rebuild_index h s = (s', Ok tt) ∧
    cache_wf h (index s') (backend s') ∧ writable n (backend s') ∧
    (∀ c k e, entries c (index s') !! k = Some e ↔
      newest l (object_of e) ∧ slot_of (object_of e) = (c, k)) ∧
    (∀ p, newest l p → stored (backend s') p.1 = stored (backend s) p.1) ∧
    (healthy b1 → ∀ p, p ∈ l → ¬ newest l p → stored (backend s') p.1 = None).
Proof using All.
  intros Hl Hnd Hw. destruct (rebuild_index_run h n s b1 l Hl Hnd Hw)
    as (s' & Hrun & (Hwf & Hwr & _) & Hent). exists s'.
  pose proof (rebuild_index_objects h s b1 l Hl Hnd) as Hobj. rewrite Hrun in Hobj.
  split_and!; [done..| |].
  - intros p Hn. by apply Hobj; [apply Hn|].
  - intros Hh p Hp Hn. by apply Hobj.
Qed.
End rebuild.

(** A disk with two objects under the same key, as a crash between the write of
    an object and the deletion of the one it replaces leaves it *)
Module SampleDuplicate.
Definition old : CacheXattrs.t := SampleCache.restored_xattrs "k" 1 1.
Definition new : CacheXattrs.t := SampleCache.restored_xattrs "k" 1 2.
Definition first : Hdd := (be_write "k" [1]%Z old SampleCache.small_disk).1.
Definition disk : Hdd := (be_write "k" [2]%Z new first).1.
Definition listed : list (Z * CacheXattrs.t) := [(1%Z, old); (2%Z, new)].

Lemma duplicate_writable : writable 5 disk.
Proof.
  assert (writable 7 SampleCache.small_disk) as H7.
  { split; [done|]. split; [vm_compute; discriminate|]. intros id _ _. apply lookup_empty. }
  destruct (be_write_spec 6 "k" [1]%Z old _ first _ H7 (surjective_pairing _)) as [H6 _].
  by apply (be_write_spec 5 "k" [2]%Z new _ disk _ H6 (surjective_pairing _)).
Qed.
Lemma new_is_newest : newest listed (2%Z, new).
Proof.
  split; [set_solver|]. intros q [->|[->|[]%elem_of_nil]%elem_of_cons]%elem_of_cons _; [right|by left].
  by left.
Qed.
Lemma old_is_not : ¬ newest listed (1%Z, old).
Proof.
  intros [_ Hmax]. destruct (Hmax (2%Z, new)) as [[=]|[?|[]]]; [set_solver|done|..]; simpl in *; lia.
Qed.
Lemma old_listed : (1%Z, old) ∈ listed.
Proof. by left. Qed.
Lemma list_healthy : healthy (be_list_all disk).1.
Proof. apply SampleCache.disk_healthy. vm_compute. reflexivity. Qed.
End SampleDuplicate.

Lemma rebuild_index_newest_witness :
  ∃ s', rebuild_index canonical_order (mkCache default_index SampleDuplicate.disk 0) = (s', Ok tt) ∧
    entries Restored (index s') !! SampleCache.key "k" = Some (StoredEntry.mk 2 SampleDuplicate.new) ∧
    stored SampleDuplicate.disk 1 ≠ None ∧ stored (backend s') 1 = None ∧
    stored (backend s') 2 = stored SampleDuplicate.disk 2.
Proof.
  destruct (@rebuild_index_newest Hdd SampleCache.disk_backend SampleCache.disk_laws
    (@hdd_works canonical_order SampleCache.json SampleCache.json_law) canonical_order 5
    (mkCache default_index SampleDuplicate.disk 0)
    (be_list_all SampleDuplicate.disk).1 SampleDuplicate.listed)
    as (s' & Hrun & _ & _ & Hent & Hkept & Hgone).
  - vm_compute. reflexivity.
  - repeat constructor; set_solver.
  - apply SampleDuplicate.duplicate_writable.
  - exists s'. split; [exact Hrun|]. split.
    { apply Hent. split; [apply SampleDuplicate.new_is_newest|reflexivity]. }
    split; [vm_compute; discriminate|]. split.
    + exact (Hgone SampleDuplicate.list_healthy (1%Z, SampleDuplicate.old)
        SampleDuplicate.old_listed SampleDuplicate.old_is_not).
    + exact (Hkept (2%Z, SampleDuplicate.new) SampleDuplicate.new_is_newest).
Defined.

(** ** The staging budget of the default configuration *)

(** The product of two capacities does not fit in 64 bits from about 4 GiB on:
    it saturates, and the staging budget stops growing with the capacity. *)
Lemma staging_budget_saturates svc total :
  (u64_MAX < total * cs_staging_capacity_bytes svc)%Z →
  (0 < saturating_add (cs_staging_capacity_bytes svc) (cs_restored_capacity_bytes svc))%Z →
  (split_capacity_by_static_ratio svc total).1 =
    (u64_MAX `div` saturating_add (cs_staging_capacity_bytes svc)
       (cs_restored_capacity_bytes svc))%Z.
Proof.
  intros Hover Hpos. unfold split_capacity_by_static_ratio.
  rewrite (proj2 (Z.eqb_neq _ _)) by lia. simpl. f_equal. unfold saturating_mul. lia.
Qed.

Lemma empty_total :
  effective_total_capacity SampleCache.settings SampleCache.empty =
    (SampleCache.empty, Ok 107374182400%Z).
Proof. vm_compute. reflexivity. Qed.

Lemma empty_reclaim t :
  reclaim_expired_restored_except canonical_order SampleCache.clock None
    (mkCache default_index SampleCache.disk t) =
  (mkCache default_index SampleCache.disk (S t), Ok tt).
Proof. reflexivity. Qed.

Lemma empty_total_later t :
  effective_total_capacity SampleCache.settings (mkCache default_index SampleCache.disk t) =
    (mkCache default_index SampleCache.disk t, Ok 107374182400%Z).
Proof. vm_compute. reflexivity. Qed.

(** With nothing in the cache the pressure of a staged object is its size. *)
Lemma empty_pressure size :
  (0 ≤ size ≤ 107374182400)%Z →
  pressure_of canonical_order SampleCache.settings size Staging 107374182400 default_index =
    mkPressure size 0 size 171798691 107202383709 (Some 85899345920%Z) 107374182400.
Proof.
  intros Hsize. unfold pressure_of.
  replace (split_capacity_by_static_ratio SampleCache.settings 107374182400)
    with (171798691%Z, 107202383709%Z) by (vm_compute; reflexivity).
  replace (effective_low_watermark_used SampleCache.settings 107374182400)
    with (Some 85899345920%Z) by (vm_compute; reflexivity).
  replace (staging_used canonical_order default_index) with 0%Z by (vm_compute; reflexivity).
  replace (restored_used canonical_order default_index) with 0%Z by (vm_compute; reflexivity).
  rewrite (bool_decide_eq_true_2 (Staging = Staging)), (bool_decide_eq_false_2 (Staging = Restored))
    by done.
  unfold saturating_add, u64_MAX. simpl. f_equal; lia.
Qed.

(** Under the default configuration (100 GiB, 35% of it for staging) an
    empty cache refuses every object above 171,798,691 bytes, although the
    configured staging capacity is 37,580,963,840 bytes: the budget is computed
    from a saturated product. *)
Theorem default_config_staging_budget k data x :
  x.(CacheXattrs.category) = Staging →
  (171798691 < x.(CacheXattrs.size) ≤ 107374182400)%Z →
  cs_staging_capacity_bytes SampleCache.settings = 37580963840%Z ∧
  (put_bytes canonical_order SampleCache.clock SampleCache.settings k data x
     SampleCache.empty).2 =
    Err (capacity_reject_error StagingBudgetExceeded
      "not enough staging cache budget for write path; cannot fit after eviction").
Proof.
  intros Hc [Hlo Hhi]. split; [vm_compute; reflexivity|].
  unfold put_bytes, ensure_object_size_within_total_capacity, find_entry, get_index.
  unfold_action. rewrite empty_total. cbn [Z.eqb].
  rewrite (proj2 (Z.ltb_ge _ _)) by done. rewrite Hc.
  replace (entries Staging (index SampleCache.empty) !! k) with (@None StoredEntry.t)
    by (symmetry; apply lookup_empty).
  replace (saturating_sub _ _) with x.(CacheXattrs.size)
    by (unfold saturating_sub; simpl; lia).
  change SampleCache.empty with (mkCache default_index SampleCache.disk 0).
  rewrite (bool_decide_eq_false_2 (Staging = Restored)) by done. rewrite empty_reclaim.
  unfold evict_if_needed. rewrite (proj2 (Z.eqb_neq _ _)) by lia. unfold_action.
  rewrite empty_total_later. cbn [Z.eqb]. rewrite (proj2 (Z.ltb_ge _ _)) by done.
  change (Z.to_nat (evict_batch_size SampleCache.settings)) with 64%nat.
  cbn [evict_loop]. unfold get_index. unfold_action. cbn [index].
  rewrite empty_pressure by lia. unfold should_evict, choose_victim_category.
  cbn [staging_budget staging_after restored_budget restored_after].
  rewrite (proj2 (Z.ltb_lt _ _)) by done. cbn [orb negb].
  unfold check_room, get_index. unfold_action. cbn [index].
  rewrite empty_pressure by lia. unfold should_evict.
  cbn [staging_budget staging_after]. by rewrite (proj2 (Z.ltb_lt _ _)) by done.
Qed.

Lemma default_config_staging_budget_witness :
  cs_staging_capacity_bytes SampleCache.settings = 37580963840%Z ∧
  (put_bytes canonical_order SampleCache.clock SampleCache.settings (SampleCache.key "k") []
     (File.attrs (staged_file (SampleCache.meta "k" 200000000) [] 0)) SampleCache.empty).2 =
    Err (capacity_reject_error StagingBudgetExceeded
      "not enough staging cache budget for write path; cannot fit after eviction").
Proof.
  apply (default_config_staging_budget (SampleCache.key "k") []
    (File.attrs (staged_file (SampleCache.meta "k" 200000000) [] 0))); [reflexivity|].
  split; [reflexivity|vm_compute; discriminate].
Defined.
