(* ===== verification/CacheRefinement.v ===== *)
(** * The cache as an abstract store

    What the cache service promises to its clients, without an index, a
    backend, budgets or eviction: a store of staged files that only an upload
    or a deletion under the same key changes, and of restored copies that may
    also disappear. Every history of requests and answers of the service is
    one of the store. *)

From Stdlib Require Import ZArith Lia String.
From S2P Require Import Prelude Hoare Proto RustStr F64 CacheBackend Cache CacheInvariants CacheTheorems.

Local Open Scope string_scope.
Local Open Scope list_scope.
Local Open Scope stdpp_scope.

(** ** The store *)

Record Store := mkStore {
  staged : gmap CacheKey.t File.t;
  copies : gmap CacheKey.t File.t;
}.

(** What a request is answered *)
Inductive Answer :=
| APutStaging (r : result Status string)
| APutRestored (r : result Status unit)
| ADelete (r : result Status unit)
| AGet (r : result Status (list (Payload CachedObjectMeta.t)))
| AContains (r : result Status (bool * option Timestamp.t))
| AGetStaging (r : result Status (list (Payload StagingObjectMeta.t)))
| AListStagingKeys (r : result Status (list StagingKeyEntry.t * bool))
| ADeleteStaging (r : result Status unit)
| AStats (r : result Status CacheStats.t).

(** The entry of a staged file in a listing *)
Definition key_entry (p : CacheKey.t * File.t) : StagingKeyEntry.t :=
  let x := File.attrs p.2 in
  StagingKeyEntry.mk p.1.(CacheKey.bucket) p.1.(CacheKey.key) p.1.(CacheKey.version_id)
    x.(CacheXattrs.size) (Some (timestamp_from_unix x.(CacheXattrs.cached_at))).
Definition cursor_cmp : CacheKey.t * File.t → CacheKey.t * File.t → comparison :=
  cmp_on (λ p, CacheKey.as_cursor p.1) String.compare.
(** A page of the staged keys after a cursor: all of them in order, or the
    first [limit] *)
Definition lists (m : gmap CacheKey.t File.t) (limit : Z) (after : option string)
    (page : list StagingKeyEntry.t) (has_more : bool) : Prop :=
  let limit := if (limit =? 0)%Z then usize_MAX else limit in
  ∃ found, found ≡ₚ List.filter (λ p : CacheKey.t * File.t,
      str_gtb (CacheKey.as_cursor p.1) (default EmptyString after)) (map_to_list m) ∧
    StronglySorted (cmp_le cursor_cmp) found ∧
    has_more = (limit <? Z.of_nat (length found))%Z ∧
    page = key_entry <$> (if has_more then take (Z.to_nat limit) found else found).
Definition total_size (m : gmap CacheKey.t File.t) : Z :=
  u64_sum ((λ p : CacheKey.t * File.t, (File.attrs p.2).(CacheXattrs.size)) <$> map_to_list m).

Section store.
Context (clock : nat → Z).

(** There is no copy, or one that has expired at a reading of the clock *)
Definition gone (a : Store) (k : CacheKey.t) : Prop :=
  ∀ f, copies a !! k = Some f →
    ∃ n, is_expired_at (File.attrs f).(CacheXattrs.expire_at) (clock n) = true.

(** One request: the store before, the request, the answer and the store
    after. Copies can be lost in every request that writes. *)
Inductive store_step (a : Store) : Request → Answer → Store → Prop :=
| step_put_staging stream m data t id c :
    collect_stream "empty put_staging chunk" stream None [] = Ok (Some m, data) →
    m.(PutStagingMeta.size) = Z.of_nat (length data) → c ⊆ copies a →
    store_step a (RPutStaging stream) (APutStaging (Ok id))
      (mkStore (<[staging_key m := staged_file m data t]> (staged a)) c)
| step_put_staging_failed stream e c :
    c ⊆ copies a →
    store_step a (RPutStaging stream) (APutStaging (Err e)) (mkStore (staged a) c)
| step_put_restored stream m data at_ t c :
    collect_stream "empty put_restored chunk" stream None [] = Ok (Some m, data) →
    m.(PutRestoredMeta.size) = Z.of_nat (length data) → m.(PutRestoredMeta.expire_at) = Some at_ →
    c ⊆ copies a →
    store_step a (RPutRestored stream) (APutRestored (Ok tt))
      (mkStore (staged a)
        (<[restored_key m := restored_file m data at_.(Timestamp.seconds) t]> c))
| step_put_restored_failed stream e c :
    c ⊆ copies a →
    store_step a (RPutRestored stream) (APutRestored (Err e)) (mkStore (staged a) c)
| step_delete k :
    store_step a (RDelete k) (ADelete (Ok tt)) (mkStore (staged a) (delete k (copies a)))
| step_delete_failed k e : store_step a (RDelete k) (ADelete (Err e)) a
| step_get k f messages :
    copies a !! k = Some f → sent_of get_messages f messages →
    store_step a (RGet k) (AGet (Ok messages)) a
| step_get_failed k e c :
    delete k (copies a) ⊆ c → c ⊆ copies a →
    (copies a !! k = None → code e = NotFound) → (code e = NotFound → gone a k) →
    store_step a (RGet k) (AGet (Err e)) (mkStore (staged a) c)
| step_contains k f :
    copies a !! k = Some f →
    store_step a (RContains k) (AContains (Ok (true,
      Some (timestamp_from_unix (File.attrs f).(CacheXattrs.expire_at))))) a
| step_contains_not k c :
    delete k (copies a) ⊆ c → c ⊆ copies a → gone a k →
    store_step a (RContains k) (AContains (Ok (false, None))) (mkStore (staged a) c)
| step_contains_failed k e c :
    delete k (copies a) ⊆ c → c ⊆ copies a →
    store_step a (RContains k) (AContains (Err e)) (mkStore (staged a) c)
| step_get_staging k f messages :
    staged a !! k = Some f → sent_of staging_messages f messages →
    store_step a (RGetStaging k) (AGetStaging (Ok messages)) a
| step_get_staging_failed k e :
    (staged a !! k = None ↔ code e = NotFound) →
    store_step a (RGetStaging k) (AGetStaging (Err e)) a
| step_list limit after page has_more :
    lists (staged a) limit after page has_more →
    store_step a (RListStagingKeys limit after) (AListStagingKeys (Ok (page, has_more))) a
| step_delete_staging k :
    store_step a (RDeleteStaging k) (ADeleteStaging (Ok tt))
      (mkStore (delete k (staged a)) (copies a))
| step_delete_staging_failed k e : store_step a (RDeleteStaging k) (ADeleteStaging (Err e)) a
| step_stats st :
    st.(CacheStats.staging_count) = Z.of_nat (size (staged a)) →
    st.(CacheStats.restored_count) = Z.of_nat (size (copies a)) →
    st.(CacheStats.staging_bytes) = total_size (staged a) →
    st.(CacheStats.restored_bytes) = total_size (copies a) →
    store_step a RStats (AStats (Ok st)) a
| step_stats_failed e : store_step a RStats (AStats (Err e)) a.

Inductive store_run : Store → list (Request * Answer) → Store → Prop :=
| run_none a : store_run a [] a
| run_more a r x a' l a'' :
    store_step a r x a' → store_run a' l a'' → store_run a ((r, x) :: l) a''.

End store.

(** ** The service *)

Section service.
Context {B : Type} `{CacheBackend B} (h : hash_order) (clock : nat → Z) (svc : Settings).

Definition answer (s : CacheState B) (r : Request) : Answer :=
  match r with
  | RPutStaging stream => APutStaging (put_staging h clock svc stream s).2
  | RPutRestored stream => APutRestored (put_restored h clock svc stream s).2
  | RDelete key => ADelete (delete_ h key s).2
  | RGet key => AGet (get h clock key s).2
  | RContains key => AContains (contains h clock key s).2
  | RGetStaging key => AGetStaging (get_staging key s).2
  | RListStagingKeys limit after => AListStagingKeys (list_staging_keys h limit after s).2
  | RDeleteStaging key => ADeleteStaging (delete_staging h key s).2
  | RStats => AStats (stats h svc s).2
  end.
(** A history: each request with its answer *)
Fixpoint answers (s : CacheState B) (rs : list Request) : list (Request * Answer) :=
  match rs with
  | [] => []
  | r :: rs => (r, answer s r) :: answers (serve h clock svc s r) rs
  end.
End service.

(** ** Refinement *)

Section refinement.
Context {B : Type} `{CacheBackendLaws B}.
Context (h : hash_order) (clock : nat → Z) (svc : Settings).

Definition view (s : CacheState B) : Store := mkStore (cached Staging s) (cached Restored s).

(** Bounds that are met exactly, and the part of them that survives evictions *)
Definition exactly (s : CacheState B) : bound := λ c k f, cached c s !! k = Some f.
Definition staged_exactly (s : CacheState B) : bound :=
  λ c k f, c = Staging ∧ cached c s !! k = Some f.

Lemma inv_exactly n s :
  cache_wf h (index s) (backend s) → writable n (backend s) → inv h (exactly s) (exactly s) n s.
Proof using. intros ? ?. by split_and!. Qed.
Lemma inv_staged_exactly n s :
  cache_wf h (index s) (backend s) → writable n (backend s) → inv h (staged_exactly s) (exactly s) n s.
Proof using. intros ? ?. split_and!; [done..|by intros ??? []|done]. Qed.
Lemma evictable_staged s : evictable (staged_exactly s).
Proof using. by intros k f []. Qed.

Lemma cached_eq L P n s' c m :
  inv h L P n s' → (∀ k f, m !! k = Some f → L c k f) → (∀ k f, P c k f → m !! k = Some f) →
  cached c s' = m.
Proof using.
  intros (_ & _ & HL & HP) Hm Hm'. apply map_eq. intros k. apply option_eq. intros f.
  split; [by intros ?%HP%Hm'|by intros ?%Hm%HL].
Qed.
Lemma cached_sub L P n s' c m :
  inv h L P n s' → (∀ k f, P c k f → m !! k = Some f) → cached c s' ⊆ m.
Proof using. intros (_ & _ & _ & HP) Hm. apply map_subseteq_spec. auto. Qed.
Lemma sub_cached L P n s' c m :
  inv h L P n s' → (∀ k f, m !! k = Some f → L c k f) → m ⊆ cached c s'.
Proof using. intros (_ & _ & HL & _) Hm. apply map_subseteq_spec. auto. Qed.

(** What a bound that is met says of the store *)
Lemma view_exactly s n s' : inv h (exactly s) (exactly s) n s' → view s' = view s.
Proof using.
  intros Hi. unfold view. by rewrite !(cached_eq _ _ _ _ _ _ Hi (λ _ _ Hf, Hf) (λ _ _ Hf, Hf)).
Qed.
Lemma view_staged s n s' :
  inv h (staged_exactly s) (exactly s) n s' →
  staged (view s') = staged (view s) ∧ copies (view s') ⊆ copies (view s).
Proof using.
  intros Hi. split; [eapply cached_eq|eapply cached_sub]; [exact Hi|..|exact Hi|]; by try split.
Qed.
Lemma view_without_copy k s n s' :
  inv h (without Restored k (exactly s)) (exactly s) n s' →
  staged (view s') = staged (view s) ∧
  delete k (copies (view s)) ⊆ copies (view s') ∧ copies (view s') ⊆ copies (view s).
Proof using.
  intros Hi. split; [eapply cached_eq; [exact Hi| |done]|].
  { intros k' f Hf. by split; [intros []|]. }
  split; [eapply sub_cached; [exact Hi|]|by eapply cached_sub].
  intros k' f [Hne Hf]%lookup_delete_Some. split; [|done]. intros [_ ->]. done.
Qed.
Lemma view_removed c k s n s' :
  inv h (without c k (exactly s)) (without c k (exactly s)) n s' →
  view s' = match c with
            | Staging => mkStore (delete k (staged (view s))) (copies (view s))
            | Restored => mkStore (staged (view s)) (delete k (copies (view s)))
            end.
Proof using.
  intros Hi.
  assert (Hc : cached c s' = delete k (cached c s)).
  { eapply cached_eq; [exact Hi|..].
    - intros k' f [Hne Hf]%lookup_delete_Some. split; [|done]. intros [_ ->]. done.
    - intros k' f [Hne Hf]. apply lookup_delete_Some. split; [|done]. intros ->. by destruct Hne. }
  assert (Hother : ∀ c', c' ≠ c → cached c' s' = cached c' s).
  { intros c' Hc'. eapply cached_eq; [exact Hi|..].
    - intros k' f Hf. split; [|done]. by intros [-> _].
    - by intros k' f [_ Hf]. }
  unfold view. destruct c; by rewrite Hc, Hother.
Qed.
Lemma lookup_filed c k f s n s' :
  inv h (filing c k f (staged_exactly s)) (filing c k f (exactly s)) n s' →
  cached c s' !! k = Some f ∧ delete k (cached c s') ⊆ delete k (cached c s).
Proof using.
  intros (_ & _ & HL & HP). split.
  - apply HL. unfold filing. by rewrite decide_True.
  - apply map_subseteq_spec. intros k' f' [Hne Hf]%lookup_delete_Some. apply lookup_delete_Some.
    split; [done|]. apply HP in Hf. unfold filing in Hf. rewrite decide_False in Hf; [done|].
    by intros [_ ->].
Qed.

(** *** Requests *)

Abbreviation serve := (Cache.serve h clock svc).
Abbreviation answer := (answer h clock svc).
Definition refines (s : CacheState B) (r : Request) : Prop :=
  store_step clock (view s) r (answer s r) (view (serve s r)).

Lemma view_put c k f s n s' :
  inv h (filing c k f (staged_exactly s)) (filing c k f (exactly s)) n s' →
  view s' = match c with
            | Staging => mkStore (<[k := f]> (staged (view s))) (copies (view s'))
            | Restored => mkStore (staged (view s)) (<[k := f]> (delete k (copies (view s'))))
            end ∧
  match c with
  | Staging => copies (view s') ⊆ copies (view s)
  | Restored => delete k (copies (view s')) ⊆ copies (view s)
  end.
Proof using.
  intros Hi. destruct (lookup_filed c k f s n s' Hi) as [Hk Hrest]. unfold view. destruct c; simpl.
  - split; [f_equal|].
    + eapply cached_eq; [exact Hi|..]; intros k' f'; unfold filing; destruct (decide (k' = k)) as [->|Hne].
      * rewrite lookup_insert_eq, decide_True by done. by intros [= ->].
      * rewrite lookup_insert_ne, decide_False by (try intros [_ ?]; congruence). by split.
      * rewrite lookup_insert_eq, decide_True by done. by intros ->.
      * rewrite lookup_insert_ne, decide_False by (try intros [_ ?]; congruence). done.
    + eapply cached_sub; [exact Hi|]. intros k' f'. unfold filing. by rewrite decide_False by (by intros []).
  - split; [f_equal|].
    + eapply cached_eq; [exact Hi|..]; intros k' f'; unfold filing; rewrite decide_False by (by intros []);
        by try split.
    + by rewrite insert_delete_eq, insert_id.
    + etrans; [exact Hrest|apply delete_subseteq].
Qed.

Lemma put_staging_refines n s stream :
  cache_wf h (index s) (backend s) → writable (S n) (backend s) → refines s (RPutStaging stream).
Proof using.
  intros Hwf Hw. pose proof (put_staging_files h clock svc _ _ n stream (evictable_staged s) s
    (inv_staged_exactly _ s Hwf Hw)) as Hput.
  unfold refines. simpl. destruct (put_staging h clock svc stream s) as [s' [id|e]]; simpl.
  - destruct Hput as (m & data & t & Hm & Hsize & Hi). apply view_put in Hi as [Hv Hc]. rewrite Hv.
    by eapply step_put_staging.
  - apply view_staged in Hput as [Hst Hc].
    destruct (view s') as [st c]. simpl in *. rewrite Hst. by apply step_put_staging_failed.
Qed.
Lemma put_restored_refines n s stream :
  cache_wf h (index s) (backend s) → writable (S n) (backend s) → refines s (RPutRestored stream).
Proof using.
  intros Hwf Hw. pose proof (put_restored_files h clock svc _ _ n stream (evictable_staged s) s
    (inv_staged_exactly _ s Hwf Hw)) as Hput.
  unfold refines. simpl. destruct (put_restored h clock svc stream s) as [s' [[]|e]]; simpl.
  - destruct Hput as (m & data & at_ & t & Hm & Hsize & Hat & Hi). apply view_put in Hi as [Hv Hc]. rewrite Hv.
    by eapply step_put_restored.
  - apply view_staged in Hput as [Hst Hc].
    destruct (view s') as [st c]. simpl in *. rewrite Hst. by apply step_put_restored_failed.
Qed.
Lemma delete_refines n s k :
  cache_wf h (index s) (backend s) → writable n (backend s) → refines s (RDelete k).
Proof using.
  intros Hwf Hw. pose proof (delete_removes h _ _ n k s (inv_exactly _ s Hwf Hw)) as Hdel.
  unfold refines. simpl. destruct (delete_ h k s) as [s' [[]|e]]; simpl.
  - rewrite (view_removed Restored k s n s' Hdel). apply step_delete.
  - rewrite (view_exactly s n s' Hdel). apply step_delete_failed.
Qed.
Lemma delete_staging_refines n s k :
  cache_wf h (index s) (backend s) → writable n (backend s) → refines s (RDeleteStaging k).
Proof using.
  intros Hwf Hw. pose proof (delete_staging_removes h _ _ n k s (inv_exactly _ s Hwf Hw)) as Hdel.
  unfold refines. simpl. destruct (delete_staging h k s) as [s' [[]|e]]; simpl.
  - rewrite (view_removed Staging k s n s' Hdel). apply step_delete_staging.
  - rewrite (view_exactly s n s' Hdel). apply step_delete_staging_failed.
Qed.

(** Without an entry there is no file, and the key is not found. *)
Lemma cached_None c s k : cached c s !! k = None ↔ entries c (index s) !! k = None.
Proof using. unfold cached. rewrite lookup_fmap. by destruct (entries c (index s) !! k). Qed.
Lemma get_missing s k e s' :
  cached Restored s !! k = None → get h clock k s = (s', Err e) → code e = NotFound.
Proof using.
  intros Hk%cached_None. unfold get, read_restored, find_entry, get_index, update_hit_state, modify_index.
  unfold_action. rewrite Hk. simpl. by intros [= _ <-].
Qed.
(** A copy is said not to be there only once it has expired. *)
Lemma is_expired_run {E} at_ (s : CacheState B) :
  ∃ s1, is_expired (E := E) clock at_ s = (s1, Ok (is_expired_at at_ (clock (ticks s)))).
Proof using.
  unfold is_expired, is_expired_at, now_unix. unfold_action. destruct (0 <? at_)%Z; by eexists.
Qed.
Lemma get_gone s k e s' :
  get h clock k s = (s', Err e) → code e = NotFound → gone clock (view s) k.
Proof using.
  intros Hrun Hcode f (e0 & Hk & ->)%lookup_cached. exists (ticks s). revert Hrun.
  unfold get, read_restored, find_entry, get_index. unfold_action. rewrite Hk. simpl.
  destruct (is_expired_run (E := Status) (CacheXattrs.expire_at (StoredEntry.xattrs e0)) s) as [s1 ->].
  destruct (is_expired_at _ _); [done|].
  unfold touch_entry, now_unix, update_hit_state, modify_index, build_get_stream, map_err_of, on_backend.
  unfold_action. destruct (be_read _ _) as [b' [data|err]]; [done|]. by intros [= _ <-].
Qed.
Lemma contains_gone s k s' t : contains h clock k s = (s', Ok (false, t)) → gone clock (view s) k.
Proof using.
  intros Hrun f (e0 & Hk & ->)%lookup_cached. exists (ticks s). revert Hrun.
  unfold contains, find_entry, get_index. unfold_action. rewrite Hk. simpl.
  destruct (is_expired_run (E := Status) (CacheXattrs.expire_at (StoredEntry.xattrs e0)) s) as [s1 ->].
  destruct (is_expired_at _ _); [done|].
  by unfold update_hit_state, modify_index; unfold_action.
Qed.
Lemma get_refines n s k :
  cache_wf h (index s) (backend s) → writable n (backend s) → refines s (RGet k).
Proof using.
  intros Hwf Hw. pose proof (get_filed h clock _ _ n k s (inv_exactly _ s Hwf Hw)) as Hget.
  unfold refines. simpl. destruct (get h clock k s) as [s' [messages|e]] eqn:Hrun; simpl.
  - destruct Hget as [Hi (f & Hf & Hsent)]. rewrite (view_exactly s n s' Hi).
    by eapply step_get.
  - apply view_without_copy in Hget as (Hst & Hlow & Hhigh).
    destruct (view s') as [st c]. simpl in *. rewrite Hst. apply step_get_failed; [done|done| |by apply (get_gone s k e s')].
    intros Hk. exact (get_missing s k e s' Hk Hrun).
Qed.
Lemma contains_refines n s k :
  cache_wf h (index s) (backend s) → writable n (backend s) → refines s (RContains k).
Proof using.
  intros Hwf Hw. pose proof (contains_filed h clock _ _ n k s (inv_exactly _ s Hwf Hw)) as Hget.
  unfold refines. simpl. destruct (contains h clock k s) as [s' [[[] t]|e]] eqn:Hrun; simpl.
  - destruct Hget as [Hi (f & Hf & Ht)]. simpl in Ht. rewrite (view_exactly s n s' Hi), Ht.
    by apply step_contains.
  - destruct Hget as [(Hst & Hlow & Hhigh)%view_without_copy Ht]. simpl in Ht. subst t.
    destruct (view s') as [st c]. simpl in *. rewrite Hst.
    apply step_contains_not; [done|done|by apply (contains_gone s k _ _ Hrun)].
  - apply view_without_copy in Hget as (Hst & Hlow & Hhigh).
    destruct (view s') as [st c]. simpl in *. rewrite Hst. by apply step_contains_failed.
Qed.
Lemma get_staging_refines n s k :
  cache_wf h (index s) (backend s) → writable n (backend s) → refines s (RGetStaging k).
Proof using.
  intros Hwf Hw. pose proof (get_staging_filed h _ _ n k s (inv_exactly _ s Hwf Hw)) as Hget.
  unfold refines. simpl. destruct (get_staging k s) as [s' [messages|e]] eqn:Hrun; simpl.
  - destruct Hget as [Hi (f & Hf & Hsent)]. rewrite (view_exactly s n s' Hi).
    by eapply step_get_staging.
  - rewrite (view_exactly s n s' Hget). apply step_get_staging_failed. simpl. rewrite cached_None.
    revert Hrun. unfold get_staging, find_entry, get_index, build_staging_stream, map_err_of.
    unfold_action. destruct (entries Staging (index s) !! k) as [e0|]; simpl.
    + destruct (on_backend _ s) as [s1 [data|err]]; intros [= _ <-]. by split.
    + by intros [= _ <-].
Qed.

(** The files as a list *)
Definition filed (b : B) : CacheKey.t * StoredEntry.t → CacheKey.t * File.t :=
  prod_map id (file_of b).
Lemma map_to_list_cached c s :
  map_to_list (cached c s) = filed (backend s) <$> map_to_list (entries c (index s)).
Proof using. apply map_to_list_fmap. Qed.
Lemma list_refines s limit after : refines s (RListStagingKeys limit after).
Proof using.
  unfold refines. simpl. unfold list_staging_keys, get_index. unfold_action. simpl.
  apply step_list. simpl. unfold lists.
  set (found := sort_by _ _). exists (filed (backend s) <$> found). split_and!.
  - unfold found. rewrite sort_by_perm, map_to_list_cached.
    by rewrite (hm_iter_perm h (staging (index s))), Lfilter_fmap.
  - unfold found. pose proof (sort_by_sorted (cmp_on (λ p, CacheKey.as_cursor p.1) String.compare)
      (List.filter (λ p : CacheKey.t * StoredEntry.t, str_gtb (CacheKey.as_cursor p.1)
        (default EmptyString after)) (hm_iter h (staging (index s))))) as Hsorted.
    induction Hsorted as [|p l _ IH Hp]; [constructor|]. rewrite fmap_cons. constructor; [done|].
    by apply Forall_fmap.
  - by rewrite length_fmap.
  - destruct (_ <? _)%Z; rewrite <-?fmap_take, <-list_fmap_compose; apply list_fmap_ext;
      by intros ? [? ?].
Qed.

(** The files account for the space of the entries. *)
Lemma sizes_cached c s : u64_sum (sizes h (entries c (index s))) = total_size (cached c s).
Proof using.
  unfold sizes, total_size. rewrite hm_values_perm, map_to_list_cached.
  f_equal. rewrite <-!list_fmap_compose. by apply list_fmap_ext.
Qed.
Lemma stats_refines n s :
  cache_wf h (index s) (backend s) → writable n (backend s) → refines s RStats.
Proof using.
  intros Hwf Hw. pose proof (stats_keeps h svc _ _ n s (inv_exactly _ s Hwf Hw)) as Hstats.
  unfold refines. simpl. destruct (stats h svc s) as [s' [st|e]] eqn:Hrun; simpl;
    rewrite (view_exactly s n s' Hstats); [|apply step_stats_failed].
  revert Hrun. unfold stats, get_index, map_err_of. unfold_action.
  destruct (on_backend be_available_bytes s) as [s1 [free|err]]; intros [= _ <-].
  apply step_stats; simpl; unfold cached; rewrite ?map_size_fmap; [done..|apply (sizes_cached Staging)|
    apply (sizes_cached Restored)].
Qed.

Lemma request_refines n s r :
  cache_wf h (index s) (backend s) → writable (S n) (backend s) → refines s r.
Proof using.
  intros Hwf Hw. destruct r; [eapply put_staging_refines|eapply put_restored_refines|
    eapply delete_refines|eapply get_refines|eapply contains_refines|eapply get_staging_refines|
    apply list_refines|eapply delete_staging_refines|eapply stats_refines]; eassumption.
Qed.

(** C8: Refinement. Clients of the cache see a store of staged objects and of
    restored copies, whatever its budgets, its eviction policy and its backend:
    every history of requests is one of the store. An upload that succeeds files
    the bytes of its stream under its key and touches no other staged object, and
    one that fails touches none; only a deletion removes a staged object; a download
    is sent the bytes and the attributes last filed under its key; what is
    not there is not found; a listing is the sorted page of the staged keys, and
    the statistics count what is stored. Only restored copies can be lost: in a
    write (evicted), or one that a download finds to have expired. *)
Theorem cache_refines_store (s : CacheState B) (rs : list Request) :
  cache_wf h (index s) (backend s) → writable (length rs) (backend s) →
  store_run clock (view s) (answers h clock svc s rs) (view (serve_all h clock svc s rs)).
Proof using.
  revert s. induction rs as [|r rs IH]; intros s Hwf Hw; [constructor|]. simpl.
  eapply run_more; [by eapply request_refines|].
  assert (Hs : inv h no_files any_files (length rs) (serve s r)).
  { apply serve_inv; [apply evictable_none|by split_and!|by intros k f []]. }
  by apply IH; apply Hs.
Qed.
End refinement.

(** ** A device without failures *)

Section works.
Context {B : Type} `{CacheBackendLaws B} {works : CacheBackendWorks B}.
Context (h : hash_order) (clock : nat → Z).
Implicit Types (s : CacheState B) (f : File.t).

(** A file that has bytes is read. *)
Lemma read_works c k f data s :
  cache_wf h (index s) (backend s) → healthy (backend s) →
  cached c s !! k = Some f → File.bytes f = Some data →
  ∃ e b', entries c (index s) !! k = Some e ∧ File.attrs f = CacheXattrs.set_access 0 0 e.(StoredEntry.xattrs) ∧
    be_read e.(StoredEntry.storage_id) (backend s) = (b', Ok data) ∧ healthy b'.
Proof using works.
  intros Hwf Hh (e & He & ->)%lookup_cached Hdata. exists e.
  destruct (wf_entry _ _ _ Hwf _ _ _ He) as (_ & _ & Hid & _).
  pose proof (be_read_healthy e.(StoredEntry.storage_id) (backend s) Hh) as Hh'.
  destruct (be_read e.(StoredEntry.storage_id) (backend s)) as [b' r] eqn:Hread. exists b'.
  apply be_read_spec in Hread as (_ & _ & _ & Hok); [|done].
  apply bind_Some in Hdata as ([x bytes] & Hst & Hbytes). simpl in Hbytes. subst bytes.
  by rewrite (Hok _ _ Hh Hst).
Qed.

Lemma get_staging_works k f data s :
  cache_wf h (index s) (backend s) → healthy (backend s) →
  cached Staging s !! k = Some f → File.bytes f = Some data →
  ∃ s', get_staging k s = (s', Ok (staging_messages (File.attrs f) data)) ∧ healthy (backend s').
Proof using works.
  intros Hwf Hh Hk Hdata.
  destruct (read_works _ _ _ _ _ Hwf Hh Hk Hdata) as (e & b' & He & -> & Hread & Hh').
  unfold get_staging, find_entry, get_index, build_staging_stream, map_err_of, on_backend.
  unfold_action. rewrite He, Hread. by eexists.
Qed.
Lemma get_works k f data s :
  cache_wf h (index s) (backend s) → healthy (backend s) →
  cached Restored s !! k = Some f → File.bytes f = Some data →
  is_expired_at (File.attrs f).(CacheXattrs.expire_at) (clock (ticks s)) = false →
  ∃ s', get h clock k s = (s', Ok (get_messages (File.attrs f) data)).
Proof using works.
  intros Hwf Hh Hk Hdata Hlive.
  destruct (read_works _ _ _ _ _ Hwf Hh Hk Hdata) as (e & b' & He & Hf & Hread & _).
  rewrite Hf in *. simpl in Hlive.
  unfold get, read_restored, find_entry, get_index. unfold_action. rewrite He. simpl.
  unfold is_expired, now_unix. unfold_action.
  unfold is_expired_at in Hlive.
  destruct (0 <? _)%Z; simpl in Hlive |- *; rewrite ?Hlive;
    unfold touch_entry, now_unix, update_hit_state, modify_index, build_get_stream, map_err_of, on_backend;
    unfold_action; simpl; rewrite Hread; by eexists.
Qed.
Lemma delete_staging_works k f s :
  cache_wf h (index s) (backend s) → healthy (backend s) → cached Staging s !! k = Some f →
  ∃ s', delete_staging h k s = (s', Ok tt) ∧ healthy (backend s').
Proof using works.
  intros Hwf Hh (e & He & _)%lookup_cached.
  destruct (wf_entry _ _ _ Hwf _ _ _ He) as (_ & _ & _ & Hst).
  destruct (be_delete_works e.(StoredEntry.storage_id) (backend s) Hh Hst) as (b' & Hdel & Hh' & _).
  unfold delete_staging, delete_entry, get_index, map_err_of, on_backend, modify_index.
  unfold_action. rewrite He, Hdel. simpl. simpl in He. rewrite He, Z.eqb_refl. by eexists.
Qed.
End works.

Lemma cache_refines_store_witness :
  let rs := [RPutStaging (SampleCache.upload "k" [1; 2; 3]%Z); RGetStaging (SampleCache.key "k");
             RPutRestored (SampleCache.restore "k" [4; 5]%Z 1001); RGet (SampleCache.key "k"); RStats] in
  store_run SampleCache.clock (mkStore ∅ ∅)
    (answers canonical_order SampleCache.clock SampleCache.settings SampleCache.empty rs)
    (view (serve_all canonical_order SampleCache.clock SampleCache.settings SampleCache.empty rs)).
Proof.
  intros rs. apply (cache_refines_store canonical_order SampleCache.clock SampleCache.settings
    SampleCache.empty rs).
  - apply default_wf.
  - by apply SampleCache.disk_writable.
Defined.

(** The answers of that history *)
Example sample_answers :
  (answers canonical_order SampleCache.clock SampleCache.settings SampleCache.empty
    [RPutStaging (SampleCache.upload "k" [1; 2; 3]%Z); RGetStaging (SampleCache.key "k");
     RPutRestored (SampleCache.restore "k" [4; 5]%Z 1001); RGet (SampleCache.key "k")]).*2 =
  [APutStaging (Ok "1");
   AGetStaging (Ok [Meta (StagingObjectMeta.mk "b" "k" None 3 None None None
     (Some (Timestamp.mk 1000 0))); Data [1; 2; 3]%Z]);
   APutRestored (Ok tt); AGet (Err (not_found "restored object has expired"))].
Proof. vm_compute. reflexivity. Qed.
