(* ===== verification/SchedulerProto.v ===== *)
(** * The messages of the scheduler service

    [src/crates/proto/proto/scheduler.proto]: what the gateway sends to a
    scheduler and what it gets back. The module [scheduler] is the protobuf
    package, since other packages have messages of the same names. *)

From Stdlib Require Import ZArith String.
From S2P Require Import Prelude Proto Cache.

Module scheduler.

Module PutObjectMeta.
Record t := mk {
  bucket : string;
  key : string;
  content_length : Z;
  content_type : option string;
  checksum_sha256 : option string;
}.
End PutObjectMeta.

Module PutObjectResponse.
Record t := mk { etag : string; version_id : string }.
End PutObjectResponse.

(** [GetObjectRequest], [HeadObjectRequest] and [DeleteObjectRequest] have the
    same fields. *)
Module ObjectRequest.
Record t := mk { bucket : string; key : string; version_id : option string }.
End ObjectRequest.

(** [GetObjectMeta] and [HeadObjectResponse] have the same fields. *)
Module HeadObjectResponse.
Record t := mk {
  content_length : Z;
  content_type : option string;
  etag : string;
  storage_class : Z;
  restore_info : option string;
  last_modified : option Timestamp.t;
}.
#[global] Instance t_eq_dec : EqDecision t.
Proof. solve_decision. Defined.
End HeadObjectResponse.

Module RestoreObjectRequest.
Record t := mk {
  bucket : string;
  key : string;
  version_id : option string;
  days : Z;
  tier : Z;
}.
End RestoreObjectRequest.

Module ListObjectsRequest.
Record t := mk {
  bucket : string;
  prefix : option string;
  marker : option string;
  delimiter : option string;
  max_keys : Z;
}.
End ListObjectsRequest.

Module ObjectEntry.
Record t := mk {
  key : string;
  last_modified : option Timestamp.t;
  etag : string;
  size : Z;
  storage_class : string;
}.
#[global] Instance t_eq_dec : EqDecision t.
Proof. solve_decision. Defined.
End ObjectEntry.

(** A [CommonPrefix] is its [prefix]. *)
Module ListObjectsResponse.
Record t := mk {
  bucket : string;
  prefix : option string;
  marker : option string;
  next_marker : option string;
  max_keys : Z;
  is_truncated : bool;
  contents : list ObjectEntry.t;
  common_prefixes : list string;
}.
End ListObjectsResponse.

Module BucketEntry.
Record t := mk { name : string; creation_date : option Timestamp.t }.
End BucketEntry.
End scheduler.

(** The gRPC service: one operation per method, on the state [W] of the
    system behind it. A request stream is the list of its messages, each a
    payload or a transport error; a response stream is its messages. *)
Record SchedulerApi (W : Type) := mkSchedulerApi {
  api_put_object : list (result Status (option (Payload scheduler.PutObjectMeta.t))) →
    action W Status scheduler.PutObjectResponse.t;
  api_get_object : scheduler.ObjectRequest.t →
    action W Status (list (result Status (option (Payload scheduler.HeadObjectResponse.t))));
  api_head_object : scheduler.ObjectRequest.t → action W Status scheduler.HeadObjectResponse.t;
  api_delete_object : scheduler.ObjectRequest.t → action W Status unit;
  api_restore_object : scheduler.RestoreObjectRequest.t → action W Status Z;
  api_list_objects : scheduler.ListObjectsRequest.t →
    action W Status scheduler.ListObjectsResponse.t;
  api_create_bucket : string → action W Status unit;
  api_delete_bucket : string → action W Status unit;
  api_head_bucket : string → action W Status unit;
  api_list_buckets : action W Status (list scheduler.BucketEntry.t);
}.
Arguments mkSchedulerApi {W}.
Arguments api_put_object {W}.
Arguments api_get_object {W}.
Arguments api_head_object {W}.
Arguments api_delete_object {W}.
Arguments api_restore_object {W}.
Arguments api_list_objects {W}.
Arguments api_create_bucket {W}.
Arguments api_delete_bucket {W}.
Arguments api_head_bucket {W}.
Arguments api_list_buckets {W}.
