(* ===== verification/External.v ===== *)
(** * Libraries outside the repository

    The parts of third-party crates that the gateway and the scheduler call,
    as interfaces: header values of [http], dates of [chrono], and SHA-256 of
    [sha2]. The laws are what their documentation promises; [Samples] has an
    instance that keeps them. *)

From Stdlib Require Import ZArith Lia String Ascii.
From S2P Require Import Prelude RustStr.

Local Open Scope string_scope.
Local Open Scope stdpp_scope.

(** A space to a tilde *)
Definition is_visible_ascii (c : ascii) : bool := between 32 126 (byte_of c).
Definition is_control (c : ascii) : bool := ((byte_of c <? 32) && negb (byte_of c =? 9))%Z.

(** [http::HeaderValue]: whether [from_str] takes a string, and [to_str] on
    the bytes of a value *)
Class HeaderValues := {
  from_str_ok : string → bool;
  to_str : string → option string;
}.
Class HeaderValueLaws `{HeaderValues} : Prop := {
  from_str_visible s : all_chars is_visible_ascii s = true → from_str_ok s = true;
  from_str_control s : all_chars (negb ∘ is_control) s = false → from_str_ok s = false;
  to_str_visible s : all_chars is_visible_ascii s = true → to_str s = Some s;
  to_str_Some s t : to_str s = Some t → t = s;
}.

(** [chrono]: parsing with a format and as RFC 2822, the date of a number of
    seconds since the epoch, also with nanoseconds, and back, and formatting. *)
Class Chrono := {
  DateTime : Type;
  parse_from_str : string → string → option DateTime;
  parse_from_rfc2822 : string → option DateTime;
  from_timestamp : Z → option DateTime;
  timestamp_opt : Z → Z → option DateTime;
  timestamp : DateTime → Z;
  format : DateTime → string → string;
}.

(** The SHA-256 digest in lower-case hexadecimal: 64 digits *)
Definition is_hex (c : ascii) : bool :=
  between 48 57 (byte_of c) || between 97 102 (byte_of c).
Class Sha256 := sha256_hex : list Z → string.
Class Sha256Laws `{Sha256} : Prop := {
  sha256_digits data : all_chars is_hex (sha256_hex data) = true;
  sha256_length data : String.length (sha256_hex data) = 64%nat;
}.

(** The [Debug] text of an optional string, which error messages print *)
Class DebugFormat := debug_option : option string → string.

Module Samples.
(** A header value is refused when it has a control character. *)
#[global] Instance sample_headers : HeaderValues := {|
  from_str_ok := all_chars (negb ∘ is_control);
  to_str s := if all_chars is_visible_ascii s then Some s else None |}.

Lemma visible_not_control c : is_visible_ascii c = true → is_control c = false.
Proof.
  unfold is_visible_ascii, is_control, between. intros [?%Z.leb_le _]%andb_true_iff.
  apply andb_false_iff. left. apply Z.ltb_ge. lia.
Qed.

#[global] Instance sample_headers_laws : HeaderValueLaws.
Proof.
  split; simpl.
  - unfold all_chars. intros s. rewrite !forallb_forall. intros Hs c Hc. simpl.
    by rewrite (visible_not_control c (Hs c Hc)).
  - done.
  - by intros s ->.
  - intros s t. case_match; congruence.
Qed.

(** Dates are their seconds; only the format of a decimal number is known. *)
#[global] Instance sample_chrono : Chrono := {|
  DateTime := Z;
  parse_from_str _ _ := None;
  parse_from_rfc2822 := parse_u64;
  from_timestamp := Some;
  timestamp_opt s _ := Some s;
  timestamp z := z;
  format z _ := u64_to_string z |}.

(** Not a digest, but of its form: the length and the first bytes, enough to
    tell small samples apart *)
Definition hex_char (z : Z) : ascii :=
  let n := (z mod 16)%Z in ascii_of_N (Z.to_N (if (n <? 10)%Z then 48 + n else 87 + n)).
Fixpoint hex (n : nat) (body : list Z) : string :=
  match n with
  | O => EmptyString
  | S n =>
      String (hex_char (default 0%Z (head body) / 16))
        (String (hex_char (default 0%Z (head body))) (hex n (tail body)))
  end.
#[global] Instance sample_sha256 : Sha256 := λ body, hex 32 (Z.of_nat (length body) :: body).

Lemma hex_char_hex z : is_hex (hex_char z) = true.
Proof.
  unfold hex_char. pose proof (Z.mod_pos_bound z 16 eq_refl) as Hz.
  assert (Hn : (z mod 16)%Z ∈ seqZ 0 16) by (apply elem_of_seqZ; lia).
  clear Hz. revert Hn. generalize (z mod 16)%Z. apply Forall_forall. by repeat constructor.
Qed.
#[global] Instance sample_sha256_laws : Sha256Laws.
Proof.
  unfold sha256_hex, sample_sha256.
  assert (Hdigits : ∀ n body, all_chars is_hex (hex n body) = true).
  { intros n. induction n as [|n IH]; intros body; [done|].
    unfold all_chars. simpl. rewrite !hex_char_hex. apply IH. }
  assert (Hlength : ∀ n body, String.length (hex n body) = (n + n)%nat).
  { intros n. induction n as [|n IH]; intros body; simpl; [done|]. rewrite IH. lia. }
  split; intros; [apply Hdigits|apply Hlength].
Qed.

#[global] Instance sample_debug : DebugFormat := λ o,
  match o with Some s => "Some(" +:+ s +:+ ")" | None => "None" end.
End Samples.
