(* ===== verification/Config.v ===== *)
(** * Configuration of the gateway, the scheduler and the tape worker

    The sections of [src/crates/common/src/config.rs] that are not with their
    component, and their defaults. *)

From Stdlib Require Import ZArith String.
From S2P Require Import Prelude.

Local Open Scope string_scope.
Local Open Scope list_scope.

Module GatewayConfig.
Record t := mk { listen : string; scheduler_addrs : list string }.
Definition default_config : t := mk "0.0.0.0:9000" ["127.0.0.1:22001"].
End GatewayConfig.

Definition default_cache_addrs : list string := ["127.0.0.1:23001"].
Definition default_tape_addrs : list string := ["127.0.0.1:24001"].
Definition default_recall_scan_interval_secs : Z := 60.
Definition default_scheduler_drive_id : string := "drive-0".
Definition default_scheduler_tape_id : string := "TAPE0001".
Definition default_scheduler_tape_set : list string := [default_scheduler_tape_id].

Module ArchiveSchedulerConfig.
Record t := mk {
  enabled : bool;
  scan_interval_secs : Z;
  batch_size : Z;
  max_workers : Z;
  drive_id : string;
  tape_id : string;
  tape_set : list string;
  min_archive_size_mb : Z;
  max_archive_size_mb : Z;
  target_throughput_mbps : Z;
  aggregation_window_secs : Z;
  write_buffer_mb : Z;
  block_size : Z;
}.
End ArchiveSchedulerConfig.

Module RecallSchedulerConfig.
Record t := mk {
  enabled : bool;
  scan_interval_secs : Z;
  max_concurrent_restores : Z;
  max_workers : Z;
  merge_window_secs : Z;
  restore_timeout_secs : Z;
  read_buffer_mb : Z;
  drive_id : string;
}.
End RecallSchedulerConfig.

Module SchedulerConfig.
Record t := mk {
  node_id : Z;
  listen : string;
  metadata_addrs : list string;
  cache_addrs : list string;
  tape_addrs : list string;
  archive : ArchiveSchedulerConfig.t;
  recall : RecallSchedulerConfig.t;
}.
Definition default_config : t :=
  mk 1 "0.0.0.0:22001" ["127.0.0.1:21001"] default_cache_addrs default_tape_addrs
    (ArchiveSchedulerConfig.mk true 60 1000 1 default_scheduler_drive_id
       default_scheduler_tape_id default_scheduler_tape_set 100 10240 300 300 128 262144)
    (RecallSchedulerConfig.mk true default_recall_scan_interval_secs 10 1 60 3600 64
       default_scheduler_drive_id).
End SchedulerConfig.

Module ScsiConfig.
Record t := mk { devices : list string; block_size : Z; buffer_size_mb : Z }.
End ScsiConfig.

Definition default_simulator_slot_count : Z := 8.
Definition default_simulator_tape_ids : list string := [default_scheduler_tape_id].
Definition default_simulator_autoload_tape_id : option string := Some default_scheduler_tape_id.

Module TapeSimulatorConfig.
Record t := mk { slot_count : Z; tape_ids : list string; autoload_tape_id : option string }.
Definition default_config : t :=
  mk default_simulator_slot_count default_simulator_tape_ids default_simulator_autoload_tape_id.
End TapeSimulatorConfig.

Module TapeConfig.
Record t := mk {
  listen : string;
  metadata_addrs : list string;
  sdk_backend : string;
  scsi : ScsiConfig.t;
  simulator : TapeSimulatorConfig.t;
  library_device : option string;
  supported_formats : list string;
  tape_hold_secs : Z;
  drive_acquire_timeout_secs : Z;
}.
Definition default_config : t :=
  mk "0.0.0.0:24001" ["127.0.0.1:21001"] "simulator" (ScsiConfig.mk ["/dev/nst0"] 262144 64)
    TapeSimulatorConfig.default_config None ["LTO-9"; "LTO-10"] 300 600.
End TapeConfig.
