(* ===== verification/Workers.v ===== *)
(** * The workers as services

    What stands between the gRPC interface of a worker and its model: the
    handlers of the tape worker that forward to its backend
    ([src/crates/tape/src/service.rs]), the directory of each cache backend
    ([src/crates/cache/src/spdk.rs]) and the start of both workers. *)

From Stdlib Require Import ZArith String Ascii.
From S2P Require Import Prelude Proto RustStr MetadataService Cluster Vtl TapeService CacheBackend Cache Config.

Local Open Scope string_scope.
Local Open Scope list_scope.
Local Open Scope stdpp_scope.

(** ** The tape worker *)

Module AcquireDriveRequest.
Record t := mk {
  preferred_drive_id : option string;
  required_tape_id : option string;
  priority : Z;
  timeout_secs : Z;
}.
End AcquireDriveRequest.

Module LoadTapeRequest.
Record t := mk { tape_id : string; drive_id : string; slot_id : option string }.
End LoadTapeRequest.

Module UnloadTapeRequest.
Record t := mk { drive_id : string; target_slot_id : option string }.
End UnloadTapeRequest.

Module SeekToFilemarkRequest.
Record t := mk { drive_id : string; filemark : Z }.
End SeekToFilemarkRequest.

Section handlers.
Context {B : Type} `{TapeBackend B}.
Abbreviation handler A := (action B (fault Status) A).

(** Requests of one field are that field. *)
Definition handle_list_drives : handler (list DriveEndpoint.t) := list_drives.
Definition handle_get_drive_status (drive_id : string) : handler DriveEndpoint.t :=
  get_drive_status drive_id.
Definition handle_acquire_drive (req : AcquireDriveRequest.t) : handler AcquireDriveResponse.t :=
  acquire_drive req.(AcquireDriveRequest.preferred_drive_id)
    req.(AcquireDriveRequest.required_tape_id).
Definition handle_release_drive (drive_id : string) : handler unit :=
  release_drive drive_id;; mret tt.
Definition handle_load_tape (req : LoadTapeRequest.t) : handler unit :=
  load_tape req.(LoadTapeRequest.tape_id) req.(LoadTapeRequest.drive_id)
    req.(LoadTapeRequest.slot_id);; mret tt.
Definition handle_unload_tape (req : UnloadTapeRequest.t) : handler unit :=
  unload_tape req.(UnloadTapeRequest.drive_id) req.(UnloadTapeRequest.target_slot_id);; mret tt.
Definition handle_rewind (drive_id : string) : handler unit := rewind_drive drive_id;; mret tt.
Definition handle_seek_to_filemark (req : SeekToFilemarkRequest.t) : handler unit :=
  seek_to_filemark req.(SeekToFilemarkRequest.drive_id) req.(SeekToFilemarkRequest.filemark);;
  mret tt.
Definition handle_get_tape_media_status (drive_id : string) : handler TapeMediaStatus.t :=
  get_tape_media_status drive_id.
Definition handle_inventory : handler (list SlotInfo.t) := inventory.
End handlers.

(** [TapeServiceImpl::new]: the simulated library of the configuration *)
Definition TapeServiceImpl_new (config : TapeConfig.t) : result (fault Status) SimulatorState :=
  let sim := config.(TapeConfig.simulator) in
  from_config (Z.of_nat (length config.(TapeConfig.scsi).(ScsiConfig.devices)))
    sim.(TapeSimulatorConfig.slot_count) sim.(TapeSimulatorConfig.tape_ids)
    sim.(TapeSimulatorConfig.autoload_tape_id).

(** ** The cache worker *)

(** [sanitize_bdev_name]: every character that is not a safe ASCII one becomes
    an underscore; a character beyond ASCII is several bytes, of which the
    first stands for it and the others, from 128 to 191, are dropped. *)
Definition is_safe (c : ascii) : bool :=
  let b := byte_of c in
  between 97 122 b || between 65 90 b || between 48 57 b
  || existsb (λ a, c == a) ["-"%char; "_"%char; "."%char].
Fixpoint sanitize_bdev_name (name : string) : string :=
  match name with
  | EmptyString => EmptyString
  | String c name =>
      if is_safe c then String c (sanitize_bdev_name name)
      else if between 128 191 (byte_of c) then sanitize_bdev_name name
      else String "_" (sanitize_bdev_name name)
  end.

(** The directory of the backend, and its size *)
Definition cache_root (config : CacheBackendConfig) : string :=
  match config with
  | HddConfig path _ => path
  | SpdkConfig config_file bdev_name _ _ =>
      path_join (path_join config_file "spdk") (sanitize_bdev_name bdev_name)
  end.
Definition max_size_gb (config : CacheBackendConfig) : Z :=
  match config with HddConfig _ n => n | SpdkConfig _ _ n _ => n end.

(** [CacheServiceImpl::new], on the disk below each directory; the service is
    the state with the settings of the configuration, [settings_of]. *)
Definition CacheServiceImpl_new `{Json} (h : hash_order) (disk : string → Hdd)
    (config : CacheConfig.t) : CacheState Hdd * result string unit :=
  let backend := config.(CacheConfig.backend) in
  match hdd_new h (max_size_gb backend) (disk (cache_root backend)) with
  | (b, Ok _) => @cache_new Hdd (hdd_backend h) h b
  | (b, Err err) => (mkCache default_index b 0, Err err)
  end.

(** A sanitized name is safe, and sanitizing it again changes nothing. *)
Lemma sanitize_safe name : all_chars is_safe (sanitize_bdev_name name) = true.
Proof.
  unfold all_chars. induction name as [|c name IH]; [done|]. cbn [sanitize_bdev_name].
  destruct (is_safe c) eqn:Hc; [|destruct (between _ _ _); [done|]]; simpl; by rewrite ?Hc, IH.
Qed.
Lemma sanitize_id name : all_chars is_safe name = true → sanitize_bdev_name name = name.
Proof.
  unfold all_chars. induction name as [|c name IH]; [done|]. simpl.
  intros [-> Hn]%andb_true_iff. by rewrite IH.
Qed.

(** Two names can share a directory, and two dots leave the one for devices. *)
Example sanitize_collides :
  cache_root (SpdkConfig "etc" "Malloc/0" 1 1) = cache_root (SpdkConfig "etc" "Malloc_0" 1 1).
Proof. reflexivity. Qed.
Example sanitize_keeps_dots : cache_root (SpdkConfig "etc" ".." 1 1) = "etc/spdk/..".
Proof. reflexivity. Qed.
