(* ===== verification/GatewayProtocol.v ===== *)
(** * The S3 protocol of the gateway

    [src/crates/gateway/src/protocol.rs]: the S3 error codes and the error
    document, the [x-amz-restore] header, and the parser of restore
    requests. *)

From Stdlib Require Import ZArith String Ascii.
From S2P Require Import Prelude Proto RustStr.

Local Open Scope string_scope.
Local Open Scope list_scope.
Local Open Scope stdpp_scope.

Definition MAX_RESTORE_DAYS : Z := 365.

Definition QUOTE : ascii := "034"%char.
(** A string between double quotes *)
Definition quoted (s : string) : string := String QUOTE (s +:+ String QUOTE EmptyString).

(** ** Errors *)

Module S3ErrorCode.
Inductive t :=
| InvalidObjectState
| InvalidArgument
| RestoreAlreadyInProgress
| GlacierExpeditedRetrievalNotAvailable
| SlowDown
| ServiceUnavailable
| TooManyRequests
| NoSuchKey
| NoSuchBucket
| PreconditionFailed
| NotModified
| NotImplemented.
#[global] Instance t_eq_dec : EqDecision t.
Proof. solve_decision. Defined.

Definition as_str (c : t) : string :=
  match c with
  | InvalidObjectState => "InvalidObjectState"
  | InvalidArgument => "InvalidArgument"
  | RestoreAlreadyInProgress => "RestoreAlreadyInProgress"
  | GlacierExpeditedRetrievalNotAvailable => "GlacierExpeditedRetrievalNotAvailable"
  | SlowDown => "SlowDown"
  | ServiceUnavailable => "ServiceUnavailable"
  | TooManyRequests => "TooManyRequests"
  | NoSuchKey => "NoSuchKey"
  | NoSuchBucket => "NoSuchBucket"
  | PreconditionFailed => "PreconditionFailed"
  | NotModified => "NotModified"
  | NotImplemented => "NotImplemented"
  end.

Definition http_status (c : t) : Z :=
  match c with
  | InvalidObjectState => 403
  | InvalidArgument => 400
  | RestoreAlreadyInProgress => 409
  | GlacierExpeditedRetrievalNotAvailable => 503
  | SlowDown => 503
  | ServiceUnavailable => 503
  | TooManyRequests => 429
  | NoSuchKey => 404
  | NoSuchBucket => 404
  | PreconditionFailed => 412
  | NotModified => 304
  | NotImplemented => 501
  end.
End S3ErrorCode.

Definition escape_xml (value : string) : string :=
  str_replace "'" "&apos;"
    (str_replace QUOTE "&quot;"
      (str_replace ">" "&gt;" (str_replace "<" "&lt;" (str_replace "&" "&amp;" value)))).

Definition XML_DECLARATION : string :=
  "<?xml version=" +:+ quoted "1.0" +:+ " encoding=" +:+ quoted "UTF-8" +:+ "?>".

Module S3ErrorResponse.
Record t := mk {
  code : S3ErrorCode.t;
  message : string;
  resource : string;
}.

Definition to_xml (e : t) : string :=
  let message := escape_xml e.(message) in
  let resource := escape_xml e.(resource) in
  XML_DECLARATION +:+ "<Error><Code>" +:+ S3ErrorCode.as_str e.(code) +:+ "</Code><Message>"
  +:+ message +:+ "</Message><Resource>" +:+ resource +:+ "</Resource></Error>".
End S3ErrorResponse.

(** ** The restore header *)

Definition format_restore_header (ongoing : bool) (expiry_date : option string) : string :=
  if ongoing then "ongoing-request=" +:+ quoted "true"
  else match expiry_date with
       | Some date =>
           "ongoing-request=" +:+ quoted "false" +:+ ", expiry-date=" +:+ quoted date
       | None => "ongoing-request=" +:+ quoted "false"
       end.

(** ** Restore requests *)

Definition is_restore_request (query : option string) : bool :=
  existsb (λ item, (item == "restore") || str_starts_with item "restore=")
    (split "&" (default EmptyString query)).

Module RestoreRequest.
Record t := mk { days : Z; tier : RestoreTier.t }.
#[global] Instance t_eq_dec : EqDecision t.
Proof. solve_decision. Defined.
End RestoreRequest.

Inductive RestoreParseError := InvalidBody | InvalidDays | InvalidTier.
#[export] Instance RestoreParseError_eq_dec : EqDecision RestoreParseError.
Proof. solve_decision. Defined.

Definition find_xml_value (source tag : string) : option string :=
  let open := "<" +:+ tag +:+ ">" in
  let close := "</" +:+ tag +:+ ">" in
  open_pos ← str_find open source;
  let value_start := (open_pos + String.length open)%nat in
  value_end_rel ← str_find close (str_drop value_start source);
  let value_end := (value_start + value_end_rel)%nat in
  Some (trim (str_take (value_end - value_start) (str_drop value_start source))).

Definition parse_tier (raw : string) : option RestoreTier.t :=
  let raw := to_lowercase (trim raw) in
  if raw == "expedited" then Some RestoreTier.Expedited
  else if raw == "standard" then Some RestoreTier.Standard
  else if raw == "bulk" then Some RestoreTier.Bulk
  else None.

(** [if days == 0 || days > MAX_RESTORE_DAYS { return Err(InvalidDays) }] *)
Definition check_days (days : Z) : result RestoreParseError Z :=
  if ((days =? 0) || (MAX_RESTORE_DAYS <? days))%Z then Err InvalidDays else Ok days.

Definition parse_restore_request (query : gmap string string) (body : list Z)
    : result RestoreParseError RestoreRequest.t :=
  body_xml ←
    match body with
    | [] => Ok None
    | _ => xml ← ok_or InvalidBody (from_utf8 body); Ok (Some xml)
    end;
  days ←
    match body_xml ≫= λ body, find_xml_value body "Days" with
    | Some days_raw => days ← ok_or InvalidDays (parse_u32 days_raw); check_days days
    | None =>
        days ← match query !! "days" with
               | Some days => ok_or InvalidDays (parse_u32 days)
               | None => Ok 1%Z
               end;
        check_days days
    end;
  tier ←
    match body_xml ≫= λ body, find_xml_value body "Tier" with
    | Some raw_tier => ok_or InvalidTier (parse_tier raw_tier)
    | None => ok_or InvalidTier (parse_tier (default "Standard" (query !! "tier")))
    end;
  Ok (RestoreRequest.mk days tier).
