(* ===== verification/Gateway.v ===== *)
(** * The gateway

    [src/crates/gateway/src/handler.rs]: the S3 handlers over a
    [GatewayBackend] (the trait of [lib.rs]), with their range and
    precondition parsing, responses and error mapping; and
    [src/crates/gateway/src/lib.rs]: the backend that forwards to a fleet of
    schedulers. *)

From Stdlib Require Import ZArith String Ascii.
From S2P Require Import Prelude Proto RustStr External Cache SchedulerProto GatewayProtocol.
Import scheduler.

Local Open Scope string_scope.
Local Open Scope list_scope.
Local Open Scope stdpp_scope.

Definition DEFAULT_LIST_MAX_KEYS : Z := 1000.
Definition MAX_LIST_MAX_KEYS : Z := 1000.

(** ** The backend trait *)

Record DownloadedObject := mkDownloaded { dl_head : HeadObjectResponse.t; dl_body : list Z }.

Class GatewayBackend (W : Type) := {
  gb_list_buckets : action W Status (list BucketEntry.t);
  gb_create_bucket : string → action W Status unit;
  gb_delete_bucket : string → action W Status unit;
  gb_head_bucket : string → action W Status unit;
  gb_list_objects : string → option string → option string → option string → Z →
    action W Status scheduler.ListObjectsResponse.t;
  gb_put_object : string → string → list Z → option string →
    action W Status PutObjectResponse.t;
  gb_get_object : string → string → action W Status DownloadedObject;
  gb_delete_object : string → string → action W Status unit;
  gb_head_object : string → string → action W Status HeadObjectResponse.t;
  gb_restore_object : string → string → Z → RestoreTier.t → action W Status Z;
}.

(** ** Responses *)

(** The status, the headers by their lower-case name, and the body *)
Record Response := mkResponse {
  resp_status : Z;
  resp_headers : gmap string string;
  resp_body : list Z;
}.
#[export] Instance Response_eq_dec : EqDecision Response.
Proof. solve_decision. Defined.

(** What a failed [unwrap] does to a handler *)
Inductive panic := Panic.

(** [response.headers_mut().insert(name, value)] *)
Definition insert_header (name value : string) (r : Response) : Response :=
  mkResponse (resp_status r) (<[name := value]> (resp_headers r)) (resp_body r).

Definition s3_xml_response (status : Z) (body : string) : Response :=
  mkResponse status {["content-type" := "application/xml"]} (bytes_of body).
Definition xml_response (status : Z) (body : string) : Response := s3_xml_response status body.
Definition empty_response (status : Z) : Response := mkResponse status ∅ [].

Definition bad_request_response_with_code (code : S3ErrorCode.t) (message resource : string)
    : Response :=
  s3_xml_response 400 (S3ErrorResponse.to_xml (S3ErrorResponse.mk code message resource)).

Definition bad_request_response (operation resource : string) : Response :=
  bad_request_response_with_code S3ErrorCode.NotImplemented
    ("unsupported POST action for " +:+ operation) resource.

Definition precondition_failed_response (message resource : string) : Response :=
  s3_xml_response 412 (S3ErrorResponse.to_xml
    (S3ErrorResponse.mk S3ErrorCode.PreconditionFailed message resource)).

(** *** The mapping of gRPC errors *)

Inductive CacheRejectStatus := Backpressure | RateLimited | InvalidRequest.

Definition CAPACITY_REJECT : string := "capacity_reject:".
Definition cache_reject_status_hint (message : string) : option CacheRejectStatus :=
  let message := trim message in
  if negb (str_starts_with message CAPACITY_REJECT) then None else
  let reason := default EmptyString
    (head (split ":" (str_drop (String.length CAPACITY_REJECT) message))) in
  if reason == "incoming_larger_than_capacity" then Some InvalidRequest
  else if bool_decide (reason ∈ ["client_rate_limited"; "concurrency_limit_exceeded";
                                 "request_rate_exceeded"]) then Some RateLimited
  else if bool_decide (reason ∈ ["staging_budget_exceeded"; "restored_budget_exceeded";
                                 "global_capacity_exceeded"; "low_watermark_exceeded";
                                 "no_eviction_candidate"; "zero_capacity"])
  then Some Backpressure
  else None.

(** The [match] of [grpc_status_to_s3_response]: the S3 code, the HTTP status
    and the seconds of [Retry-After] *)
Definition s3_error_of (status : Status) (resource : string)
    : S3ErrorCode.t * Z * option Z :=
  match code status with
  | AlreadyExists => (S3ErrorCode.RestoreAlreadyInProgress, 409, None)
  | NotFound =>
      ((if (1 <? count_char "/" resource)%nat then S3ErrorCode.NoSuchKey
        else S3ErrorCode.NoSuchBucket), 404, None)
  | InvalidArgument => (S3ErrorCode.InvalidArgument, 400, None)
  | FailedPrecondition => (S3ErrorCode.InvalidObjectState, 403, None)
  | Unavailable =>
      if str_contains "glacier expedited retrieval is not available"
           (to_lowercase (message status))
      then (S3ErrorCode.GlacierExpeditedRetrievalNotAvailable, 503, Some 1)
      else (S3ErrorCode.ServiceUnavailable, 503, Some 1)
  | ResourceExhausted =>
      match cache_reject_status_hint (message status) with
      | Some Backpressure => (S3ErrorCode.SlowDown, 503, Some 1)
      | Some RateLimited => (S3ErrorCode.SlowDown, 503, Some 1)
      | Some InvalidRequest => (S3ErrorCode.InvalidArgument, 400, None)
      | None => (S3ErrorCode.SlowDown, 503, Some 1)
      end
  | Unimplemented => (S3ErrorCode.NotImplemented, 501, None)
  | _ => (S3ErrorCode.NotImplemented, 502, None)
  end%Z.

Section headers.
Context `{HeaderValues}.

(** [HeaderValue::from_str(s).unwrap()] *)
Definition header_value (s : string) : result panic string :=
  if from_str_ok s then Ok s else Err Panic.
(** [HeaderValue::from_str(s).unwrap_or_else(|_| HeaderValue::from_static(other))] *)
Definition header_value_or (other s : string) : string := if from_str_ok s then s else other.

Definition grpc_status_to_s3_response (status : Status) (resource : string) : Response :=
  let '(code, http_status, retry_after) := s3_error_of status resource in
  let response := s3_xml_response http_status
    (S3ErrorResponse.to_xml (S3ErrorResponse.mk code (message status) resource)) in
  match retry_after with
  | Some seconds =>
      insert_header "retry-after" (header_value_or "1" (u64_to_string seconds)) response
  | None => response
  end.

Definition not_modified_response (resource etag : string) : Response :=
  insert_header "x-amz-request-id" (header_value_or "-" resource)
    (insert_header "etag" (header_value_or (quoted EmptyString) etag) (empty_response 304)).

Definition range_not_satisfiable_response (body_size : Z) : result panic Response :=
  value ← header_value ("bytes */" +:+ u64_to_string body_size);
  Ok (insert_header "content-range" value (empty_response 416)).

(** *** Object headers *)

Definition normalize_restore_info (restore_info : string) : string :=
  let restore_info := trim restore_info in
  let ready := "ongoing-request=" +:+ quoted "false" in
  match strip_prefix (ready +:+ ", expiry-date=" +:+ String QUOTE EmptyString) restore_info with
  | Some expiry => format_restore_header false (Some (trim_end_matches QUOTE expiry))
  | None =>
      match strip_prefix (ready +:+ ", expiry-ts=" +:+ String QUOTE EmptyString) restore_info with
      | Some expiry => format_restore_header false (Some (trim_end_matches QUOTE expiry))
      | None =>
          if str_starts_with restore_info ready then format_restore_header false None
          else format_restore_header true None
      end
  end.

Context `{Chrono}.

Definition HTTP_DATE : string := "%a, %d %b %Y %H:%M:%S GMT".
Definition format_http_date (time : DateTime) : string := format time HTTP_DATE.

Definition apply_object_headers (head : HeadObjectResponse.t) (headers : gmap string string)
    : result panic (gmap string string) :=
  let headers := <["content-length" :=
    header_value_or "0" (u64_to_string head.(HeadObjectResponse.content_length))]> headers in
  headers ←
    match head.(HeadObjectResponse.content_type) with
    | Some content_type =>
        value ← header_value content_type; Ok (<["content-type" := value]> headers)
    | None => Ok headers
    end;
  etag ← header_value head.(HeadObjectResponse.etag);
  let headers := <["etag" := etag]> headers in
  headers ←
    match head.(HeadObjectResponse.restore_info) with
    | Some restore_info =>
        value ← header_value (normalize_restore_info restore_info);
        Ok (<["x-amz-restore" := value]> headers)
    | None => Ok headers
    end;
  Ok match head.(HeadObjectResponse.last_modified) ≫= λ t, from_timestamp t.(Timestamp.seconds)
     with
     | Some last_modified =>
         <["last-modified" := header_value_or EmptyString (format_http_date last_modified)]> headers
     | None => headers
     end.

Definition head_object_success_response (head : HeadObjectResponse.t) : result panic Response :=
  headers ← apply_object_headers head ∅;
  Ok (mkResponse 200 headers []).

Definition put_object_success_response (put_response : PutObjectResponse.t)
    : result panic Response :=
  etag ← header_value put_response.(PutObjectResponse.etag);
  Ok (insert_header "etag" etag (empty_response 200)).

(** *** Preconditions *)

Definition etag_header_matches (header_value etag : string) : bool :=
  existsb (λ token, (token == "*") || (token == etag) || (token == "W/" +:+ quoted etag))
    (trim_matches [QUOTE] <$> (trim <$> split "," header_value)).

Definition RFC_850_HTTP_DATE : string := "%A, %d-%b-%y %H:%M:%S GMT".
Definition ANSI_C_DATE : string := "%a %b %e %H:%M:%S %Y".

Definition parse_http_datetime (value : string) : result string (option Z) :=
  let value := trim value in
  if value == EmptyString then Ok None else
  match head (omap (parse_from_str value) [HTTP_DATE; RFC_850_HTTP_DATE; ANSI_C_DATE]) with
  | Some time => Ok (Some (timestamp time))
  | None => time ← ok_or "unable to parse HTTP date" (parse_from_rfc2822 value);
            Ok (Some (timestamp time))
  end.
End headers.

(** *** Listings *)

Definition list_buckets_xml_response (buckets : list BucketEntry.t) : Response :=
  let buckets_xml := join EmptyString
    ((λ bucket, "<Bucket><Name>" +:+ escape_xml bucket.(BucketEntry.name) +:+ "</Name></Bucket>")
       <$> buckets) in
  xml_response 200 (XML_DECLARATION +:+ "<ListAllMyBucketsResult><Buckets>" +:+ buckets_xml
    +:+ "</Buckets></ListAllMyBucketsResult>").

Definition contents_xml (entry : ObjectEntry.t) : string :=
  "<Contents><Key>" +:+ escape_xml entry.(ObjectEntry.key) +:+ "</Key><ETag>"
  +:+ escape_xml entry.(ObjectEntry.etag) +:+ "</ETag><Size>"
  +:+ u64_to_string entry.(ObjectEntry.size) +:+ "</Size><StorageClass>"
  +:+ escape_xml entry.(ObjectEntry.storage_class) +:+ "</StorageClass></Contents>".
Definition common_prefix_xml (prefix : string) : string :=
  "<CommonPrefixes><Prefix>" +:+ escape_xml prefix +:+ "</Prefix></CommonPrefixes>".

(** The body of [list_objects_xml_response] *)
Definition list_objects_xml (response : scheduler.ListObjectsResponse.t) : string :=
  let text o := escape_xml (default EmptyString o) in
  let contents := foldl (λ s entry, s +:+ contents_xml entry) EmptyString
    response.(ListObjectsResponse.contents) in
  let common_prefixes := foldl (λ s prefix, s +:+ common_prefix_xml prefix) EmptyString
    response.(ListObjectsResponse.common_prefixes) in
  XML_DECLARATION +:+ "<ListBucketResult><Name>"
  +:+ escape_xml response.(ListObjectsResponse.bucket) +:+ "</Name><Prefix>"
  +:+ text response.(ListObjectsResponse.prefix) +:+ "</Prefix><Marker>"
  +:+ text response.(ListObjectsResponse.marker) +:+ "</Marker><NextMarker>"
  +:+ text response.(ListObjectsResponse.next_marker) +:+ "</NextMarker><MaxKeys>"
  +:+ u64_to_string response.(ListObjectsResponse.max_keys) +:+ "</MaxKeys><IsTruncated>"
  +:+ (if response.(ListObjectsResponse.is_truncated) then "true" else "false")
  +:+ "</IsTruncated>" +:+ contents +:+ common_prefixes +:+ "</ListBucketResult>".
Definition list_objects_xml_response (response : scheduler.ListObjectsResponse.t) : Response :=
  xml_response 200 (list_objects_xml response).

Definition parse_list_max_keys (value : option string) : result Response Z :=
  let bad := bad_request_response_with_code S3ErrorCode.InvalidArgument
    "max-keys must be an integer between 1 and 1000" "/" in
  let raw := default EmptyString value in
  max_keys ← (if raw == EmptyString then Ok DEFAULT_LIST_MAX_KEYS
              else ok_or bad (parse_u32 raw));
  if negb ((1 <=? max_keys) && (max_keys <=? MAX_LIST_MAX_KEYS))%Z then Err bad
  else Ok max_keys.

(** *** Byte ranges *)

Inductive ByteRangeParseError := Malformed | Unsatisfiable.
#[export] Instance ByteRangeParseError_eq_dec : EqDecision ByteRangeParseError.
Proof. solve_decision. Defined.

Definition parse_byte_range (raw_range : string) (object_size : Z)
    : result ByteRangeParseError (option (Z * Z)) :=
  let raw := trim raw_range in
  spec ← ok_or Malformed
    ('(unit, spec) ← split_once "=" raw;
     if eq_ignore_ascii_case unit "bytes" then Some spec else None);
  if spec == EmptyString then Err Malformed else
  if (object_size =? 0)%Z then Err Unsatisfiable else
  if str_contains "," spec then Err Malformed else
  '(start_raw, end_raw) ← ok_or Malformed (split_once "-" spec);
  if start_raw == EmptyString then
    suffix_len ← ok_or Malformed (parse_u64 end_raw);
    if (suffix_len =? 0)%Z then Err Malformed else
    let start := saturating_sub object_size suffix_len in
    Ok (Some (start, saturating_sub object_size 1))
  else
  start ← ok_or Malformed (parse_u64 start_raw);
  if (object_size <=? start)%Z then Err Unsatisfiable else
  end_ ← (if end_raw == EmptyString then Ok (saturating_sub object_size 1)
          else ok_or Malformed (parse_u64 end_raw));
  if (end_ <? start)%Z then Err Unsatisfiable else
  let end_ := if (object_size <=? end_)%Z then saturating_sub object_size 1 else end_ in
  Ok (Some (start, end_)).

(** [parse_range_header]; building the 416 response unwraps a header value. *)
Definition parse_range_header `{HeaderValues} (raw_range : string) (body_length : Z)
    : result panic (result Response (option (Z * Z))) :=
  match parse_byte_range raw_range body_length with
  | Ok range => Ok (Ok range)
  | Err Malformed =>
      Ok (Err (bad_request_response_with_code S3ErrorCode.InvalidArgument
        "invalid range syntax" "Range"))
  | Err Unsatisfiable =>
      response ← range_not_satisfiable_response body_length; Ok (Err response)
  end.

(** [body[start..=end]] *)
Definition slice_inclusive {A} (start end_ : Z) (body : list A) : result panic (list A) :=
  if ((start <=? end_ + 1) && (end_ <? Z.of_nat (length body)))%Z
  then Ok (take (Z.to_nat (end_ + 1 - start)) (drop (Z.to_nat start) body))
  else Err Panic.

(** ** Handlers *)

Section handlers.
Context {W : Type} `{GatewayBackend W} `{HeaderValues} `{Chrono} (h : hash_order).

Abbreviation handler := (action W panic).
(** The first value of each header of a request; [HeaderMap::get] reads no
    other. *)
Abbreviation HeaderMap := (gmap string string).

(** The outcome of a call to the backend, as the [match] of a handler sees it *)
Definition call {A} (m : action W Status A) : handler (result Status A) := λ w,
  let '(w, r) := m w in (w, Ok r).

(** [headers.get(name).and_then(|value| value.to_str().ok())] *)
Definition header_str (headers : HeaderMap) (name : string) : option string :=
  headers !! name ≫= to_str.

Definition bucket_path (bucket : string) : string := "/" +:+ bucket.
Definition object_path (bucket key : string) : string := "/" +:+ bucket +:+ "/" +:+ key.

Definition health : handler Response := mret (mkResponse 200
  {["content-type" := "text/plain; charset=utf-8"]} (bytes_of "OK")).

Definition list_buckets : handler Response :=
  r ← call gb_list_buckets;
  match r with
  | Ok response => mret (list_buckets_xml_response response)
  | Err status => mret (grpc_status_to_s3_response status "/")
  end.

Definition create_bucket (bucket : string) : handler Response :=
  r ← call (gb_create_bucket bucket);
  match r with
  | Ok _ => mret (empty_response 200)
  | Err status => mret (grpc_status_to_s3_response status (bucket_path bucket))
  end.

Definition delete_bucket (bucket : string) : handler Response :=
  r ← call (gb_delete_bucket bucket);
  match r with
  | Ok _ => mret (empty_response 204)
  | Err status => mret (grpc_status_to_s3_response status (bucket_path bucket))
  end.

Definition head_bucket (bucket : string) : handler Response :=
  r ← call (gb_head_bucket bucket);
  match r with
  | Ok _ => mret (empty_response 200)
  | Err status => mret (grpc_status_to_s3_response status (bucket_path bucket))
  end.

Definition list_objects (bucket : string) (query : gmap string string) : handler Response :=
  let prefix := query !! "prefix" in
  let marker := query !! "marker" in
  let delimiter := query !! "delimiter" in
  match parse_list_max_keys (query !! "max-keys") with
  | Err response => mret response
  | Ok max_keys =>
      r ← call (gb_list_objects bucket prefix marker delimiter max_keys);
      match r with
      | Ok response => mret (list_objects_xml_response response)
      | Err status => mret (grpc_status_to_s3_response status (bucket_path bucket))
      end
  end.

(** [Some(value) => parse_http_datetime(value).map_err(..)?, None => None] *)
Definition date_header (headers : HeaderMap) (name : string) (err : string)
    : result Status (option Z) :=
  match header_str headers name with
  | Some value => map_err (λ _, invalid_argument err) (parse_http_datetime value)
  | None => Ok None
  end.

(** The checks of [check_read_preconditions] once the object is known *)
Definition evaluate_preconditions (head : HeadObjectResponse.t)
    (if_match if_none_match : option string) (if_modified_since if_unmodified_since : option Z)
    (resource : string) : result Status (option Response) :=
  let object_etag := head.(HeadObjectResponse.etag) in
  let object_modified_at := Timestamp.seconds <$> head.(HeadObjectResponse.last_modified) in
  if match if_match with Some v => negb (etag_header_matches v object_etag) | None => false end
  then Ok (Some (precondition_failed_response "If-Match" resource)) else
  unmodified ←
    match if_unmodified_since with
    | Some unmodified_since =>
        modified_at ← ok_or (failed_precondition "If-Unmodified-Since requires Last-Modified")
          object_modified_at;
        Ok (negb (unmodified_since <? modified_at)%Z)
    | None => Ok true
    end;
  if negb unmodified
  then Ok (Some (precondition_failed_response "If-Unmodified-Since failed" resource)) else
  if match if_none_match with Some v => etag_header_matches v object_etag | None => false end
  then Ok (Some (not_modified_response resource object_etag)) else
  modified ←
    match if_modified_since with
    | Some modified_since =>
        modified_at ← ok_or (failed_precondition "If-Modified-Since requires Last-Modified")
          object_modified_at;
        Ok (negb (modified_at <=? modified_since)%Z)
    | None => Ok true
    end;
  if negb modified then Ok (Some (not_modified_response resource object_etag)) else Ok None.

Definition check_read_preconditions (bucket key : string) (headers : HeaderMap)
    (resource : string) : action W Status (option Response) :=
  let if_match := header_str headers "if-match" in
  let if_none_match := header_str headers "if-none-match" in
  if_modified_since ← lift (date_header headers "if-modified-since"
    "invalid If-Modified-Since header");
  if_unmodified_since ← lift (date_header headers "if-unmodified-since"
    "invalid If-Unmodified-Since header");
  if bool_decide (if_match = None) && bool_decide (if_none_match = None)
     && bool_decide (if_modified_since = None) && bool_decide (if_unmodified_since = None)
  then mret None
  else
    head ← gb_head_object bucket key;
    lift (evaluate_preconditions head if_match if_none_match if_modified_since
      if_unmodified_since resource).

(** The part of [get_object] that builds the response to a range *)
Definition range_response (object : DownloadedObject) (start end_ : Z) : result panic Response :=
  let object_size := Z.of_nat (length (dl_body object)) in
  let range_response_length := saturating_add (saturating_sub end_ start) 1 in
  response_body ← slice_inclusive start end_ (dl_body object);
  headers ← apply_object_headers (dl_head object) ∅;
  content_length ← header_value (u64_to_string range_response_length);
  let content_range := "bytes " +:+ u64_to_string start +:+ "-" +:+ u64_to_string end_
    +:+ "/" +:+ u64_to_string object_size in
  Ok (mkResponse 206
    (<["content-range" := header_value_or "bytes */*" content_range]>
      (<["accept-ranges" := "bytes"]> (<["content-length" := content_length]> headers)))
    response_body).

Definition get_object (bucket key : string) (headers : HeaderMap) : handler Response :=
  let resource := object_path bucket key in
  checked ← call (check_read_preconditions bucket key headers resource);
  match checked with
  | Err status => mret (grpc_status_to_s3_response status resource)
  | Ok (Some response) => mret response
  | Ok None =>
      downloaded ← call (gb_get_object bucket key);
      match downloaded with
      | Err status => mret (grpc_status_to_s3_response status resource)
      | Ok object =>
          let object_size := Z.of_nat (length (dl_body object)) in
          match headers !! "range" with
          | Some range_value =>
              let invalid := bad_request_response_with_code S3ErrorCode.InvalidArgument
                "invalid Range header" resource in
              match to_str range_value with
              | Some raw_range =>
                  parsed ← lift (parse_range_header raw_range object_size);
                  match parsed with
                  | Ok (Some (start, end_)) => lift (range_response object start end_)
                  | Ok None => mret invalid
                  | Err response => mret response
                  end
              | None => mret invalid
              end
          | None =>
              headers ← lift (apply_object_headers (dl_head object) {["accept-ranges" := "bytes"]});
              mret (mkResponse 200 headers (dl_body object))
          end
      end
  end.

Definition put_object (bucket key : string) (headers : HeaderMap) (body : list Z)
    : handler Response :=
  let content_type := header_str headers "content-type" in
  r ← call (gb_put_object bucket key body content_type);
  match r with
  | Ok response => lift (put_object_success_response response)
  | Err status => mret (grpc_status_to_s3_response status (object_path bucket key))
  end.

Definition delete_object (bucket key : string) : handler Response :=
  r ← call (gb_delete_object bucket key);
  match r with
  | Ok _ => mret (empty_response 204)
  | Err status => mret (grpc_status_to_s3_response status (object_path bucket key))
  end.

Definition head_object (bucket key : string) (headers : HeaderMap) : handler Response :=
  let resource := object_path bucket key in
  checked ← call (check_read_preconditions bucket key headers resource);
  match checked with
  | Err status => mret (grpc_status_to_s3_response status resource)
  | Ok (Some response) => mret response
  | Ok None =>
      r ← call (gb_head_object bucket key);
      match r with
      | Ok head => lift (head_object_success_response head)
      | Err status => mret (grpc_status_to_s3_response status resource)
      end
  end.

(** The query string that [post_object] rebuilds from the decoded parameters *)
Definition raw_query (query : gmap string string) : option string :=
  if bool_decide (query = ∅) then None
  else Some (join "&" ((λ '(k, v), if v == EmptyString then k else k +:+ "=" +:+ v)
                         <$> hm_iter h query)).

Definition restore_http_status (status_code : Z) : Z :=
  match status_code with
  | 200 => 200
  | 202 => 202
  | 409 => 409
  | _ => 202
  end%Z.

Definition post_object (bucket key : string) (query : gmap string string) (body : list Z)
    : handler Response :=
  let resource := object_path bucket key in
  if negb (is_restore_request (raw_query query))
  then mret (bad_request_response "UnsupportedPostAction" resource) else
  match parse_restore_request query body with
  | Err _ => mret (bad_request_response_with_code S3ErrorCode.InvalidArgument
               "invalid restore request payload" resource)
  | Ok request =>
      r ← call (gb_restore_object bucket key request.(RestoreRequest.days)
        request.(RestoreRequest.tier));
      match r with
      | Ok status_code => mret (empty_response (restore_http_status status_code))
      | Err status => mret (grpc_status_to_s3_response status resource)
      end
  end.
End handlers.

(** ** The fleet of schedulers ([lib.rs]) *)

Definition normalize_scheduler_addr (addr : string) : string :=
  if str_starts_with addr "http://" || str_starts_with addr "https://" then addr
  else "http://" +:+ addr.

(** The network: connecting to an address fails with a message or gives a
    client, and a client performs the calls of the scheduler service. *)
Class SchedulerNetwork (W : Type) := {
  SchedulerClient : Type;
  client_connect : string → action W string SchedulerClient;
  client_api : SchedulerClient → SchedulerApi W;
}.

(** [GrpcGatewayBackend], with the system it talks to *)
Record GrpcGatewayBackend (W : Type) := mkGrpcBackend {
  scheduler_addrs : list string;
  next_addr : Z;
  network : W;
}.
Arguments mkGrpcBackend {W}.
Arguments scheduler_addrs {W}.
Arguments next_addr {W}.
Arguments network {W}.

Section fleet.
Context {W : Type} `{SchedulerNetwork W}.
Abbreviation grpc := (action (GrpcGatewayBackend W)).

Definition new_grpc_backend (scheduler_addrs : list string) (network : W)
    : GrpcGatewayBackend W := mkGrpcBackend scheduler_addrs 0 network.

(** [gateway::run], up to the listener: the backend it serves *)
Definition gateway_start (addrs : list string) (network : W)
    : result string (GrpcGatewayBackend W) :=
  if bool_decide (addrs = []) then Err "gateway requires at least one scheduler address"
  else Ok (new_grpc_backend (normalize_scheduler_addr <$> addrs) network).

Definition on_network {E A} (m : action W E A) : grpc E A := λ g,
  let '(w, r) := m (network g) in (mkGrpcBackend (scheduler_addrs g) (next_addr g) w, r).

(** [self.next_addr.fetch_add(1, Relaxed)] *)
Definition fetch_add_next : grpc Status Z := λ g,
  (mkGrpcBackend (scheduler_addrs g) (wrap64 (next_addr g + 1)) (network g), Ok (next_addr g)).

(** [match m { Ok(x) => return Ok(x), Err(e) => k(e) }] *)
Definition or_else {S E F A} (m : action S E A) (k : E → action S F A) : action S F A := λ s,
  match m s with
  | (s, Ok x) => (s, Ok x)
  | (s, Err e) => k e s
  end.

(** The address that [connect] tries at an offset. The index is a remainder,
    so it is below the number of addresses. *)
Definition addr_at (addrs : list string) (base offset : Z) : string :=
  let index := (wrap64 (base + offset) `mod` Z.of_nat (length addrs))%Z in
  normalize_scheduler_addr (addrs !!! Z.to_nat index).

(** The loop of [connect] over the offsets left *)
Fixpoint connect_loop (addrs : list string) (base : Z) (offsets : list Z)
    (last_error : option Status) : grpc Status SchedulerClient :=
  match offsets with
  | [] => throw (default (unavailable "all scheduler addresses are unavailable") last_error)
  | offset :: offsets =>
      or_else (on_network (client_connect (addr_at addrs base offset)))
        (λ err, connect_loop addrs base offsets (Some (unavailable err)))
  end.

Definition connect : grpc Status SchedulerClient :=
  g ← get_state;
  if bool_decide (scheduler_addrs g = [])
  then throw (unavailable "no scheduler addresses configured")
  else
    base ← fetch_add_next;
    connect_loop (scheduler_addrs g) base
      (Z.of_nat <$> seq 0 (length (scheduler_addrs g))) None.

(** [let mut client = self.connect().await?; client.op(..).await] *)
Definition via {A} (op : SchedulerApi W → action W Status A) : grpc Status A :=
  client ← connect;
  on_network (op (client_api client)).

Definition grpc_put_object (bucket key : string) (body : list Z) (content_type : option string)
    : grpc Status PutObjectResponse.t :=
  via (λ api, api_put_object api
    [Ok (Some (Meta (PutObjectMeta.mk bucket key (Z.of_nat (length body)) content_type None)));
     Ok (Some (Data body))]).

(** The loop of [get_object] over the data chunks *)
Fixpoint collect_body (stream : list (result Status (option (Payload HeadObjectResponse.t))))
    (body : list Z) : result Status (list Z) :=
  match stream with
  | [] => Ok body
  | chunk :: stream =>
      payload ← chunk;
      match payload with
      | Some (Data bytes) => collect_body stream (body ++ bytes)
      | _ => collect_body stream body
      end
  end.

(** The messages of a download as an object *)
Definition downloaded_object
    (stream : list (result Status (option (Payload HeadObjectResponse.t))))
    : result Status DownloadedObject :=
  match stream with
  | [] => Err (internal "missing object metadata chunk")
  | first :: stream =>
      payload ← first;
      match payload with
      | Some (Meta head) => body ← collect_body stream []; Ok (mkDownloaded head body)
      | _ => Err (internal "first object chunk was not metadata")
      end
  end.

Definition grpc_get_object (bucket key : string) : grpc Status DownloadedObject :=
  stream ← via (λ api, api_get_object api (ObjectRequest.mk bucket key None));
  lift (downloaded_object stream).

Definition grpc_list_objects (bucket : string) (prefix marker delimiter : option string)
    (max_keys : Z) : grpc Status scheduler.ListObjectsResponse.t :=
  via (λ api, api_list_objects api
    (scheduler.ListObjectsRequest.mk bucket prefix marker delimiter max_keys)).

Definition grpc_restore_object (bucket key : string) (days : Z) (tier : RestoreTier.t)
    : grpc Status Z :=
  via (λ api, api_restore_object api
    (RestoreObjectRequest.mk bucket key None days (RestoreTier.as_i32 tier))).

#[export] Instance grpc_backend : GatewayBackend (GrpcGatewayBackend W) := {|
  gb_list_buckets := via api_list_buckets;
  gb_create_bucket bucket := via (λ api, api_create_bucket api bucket);
  gb_delete_bucket bucket := via (λ api, api_delete_bucket api bucket);
  gb_head_bucket bucket := via (λ api, api_head_bucket api bucket);
  gb_list_objects := grpc_list_objects;
  gb_put_object := grpc_put_object;
  gb_get_object := grpc_get_object;
  gb_delete_object bucket key :=
    via (λ api, api_delete_object api (ObjectRequest.mk bucket key None));
  gb_head_object bucket key :=
    via (λ api, api_head_object api (ObjectRequest.mk bucket key None));
  gb_restore_object := grpc_restore_object |}.
End fleet.

(** ** Routes

    The paths of [build_router] and the methods each of them serves. axum
    answers [HEAD] with the [GET] handler where no other is given, without the
    body, and other methods with 405. *)

Inductive Route := RouteHealth | RouteRoot | RouteBucket (bucket : string)
  | RouteObject (bucket key : string).
Inductive Method := GET | HEAD | PUT | POST | DELETE | OtherMethod.

Record HttpRequest := mkHttpRequest {
  req_route : Route;
  req_method : Method;
  req_query : gmap string string;
  req_headers : gmap string string;
  req_body : list Z;
}.

Section router.
Context {W : Type} `{GatewayBackend W} `{HeaderValues} `{Chrono} (h : hash_order).

Definition without_body (r : Response) : Response :=
  mkResponse (resp_status r) (resp_headers r) [].
Definition method_not_allowed : action W panic Response := mret (empty_response 405).

Definition build_router (r : HttpRequest) : action W panic Response :=
  match req_route r, req_method r with
  | RouteHealth, GET => health
  | RouteHealth, HEAD => without_body <$> health
  | RouteRoot, GET => list_buckets
  | RouteRoot, HEAD => without_body <$> list_buckets
  | RouteBucket bucket, GET => list_objects bucket (req_query r)
  | RouteBucket bucket, PUT => create_bucket bucket
  | RouteBucket bucket, DELETE => delete_bucket bucket
  | RouteBucket bucket, HEAD => head_bucket bucket
  | RouteObject bucket key, GET => get_object bucket key (req_headers r)
  | RouteObject bucket key, PUT => put_object bucket key (req_headers r) (req_body r)
  | RouteObject bucket key, DELETE => delete_object bucket key
  | RouteObject bucket key, HEAD => head_object bucket key (req_headers r)
  | RouteObject bucket key, POST => post_object h bucket key (req_query r) (req_body r)
  | _, _ => method_not_allowed
  end.
End router.
