(* ===== verification/GatewayTheorems.v ===== *)
(** * What the gateway guarantees *)

From Stdlib Require Import ZArith Lia String Ascii.
From stdpp Require Import pretty.
From S2P Require Import Prelude Proto RustStr External Cache SchedulerProto GatewayProtocol Gateway.
Import scheduler.

Local Open Scope string_scope.
Local Open Scope list_scope.
Local Open Scope stdpp_scope.

(** ** Strings *)

#[local] Arguments String.append !_ _ / : simpl nomatch.

Lemma str_replace_append c r x y :
  str_replace c r (x +:+ y) = str_replace c r x +:+ str_replace c r y.
Proof.
  induction x as [|a x IH]; simpl; [done|]. rewrite IH.
  case_bool_decide; [by rewrite append_assoc|done].
Qed.

(** No character of the string is [c]. *)
Definition lacks (c : ascii) (s : string) : bool := all_chars (λ a, a != c) s.

Lemma lacks_append c x y : lacks c (x +:+ y) = lacks c x && lacks c y.
Proof. unfold lacks, all_chars. induction x; simpl; [done|]. by rewrite IHx, andb_assoc. Qed.

(** *** Escaping

    One pass over the characters, the specification of [escape_xml], and its
    inverse *)

Definition escape_char (c : ascii) : string :=
  if c == "&"%char then "&amp;"
  else if c == "<"%char then "&lt;"
  else if c == ">"%char then "&gt;"
  else if c == QUOTE then "&quot;"
  else if c == "'"%char then "&apos;"
  else String c EmptyString.
Fixpoint escape_spec (s : string) : string :=
  match s with
  | EmptyString => EmptyString
  | String c s => escape_char c +:+ escape_spec s
  end.

Fixpoint unescape_xml (s : string) : string :=
  match s with
  | String "&" (String "a" (String "m" (String "p" (String ";" s)))) =>
      String "&" (unescape_xml s)
  | String "&" (String "l" (String "t" (String ";" s))) => String "<" (unescape_xml s)
  | String "&" (String "g" (String "t" (String ";" s))) => String ">" (unescape_xml s)
  | String "&" (String "q" (String "u" (String "o" (String "t" (String ";" s))))) =>
      String QUOTE (unescape_xml s)
  | String "&" (String "a" (String "p" (String "o" (String "s" (String ";" s))))) =>
      String "'" (unescape_xml s)
  | String c s => String c (unescape_xml s)
  | EmptyString => EmptyString
  end.

Lemma escape_xml_append x y : escape_xml (x +:+ y) = escape_xml x +:+ escape_xml y.
Proof. unfold escape_xml. by rewrite !str_replace_append. Qed.

Lemma escape_xml_char c : escape_xml (String c EmptyString) = escape_char c.
Proof.
  unfold escape_xml, escape_char. simpl.
  repeat (case_bool_decide; simplify_eq/=; [reflexivity|]). repeat (case_bool_decide; [done|simpl]).
  done.
Qed.

Lemma escape_xml_spec s : escape_xml s = escape_spec s.
Proof.
  induction s as [|c s IH]; [done|].
  change (String c s) with (String c EmptyString +:+ s).
  by rewrite escape_xml_append, escape_xml_char, IH.
Qed.

Lemma unescape_escape_char c s : unescape_xml (escape_char c +:+ s) = String c (unescape_xml s).
Proof.
  unfold escape_char.
  case_bool_decide as Hamp; [by subst|].
  do 4 (case_bool_decide; [by subst|]). simpl.
  destruct c as [[] [] [] [] [] [] [] []]; try reflexivity. done.
Qed.

Lemma escape_char_lacks c d :
  d ∈ ["<"%char; ">"%char; QUOTE; "'"%char] → lacks d (escape_char c) = true.
Proof.
  rewrite !elem_of_cons, elem_of_nil. intros Hd. unfold escape_char.
  destruct_or!; try done; subst d; repeat (case_bool_decide; [done|]);
    unfold lacks, all_chars; simpl; by rewrite bool_decide_eq_false_2.
Qed.

Lemma escape_xml_lacks s d :
  d ∈ ["<"%char; ">"%char; QUOTE; "'"%char] → lacks d (escape_xml s) = true.
Proof.
  intros Hd. rewrite escape_xml_spec. induction s as [|c s IH]; [done|].
  simpl. rewrite lacks_append, IH, escape_char_lacks; done.
Qed.

(** *** Searching *)

Lemma prefix_append_long n s r :
  (String.length n ≤ String.length s)%nat → String.prefix n (s +:+ r) = String.prefix n s.
Proof.
  revert s. induction n as [|a n IH]; intros [|b s] Hl; simpl in *; try done; [|lia|].
  { by destruct r. }
  destruct (ascii_dec a b); [apply IH; lia|done].
Qed.

Lemma prefix_refl_append n r : String.prefix n (n +:+ r) = true.
Proof.
  induction n as [|a n IH]; simpl; [by destruct r|]. by destruct (ascii_dec a a).
Qed.

Lemma str_find_here n s : String.prefix n s = true → str_find n s = Some O.
Proof. intros Hp. destruct s; cbn [str_find]; by rewrite Hp. Qed.

(** What follows the first occurrence does not matter. *)
Lemma str_find_first n pre rest :
  str_find n (pre +:+ n) = Some (String.length pre) →
  str_find n (pre +:+ n +:+ rest) = Some (String.length pre).
Proof.
  induction pre as [|a pre IH]; intros Hf.
  { apply str_find_here, (prefix_refl_append n rest). }
  change (String a pre +:+ n) with (String a (pre +:+ n)) in Hf.
  change (String a pre +:+ n +:+ rest) with (String a (pre +:+ n +:+ rest)).
  cbn [str_find] in *.
  assert (Hp : String.prefix n (String a (pre +:+ n +:+ rest))
               = String.prefix n (String a (pre +:+ n))).
  { rewrite <-append_assoc. apply (prefix_append_long n (String a (pre +:+ n)) rest).
    simpl. rewrite length_append. lia. }
  rewrite Hp. destruct (String.prefix n (String a (pre +:+ n))); [done|].
  destruct (str_find n (pre +:+ n)) as [i|]; [|done]. simpl in Hf. injection Hf as ->.
  by rewrite (IH eq_refl).
Qed.

(** A search for something that starts with [a] passes over text without [a]. *)
Lemma str_find_skip a t s u :
  lacks a s = true →
  str_find (String a t) (s +:+ u) = Nat.add (String.length s) <$> str_find (String a t) u.
Proof.
  unfold lacks, all_chars. induction s as [|b s IH]; simpl; intros Hs.
  { by destruct (str_find (String a t) u). }
  apply andb_true_iff in Hs as [Hb Hs]. rewrite (IH Hs).
  destruct (ascii_dec a b) as [->|]; [by rewrite bool_decide_eq_true_2 in Hb|].
  by destruct (str_find (String a t) u).
Qed.

Lemma find_xml_value_at tag pre value post :
  str_find ("<" +:+ tag +:+ ">") (pre +:+ "<" +:+ tag +:+ ">")
    = Some (String.length pre) →
  lacks "<" value = true →
  find_xml_value (pre +:+ ("<" +:+ tag +:+ ">") +:+ value +:+ ("</" +:+ tag +:+ ">") +:+ post) tag
    = Some (trim value).
Proof.
  intros Hpre Hv. unfold find_xml_value.
  rewrite (str_find_first _ _ _ Hpre). simpl option_bind.
  unfold mbind, option_bind.
  assert (Hd : str_drop (String.length pre + String.length ("<" +:+ tag +:+ ">"))
    (pre +:+ ("<" +:+ tag +:+ ">") +:+ value +:+ ("</" +:+ tag +:+ ">") +:+ post)
    = value +:+ ("</" +:+ tag +:+ ">") +:+ post).
  { generalize ("<" +:+ tag +:+ ">"). intros open.
    rewrite <-length_append, <-(append_assoc pre). apply str_drop_append. }
  rewrite Hd. change ("</" +:+ tag +:+ ">") with (String "<" ("/" +:+ tag +:+ ">")).
  rewrite str_find_skip by done.
  rewrite str_find_here by apply prefix_refl_append.
  simpl. rewrite Nat.add_0_r, Nat.add_comm, Nat.add_sub. by rewrite str_take_append.
Qed.

(** No occurrence of [n] starts within [c], whatever follows [c]. *)
Fixpoint clear_of (n c : string) : bool :=
  match c with
  | EmptyString => true
  | String _ c' => negb (String.prefix n c) && negb (String.prefix c n) && clear_of n c'
  end.

Lemma prefix_append_inv n c u :
  String.prefix n (c +:+ u) = true → String.prefix n c = true ∨ String.prefix c n = true.
Proof.
  revert c. induction n as [|a n IH]; intros [|b c]; simpl; auto.
  destruct (ascii_dec a b) as [->|]; [|done]. destruct (ascii_dec b b); [|done]. apply IH.
Qed.

Lemma str_find_clear n c u :
  clear_of n c = true →
  str_find n (c +:+ u) = Nat.add (String.length c) <$> str_find n u.
Proof.
  induction c as [|a c IH]; [intros; simpl; by destruct (str_find n u)|].
  intros [[Hp1%negb_true_iff Hp2%negb_true_iff]%andb_true_iff Hc]%andb_true_iff.
  change (String a c +:+ u) with (String a (c +:+ u)). cbn [str_find].
  destruct (String.prefix n (String a (c +:+ u))) eqn:Hp.
  { apply (prefix_append_inv n (String a c)) in Hp as []; congruence. }
  rewrite IH by done. by destruct (str_find n u).
Qed.

(** The text of an error document before the message *)
Definition xml_head (c : S3ErrorCode.t) : string :=
  XML_DECLARATION +:+ "<Error><Code>" +:+ S3ErrorCode.as_str c +:+ "</Code>".

Lemma to_xml_message e :
  S3ErrorResponse.to_xml e =
  xml_head e.(S3ErrorResponse.code) +:+ ("<" +:+ "Message" +:+ ">")
  +:+ escape_xml e.(S3ErrorResponse.message) +:+ ("</" +:+ "Message" +:+ ">")
  +:+ "<Resource>" +:+ escape_xml e.(S3ErrorResponse.resource) +:+ "</Resource></Error>".
Proof. unfold S3ErrorResponse.to_xml, xml_head. by destruct (S3ErrorResponse.code e). Qed.

Lemma to_xml_resource e :
  S3ErrorResponse.to_xml e =
  (xml_head e.(S3ErrorResponse.code) +:+ "<Message>" +:+ escape_xml e.(S3ErrorResponse.message)
   +:+ "</Message>") +:+ ("<" +:+ "Resource" +:+ ">")
  +:+ escape_xml e.(S3ErrorResponse.resource) +:+ ("</" +:+ "Resource" +:+ ">") +:+ "</Error>".
Proof.
  by rewrite to_xml_message, !append_assoc.
Qed.

Lemma escape_lacks_lt s : lacks "<" (escape_xml s) = true.
Proof. apply escape_xml_lacks. set_solver. Qed.

(** The error document is read back field by field: whatever the message
    and the resource contain, the parser of the gateway finds the code, the
    escaped message and the escaped resource, and nothing a client sent can
    close an element or open another. *)
Theorem error_document_fields e :
  find_xml_value (S3ErrorResponse.to_xml e) "Code"
    = Some (S3ErrorCode.as_str e.(S3ErrorResponse.code)) ∧
  find_xml_value (S3ErrorResponse.to_xml e) "Message"
    = Some (trim (escape_xml e.(S3ErrorResponse.message))) ∧
  find_xml_value (S3ErrorResponse.to_xml e) "Resource"
    = Some (trim (escape_xml e.(S3ErrorResponse.resource))).
Proof.
  split_and!.
  - unfold S3ErrorResponse.to_xml. by destruct (S3ErrorResponse.code e).
  - rewrite to_xml_message. apply find_xml_value_at; [|apply escape_lacks_lt].
    by destruct (S3ErrorResponse.code e).
  - rewrite to_xml_resource. apply find_xml_value_at; [|apply escape_lacks_lt].
    change ("<" +:+ "Resource" +:+ ">") with "<Resource>".
    rewrite !append_assoc, !length_append.
    rewrite str_find_clear by (by destruct (S3ErrorResponse.code e)).
    rewrite str_find_clear, str_find_skip by (reflexivity || apply escape_lacks_lt).
    rewrite str_find_clear by reflexivity. simpl. f_equal.
Qed.

(** Escaping loses nothing and leaves no markup: the five replacements in
    sequence can be undone, and their result has no angle bracket and no
    quote. *)
Theorem escape_xml_unescape s :
  unescape_xml (escape_xml s) = s ∧
  Forall (λ c, lacks c (escape_xml s) = true) ["<"%char; ">"%char; QUOTE; "'"%char].
Proof.
  split; [|apply Forall_forall; intros; by apply escape_xml_lacks].
  rewrite escape_xml_spec. induction s as [|c s IH]; [done|].
  simpl. by rewrite unescape_escape_char, IH.
Qed.

(** ** Restore requests *)

Lemma check_days_Ok days d : check_days days = Ok d ↔ days = d ∧ d ≠ 0%Z ∧ (d ≤ MAX_RESTORE_DAYS)%Z.
Proof.
  unfold check_days. destruct (Z.eqb_spec days 0), (Z.ltb_spec MAX_RESTORE_DAYS days); simpl;
    naive_solver lia.
Qed.

(** Where the number of days and the tier are read from: the element of the
    body, the query parameter, or the default *)
Definition restore_field (query : gmap string string) (body : list Z) (tag name fallback : string)
    : string :=
  default (default fallback (query !! name))
    (if bool_decide (body = []) then None else from_utf8 body ≫= λ xml, find_xml_value xml tag).

Lemma restore_days_Ok (o : option string) (query : gmap string string) days :
  match o ≫= λ body, find_xml_value body "Days" with
  | Some days_raw => days ← ok_or InvalidDays (parse_u32 days_raw); check_days days
  | None =>
      days ← match query !! "days" with
             | Some days => ok_or InvalidDays (parse_u32 days)
             | None => Ok 1%Z
             end;
      check_days days
  end = Ok days ↔
  parse_u32 (default (default "1" (query !! "days")) (o ≫= λ body, find_xml_value body "Days"))
    = Some days ∧ (1 ≤ days ≤ MAX_RESTORE_DAYS)%Z.
Proof.
  assert (Hraw : ∀ raw, (d ← ok_or InvalidDays (parse_u32 raw); check_days d) = Ok days ↔
    parse_u32 raw = Some days ∧ (1 ≤ days ≤ MAX_RESTORE_DAYS)%Z).
  { intros raw. rewrite result_bind_Ok. split.
    - intros (d & Hd%ok_or_Ok & (<- & ? & ?)%check_days_Ok).
      pose proof (parse_u32_range _ _ Hd) as [? _]. split; [done|lia].
    - intros [Hd ?]. exists days. rewrite ok_or_Ok, check_days_Ok. split_and!; [done..|lia|lia]. }
  destruct (o ≫= _) as [raw|]; [apply Hraw|]. simpl.
  destruct (query !! "days") as [raw|]; [apply Hraw|]. apply (Hraw "1").
Qed.

Lemma restore_tier_Ok (o : option string) (query : gmap string string) tier :
  match o ≫= λ body, find_xml_value body "Tier" with
  | Some raw_tier => ok_or InvalidTier (parse_tier raw_tier)
  | None => ok_or InvalidTier (parse_tier (default "Standard" (query !! "tier")))
  end = Ok tier ↔
  parse_tier (default (default "Standard" (query !! "tier"))
    (o ≫= λ body, find_xml_value body "Tier")) = Some tier.
Proof. destruct (o ≫= _); apply ok_or_Ok. Qed.

(** A restore request is accepted exactly when its body is empty or UTF-8,
    its number of days, from the body before the query and 1 if in neither,
    is a decimal number from 1 to 365, and its tier, likewise and Standard if
    in neither, is one of the three tiers in any case. *)
Theorem parse_restore_request_spec query body days tier :
  parse_restore_request query body = Ok (RestoreRequest.mk days tier) ↔
  (body = [] ∨ is_Some (from_utf8 body)) ∧
  parse_u32 (restore_field query body "Days" "days" "1") = Some days ∧
  (1 ≤ days ≤ MAX_RESTORE_DAYS)%Z ∧
  parse_tier (restore_field query body "Tier" "tier" "Standard") = Some tier.
Proof.
  unfold parse_restore_request, restore_field.
  rewrite result_bind_Ok. setoid_rewrite result_bind_Ok. setoid_rewrite restore_days_Ok.
  setoid_rewrite result_bind_Ok. setoid_rewrite restore_tier_Ok.
  destruct body as [|b body].
  { rewrite bool_decide_eq_true_2 by done. naive_solver. }
  rewrite bool_decide_eq_false_2 by done.
  destruct (from_utf8 (b :: body)) as [xml|]; simpl; [naive_solver|].
  split; [naive_solver|]. intros [[?|[? ?]] _]; done.
Qed.

(** ** Ranges *)

Lemma parse_byte_range_bounds raw size range :
  (0 ≤ size)%Z → parse_byte_range raw size = Ok range →
  ∃ start end_, range = Some (start, end_) ∧ (0 ≤ start ≤ end_ ∧ end_ < size)%Z.
Proof.
  unfold parse_byte_range, saturating_sub. intros Hsize.
  intros (spec & _ & Hr)%result_bind_Ok. case_bool_decide; [done|].
  destruct (Z.eqb_spec size 0); [done|]. destruct (str_contains "," spec); [done|].
  apply result_bind_Ok in Hr as ([start_raw end_raw] & _ & Hr).
  case_bool_decide.
  { apply result_bind_Ok in Hr as (suffix & Hs%ok_or_Ok%parse_u64_range & Hr).
    destruct Hs. destruct (Z.eqb_spec suffix 0); simplify_eq. eexists _, _. split; [done|lia]. }
  apply result_bind_Ok in Hr as (start & Hs%ok_or_Ok%parse_u64_range & Hr). destruct Hs.
  destruct (Z.leb_spec size start); [done|].
  apply result_bind_Ok in Hr as (end_ & _ & Hr).
  destruct (Z.ltb_spec end_ start); simplify_eq. eexists _, _. split; [done|].
  destruct (Z.leb_spec size end_); lia.
Qed.

(** *** What a client asks for *)

#[local] Arguments String.append : simpl never.

(** One range of bytes: from a first to a last one, from a first one to the
    end, or the last few *)
Inductive ByteRange := FromTo (first last : Z) | From (first : Z) | Suffix (count : Z).
#[global] Instance ByteRange_eq_dec : EqDecision ByteRange.
Proof. solve_decision. Defined.

(** How it is written in a [Range] header *)
Definition range_text (r : ByteRange) : string :=
  "bytes=" +:+
  match r with
  | FromTo first last => u64_to_string first +:+ "-" +:+ u64_to_string last
  | From first => u64_to_string first +:+ "-"
  | Suffix count => "-" +:+ u64_to_string count
  end.

(** The numbers are 64-bit ones, and a suffix is not empty. *)
Definition sendable (r : ByteRange) : Prop :=
  match r with
  | FromTo first last => is_u64 first ∧ is_u64 last
  | From first => is_u64 first
  | Suffix count => is_u64 count ∧ (0 < count)%Z
  end.
#[global] Instance sendable_dec r : Decision (sendable r).
Proof. destruct r; unfold sendable, is_u64; apply _. Defined.

(** The first and the last byte it stands for in an object of [size] bytes,
    if it stands for any *)
Definition range_bounds (r : ByteRange) (size : Z) : option (Z * Z) :=
  match r with
  | FromTo first last =>
      if decide (first < size ∧ first ≤ last)%Z then Some (first, Z.min last (size - 1)) else None
  | From first => if decide (first < size)%Z then Some (first, (size - 1)%Z) else None
  | Suffix count => if decide (0 < size)%Z then Some (Z.max 0 (size - count), (size - 1)%Z) else None
  end.

(** The part after the equals sign has the dash alone besides its digits. *)
Lemma range_spec_without (c : ascii) (x y : string) :
  is_digit c = false → c ≠ "-"%char → all_chars is_digit x = true → all_chars is_digit y = true →
  without c (x +:+ "-" +:+ y) = true.
Proof.
  intros Hc Hd Hx Hy. unfold without. rewrite !all_chars_append. fold (without c).
  rewrite (digits_without c x), (digits_without c y) by done. cbn.
  case_bool_decide; [congruence|done].
Qed.

Lemma range_text_unfold (x y : string) :
  all_chars is_digit x = true → all_chars is_digit y = true →
  trim ("bytes=" +:+ x +:+ "-" +:+ y) = "bytes=" +:+ x +:+ "-" +:+ y.
Proof.
  intros Hx Hy. assert (∀ c, is_digit c = true → is_graphic c = true) as Hg.
  { intros c. unfold is_digit, is_graphic, between. rewrite !andb_true_iff, !Z.leb_le. lia. }
  apply trim_graphic. rewrite !all_chars_append.
  by rewrite (all_chars_impl _ _ x Hg), (all_chars_impl _ _ y Hg).
Qed.

(** The parser on a well-formed header: what is left is the two numbers. *)
Lemma parse_byte_range_digits (x y : string) (size : Z) :
  all_chars is_digit x = true → all_chars is_digit y = true → (0 < size)%Z →
  parse_byte_range ("bytes=" +:+ x +:+ "-" +:+ y) size =
    if bool_decide (x = EmptyString) then
      suffix_len ← ok_or Malformed (parse_u64 y);
      if (suffix_len =? 0)%Z then Err Malformed
      else Ok (Some (saturating_sub size suffix_len, saturating_sub size 1))
    else
      start ← ok_or Malformed (parse_u64 x);
      if (size <=? start)%Z then Err Unsatisfiable else
      end_ ← (if bool_decide (y = EmptyString) then Ok (saturating_sub size 1)
              else ok_or Malformed (parse_u64 y));
      if (end_ <? start)%Z then Err Unsatisfiable else
      Ok (Some (start, if (size <=? end_)%Z then saturating_sub size 1 else end_)).
Proof.
  intros Hx Hy Hsize. unfold parse_byte_range. rewrite range_text_unfold by done.
  assert (split_once "=" ("bytes=" +:+ x +:+ "-" +:+ y) = Some ("bytes", x +:+ "-" +:+ y)) as ->.
  { by apply (split_once_at "=" "bytes"). }
  simpl. rewrite bool_decide_eq_false_2 by (by destruct x).
  destruct (Z.eqb_spec size 0); [lia|].
  rewrite str_contains_without by (by apply range_spec_without).
  assert (split_once "-" (x +:+ "-" +:+ y) = Some (x, y)) as ->.
  { apply split_once_at. by apply digits_without. }
  done.
Qed.

(** An empty object has no range. *)
Lemma parse_byte_range_empty (x y : string) :
  all_chars is_digit x = true → all_chars is_digit y = true →
  parse_byte_range ("bytes=" +:+ x +:+ "-" +:+ y) 0 = Err Unsatisfiable.
Proof.
  intros Hx Hy. unfold parse_byte_range. rewrite range_text_unfold by done.
  assert (split_once "=" ("bytes=" +:+ x +:+ "-" +:+ y) = Some ("bytes", x +:+ "-" +:+ y)) as ->.
  { by apply (split_once_at "=" "bytes"). }
  simpl. by rewrite bool_decide_eq_false_2 by (by destruct x).
Qed.

(** The parser reads the range that was written. *)
Lemma parse_range_text (r : ByteRange) (size : Z) :
  sendable r → (0 ≤ size)%Z →
  parse_byte_range (range_text r) size =
    match range_bounds r size with
    | Some bounds => Ok (Some bounds)
    | None => Err Unsatisfiable
    end.
Proof.
  intros Hr Hsize. pose proof u64_to_string_digits as Hdig.
  assert (range_text r = "bytes=" +:+
    match r with FromTo a _ | From a => u64_to_string a | Suffix _ => EmptyString end +:+ "-" +:+
    match r with FromTo _ b | Suffix b => u64_to_string b | From _ => EmptyString end) as ->.
  { by destruct r. }
  destruct (decide (size = 0)%Z) as [->|?].
  { rewrite parse_byte_range_empty by (by destruct r). unfold sendable, is_u64 in Hr.
    unfold range_bounds. destruct r; rewrite decide_False by lia; done. }
  rewrite parse_byte_range_digits by (lia || by destruct r).
  unfold range_bounds. destruct r as [a b|a|count]; unfold sendable in Hr.
  - destruct Hr as [Ha Hb]. rewrite !bool_decide_eq_false_2 by (by apply u64_to_string_nonempty).
    rewrite !parse_u64_to_string by done. simpl. unfold saturating_sub.
    destruct (Z.leb_spec size a); [by rewrite decide_False by lia|].
    destruct (Z.ltb_spec b a); [by rewrite decide_False by lia|]. rewrite decide_True by lia.
    do 3 f_equal. destruct (Z.leb_spec size b); lia.
  - rewrite bool_decide_eq_false_2 by (by apply u64_to_string_nonempty).
    rewrite parse_u64_to_string by done. simpl. unfold saturating_sub.
    destruct (Z.leb_spec size a); [by rewrite decide_False by lia|].
    destruct (Z.ltb_spec (Z.max (size - 1) 0) a); [lia|]. rewrite decide_True by lia.
    do 3 f_equal. destruct (Z.leb_spec size (Z.max (size - 1) 0)); lia.
  - destruct Hr as [Hn ?]. rewrite parse_u64_to_string by done. simpl. unfold saturating_sub.
    destruct (Z.eqb_spec count 0); [lia|]. rewrite decide_True by lia. do 3 f_equal; lia.
Qed.

Lemma slice_inclusive_Ok {A} start end_ (body : list A) :
  (0 ≤ start ≤ end_)%Z → (end_ < Z.of_nat (length body))%Z →
  slice_inclusive start end_ body
    = Ok (take (Z.to_nat (end_ + 1 - start)) (drop (Z.to_nat start) body)).
Proof.
  intros. unfold slice_inclusive.
  by rewrite (proj2 (Z.leb_le start (end_ + 1))), (proj2 (Z.ltb_lt end_ _)) by lia.
Qed.

(** ** No handler panics *)

(** The digits of a number can be sent in a header. *)
Lemma u64_to_string_visible z : all_chars is_visible_ascii (u64_to_string z) = true.
Proof.
  eapply all_chars_impl, u64_to_string_digits. intros c.
  unfold is_digit, is_visible_ascii, between. rewrite !andb_true_iff, !Z.leb_le. lia.
Qed.

Lemma range_text_visible (r : ByteRange) : all_chars is_visible_ascii (range_text r) = true.
Proof.
  destruct r; unfold range_text; by rewrite !all_chars_append, ?u64_to_string_visible.
Qed.

Section handlers.
Context `{HeaderValueLaws} `{Chrono}.

Lemma header_value_visible s :
  all_chars is_visible_ascii s = true → header_value s = Ok s.
Proof. intros Hs. unfold header_value. by rewrite from_str_visible. Qed.

(** What an object says of itself can be sent in headers. *)
Definition safe_head (head : HeadObjectResponse.t) : bool :=
  from_str_ok head.(HeadObjectResponse.etag)
  && from_option from_str_ok true head.(HeadObjectResponse.content_type)
  && from_option (from_str_ok ∘ normalize_restore_info) true head.(HeadObjectResponse.restore_info).

Lemma apply_object_headers_safe head headers :
  safe_head head = true → ∃ hs, apply_object_headers head headers = Ok hs.
Proof.
  intros [[He Hc]%andb_true_iff Hr]%andb_true_iff.
  unfold apply_object_headers, header_value. rewrite He.
  destruct (HeadObjectResponse.content_type head); simpl in *; rewrite ?Hc; simpl;
    (destruct (HeadObjectResponse.restore_info head); simpl in *; rewrite ?Hr; simpl; eauto).
Qed.

Lemma range_response_Ok object start end_ :
  safe_head (dl_head object) = true →
  (0 ≤ start ≤ end_)%Z → (end_ < Z.of_nat (length (dl_body object)) ≤ usize_MAX)%Z →
  ∃ hs, range_response object start end_ =
    Ok (mkResponse 206 hs (take (Z.to_nat (end_ + 1 - start)) (drop (Z.to_nat start) (dl_body object)))) ∧
    hs !! "content-length" = Some (u64_to_string (end_ + 1 - start)) ∧
    hs !! "content-range" = Some ("bytes " +:+ u64_to_string start +:+ "-" +:+ u64_to_string end_
      +:+ "/" +:+ u64_to_string (Z.of_nat (length (dl_body object)))).
Proof.
  intros Hsafe Hse Hend. destruct (apply_object_headers_safe _ ∅ Hsafe) as [hs Hhs].
  unfold range_response. rewrite slice_inclusive_Ok by lia. simpl. rewrite Hhs. simpl.
  rewrite header_value_visible by apply u64_to_string_visible. simpl.
  eexists. split; [done|]. unfold saturating_add, saturating_sub, usize_MAX in *.
  rewrite !lookup_insert_ne, lookup_insert_eq by done. split.
  - do 2 f_equal. lia.
  - rewrite lookup_insert_eq. unfold header_value_or. rewrite from_str_visible; [done|].
    rewrite !all_chars_append, !u64_to_string_visible. done.
Qed.

(** The handler ends with a response that has [Q]. *)
Definition returns {W A} (m : action W panic A) (Q : A → Prop) : Prop :=
  ∀ w, ∃ a, (m w).2 = Ok a ∧ Q a.

Lemma returns_bind {W A B} (m : action W panic A) (k : A → action W panic B) Q R :
  returns m Q → (∀ a, Q a → returns (k a) R) → returns (m ≫= k) R.
Proof.
  intros Hm Hk w. destruct (Hm w) as (a & Ha & HQ). unfold mbind, action_bind.
  destruct (m w) as [w' r]. simpl in Ha. subst r. by apply Hk.
Qed.
Lemma returns_ret {W A} (a : A) (Q : A → Prop) : Q a → returns (mret a : action W panic A) Q.
Proof. intros HQ w. by exists a. Qed.
Lemma returns_lift {W A} (r : result panic A) (Q : A → Prop) :
  (∃ a, r = Ok a ∧ Q a) → returns (lift r : action W panic A) Q.
Proof. by intros Hr w. Qed.
Lemma returns_call {W A} (m : action W Status A) (Q : result Status A → Prop) :
  (∀ w, Q (m w).2) → returns (call m) Q.
Proof. intros Hm w. specialize (Hm w). unfold call. destruct (m w) as [w' r]. by exists r. Qed.
Lemma returns_any {W A} (m : action W panic A) Q : returns m Q → returns m (λ _, True).
Proof. intros Hm w. destruct (Hm w) as (a & ? & _). by exists a. Qed.

Context `{GatewayBackend W} (h : hash_order).

(** What the backend sends can be put in headers and fits in memory. *)
Hypothesis get_safe : ∀ b k w w' o, gb_get_object b k w = (w', Ok o) →
  safe_head (dl_head o) = true ∧ (Z.of_nat (length (dl_body o)) ≤ usize_MAX)%Z.
Hypothesis head_safe : ∀ b k w w' o, gb_head_object b k w = (w', Ok o) → safe_head o = true.
Hypothesis put_safe : ∀ b k d t w w' o, gb_put_object b k d t w = (w', Ok o) →
  from_str_ok o.(PutObjectResponse.etag) = true.

Ltac answer :=
  lazymatch goal with
  | |- returns (call _ ≫= _) _ =>
      eapply (returns_bind _ _ (λ _, True)); [by apply returns_call|intros [?|?] _]
  | |- returns (mret _) _ => by apply returns_ret
  | |- returns (match ?x with _ => _ end) _ => destruct x
  end.

Lemma parse_range_header_returns raw n :
  (0 ≤ n)%Z → ∃ r, parse_range_header raw n = Ok r ∧
    match r with
    | Ok range => ∃ s e, range = Some (s, e) ∧ (0 ≤ s ≤ e ∧ e < n)%Z
    | Err _ => True
    end.
Proof using All.
  intros Hn. unfold parse_range_header.
  destruct (parse_byte_range raw n) as [range|[|]] eqn:E.
  - eexists. split; [done|]. by apply (parse_byte_range_bounds raw n range).
  - by eexists.
  - unfold range_not_satisfiable_response. rewrite header_value_visible; [by eexists|].
    by rewrite all_chars_append, u64_to_string_visible.
Qed.

Lemma get_object_returns b k headers : returns (get_object b k headers) (λ _, True).
Proof using All.
  unfold get_object. answer; [|by answer]. answer; [by answer|].
  eapply (returns_bind _ _ (λ r, match r with
    | Ok o => safe_head (dl_head o) = true ∧ (Z.of_nat (length (dl_body o)) ≤ usize_MAX)%Z
    | Err _ => True end)).
  { apply returns_call. intros w. destruct (gb_get_object b k w) as [w' [o|]] eqn:E; [|done].
    by apply (get_safe b k w w'). }
  intros [o|?] Ho; [|by answer]. destruct Ho as [Hsafe Hlen].
  destruct (headers !! "range") as [v|].
  - answer; [|by answer].
    eapply returns_bind; [apply returns_lift, parse_range_header_returns; lia|].
    intros [range|resp] Hr; [|by answer]. destruct Hr as (start & end_ & -> & Hse).
    apply returns_lift. destruct (range_response_Ok o start end_) as (hs & -> & _); [done|lia|lia|]. eauto.
  - eapply (returns_bind _ _ (λ _, True)); [apply returns_lift|intros; by answer].
    destruct (apply_object_headers_safe (dl_head o) {["accept-ranges" := "bytes"]} Hsafe) as [hs Hs].
    by exists hs.
Qed.

Lemma head_object_returns b k headers : returns (head_object b k headers) (λ _, True).
Proof using All.
  unfold head_object. answer; [|by answer]. answer; [by answer|].
  eapply (returns_bind _ _ (λ r, match r with Ok o => safe_head o = true | Err _ => True end)).
  { apply returns_call. intros w. destruct (gb_head_object b k w) as [w' [o|]] eqn:E; [|done].
    by apply (head_safe b k w w'). }
  intros [o|?] Ho; [|by answer]. apply returns_lift. unfold head_object_success_response.
  destruct (apply_object_headers_safe o ∅ Ho) as [hs ->]. simpl. eauto.
Qed.

Lemma put_object_returns b k headers body : returns (put_object b k headers body) (λ _, True).
Proof using All.
  unfold put_object. eapply (returns_bind _ _ (λ r, match r with
    | Ok o => from_str_ok o.(PutObjectResponse.etag) = true | Err _ => True end)).
  { apply returns_call. intros w.
    destruct (gb_put_object b k body (header_str headers "content-type") w) as [w' [o|]] eqn:E;
      [|done]. by eapply put_safe. }
  intros [o|?] Ho; [|by answer]. apply returns_lift. unfold put_object_success_response, header_value.
  rewrite Ho. simpl. eauto.
Qed.

Lemma returns_fmap {W' A B} (f : A → B) (m : action W' panic A) :
  returns m (λ _, True) → returns (f <$> m) (λ _, True).
Proof using.
  intros Hm w. destruct (Hm w) as (a & Ha & _). unfold fmap, action_fmap.
  destruct (m w). simpl in *. subst. simpl. eauto.
Qed.

(** C28: No request makes the gateway panic, as long as what the backend
    reports of an object can be put in a header: every route, method, query,
    header and body is answered, in particular every [Range] header, whose
    slice is always within the object. *)
Theorem router_never_panics (r : HttpRequest) (w : W) :
  ∃ w' response, build_router h r w = (w', Ok response).
Proof using All.
  assert (Hr : returns (build_router h r) (λ _, True)).
  { unfold build_router. destruct (req_route r), (req_method r); try by apply returns_ret.
    all: try apply returns_fmap; auto using get_object_returns, head_object_returns,
      put_object_returns.
    all: unfold list_buckets, list_objects, create_bucket, delete_bucket, head_bucket,
      delete_object, post_object, health; repeat answer. }
  destruct (Hr w) as (response & Hw & _).
  destruct (build_router h r w) as [w' o]. simpl in Hw. subst o. eauto.
Qed.
End handlers.

Section reading.
Context `{HeaderValueLaws} `{Chrono} `{GatewayBackend W}.

(** A request without preconditions *)
Definition unconditional (headers : gmap string string) : bool :=
  forallb (λ name, bool_decide (headers !! name = None))
    ["if-match"; "if-none-match"; "if-modified-since"; "if-unmodified-since"].

Lemma unconditional_no_check b k headers resource (w : W) :
  unconditional headers = true → check_read_preconditions b k headers resource w = (w, Ok None).
Proof.
  unfold unconditional; simpl. rewrite !andb_true_iff, !bool_decide_eq_true.
  intros (Hm & Hn & Hms & Hus & _).
  unfold check_read_preconditions, date_header, header_str. by rewrite Hm, Hn, Hms, Hus.
Qed.

(** What the answer to a range request has to be: the bytes of [body] from
    the first to the last one of the range, both included, with headers that
    describe them, or a refusal that tells the size. *)
Definition answers_range (r : ByteRange) (body : list Z) (response : Response) : Prop :=
  let size := Z.of_nat (length body) in
  match range_bounds r size with
  | Some (first, last) =>
      resp_status response = 206%Z ∧
      Z.of_nat (length (resp_body response)) = (last - first + 1)%Z ∧
      (∀ i : nat, (first + Z.of_nat i ≤ last)%Z →
        resp_body response !! i = body !! (Z.to_nat first + i)%nat) ∧
      resp_headers response !! "content-length" = Some (u64_to_string (last - first + 1)) ∧
      resp_headers response !! "content-range" = Some ("bytes " +:+ u64_to_string first +:+ "-"
        +:+ u64_to_string last +:+ "/" +:+ u64_to_string size)
  | None =>
      resp_status response = 416%Z ∧ resp_body response = [] ∧
      resp_headers response !! "content-range" = Some ("bytes */" +:+ u64_to_string size)
  end.

Lemma range_bounds_within r size first last :
  sendable r → range_bounds r size = Some (first, last) → (0 ≤ first ≤ last ∧ last < size)%Z.
Proof.
  unfold sendable, is_u64, range_bounds. intros Hr Hb.
  destruct r; case_decide; simplify_eq; lia.
Qed.

Lemma range_response_answers r object first last :
  sendable r → safe_head (dl_head object) = true →
  (Z.of_nat (length (dl_body object)) ≤ usize_MAX)%Z →
  range_bounds r (Z.of_nat (length (dl_body object))) = Some (first, last) →
  ∃ response, range_response object first last = Ok response ∧
    answers_range r (dl_body object) response.
Proof.
  intros Hr Hsafe Hlen Hb. destruct (range_bounds_within _ _ _ _ Hr Hb) as [Hse Hend].
  destruct (range_response_Ok object first last) as (hs & -> & Hcl & Hcr); [done|lia|lia|].
  eexists. split; [done|]. unfold answers_range. rewrite Hb. simpl. split_and!; [done| | | |done].
  - rewrite length_take, length_drop. lia.
  - intros i Hi. by rewrite lookup_take_lt, lookup_drop by lia.
  - rewrite Hcl. do 2 f_equal. lia.
Qed.

(** C29: Range requests, for every range a client can write ([bytes=a-b],
    [bytes=a-] and [bytes=-n], with 64-bit numbers and n > 0): a GET of a
    stored object, without [If-*] headers, is answered with 206, exactly the
    bytes of the object from the first to the last one of the range that
    exist, and a [Content-Length] and a [Content-Range] that describe them; or
    with 416 and the size of the object if the range has no byte. What the
    object says of itself has to be fit for headers. *)
Theorem range_get_returns_slice b k headers (w w' : W) object r :
  unconditional headers = true →
  gb_get_object b k w = (w', Ok object) →
  safe_head (dl_head object) = true →
  (Z.of_nat (length (dl_body object)) ≤ usize_MAX)%Z →
  sendable r →
  headers !! "range" = Some (range_text r) →
  ∃ response, get_object b k headers w = (w', Ok response) ∧
    answers_range r (dl_body object) response.
Proof.
  intros Hun Hget Hsafe Hlen Hr Hv.
  assert (0 ≤ Z.of_nat (length (dl_body object)))%Z as Hpos by lia.
  pose proof (parse_range_text r _ Hr Hpos) as Hp.
  unfold get_object, call, parse_range_header. unfold_action.
  rewrite (unconditional_no_check b k headers (object_path b k) w Hun), Hget, Hv.
  rewrite (to_str_visible _ (range_text_visible r)), Hp.
  destruct (range_bounds r _) as [[first last]|] eqn:Hb.
  - destruct (range_response_answers r object first last) as (response & Hresp & Ha); [done..|].
    exists response. by rewrite Hresp.
  - unfold range_not_satisfiable_response. rewrite header_value_visible
      by (by rewrite all_chars_append, u64_to_string_visible).
    eexists. split; [done|]. unfold answers_range. rewrite Hb. split_and!; [done..|].
    simpl. by rewrite lookup_insert_eq.
Qed.

Definition unmapped (c : Code) : bool := bool_decide
  (c ∈ [Cancelled; Unknown; DeadlineExceeded; PermissionDenied; Aborted; OutOfRange; Internal;
        DataLoss; Unauthenticated]).

Lemma s3_error_of_spec status resource :
  let '(c, http, retry) := s3_error_of status resource in
  (if unmapped (code status) then http = 502%Z ∧ c = S3ErrorCode.NotImplemented
   else http = S3ErrorCode.http_status c) ∧
  (is_Some retry ↔ http = 503%Z).
Proof.
  assert (HNone : ∀ z, z ≠ 503%Z → is_Some (None : option Z) ↔ z = 503%Z).
  { intros z Hz. split; [by intros []|done]. }
  assert (HSome : ∀ x, is_Some (Some x : option Z) ↔ 503%Z = 503%Z) by done.
  unfold s3_error_of. destruct (code status); simpl; repeat case_match; simplify_eq; split;
    (done || by apply HNone).
Qed.

(** C39: How an error of the scheduler reaches a client: the document names an
    S3 code, the message and the resource; the HTTP status is the one of the
    S3 code, except that the gRPC codes without a mapping are sent as 502 with
    the code [NotImplemented], whose own status is 501; and a client is asked
    to retry exactly when the status is 503. *)
Theorem grpc_errors_consistent status resource :
  let r := grpc_status_to_s3_response status resource in
  ∃ c, resp_body r = bytes_of (S3ErrorResponse.to_xml
                       (S3ErrorResponse.mk c (message status) resource)) ∧
    (if unmapped (code status)
     then resp_status r = 502%Z ∧ c = S3ErrorCode.NotImplemented
     else resp_status r = S3ErrorCode.http_status c) ∧
    (is_Some (resp_headers r !! "retry-after") ↔ resp_status r = 503%Z).
Proof.
  unfold grpc_status_to_s3_response. pose proof (s3_error_of_spec status resource) as Hs.
  destruct (s3_error_of status resource) as [[c http] retry]. destruct Hs as [Hc Hr].
  exists c. destruct retry as [z|]; (split_and!; [done|done|]); rewrite <-Hr; simpl.
  - by rewrite lookup_insert_eq.
  - by rewrite lookup_singleton_ne.
Qed.
End reading.

(** ** Entity tags *)

Lemma strip_front_no_head (c : ascii) fuel l :
  (length l ≤ fuel)%nat → head (strip_front fuel [[byte_of c]] l) ≠ Some c.
Proof.
  revert l. induction fuel as [|fuel IH]; intros l Hl.
  { destruct l; [done|simpl in Hl; lia]. }
  simpl. unfold starts_with at 1. destruct l as [|a l]; [done|]. csimpl.
  case_bool_decide as Ha; simpl.
  - apply IH. rewrite drop_0. simpl in Hl. lia.
  - intros [= ->]. by apply Ha.
Qed.

Lemma trim_matches_no_last c s :
  last (String.list_ascii_of_string (trim_matches [c] s)) ≠ Some c.
Proof.
  unfold trim_matches, strip_end. csimpl.
  rewrite String.list_ascii_of_string_of_list_ascii.
  rewrite last_reverse. apply strip_front_no_head. done.
Qed.

(** A weak entity tag never matches: the quotes around a token are taken
    off before it is compared, so that of the three comparisons the last one,
    with [W/] and the tag in quotes, is always false, and a client that sends
    back a weak tag it was given gets the object again, or a 412. *)
Theorem weak_etag_never_matches value etag :
  etag_header_matches value etag =
  existsb (λ token, (token == "*") || (token == etag))
    (trim_matches [QUOTE] <$> (trim <$> split "," value)).
Proof.
  unfold etag_header_matches. induction (trim <$> split "," value) as [|t l IH]; [done|].
  csimpl. rewrite IH. f_equal.
  rewrite (bool_decide_eq_false_2 (_ = "W/" +:+ quoted etag)); [by rewrite orb_false_r|].
  intros Ht. apply (trim_matches_no_last QUOTE t). rewrite Ht.
  assert (Hl : ∀ x c, String.list_ascii_of_string (x +:+ String c EmptyString)
    = String.list_ascii_of_string x ++ [c]).
  { intros x c. induction x as [|a x IHx]; [done|].
    change (String a x +:+ String c EmptyString) with (String a (x +:+ String c EmptyString)).
    simpl. by rewrite IHx. }
  unfold quoted. change ("W/" +:+ String QUOTE (etag +:+ String QUOTE EmptyString))
    with (String "W" (String "/" (String QUOTE (etag +:+ String QUOTE EmptyString)))).
  cbn [String.list_ascii_of_string]. rewrite Hl.
  by rewrite !app_comm_cons, last_snoc.
Qed.

(** ** The fleet *)

Lemma normalize_scheduler_addr_idemp a :
  normalize_scheduler_addr (normalize_scheduler_addr a) = normalize_scheduler_addr a.
Proof.
  unfold normalize_scheduler_addr.
  destruct (str_starts_with a "http://" || str_starts_with a "https://") eqn:E;
    [by rewrite E|]. unfold str_starts_with. by rewrite (prefix_refl_append "http://" a).
Qed.

Section fleet.
Context {W : Type} `{SchedulerNetwork W}.
Implicit Types (g : GrpcGatewayBackend W).

(** Trying the addresses of a list in order *)
Fixpoint try_in_order (addrs : list string) (last_error : option Status)
    : action (GrpcGatewayBackend W) Status SchedulerClient :=
  match addrs with
  | [] => throw (default (unavailable "all scheduler addresses are unavailable") last_error)
  | addr :: addrs =>
      or_else (on_network (client_connect addr))
        (λ err, try_in_order addrs (Some (unavailable err)))
  end.

Lemma connect_loop_try addrs base offsets last g :
  connect_loop addrs base offsets last g = try_in_order (addr_at addrs base <$> offsets) last g.
Proof.
  revert last g. induction offsets as [|o offsets IH]; intros last g; [done|].
  csimpl. unfold or_else. destruct (on_network _ g) as [g' [c|err]]; [done|]. apply IH.
Qed.

Lemma addr_at_rotate addrs base :
  (0 ≤ base)%Z → (base + Z.of_nat (length addrs) ≤ 2 ^ 64)%Z →
  addr_at addrs base <$> (Z.of_nat <$> seq 0 (length addrs)) =
  normalize_scheduler_addr <$> rotate (Z.to_nat (base `mod` Z.of_nat (length addrs))) addrs.
Proof.
  intros Hb Hlen. apply list_eq. intros i. rewrite !list_lookup_fmap.
  destruct (decide (i < length addrs)%nat) as [Hi|Hi].
  2: { rewrite !lookup_ge_None_2; [done|rewrite length_rotate; lia|rewrite length_seq; lia]. }
  rewrite lookup_seq_lt by done. simpl. rewrite lookup_rotate_r by done.
  unfold addr_at, rotate_nat_add. rewrite wrap64_small by (unfold is_u64, u64_MAX; lia).
  rewrite <-Z.add_mod_idemp_l by lia.
  rewrite Z2Nat.id by (apply Z.mod_pos_bound; lia).
  set (j := (_ `mod` Z.of_nat (length addrs))%Z).
  destruct (lookup_lt_is_Some_2 addrs (Z.to_nat j)) as [a Ha].
  { pose proof (Z.mod_pos_bound (base `mod` Z.of_nat (length addrs) + Z.of_nat i)
      (Z.of_nat (length addrs))). lia. }
  rewrite Ha. simpl. by rewrite (list_lookup_total_correct _ _ _ Ha).
Qed.

(** C35: A connection is a round of the fleet: every scheduler is tried at most
    once, each in turn from the one that follows the start of the previous
    connection, until one answers; the counter moves on by one. *)
Theorem connect_round_robin g :
  scheduler_addrs g ≠ [] → (0 ≤ next_addr g)%Z →
  (next_addr g + Z.of_nat (length (scheduler_addrs g)) ≤ 2 ^ 64)%Z →
  connect g = try_in_order
    (normalize_scheduler_addr <$>
      rotate (Z.to_nat (next_addr g `mod` Z.of_nat (length (scheduler_addrs g)))) (scheduler_addrs g))
    None (mkGrpcBackend (scheduler_addrs g) (wrap64 (next_addr g + 1)) (network g)).
Proof.
  intros Hne Hpos Hlen. unfold connect, fetch_add_next. unfold_action.
  rewrite bool_decide_eq_false_2 by done. by rewrite connect_loop_try, addr_at_rotate.
Qed.

Lemma try_in_order_reaches addrs a last g :
  a ∈ addrs → (∀ w, ∃ w' c, client_connect a w = (w', Ok c)) →
  ∃ w' c, try_in_order addrs last g =
    (mkGrpcBackend (scheduler_addrs g) (next_addr g) w', Ok c).
Proof.
  intros Ha Hup. revert last g. induction addrs as [|b addrs IH]; intros last g.
  { by apply elem_of_nil in Ha. }
  simpl. unfold or_else, on_network.
  destruct (client_connect b (network g)) as [w' [c|err]] eqn:E; [by eexists _, _|].
  apply elem_of_cons in Ha as [->|Ha];
    [|by apply (IH Ha _ (mkGrpcBackend _ _ w'))].
  destruct (Hup (network g)) as (w'' & c & ?). congruence.
Qed.

(** C34: As long as one scheduler of the fleet accepts connections, every
    request reaches a scheduler: connecting succeeds whatever the others do
    and whichever address comes first. *)
Theorem connect_reaches_live_scheduler g a :
  a ∈ scheduler_addrs g →
  (∀ w, ∃ w' c, client_connect (normalize_scheduler_addr a) w = (w', Ok c)) →
  (0 ≤ next_addr g)%Z → (next_addr g + Z.of_nat (length (scheduler_addrs g)) ≤ 2 ^ 64)%Z →
  ∃ w' c, connect g =
    (mkGrpcBackend (scheduler_addrs g) (wrap64 (next_addr g + 1)) w', Ok c).
Proof.
  intros Ha Hup Hpos Hlen. unfold connect, fetch_add_next. unfold_action.
  rewrite bool_decide_eq_false_2 by (intros E; rewrite E in Ha; by apply elem_of_nil in Ha).
  rewrite connect_loop_try, addr_at_rotate by done.
  eapply (try_in_order_reaches _ (normalize_scheduler_addr a)); [|done].
  apply list_elem_of_fmap. exists a. by rewrite elem_of_rotate.
Qed.
End fleet.

(** ** A sample gateway *)

Module SampleGateway.
Import Samples.

Definition head_sample : HeadObjectResponse.t :=
  HeadObjectResponse.mk 5 (Some "text/plain") "etag" 2 None (Some (Timestamp.mk 100 0)).
Definition object_sample : DownloadedObject := mkDownloaded head_sample [10; 11; 12; 13; 14]%Z.

(** A backend with one object under every name *)
#[global] Instance sample_backend : GatewayBackend unit := {|
  gb_list_buckets := mret [];
  gb_create_bucket _ := mret tt;
  gb_delete_bucket _ := mret tt;
  gb_head_bucket _ := mret tt;
  gb_list_objects _ _ _ _ _ := throw (not_found "bucket not found");
  gb_put_object _ _ _ _ := mret (PutObjectResponse.mk "etag" "");
  gb_get_object _ _ := mret object_sample;
  gb_delete_object _ _ := mret tt;
  gb_head_object _ _ := mret head_sample;
  gb_restore_object _ _ _ _ := mret 202%Z |}.

Definition range_headers : gmap string string := {["range" := "bytes=1-3"]}.

(** A network in which only the second of two schedulers answers *)
#[global] Instance sample_network : SchedulerNetwork unit := {|
  SchedulerClient := string;
  client_connect addr := if addr == "http://b:1" then mret addr else throw "connection refused";
  client_api _ := mkSchedulerApi (λ _, throw (unavailable "")) (λ _, throw (unavailable ""))
    (λ _, throw (unavailable "")) (λ _, mret tt) (λ _, mret 202%Z) (λ _, throw (unavailable ""))
    (λ _, mret tt) (λ _, mret tt) (λ _, mret tt) (mret []) |}.
Definition fleet_sample : GrpcGatewayBackend unit := mkGrpcBackend ["a:1"; "b:1"] 2 tt.
End SampleGateway.

Import Samples SampleGateway.

Lemma router_never_panics_witness :
  ∃ w' response,
    build_router canonical_order
      (mkHttpRequest (RouteObject "b" "k") GET ∅ range_headers []) tt = (w', Ok response).
Proof.
  refine (router_never_panics canonical_order _ _ _ _ _).
  - intros b k w w' o [= _ <-]. by vm_compute.
  - by intros b k w w' o [= _ <-].
  - by intros b k d t w w' o [= _ <-].
Defined.

(** Bytes 1 to 3 of five, and a range behind the end *)
Lemma range_get_returns_slice_witness :
  (∃ response, get_object "b" "k" range_headers tt = (tt, Ok response) ∧
     answers_range (FromTo 1 3) [10; 11; 12; 13; 14]%Z response) ∧
  (∃ response, get_object "b" "k" {["range" := "bytes=7-"]} tt = (tt, Ok response) ∧
     answers_range (From 7) [10; 11; 12; 13; 14]%Z response).
Proof.
  split.
  - exact (range_get_returns_slice "b" "k" range_headers tt tt object_sample (FromTo 1 3)
      eq_refl eq_refl eq_refl ltac:(done) ltac:(done) eq_refl).
  - exact (range_get_returns_slice "b" "k" {["range" := "bytes=7-"]} tt tt object_sample (From 7)
      eq_refl eq_refl eq_refl ltac:(done) ltac:(done) eq_refl).
Defined.

Lemma connect_round_robin_witness :
  connect fleet_sample = try_in_order ["http://a:1"; "http://b:1"] None
    (mkGrpcBackend ["a:1"; "b:1"] 3 tt).
Proof. exact (connect_round_robin fleet_sample ltac:(done) ltac:(done) ltac:(done)). Defined.

Lemma connect_reaches_live_scheduler_witness :
  ∃ w' c, connect fleet_sample = (mkGrpcBackend ["a:1"; "b:1"] 3 w', Ok c).
Proof.
  refine (connect_reaches_live_scheduler fleet_sample "b:1" _ _ _ _).
  - repeat constructor.
  - by intros w; eexists _, _.
  - done.
  - done.
Defined.
