(* ===== verification/SchedulerClients.v ===== *)
(** * The clients of the scheduler

    [src/crates/scheduler/src/service.rs], lines up to the backend: the gRPC
    clients of the metadata service, the cache and the tape worker as
    interfaces on the state [W] of the system, the traits the archive and
    recall passes are written against with their implementations over those
    clients, and the pure helpers. *)

From Stdlib Require Import ZArith String Ascii.
From stdpp Require Import pretty.
From S2P Require Import Prelude Proto RustStr External CacheBackend Cache TapeService SchedulerProto Config.
Import scheduler.

Local Open Scope string_scope.
Local Open Scope list_scope.
Local Open Scope stdpp_scope.

(** ** gRPC clients *)

Class MetadataClient (W : Type) := {
  md_put_object : ObjectMetadata.t → action W Status unit;
  md_get_object : string → string → action W Status ObjectMetadata.t;
  md_head_object : string → string → action W Status ObjectMetadata.t;
  md_delete_object : string → string → action W Status unit;
  md_list_objects : string → option string → option string → Z →
    action W Status (list ObjectMetadata.t);
  md_complete_archive_object : CompleteArchiveObjectRequest.t → action W Status unit;
  md_update_restore_status : UpdateRestoreStatusRequest.t → action W Status unit;
  md_put_archive_task : ArchiveTask.t → action W Status unit;
  md_get_archive_task : string → action W Status ArchiveTask.t;
  md_update_archive_task : ArchiveTask.t → action W Status unit;
  md_put_recall_task : RecallTask.t → action W Status unit;
  md_get_recall_task : string → action W Status RecallTask.t;
  md_update_recall_task : RecallTask.t → action W Status unit;
  md_list_pending_recall_tasks : action W Status (list RecallTask.t);
  md_create_bucket : BucketInfo.t → action W Status unit;
  md_delete_bucket : string → action W Status unit;
  md_get_bucket : string → action W Status BucketInfo.t;
  md_list_buckets : action W Status (list BucketInfo.t);
}.

(** A stream of messages: each a payload, a message without one, or an error
    that ends the stream *)
Abbreviation stream M := (list (result Status (option (Payload M)))).

Class CacheClient (W : Type) := {
  ca_put_staging : stream PutStagingMeta.t → action W Status string;
  ca_put_restored : stream PutRestoredMeta.t → action W Status unit;
  ca_get : CacheKey.t → action W Status (stream CachedObjectMeta.t);
  ca_get_staging : CacheKey.t → action W Status (stream StagingObjectMeta.t);
  ca_delete : CacheKey.t → action W Status unit;
  ca_delete_staging : CacheKey.t → action W Status unit;
  ca_list_staging_keys : Z → option string → action W Status (list StagingKeyEntry.t);
}.

Class TapeClient (W : Type) := {
  ta_acquire_drive : option string → option string →
    action W Status AcquireDriveResponse.t;
  ta_release_drive : string → action W Status unit;
  ta_load_tape : string → string → option string → action W Status unit;
  ta_write_bundle : list (result Status (option WritePayload)) →
    action W Status WriteBundleResponse.t;
  ta_read_bundle : string → option Location → Z →
    action W Status (list (result Status (option ReadPayload)));
}.

(** ** Data *)

Module ListObjectsPage.
Record t := mk {
  objects : list ObjectMetadata.t;
  common_prefixes : list string;
  next_marker : option string;
  is_truncated : bool;
}.
End ListObjectsPage.

Module Phase1StagedObject.
Record t := mk { meta : StagingObjectMeta.t; data : list Z }.
End Phase1StagedObject.

Module TapeArchiveWrite.
Record t := mk {
  tape_id : string;
  tape_set : list string;
  filemark_start : Z;
  filemark_end : Z;
  bytes_written : Z;
}.
End TapeArchiveWrite.

Module ArchiveBatchResult.
Record t := mk { archived_objects : Z; bytes_written : Z; bundle_ids : list string }.
Definition default_result : t := mk 0 0 [].
End ArchiveBatchResult.

Module RecallBatchResult.
Record t := mk { restored_objects : Z; bytes_read : Z; task_ids : list string }.
Definition default_result : t := mk 0 0 [].
End RecallBatchResult.

(** ** Pure helpers *)

(** [match version_id.filter(|v| !v.is_empty()) { Some(v) => "{base}#{v}", None => base }] *)
Definition with_version (base : string) (version_id : option string) : string :=
  match version_id with
  | Some version => if version == EmptyString then base else base +:+ "#" +:+ version
  | None => base
  end.

Definition phase1_archive_item_key (bucket key : string) (version_id : option string) : string :=
  with_version (bucket +:+ "/" +:+ key) version_id.
Definition phase1_recall_task_key (task : RecallTask.t) : string := task.(RecallTask.id).
Definition phase1_bundle_id (bucket key : string) (version_id : option string) : string :=
  with_version ("phase1-bundle:" +:+ bucket +:+ "/" +:+ key) version_id.
Definition phase1_recall_task_id (bucket key : string) (version_id : option string) : string :=
  with_version ("phase1-recall:" +:+ bucket +:+ "/" +:+ key) version_id.

Definition CAPACITY_REJECT_PREFIX : string := "capacity_reject:".
Definition capacity_reject_reason (message : string) : option string :=
  let message := trim message in
  if negb (str_starts_with message CAPACITY_REJECT_PREFIX) then None else
  let parts := split ":" (str_drop (String.length CAPACITY_REJECT_PREFIX) message) in
  reason ← head parts;
  if reason == EmptyString then None else Some reason.

Definition is_retriable_recall_processing_error (status : Status) : bool :=
  match code status with
  | Unavailable => true
  | ResourceExhausted =>
      match capacity_reject_reason (message status) with
      | Some reason =>
          bool_decide (reason ∈ ["staging_budget_exceeded"; "restored_budget_exceeded";
            "global_capacity_exceeded"; "low_watermark_exceeded"; "no_eviction_candidate"])
      | None => false
      end
  | _ => false
  end.

Definition restore_tier_rank (tier : Z) : Z :=
  match RestoreTier.try_from tier with
  | Some RestoreTier.Expedited => 0
  | Some RestoreTier.Standard => 1
  | Some RestoreTier.Bulk => 2
  | _ => 3
  end.

Definition is_pending_recall_task (task : RecallTask.t) : bool :=
  match RestoreStatus.try_from task.(RecallTask.status) with
  | Some RestoreStatus.RestorePending | Some RestoreStatus.RestoreWaitingForMedia => true
  | _ => false
  end.

(** The order in which a recall pass takes the tasks *)
Definition recall_cmp : RecallTask.t → RecallTask.t → comparison :=
  cmp_then (cmp_on (λ t, restore_tier_rank t.(RecallTask.tier)) Z.compare)
    (cmp_then (cmp_on RecallTask.tape_id String.compare)
      (cmp_then (cmp_on RecallTask.tape_block_offset Z.compare)
        (cmp_on (λ t, Timestamp.seconds <$> t.(RecallTask.created_at)) (option_cmp Z.compare)))).

Definition storage_class_label (storage_class : Z) : string :=
  match StorageClass.try_from storage_class with
  | Some StorageClass.ColdPending => "COLD_PENDING"
  | Some StorageClass.Cold => "COLD"
  | _ => "UNKNOWN"
  end.

Definition checksum_matches (expected computed_hex : string) : bool :=
  let expected := trim expected in
  let expected :=
    match strip_prefix "sha256:" expected with
    | Some rest => rest
    | None => default expected (strip_prefix "SHA256:" expected)
    end in
  eq_ignore_ascii_case expected computed_hex.

Section validation.
Context `{Sha256} `{DebugFormat}.

Definition validate_staged_object_matches_metadata (object : ObjectMetadata.t)
    (staged : Phase1StagedObject.t) : result Status unit :=
  let meta := staged.(Phase1StagedObject.meta) in
  let len := Z.of_nat (length staged.(Phase1StagedObject.data)) in
  let name := object.(ObjectMetadata.bucket) +:+ "/" +:+ object.(ObjectMetadata.key) in
  if (meta.(StagingObjectMeta.bucket) != object.(ObjectMetadata.bucket))
     || (meta.(StagingObjectMeta.key) != object.(ObjectMetadata.key))
     || (meta.(StagingObjectMeta.version_id) != object.(ObjectMetadata.version_id))
  then Err (data_loss ("staging identity mismatch: cache returned "
    +:+ meta.(StagingObjectMeta.bucket) +:+ "/" +:+ meta.(StagingObjectMeta.key) +:+ "#"
    +:+ debug_option meta.(StagingObjectMeta.version_id) +:+ " for metadata object " +:+ name
    +:+ "#" +:+ debug_option object.(ObjectMetadata.version_id))) else
  if meta.(StagingObjectMeta.size) != len
  then Err (data_loss ("staging size mismatch for " +:+ name +:+ ": meta="
    +:+ u64_to_string meta.(StagingObjectMeta.size) +:+ ", bytes=" +:+ u64_to_string len)) else
  if object.(ObjectMetadata.size) != len
  then Err (data_loss ("metadata size " +:+ u64_to_string object.(ObjectMetadata.size) +:+ " for "
    +:+ name +:+ " does not match staging bytes " +:+ u64_to_string len)) else
  let computed_checksum := sha256_hex staged.(Phase1StagedObject.data) in
  if match meta.(StagingObjectMeta.checksum) with
     | Some staging_checksum =>
         (trim staging_checksum != EmptyString)
         && negb (checksum_matches staging_checksum computed_checksum)
     | None => false
     end
  then Err (data_loss ("staging checksum mismatch for " +:+ name)) else
  let metadata_checksum := trim object.(ObjectMetadata.checksum) in
  if (metadata_checksum != EmptyString)
     && negb (checksum_matches metadata_checksum computed_checksum)
  then Err (data_loss ("metadata checksum mismatch for " +:+ name)) else
  Ok tt.
End validation.

(** ** Listing pages *)

(** The variables of the loop of [build_list_objects_page] *)
Record PageState := mkPage {
  pg_emitted : Z;
  pg_contents : list ObjectMetadata.t;
  pg_prefixes : list string;
  pg_last : option string;
}.

(** [suffix.find(delimiter)] within the key, as the prefix it rolls up into *)
Definition rolled_up (prefix delimiter key : string) : option string :=
  if delimiter == EmptyString then None else
  suffix ← strip_prefix prefix key;
  pos ← str_find delimiter suffix;
  Some (prefix +:+ str_take (pos + String.length delimiter) suffix).

(** The loop over the objects; the flag is [is_truncated]. [prefix_set] has
    the elements of [common_prefixes]. *)
Fixpoint page_loop (limit : Z) (prefix delimiter : string) (objects : list ObjectMetadata.t)
    (p : PageState) : PageState * bool :=
  match objects with
  | [] => (p, false)
  | object :: objects =>
      if (limit <=? pg_emitted p)%Z then (p, true) else
      match rolled_up prefix delimiter object.(ObjectMetadata.key) with
      | Some candidate_prefix =>
          if bool_decide (candidate_prefix ∈ pg_prefixes p)
          then page_loop limit prefix delimiter objects p
          else page_loop limit prefix delimiter objects
            (mkPage (pg_emitted p + 1) (pg_contents p) (pg_prefixes p ++ [candidate_prefix])
              (Some candidate_prefix))
      | None =>
          page_loop limit prefix delimiter objects
            (mkPage (pg_emitted p + 1) (pg_contents p ++ [object]) (pg_prefixes p)
              (Some object.(ObjectMetadata.key)))
      end
  end.

(** By key, then by version *)
Definition page_cmp : ObjectMetadata.t → ObjectMetadata.t → comparison :=
  cmp_then (cmp_on ObjectMetadata.key String.compare)
    (cmp_on ObjectMetadata.version_id (option_cmp String.compare)).

Definition build_list_objects_page (bucket : string) (objects : list ObjectMetadata.t)
    (prefix marker delimiter : option string) (max_keys : Z) : ListObjectsPage.t :=
  let prefix := default EmptyString prefix in
  let marker := default EmptyString marker in
  let delimiter := default EmptyString delimiter in
  let limit := if (max_keys =? 0)%Z then usize_MAX else max_keys in
  let enforce_limit := negb (limit =? usize_MAX)%Z in
  let filtered := List.filter (λ object, str_starts_with object.(ObjectMetadata.key) prefix
                                         && str_gtb object.(ObjectMetadata.key) marker)
    (List.filter (λ object, object.(ObjectMetadata.bucket) == bucket) objects) in
  let filtered := sort_by page_cmp filtered in
  let '(page, is_truncated) := page_loop limit prefix delimiter filtered (mkPage 0 [] [] None) in
  ListObjectsPage.mk (pg_contents page) (pg_prefixes page)
    (if is_truncated && enforce_limit then pg_last page else None) is_truncated.

(** ** Responses *)

(** [i64::to_string] *)
Definition i64_to_string (z : Z) : string := pretty z.

Section responses.
Context `{Chrono}.

Definition restore_expiry_http_date (expire_at : Timestamp.t) : string :=
  match timestamp_opt expire_at.(Timestamp.seconds) (wrap32 expire_at.(Timestamp.nanos)) with
  | Some value => format value "%a, %d %b %Y %H:%M:%S GMT"
  | None => i64_to_string expire_at.(Timestamp.seconds)
  end.

Definition QUOTE_MARK : string := String "034" EmptyString.
Definition build_restore_info (restore_status : option Z) (restore_expire_at : option Timestamp.t)
    : option string :=
  let ongoing v := "ongoing-request=" +:+ QUOTE_MARK +:+ v +:+ QUOTE_MARK in
  match restore_status ≫= RestoreStatus.try_from with
  | Some RestoreStatus.RestoreInProgress
  | Some RestoreStatus.RestorePending
  | Some RestoreStatus.RestoreWaitingForMedia => Some (ongoing "true")
  | Some RestoreStatus.RestoreCompleted =>
      match restore_expire_at with
      | Some expire_at =>
          Some (ongoing "false" +:+ ", expiry-date=" +:+ QUOTE_MARK
                +:+ restore_expiry_http_date expire_at +:+ QUOTE_MARK)
      | None => Some (ongoing "false")
      end
  | _ => None
  end.

(** [build_head_object_response], also [build_get_object_meta], which is the
    same text for the other message *)
Definition build_head_object_response (object : ObjectMetadata.t) : HeadObjectResponse.t :=
  HeadObjectResponse.mk object.(ObjectMetadata.size) object.(ObjectMetadata.content_type)
    (default EmptyString object.(ObjectMetadata.etag)) object.(ObjectMetadata.storage_class)
    (build_restore_info object.(ObjectMetadata.restore_status)
      object.(ObjectMetadata.restore_expire_at))
    object.(ObjectMetadata.updated_at).
Definition build_get_object_meta (object : ObjectMetadata.t) : HeadObjectResponse.t :=
  HeadObjectResponse.mk object.(ObjectMetadata.size) object.(ObjectMetadata.content_type)
    (default EmptyString object.(ObjectMetadata.etag)) object.(ObjectMetadata.storage_class)
    (build_restore_info object.(ObjectMetadata.restore_status)
      object.(ObjectMetadata.restore_expire_at))
    object.(ObjectMetadata.updated_at).
End responses.

Definition build_object_entry (object : ObjectMetadata.t) : ObjectEntry.t :=
  ObjectEntry.mk object.(ObjectMetadata.key) object.(ObjectMetadata.updated_at)
    (default EmptyString object.(ObjectMetadata.etag)) object.(ObjectMetadata.size)
    (storage_class_label object.(ObjectMetadata.storage_class)).
Definition build_bucket_entry (bucket : BucketInfo.t) : BucketEntry.t :=
  BucketEntry.mk bucket.(BucketInfo.name) bucket.(BucketInfo.created_at).
