(* ===== verification/Scheduler.v ===== *)
(** * The scheduler

    [src/crates/scheduler/src/service.rs]: the archive and recall passes, the
    backend behind the S3 operations, and the gRPC service; and the start-up
    of [lib.rs]. The state is the scheduler's own sets of active work and the
    system [W] its clients talk to. A pass or a request runs to completion
    before the next one, so a tape lease or a slot is always free and leaves
    no trace in the state. *)

From Stdlib Require Import ZArith String Ascii.
From S2P Require Import Prelude Hoare Proto RustStr External CacheBackend Cache TapeService.
From S2P Require Import SchedulerProto Config SchedulerClients.
Import scheduler.

Local Open Scope string_scope.
Local Open Scope list_scope.
Local Open Scope stdpp_scope.

(** The parts of [SchedulerState] that change, how often the clock was read,
    and the system *)
Record Sched (W : Type) := mkSched {
  active_archive_keys : gset string;
  active_recall_tasks : gset string;
  sched_ticks : nat;
  world : W;
}.
Arguments mkSched {W}.
Arguments active_archive_keys {W}.
Arguments active_recall_tasks {W}.
Arguments sched_ticks {W}.
Arguments world {W}.

(** ** The traits of the passes *)

Class Phase1ArchiveCache (S : Type) := {
  ac_list_staging_keys : Z → action S Status (list StagingKeyEntry.t);
  ac_get_staging : string → string → option string → action S Status Phase1StagedObject.t;
  ac_delete_staging : string → string → option string → action S Status unit;
}.
Class TapeArchiveWriter (S : Type) := {
  aw_write_bundle : string → Z → list Z → action S Status TapeArchiveWrite.t;
}.
Class Phase1RestoreCache (S : Type) := {
  rc_put_restored : ObjectMetadata.t → list Z → Timestamp.t → action S Status unit;
}.
Class TapeRecallReader (S : Type) := {
  rr_read_bundle : string → Z → Z → action S Status (list Z);
}.

(** The loop over a stream that must have metadata once: the metadata, if
    any, and all the data *)
Fixpoint collect_once {M} (duplicate empty_chunk : Status) (messages : stream M)
    (meta : option M) (data : list Z) : result Status (option M * list Z) :=
  match messages with
  | [] => Ok (meta, data)
  | message :: messages =>
      payload ← message;
      match payload with
      | Some (Meta next_meta) =>
          match meta with
          | Some _ => Err duplicate
          | None => collect_once duplicate empty_chunk messages (Some next_meta) data
          end
      | Some (Data chunk) => collect_once duplicate empty_chunk messages meta (data ++ chunk)
      | None => Err empty_chunk
      end
  end.

(** A message of the tape worker as a payload *)
Definition tape_payload (p : ReadPayload) : Payload Z :=
  match p with ReadMeta total_size _ => Meta total_size | ReadData data => Data data end.
Definition tape_message (m : result Status (option ReadPayload))
    : result Status (option (Payload Z)) :=
  match m with
  | Ok payload => Ok (option_map tape_payload payload)
  | Err status => Err status
  end.

Section scheduler.
Context {W : Type} `{MetadataClient W} `{CacheClient W} `{TapeClient W}.
Context `{Sha256} `{DebugFormat} `{Chrono}.
(** The readings of the clock, and whether the clients of the cache and the
    tape worker are configured *)
Context (clock : nat → Timestamp.t) (has_cache has_tape : bool) (config : SchedulerConfig.t).

Abbreviation sched := (action (Sched W) Status).

Definition on_world {A} (m : action W Status A) : sched A := λ s,
  let '(w, r) := m (world s) in
  (mkSched (active_archive_keys s) (active_recall_tasks s) (sched_ticks s) w, r).

Definition now_timestamp : sched Timestamp.t := λ s,
  (mkSched (active_archive_keys s) (active_recall_tasks s) (S (sched_ticks s)) (world s),
   Ok (clock (sched_ticks s))).

(** [Utc::now() + Duration::days(days)], within the years [chrono] can
    represent *)
Definition days_from_now (days : Z) : sched Timestamp.t :=
  now ← now_timestamp;
  mret (Timestamp.mk (now.(Timestamp.seconds) + 86400 * days) now.(Timestamp.nanos)).

(** *** The sets of active work *)

Definition set_active_archive (f : gset string → gset string) (s : Sched W) : Sched W :=
  mkSched (f (active_archive_keys s)) (active_recall_tasks s) (sched_ticks s) (world s).
Definition set_active_recall (f : gset string → gset string) (s : Sched W) : Sched W :=
  mkSched (active_archive_keys s) (f (active_recall_tasks s)) (sched_ticks s) (world s).

Definition acquire_archive_item (key : string) : sched bool := λ s,
  if bool_decide (key ∈ active_archive_keys s) then (s, Ok false)
  else (set_active_archive ({[key]} ∪.) s, Ok true).
Definition release_archive_item (key : string) : sched unit :=
  modify (set_active_archive (.∖ {[key]})).
Definition acquire_recall_task (key : string) : sched bool := λ s,
  if bool_decide (key ∈ active_recall_tasks s) then (s, Ok false)
  else (set_active_recall ({[key]} ∪.) s, Ok true).
Definition release_recall_task (key : string) : sched unit :=
  modify (set_active_recall (.∖ {[key]})).

(** *** The cache clients *)

Definition cache_get_staging (bucket key : string) (version_id : option string)
    : sched Phase1StagedObject.t :=
  messages ← on_world (ca_get_staging (CacheKey.new bucket key version_id));
  '(meta, data) ← lift (collect_once
    (invalid_argument "cache get_staging returned duplicate metadata")
    (internal "cache get_staging returned empty chunk") messages None []);
  meta ← lift (ok_or (internal "cache get_staging stream ended without metadata") meta);
  mret (Phase1StagedObject.mk meta data).

(** [CacheArchiveClient] *)
Definition CacheArchiveClient : Phase1ArchiveCache (Sched W) := {|
  ac_list_staging_keys limit := on_world (ca_list_staging_keys limit None);
  ac_get_staging := cache_get_staging;
  ac_delete_staging bucket key version_id :=
    on_world (ca_delete_staging (CacheKey.new bucket key version_id)) |}.

(** [CacheRestoreClient] *)
Definition CacheRestoreClient : Phase1RestoreCache (Sched W) := {|
  rc_put_restored object data expire_at :=
    on_world (ca_put_restored
      [Ok (Some (Meta (PutRestoredMeta.mk object.(ObjectMetadata.bucket)
         object.(ObjectMetadata.key) object.(ObjectMetadata.version_id) (Z.of_nat (length data))
         (Some (sha256_hex data)) object.(ObjectMetadata.content_type)
         object.(ObjectMetadata.etag) (Some expire_at))));
       Ok (Some (Data data))]) |}.

(** *** The tape clients *)

Definition acquire_and_load_tape (preferred_drive_id tape_id : string) : sched string :=
  acquired ← on_world (ta_acquire_drive (Some preferred_drive_id) None);
  let drive_id := if acquired.(AcquireDriveResponse.drive_id) == EmptyString
    then preferred_drive_id else acquired.(AcquireDriveResponse.drive_id) in
  (if acquired.(AcquireDriveResponse.current_tape) == Some tape_id then mret tt
   else on_world (ta_load_tape tape_id drive_id None));;
  mret drive_id.

Definition release_drive_best_effort (drive_id : string) : sched unit :=
  discard (on_world (ta_release_drive drive_id)).

(** The checks of [write_bundle] on the response *)
Definition check_write_response (bundle_id drive_id : string) (response : WriteBundleResponse.t)
    : result Status unit :=
  if negb response.(WriteBundleResponse.success)
  then Err (internal ("tape write_bundle failed for " +:+ bundle_id +:+ ": "
    +:+ default "unknown tape error" response.(WriteBundleResponse.error))) else
  if response.(WriteBundleResponse.drive_id) != drive_id
  then Err (internal ("tape write_bundle responded for drive "
    +:+ response.(WriteBundleResponse.drive_id) +:+ ", expected " +:+ drive_id)) else
  if response.(WriteBundleResponse.bundle_id) != bundle_id
  then Err (internal ("tape write_bundle responded for bundle "
    +:+ response.(WriteBundleResponse.bundle_id) +:+ ", expected " +:+ bundle_id)) else
  Ok tt.

(** [TapeArchiveClient::write_bundle] for a client with these fields *)
Definition tape_write_bundle (client_drive_id client_tape_id : string) (tape_set : list string)
    (block_size : Z) (bundle_id : string) (object_count : Z) (data : list Z)
    : sched TapeArchiveWrite.t :=
  drive_id ← acquire_and_load_tape client_drive_id client_tape_id;
  response ← attempt (on_world (ta_write_bundle
    [Ok (Some (WriteMeta (WriteBundleMeta.mk drive_id bundle_id (Z.of_nat (length data))
       object_count block_size)));
     Ok (Some (WriteData data))]));
  release_drive_best_effort drive_id;;
  response ← lift response;
  lift (check_write_response bundle_id drive_id response);;
  mret (TapeArchiveWrite.mk client_tape_id tape_set response.(WriteBundleResponse.filemark_start)
    response.(WriteBundleResponse.filemark_end) response.(WriteBundleResponse.bytes_written)).

Definition TapeArchiveClient (drive_id tape_id : string) (tape_set : list string)
    (block_size : Z) : TapeArchiveWriter (Sched W) := {|
  aw_write_bundle := tape_write_bundle drive_id tape_id tape_set block_size |}.

(** The [async] block of [TapeRecallClient::read_bundle] *)
Definition read_bundle_data (drive_id : string) (filemark length_ : Z) : sched (list Z) :=
  messages ← on_world (ta_read_bundle drive_id (Some (LocFilemark filemark)) length_);
  '(expected_size, data) ← lift (collect_once
    (internal "tape read returned duplicate metadata")
    (internal "tape read returned empty chunk")
    (tape_message <$> messages) None []);
  match expected_size with
  | Some expected_size =>
      reject_if (expected_size != Z.of_nat (length data))
        (data_loss ("tape read returned " +:+ u64_to_string (Z.of_nat (length data))
          +:+ " bytes, expected " +:+ u64_to_string expected_size))
  | None => mret tt
  end;;
  mret data.

Definition tape_read_bundle (client_drive_id tape_id : string) (filemark length_ : Z)
    : sched (list Z) :=
  drive_id ← acquire_and_load_tape client_drive_id tape_id;
  result ← attempt (read_bundle_data drive_id filemark length_);
  release_drive_best_effort drive_id;;
  lift result.

Definition TapeRecallClient (drive_id : string) : TapeRecallReader (Sched W) := {|
  rr_read_bundle := tape_read_bundle drive_id |}.

(** ** The backend *)

(** [self.cache_client()?] *)
Definition cache_client : sched unit :=
  reject_if (negb has_cache) (failed_precondition "scheduler cache client is not configured").

Definition put_staging_object (bucket key : string) (version_id : option string) (data : list Z)
    (checksum : string) (content_type : option string) (etag : string) : sched string :=
  cache_client;;
  on_world (ca_put_staging
    [Ok (Some (Meta (PutStagingMeta.mk bucket key version_id (Z.of_nat (length data))
       (Some checksum) content_type (Some etag))));
     Ok (Some (Data data))]).

Definition delete_staging_best_effort (bucket key : string) (version_id : option string)
    : sched unit :=
  if has_cache then discard (on_world (ca_delete_staging (CacheKey.new bucket key version_id)))
  else mret tt.

Definition delete_cached_object_best_effort (bucket key : string) (version_id : option string)
    : sched unit :=
  if has_cache then
    discard (on_world (ca_delete (CacheKey.new bucket key version_id)));;
    discard (on_world (ca_delete_staging (CacheKey.new bucket key version_id)))
  else mret tt.

Definition name_of (object : ObjectMetadata.t) : string :=
  object.(ObjectMetadata.bucket) +:+ "/" +:+ object.(ObjectMetadata.key).

Definition read_restored_object (object : ObjectMetadata.t) : sched (list Z) :=
  reject_if (object.(ObjectMetadata.storage_class) != StorageClass.as_i32 StorageClass.Cold)
    (failed_precondition ("object " +:+ name_of object
      +:+ " is not archived yet and cannot be read from restored cache"));;
  reject_if ((object.(ObjectMetadata.restore_status) ≫= RestoreStatus.try_from)
             != Some RestoreStatus.RestoreCompleted)
    (failed_precondition ("object " +:+ name_of object +:+ " must complete restore before GET"));;
  cache_client;;
  got ← attempt (on_world (ca_get (CacheKey.new object.(ObjectMetadata.bucket)
    object.(ObjectMetadata.key) object.(ObjectMetadata.version_id))));
  messages ← lift (map_err (λ status,
    if code status == NotFound
    then failed_precondition ("restored object " +:+ name_of object +:+ " is not present in cache")
    else status) got);
  '(meta, data) ← lift (collect_once (invalid_argument "cache get returned duplicate metadata")
    (internal "cache get returned empty chunk") messages None []);
  meta ← lift (ok_or (internal "cache get stream ended without metadata") meta);
  let expected_size := meta.(CachedObjectMeta.size) in
  let len := Z.of_nat (length data) in
  reject_if (expected_size != len)
    (data_loss ("cache returned " +:+ u64_to_string len +:+ " bytes for " +:+ name_of object
      +:+ ", expected " +:+ u64_to_string expected_size));;
  reject_if (object.(ObjectMetadata.size) != len)
    (data_loss ("metadata size " +:+ u64_to_string object.(ObjectMetadata.size) +:+ " for "
      +:+ name_of object +:+ " does not match restored cache bytes " +:+ u64_to_string len));;
  mret data.

(** *** Archive tasks *)

Definition phase1_archive_task (bundle_id tape_id : string) (object_size : Z)
    : sched ArchiveTask.t :=
  now ← now_timestamp;
  mret (ArchiveTask.mk bundle_id bundle_id tape_id None 1 object_size 0
    (ArchiveTaskStatus.as_i32 ArchiveTaskStatus.ArchiveTaskPending) 0 (Some now) None None None).

Definition get_archive_task (task_id : string) : sched ArchiveTask.t :=
  on_world (md_get_archive_task task_id).
Definition update_archive_task (task : ArchiveTask.t) : sched unit :=
  on_world (md_update_archive_task task).

(** [Enum::try_from(status).map_err(|_| ..)?] *)
Definition archive_status_of (task : ArchiveTask.t) : sched ArchiveTaskStatus.t :=
  lift (ok_or (internal "invalid archive task status")
    (ArchiveTaskStatus.try_from task.(ArchiveTask.status))).

(** [if let Err(status) = m { if status.code() != ignored { return Err(status) } }]:
    whether the call succeeded *)
Definition ignoring (ignored : Code) (m : sched unit) : sched bool :=
  r ← attempt m;
  match r with
  | Ok _ => mret true
  | Err status => if code status == ignored then mret false else throw status
  end.

(** [claim_archive_task]: whether the task was claimed, and the task *)
Definition claim_archive_task (task : ArchiveTask.t) : sched (bool * ArchiveTask.t) :=
  _ ← ignoring AlreadyExists (on_world (md_put_archive_task task));
  current ← get_archive_task task.(ArchiveTask.id);
  current_status ← archive_status_of current;
  match current_status with
  | ArchiveTaskStatus.ArchiveTaskCompleted => mret (false, current)
  | ArchiveTaskStatus.ArchiveTaskFailed => mret (false, task)
  | ArchiveTaskStatus.ArchiveTaskInProgress => mret (false, current)
  | ArchiveTaskStatus.ArchiveTaskPending =>
      let current := ArchiveTask.set_status
        (ArchiveTaskStatus.as_i32 ArchiveTaskStatus.ArchiveTaskInProgress) current in
      let current := ArchiveTask.set_error None current in
      now ← now_timestamp;
      let current := ArchiveTask.set_started_at (Some now) current in
      updated ← ignoring FailedPrecondition (on_world (md_update_archive_task current));
      mret (if (updated : bool) then (true, current) else (false, task))
  | _ => throw (failed_precondition "invalid archive task state for claim")
  end.

(** [finalize_archive_task_success]; the task is not used afterwards. *)
Definition finalize_archive_task_success (task_id : string) (bytes_written : Z) : sched unit :=
  current ← get_archive_task task_id;
  current_status ← archive_status_of current;
  match current_status with
  | ArchiveTaskStatus.ArchiveTaskCompleted => mret tt
  | _ =>
      let current := ArchiveTask.set_status
        (ArchiveTaskStatus.as_i32 ArchiveTaskStatus.ArchiveTaskCompleted) current in
      let current := ArchiveTask.set_bytes_written bytes_written current in
      let current := ArchiveTask.set_error None current in
      now ← now_timestamp;
      let current := ArchiveTask.set_completed_at (Some now) current in
      _ ← ignoring FailedPrecondition (update_archive_task current);
      mret tt
  end.

Definition mark_archive_task_failed (task : ArchiveTask.t) (error : string) : sched unit :=
  current ← get_archive_task task.(ArchiveTask.id);
  current_status ← archive_status_of current;
  match current_status with
  | ArchiveTaskStatus.ArchiveTaskCompleted | ArchiveTaskStatus.ArchiveTaskFailed => mret tt
  | _ =>
      let current := ArchiveTask.set_status
        (ArchiveTaskStatus.as_i32 ArchiveTaskStatus.ArchiveTaskFailed) current in
      let current := ArchiveTask.set_error (Some error) current in
      now ← now_timestamp;
      let current := ArchiveTask.set_completed_at (Some now) current in
      let current := ArchiveTask.set_retry_count
        (Z.min (current.(ArchiveTask.retry_count) + 1) u32_MAX) current in
      update_archive_task current
  end.

(** *** The archive pass *)

Definition head_object (bucket key : string) : sched ObjectMetadata.t :=
  on_world (md_head_object bucket key).

(** [.map_err(|status| (status, task))?] *)
Definition failing_with {A} (task : option ArchiveTask.t) (m : sched A)
    : action (Sched W) (Status * option ArchiveTask.t) A := λ s,
  let '(s, r) := m s in (s, map_err (λ status, (status, task)) r).

(** The bundle of one object that an archive pass reports *)
Definition archive_bundle (entry : StagingKeyEntry.t) (bundle_id checksum : string)
    (data : list Z) (write : TapeArchiveWrite.t) (now : Timestamp.t) : ArchiveBundle.t :=
  ArchiveBundle.mk bundle_id write.(TapeArchiveWrite.tape_id) write.(TapeArchiveWrite.tape_set)
    [BundleEntry.mk entry.(StagingKeyEntry.bucket) entry.(StagingKeyEntry.key)
       entry.(StagingKeyEntry.version_id) (Z.of_nat (length data)) 0
       write.(TapeArchiveWrite.filemark_start) checksum]
    write.(TapeArchiveWrite.bytes_written) write.(TapeArchiveWrite.filemark_start)
    write.(TapeArchiveWrite.filemark_end) (Some checksum)
    (ArchiveBundleStatus.as_i32 ArchiveBundleStatus.BundleCompleted) (Some now) (Some now).

Definition complete_request (entry : StagingKeyEntry.t) (current_object : ObjectMetadata.t)
    (bundle : ArchiveBundle.t) (write : TapeArchiveWrite.t) : CompleteArchiveObjectRequest.t :=
  CompleteArchiveObjectRequest.mk entry.(StagingKeyEntry.bucket) entry.(StagingKeyEntry.key)
    current_object.(ObjectMetadata.version_id) (Some current_object.(ObjectMetadata.size))
    (Some current_object.(ObjectMetadata.checksum))
    (Some current_object.(ObjectMetadata.storage_class)) current_object.(ObjectMetadata.updated_at)
    (Some bundle) write.(TapeArchiveWrite.filemark_start) (StorageClass.as_i32 StorageClass.Cold).

Definition is_cold_pending (object : ObjectMetadata.t) : bool :=
  object.(ObjectMetadata.storage_class) == StorageClass.as_i32 StorageClass.ColdPending.

(** The [async] block of [archive_staging_batch] from the claimed task on: the
    staged data is read, written to tape, and reported. The bytes written. *)
Definition archive_claimed (C : Phase1ArchiveCache (Sched W)) (T : TapeArchiveWriter (Sched W))
    (entry : StagingKeyEntry.t) (object : ObjectMetadata.t) (bundle_id : string)
    (task : ArchiveTask.t) : sched Z :=
  let bucket := entry.(StagingKeyEntry.bucket) in
  let key := entry.(StagingKeyEntry.key) in
  let version_id := entry.(StagingKeyEntry.version_id) in
  staged ← ac_get_staging bucket key version_id;
  let data := staged.(Phase1StagedObject.data) in
  lift (validate_staged_object_matches_metadata object staged);;
  let checksum := sha256_hex data in
  write ← aw_write_bundle bundle_id 1 data;
  reject_if (write.(TapeArchiveWrite.bytes_written) != Z.of_nat (length data))
    (internal ("tape writer reported " +:+ u64_to_string write.(TapeArchiveWrite.bytes_written)
      +:+ " bytes for " +:+ bundle_id +:+ ", expected " +:+ u64_to_string (Z.of_nat (length data))));;
  current_object ← head_object bucket key;
  reject_if (negb (is_cold_pending current_object))
    (failed_precondition ("object " +:+ bucket +:+ "/" +:+ key
      +:+ " changed storage class during archive"));;
  lift (validate_staged_object_matches_metadata current_object staged);;
  now ← now_timestamp;
  let bundle := archive_bundle entry bundle_id checksum data write now in
  on_world (md_complete_archive_object (complete_request entry current_object bundle write));;
  ac_delete_staging bucket key version_id;;
  finalize_archive_task_success task.(ArchiveTask.id) write.(TapeArchiveWrite.bytes_written);;
  mret write.(TapeArchiveWrite.bytes_written).

(** The [async] block of [archive_staging_batch]: the bytes written, or [None]
    when there was nothing to do *)
Definition archive_entry (C : Phase1ArchiveCache (Sched W)) (T : TapeArchiveWriter (Sched W))
    (entry : StagingKeyEntry.t)
    : action (Sched W) (Status * option ArchiveTask.t) (option Z) :=
  let bucket := entry.(StagingKeyEntry.bucket) in
  let key := entry.(StagingKeyEntry.key) in
  let version_id := entry.(StagingKeyEntry.version_id) in
  object ← failing_with None (head_object bucket key);
  let bundle_id := phase1_bundle_id bucket key version_id in
  task ← failing_with None (phase1_archive_task bundle_id
    config.(SchedulerConfig.archive).(ArchiveSchedulerConfig.tape_id) object.(ObjectMetadata.size));
  if negb (is_cold_pending object) then
    failing_with None (delete_staging_best_effort bucket key version_id);;
    mret None
  else
    '(claimed, task) ← failing_with (Some task) (claim_archive_task task);
    if negb claimed then mret None else
    bytes ← failing_with (Some task) (archive_claimed C T entry object bundle_id task);
    mret (Some bytes).

Definition count_archived (bytes : Z) (bundle_id : string) (r : ArchiveBatchResult.t)
    : ArchiveBatchResult.t :=
  ArchiveBatchResult.mk (wrap32 (r.(ArchiveBatchResult.archived_objects) + 1))
    (wrap64 (r.(ArchiveBatchResult.bytes_written) + bytes))
    (r.(ArchiveBatchResult.bundle_ids) ++ [bundle_id]).

(** One round of the loop of [archive_staging_batch] *)
Definition archive_round (C : Phase1ArchiveCache (Sched W)) (T : TapeArchiveWriter (Sched W))
    (entry : StagingKeyEntry.t) (result : ArchiveBatchResult.t) : sched ArchiveBatchResult.t :=
  let bucket := entry.(StagingKeyEntry.bucket) in
  let key := entry.(StagingKeyEntry.key) in
  let version_id := entry.(StagingKeyEntry.version_id) in
  let item_key := phase1_archive_item_key bucket key version_id in
  acquired ← acquire_archive_item item_key;
  if negb acquired then mret result else λ s,
    match archive_entry C T entry s with
    | (s, Ok done_) =>
        (release_archive_item item_key;;
         mret match done_ with
              | Some bytes =>
                  count_archived bytes (phase1_bundle_id bucket key version_id) result
              | None => result
              end) s
    | (s, Err (status, maybe_task)) =>
        (match maybe_task with
         | Some task => discard (mark_archive_task_failed task (message status))
         | None => mret tt
         end;;
         release_archive_item item_key;;
         throw status) s
    end.

(** The loop: the first error ends the batch. *)
Fixpoint archive_loop (C : Phase1ArchiveCache (Sched W)) (T : TapeArchiveWriter (Sched W))
    (entries : list StagingKeyEntry.t) (result : ArchiveBatchResult.t)
    : sched ArchiveBatchResult.t :=
  match entries with
  | [] => mret result
  | entry :: entries => archive_round C T entry result ≫= archive_loop C T entries
  end.

Definition archive_staging_batch (C : Phase1ArchiveCache (Sched W))
    (T : TapeArchiveWriter (Sched W)) (limit : Z) : sched ArchiveBatchResult.t :=
  entries ← ac_list_staging_keys limit;
  archive_loop C T entries ArchiveBatchResult.default_result.

(** *** Recall tasks *)

Definition get_recall_task (task_id : string) : sched RecallTask.t :=
  on_world (md_get_recall_task task_id).
Definition update_recall_task (task : RecallTask.t) : sched unit :=
  on_world (md_update_recall_task task).
Definition update_object_restore_status (bucket key : string) (status : RestoreStatus.t)
    (expire_at : option Timestamp.t) : sched unit :=
  on_world (md_update_restore_status
    (UpdateRestoreStatusRequest.mk bucket key (RestoreStatus.as_i32 status) expire_at)).

Definition restore_status_of (invalid : string) (task : RecallTask.t) : sched RestoreStatus.t :=
  lift (ok_or (internal invalid) (RestoreStatus.try_from task.(RecallTask.status))).

(** [claim_recall_task]: whether the task was claimed, and the task *)
Definition claim_recall_task (task : RecallTask.t) : sched (bool * RecallTask.t) :=
  _ ← ignoring AlreadyExists (on_world (md_put_recall_task task));
  current ← get_recall_task task.(RecallTask.id);
  current_status ← restore_status_of "invalid restore task status" current;
  match current_status with
  | RestoreStatus.RestoreCompleted | RestoreStatus.RestoreExpired => mret (false, current)
  | RestoreStatus.RestoreInProgress => mret (false, current)
  | RestoreStatus.RestorePending | RestoreStatus.RestoreWaitingForMedia =>
      let current := RecallTask.set_status
        (RestoreStatus.as_i32 RestoreStatus.RestoreInProgress) current in
      let current := RecallTask.set_error None current in
      now ← now_timestamp;
      let current := RecallTask.set_started_at (Some now) current in
      updated ← ignoring FailedPrecondition (on_world (md_update_recall_task current));
      if negb updated then mret (false, task) else
      update_object_restore_status current.(RecallTask.bucket) current.(RecallTask.key)
        RestoreStatus.RestoreInProgress current.(RecallTask.expire_at);;
      mret (true, current)
  | RestoreStatus.RestoreFailed => mret (false, current)
  | RestoreStatus.Unspecified => mret (false, task)
  end.

Definition mark_recall_failed (task : RecallTask.t) (error : string) : sched unit :=
  current ← get_recall_task task.(RecallTask.id);
  status ← restore_status_of "invalid restore task status" current;
  match status with
  | RestoreStatus.RestoreCompleted | RestoreStatus.RestoreFailed => mret tt
  | _ =>
      let current := RecallTask.set_status
        (RestoreStatus.as_i32 RestoreStatus.RestoreFailed) current in
      let current := RecallTask.set_retry_count
        (Z.min (current.(RecallTask.retry_count) + 1) u32_MAX) current in
      now ← now_timestamp;
      let current := RecallTask.set_completed_at (Some now) current in
      let current := RecallTask.set_error (Some error) current in
      _ ← ignoring FailedPrecondition (update_recall_task current);
      update_object_restore_status current.(RecallTask.bucket) current.(RecallTask.key)
        RestoreStatus.RestoreFailed None
  end.

(** [retry_recall_task_later]; the task it updates is not used afterwards. *)
Definition retry_recall_task_later (task : RecallTask.t) (error : string) : sched unit :=
  current ← get_recall_task task.(RecallTask.id);
  current_status ← restore_status_of "invalid recall task status" current;
  if current_status != RestoreStatus.RestoreInProgress then mret tt else
  let current := RecallTask.set_status
    (RestoreStatus.as_i32 RestoreStatus.RestoreWaitingForMedia) current in
  let current := RecallTask.set_error (Some error) current in
  let current := RecallTask.set_started_at None current in
  let current := RecallTask.set_retry_count
    (Z.min (current.(RecallTask.retry_count) + 1) u32_MAX) current in
  update_recall_task current;;
  update_object_restore_status current.(RecallTask.bucket) current.(RecallTask.key)
    RestoreStatus.RestoreWaitingForMedia current.(RecallTask.expire_at).

(** *** The recall pass *)

Definition process_recall_task (C : Phase1RestoreCache (Sched W))
    (T : TapeRecallReader (Sched W)) (task : RecallTask.t) : sched Z :=
  let id := task.(RecallTask.id) in
  object ← head_object task.(RecallTask.bucket) task.(RecallTask.key);
  reject_if (object.(ObjectMetadata.storage_class) != StorageClass.as_i32 StorageClass.Cold)
    (failed_precondition ("recall task " +:+ id +:+ " requires a COLD object"));;
  reject_if (object.(ObjectMetadata.archive_id) != Some task.(RecallTask.archive_id))
    (failed_precondition ("recall task " +:+ id
      +:+ " archive_id does not match current object metadata"));;
  let filemark := task.(RecallTask.tape_block_offset) in
  reject_if (u32_MAX <? filemark)%Z
    (invalid_argument "recall tape offset does not fit filemark");;
  data ← rr_read_bundle task.(RecallTask.tape_id) filemark task.(RecallTask.object_size);
  reject_if (Z.of_nat (length data) != task.(RecallTask.object_size))
    (data_loss ("recall task " +:+ id +:+ " read " +:+ u64_to_string (Z.of_nat (length data))
      +:+ " bytes, expected " +:+ u64_to_string task.(RecallTask.object_size)));;
  reject_if (sha256_hex data != task.(RecallTask.checksum))
    (data_loss ("recall task " +:+ id +:+ " checksum mismatch"));;
  expire_at ← match task.(RecallTask.expire_at) with
              | Some expire_at => mret expire_at
              | None => days_from_now 1
              end;
  rc_put_restored object data expire_at;;
  let task := RecallTask.set_status
    (RestoreStatus.as_i32 RestoreStatus.RestoreCompleted) task in
  now ← now_timestamp;
  let task := RecallTask.set_completed_at (Some now) task in
  let task := RecallTask.set_error None task in
  update_recall_task task;;
  update_object_restore_status task.(RecallTask.bucket) task.(RecallTask.key)
    RestoreStatus.RestoreCompleted (Some expire_at);;
  mret task.(RecallTask.object_size).

Definition count_restored (bytes : Z) (task_id : string) (r : RecallBatchResult.t)
    : RecallBatchResult.t :=
  RecallBatchResult.mk (wrap32 (r.(RecallBatchResult.restored_objects) + 1))
    (wrap64 (r.(RecallBatchResult.bytes_read) + bytes))
    (r.(RecallBatchResult.task_ids) ++ [task_id]).

(** Waiting for a permit of [recall_task_slots] and for the lease of a tape,
    with the permit as it is granted. The waits end with an error only when the
    semaphore is closed, and nothing closes one; how long they take and who
    holds what in the meantime is in [Leases]. *)
Definition await_recall_task_slot : sched unit := mret tt.
Definition await_tape_lease (tape_id : string) : sched unit := mret tt.

(** The body of the loop of [recall_pending_batch] once the task is claimed *)
Definition recall_claimed (C : Phase1RestoreCache (Sched W)) (T : TapeRecallReader (Sched W))
    (task_key : string) (claimed_task : RecallTask.t) (result : RecallBatchResult.t)
    : sched RecallBatchResult.t :=
  restore_result ← attempt (process_recall_task C T claimed_task);
  result ← match restore_result with
           | Ok bytes_read => mret (count_restored bytes_read claimed_task.(RecallTask.id) result)
           | Err status =>
               finalize_result ← attempt
                 (if is_retriable_recall_processing_error status
                  then retry_recall_task_later claimed_task (message status)
                  else mark_recall_failed claimed_task (message status));
               match finalize_result with
               | Err mark_status => release_recall_task task_key;; throw mark_status
               | Ok _ => mret result
               end
           end;
  release_recall_task task_key;;
  mret result.

(** The body of the loop: every path out of it that comes after the task
    entered the set of active tasks takes it out again. *)
Definition recall_round (C : Phase1RestoreCache (Sched W)) (T : TapeRecallReader (Sched W))
    (task : RecallTask.t) (result : RecallBatchResult.t) : sched RecallBatchResult.t :=
  slot ← attempt await_recall_task_slot;
  match slot with
  | Err _ =>
      release_recall_task (phase1_recall_task_key task);;
      throw (internal "recall task concurrency slots closed")
  | Ok _ =>
      let task_key := phase1_recall_task_key task in
      acquired ← acquire_recall_task task_key;
      if negb acquired then mret result else
      lease ← attempt (await_tape_lease task.(RecallTask.tape_id));
      match lease with
      | Err status => release_recall_task task_key;; throw status
      | Ok _ =>
          claim_result ← attempt (claim_recall_task task);
          match claim_result with
          | Err status => release_recall_task task_key;; throw status
          | Ok (claimed, claimed_task) =>
              if negb claimed then release_recall_task task_key;; mret result
              else recall_claimed C T task_key claimed_task result
          end
      end
  end.

Fixpoint recall_loop (C : Phase1RestoreCache (Sched W)) (T : TapeRecallReader (Sched W))
    (tasks : list RecallTask.t) (result : RecallBatchResult.t) : sched RecallBatchResult.t :=
  match tasks with
  | [] => mret result
  | task :: tasks => recall_round C T task result ≫= recall_loop C T tasks
  end.

Definition recall_pending_batch (C : Phase1RestoreCache (Sched W))
    (T : TapeRecallReader (Sched W)) (limit : Z) : sched RecallBatchResult.t :=
  tasks ← on_world md_list_pending_recall_tasks;
  let tasks := sort_by recall_cmp (List.filter is_pending_recall_task tasks) in
  recall_loop C T (take (Z.to_nat limit) tasks) RecallBatchResult.default_result.

(** *** The operations behind the S3 requests *)

Definition list_buckets : sched (list BucketInfo.t) := on_world md_list_buckets.

Definition create_bucket (bucket : string) : sched unit :=
  now ← now_timestamp;
  on_world (md_create_bucket (BucketInfo.mk bucket (Some now) None false 0 0)).

Definition delete_bucket (bucket : string) : sched unit := on_world (md_delete_bucket bucket).

Definition head_bucket (bucket : string) : sched unit :=
  _ ← on_world (md_get_bucket bucket);
  mret tt.

Definition get_object (bucket key : string) : sched (ObjectMetadata.t * list Z) :=
  object ← head_object bucket key;
  data ← read_restored_object object;
  mret (object, data).

(** The metadata of an upload *)
Definition new_object (bucket key : string) (body : list Z) (content_type : option string)
    (now : Timestamp.t) : ObjectMetadata.t :=
  let checksum := sha256_hex body in
  ObjectMetadata.mk bucket key None (Z.of_nat (length body)) checksum content_type (Some checksum)
    (StorageClass.as_i32 StorageClass.ColdPending) None None [] None None None
    (Some now) (Some now).

Definition put_object (bucket key : string) (body : list Z) (content_type : option string)
    : sched PutObjectResponse.t :=
  let checksum := sha256_hex body in
  _ ← put_staging_object bucket key None body checksum content_type checksum;
  now ← now_timestamp;
  put ← attempt (on_world (md_put_object (new_object bucket key body content_type now)));
  match put with
  | Err status => delete_staging_best_effort bucket key None;; throw status
  | Ok _ => mret (PutObjectResponse.mk checksum EmptyString)
  end.

Definition delete_object (bucket key : string) : sched unit :=
  on_world (md_delete_object bucket key);;
  delete_cached_object_best_effort bucket key None.

(** The arm of [restore_object] that starts a recall *)
Definition start_restore (bucket key : string) (days : Z) (tier : RestoreTier.t)
    (object : ObjectMetadata.t) : sched Z :=
  archive_id ← lift (ok_or (failed_precondition "restore_object requires archive_id metadata")
    object.(ObjectMetadata.archive_id));
  tape_id ← lift (ok_or (failed_precondition "restore_object requires tape_id metadata")
    object.(ObjectMetadata.tape_id));
  tape_block_offset ←
    lift (ok_or (failed_precondition "restore_object requires tape_block_offset metadata")
      object.(ObjectMetadata.tape_block_offset));
  expire_at ← days_from_now (Z.max days 1);
  on_world (md_update_restore_status (UpdateRestoreStatusRequest.mk bucket key
    (RestoreStatus.as_i32 RestoreStatus.RestorePending) (Some expire_at)));;
  now ← now_timestamp;
  let task := RecallTask.mk
    (phase1_recall_task_id bucket key object.(ObjectMetadata.version_id)) bucket key
    object.(ObjectMetadata.version_id) archive_id tape_id object.(ObjectMetadata.tape_set)
    tape_block_offset object.(ObjectMetadata.size) object.(ObjectMetadata.checksum)
    (RestoreTier.as_i32 tier) (Z.max days 1) (Some expire_at)
    (RestoreStatus.as_i32 RestoreStatus.RestorePending) None 0 (Some now) None None None in
  put ← attempt (on_world (md_put_recall_task task));
  match put with
  | Err status =>
      discard (update_object_restore_status bucket key RestoreStatus.RestoreFailed None);;
      throw status
  | Ok _ => mret 202%Z
  end.

(** [restore_object]: the status code of the response *)
Definition restore_object (bucket key : string) (days : Z) (tier : RestoreTier.t) : sched Z :=
  object ← on_world (md_get_object bucket key);
  reject_if (object.(ObjectMetadata.storage_class) != StorageClass.as_i32 StorageClass.Cold)
    (failed_precondition
      "restore_object requires an archived COLD object in phase-1 metadata-backed mode");;
  reject_if (tier == RestoreTier.Expedited)
    (unavailable "glacier expedited retrieval is not available in this environment");;
  match object.(ObjectMetadata.restore_status) ≫= RestoreStatus.try_from with
  | Some RestoreStatus.RestoreCompleted => mret 200%Z
  | Some RestoreStatus.RestorePending
  | Some RestoreStatus.RestoreWaitingForMedia
  | Some RestoreStatus.RestoreInProgress => mret 409%Z
  | Some RestoreStatus.RestoreExpired
  | Some RestoreStatus.RestoreFailed =>
      throw (failed_precondition
        "restore_object cannot reopen expired or failed restores in phase-1 metadata-backed mode")
  | Some RestoreStatus.Unspecified
  | None => start_restore bucket key days tier object
  end.

Definition list_objects (bucket : string) (prefix marker delimiter : option string)
    (max_keys : Z) : sched ListObjectsPage.t :=
  objects ← on_world (md_list_objects bucket prefix marker max_keys);
  mret (build_list_objects_page bucket objects prefix marker delimiter max_keys).

(** ** The passes of the background loops *)

(** The set of tapes of the archive pass, and the tape whose lease it takes *)
Definition archive_tape_set : list string :=
  let archive := config.(SchedulerConfig.archive) in
  if bool_decide (archive.(ArchiveSchedulerConfig.tape_set) = [])
  then [archive.(ArchiveSchedulerConfig.tape_id)]
  else archive.(ArchiveSchedulerConfig.tape_set).
Definition archive_lease_tape : string :=
  default config.(SchedulerConfig.archive).(ArchiveSchedulerConfig.tape_id) (head archive_tape_set).

(** [state.tape.clone().ok_or_else(..)?] *)
Definition tape_client : sched unit :=
  reject_if (negb has_tape) (failed_precondition "scheduler tape client is not configured").

Definition archive_staging_once : sched ArchiveBatchResult.t :=
  let archive := config.(SchedulerConfig.archive) in
  cache_client;;
  tape_client;;
  archive_staging_batch CacheArchiveClient
    (TapeArchiveClient archive.(ArchiveSchedulerConfig.drive_id)
      archive.(ArchiveSchedulerConfig.tape_id) archive_tape_set
      archive.(ArchiveSchedulerConfig.block_size))
    (Z.min archive.(ArchiveSchedulerConfig.batch_size) u32_MAX).

Definition recall_pending_once (max_tasks : Z) : sched RecallBatchResult.t :=
  let recall := config.(SchedulerConfig.recall) in
  cache_client;;
  tape_client;;
  recall_pending_batch CacheRestoreClient
    (TapeRecallClient recall.(RecallSchedulerConfig.drive_id))
    (Z.min max_tasks recall.(RecallSchedulerConfig.max_concurrent_restores)).

(** One turn of [run_archive_agent] and of [run_recall_agent]: an error is
    logged and the loop goes on. *)
Definition archive_turn : sched unit := discard archive_staging_once.
Definition recall_turn : sched unit :=
  discard (recall_pending_once
    (Z.max config.(SchedulerConfig.recall).(RecallSchedulerConfig.max_concurrent_restores) 1)).
End scheduler.

(** ** The gRPC service *)

Class Phase1SchedulerBackend (S : Type) := {
  sb_list_buckets : action S Status (list BucketInfo.t);
  sb_create_bucket : string → action S Status unit;
  sb_delete_bucket : string → action S Status unit;
  sb_head_bucket : string → action S Status unit;
  sb_head_object : string → string → action S Status ObjectMetadata.t;
  sb_get_object : string → string → action S Status (ObjectMetadata.t * list Z);
  sb_put_object : string → string → list Z → option string →
    action S Status PutObjectResponse.t;
  sb_delete_object : string → string → action S Status unit;
  sb_restore_object : string → string → Z → RestoreTier.t → action S Status Z;
  sb_list_objects : string → option string → option string → option string → Z →
    action S Status ListObjectsPage.t;
}.

(** [MetadataBackedSchedulerBackend] *)
Definition MetadataBackedSchedulerBackend {W} `{MetadataClient W} `{CacheClient W}
    `{Sha256} (clock : nat → Timestamp.t) (has_cache : bool)
    : Phase1SchedulerBackend (Sched W) := {|
  sb_list_buckets := list_buckets;
  sb_create_bucket := create_bucket clock;
  sb_delete_bucket := delete_bucket;
  sb_head_bucket := head_bucket;
  sb_head_object := head_object;
  sb_get_object := get_object has_cache;
  sb_put_object := put_object clock has_cache;
  sb_delete_object := delete_object has_cache;
  sb_restore_object := restore_object clock;
  sb_list_objects := list_objects |}.

Section service.
Context {S : Type} `{Phase1SchedulerBackend S} `{Chrono}.

Definition handle_put_object (messages : stream PutObjectMeta.t)
    : action S Status PutObjectResponse.t :=
  '(meta, body) ← lift (collect_stream "empty put_object chunk" messages None []);
  meta ← lift (ok_or (invalid_argument "missing put_object metadata") meta);
  reject_if (meta.(PutObjectMeta.content_length) != Z.of_nat (length body))
    (invalid_argument "content_length does not match body size");;
  sb_put_object meta.(PutObjectMeta.bucket) meta.(PutObjectMeta.key) body
    meta.(PutObjectMeta.content_type).

Definition handle_get_object (request : ObjectRequest.t)
    : action S Status (stream HeadObjectResponse.t) :=
  '(object, data) ← sb_get_object request.(ObjectRequest.bucket) request.(ObjectRequest.key);
  mret [Ok (Some (Meta (build_get_object_meta object))); Ok (Some (Data data))].

Definition handle_head_object (request : ObjectRequest.t)
    : action S Status HeadObjectResponse.t :=
  object ← sb_head_object request.(ObjectRequest.bucket) request.(ObjectRequest.key);
  mret (build_head_object_response object).

Definition handle_delete_object (request : ObjectRequest.t) : action S Status unit :=
  sb_delete_object request.(ObjectRequest.bucket) request.(ObjectRequest.key).

Definition handle_restore_object (request : RestoreObjectRequest.t) : action S Status Z :=
  tier ← lift (ok_or (invalid_argument "invalid restore tier")
    (RestoreTier.try_from request.(RestoreObjectRequest.tier)));
  sb_restore_object request.(RestoreObjectRequest.bucket) request.(RestoreObjectRequest.key)
    request.(RestoreObjectRequest.days) tier.

Definition handle_list_objects (request : scheduler.ListObjectsRequest.t)
    : action S Status scheduler.ListObjectsResponse.t :=
  page ← sb_list_objects request.(ListObjectsRequest.bucket) request.(ListObjectsRequest.prefix)
    request.(ListObjectsRequest.marker) request.(ListObjectsRequest.delimiter)
    request.(ListObjectsRequest.max_keys);
  mret (scheduler.ListObjectsResponse.mk request.(ListObjectsRequest.bucket)
    request.(ListObjectsRequest.prefix) request.(ListObjectsRequest.marker)
    page.(ListObjectsPage.next_marker) request.(ListObjectsRequest.max_keys)
    page.(ListObjectsPage.is_truncated) (build_object_entry <$> page.(ListObjectsPage.objects))
    page.(ListObjectsPage.common_prefixes)).

Definition handle_list_buckets : action S Status (list BucketEntry.t) :=
  buckets ← sb_list_buckets;
  mret (build_bucket_entry <$> buckets).

(** [impl SchedulerService for SchedulerServiceImpl] *)
Definition SchedulerServiceImpl : SchedulerApi S := {|
  api_put_object := handle_put_object;
  api_get_object := handle_get_object;
  api_head_object := handle_head_object;
  api_delete_object := handle_delete_object;
  api_restore_object := handle_restore_object;
  api_list_objects := handle_list_objects;
  api_create_bucket := sb_create_bucket;
  api_delete_bucket := sb_delete_bucket;
  api_head_bucket := sb_head_bucket;
  api_list_buckets := handle_list_buckets |}.
End service.

(** ** Start-up ([lib.rs]) *)

Section startup.
Context {N Client : Type}.

(** [connect_metadata_with_retry], [connect_cache_with_retry] and
    [connect_tape_with_retry]: the attempts left, and the last error *)
Fixpoint connect_attempts (connect : action N string Client) (not_run : string) (attempts : nat)
    (last_error : option string) : action N string Client :=
  match attempts with
  | O => throw (default not_run last_error)
  | Datatypes.S attempts => λ n,
      match connect n with
      | (n, Ok client) => (n, Ok client)
      | (n, Err err) => connect_attempts connect not_run attempts (Some err) n
      end
  end.
Definition connect_with_retry (connect : action N string Client) (service : string)
    : action N string Client :=
  connect_attempts connect (service +:+ " connection retry loop did not run") 30 None.

(** [scheduler::run] up to the background loops: the clients of the metadata
    service, the cache and, unless both passes are disabled, the tape worker.
    Indexing the metadata addresses panics when there are none. *)
Definition scheduler_start (connect : string → string → action N string Client)
    (config : SchedulerConfig.t) : action N (fault string) (Client * Client * option Client) :=
  let raised {A} (m : action N string A) : action N (fault string) A :=
    λ n, let '(n, r) := m n in (n, map_err Raised r) in
  metadata_addr ← vec_get config.(SchedulerConfig.metadata_addrs) 0;
  metadata ← raised (connect_with_retry (connect "metadata" ("http://" +:+ metadata_addr)) "metadata");
  cache_addr ← lift (ok_or (Raised "scheduler requires at least one cache address")
    (head config.(SchedulerConfig.cache_addrs)));
  cache ← raised (connect_with_retry (connect "cache" ("http://" +:+ cache_addr)) "cache");
  tape ←
    (if config.(SchedulerConfig.archive).(ArchiveSchedulerConfig.enabled)
        || config.(SchedulerConfig.recall).(RecallSchedulerConfig.enabled) then
       tape_addr ← lift (ok_or (Raised "scheduler requires at least one tape address")
         (head config.(SchedulerConfig.tape_addrs)));
       tape ← raised (connect_with_retry (connect "tape" ("http://" +:+ tape_addr)) "tape");
       mret (Some tape)
     else mret None);
  mret (metadata, cache, tape).
End startup.
