(* ===== verification/Leases.v ===== *)
(** * Background agents and their permits

    [src/crates/scheduler/src/service.rs], [spawn_background_loops],
    [run_archive_agent], [run_recall_agent] and [acquire_tape_lease]: several
    agents of each kind run at once and wait for the semaphores of
    [SchedulerState], which [lib.rs] creates. An agent is where it is between
    two waits; what a pass does between them is in [Scheduler], and here may
    take any time and end in any way. No fairness of the semaphores is
    assumed. *)

From Stdlib Require Import ZArith Lia String.
From S2P Require Import Prelude Proto RustStr External Config SchedulerProto SchedulerClients Scheduler.

Local Open Scope string_scope.
Local Open Scope list_scope.
Local Open Scope stdpp_scope.

(** ** Permits *)

(** The semaphores and the set of active recall tasks; a lease is a semaphore
    with one permit, made when its tape is first asked for. *)
Record Permits := mkPermits {
  archive_slots : nat;
  recall_slots : nat;
  recall_task_slots : nat;
  tape_locks : gmap string nat;
  active_tasks : gset string;
}.
Definition set_archive_slots n p := mkPermits n (recall_slots p) (recall_task_slots p)
  (tape_locks p) (active_tasks p).
Definition set_recall_slots n p := mkPermits (archive_slots p) n (recall_task_slots p)
  (tape_locks p) (active_tasks p).
Definition set_recall_task_slots n p := mkPermits (archive_slots p) (recall_slots p) n
  (tape_locks p) (active_tasks p).
Definition set_tape_locks m p := mkPermits (archive_slots p) (recall_slots p)
  (recall_task_slots p) m (active_tasks p).
Definition set_active_tasks x p := mkPermits (archive_slots p) (recall_slots p)
  (recall_task_slots p) (tape_locks p) x.

(** [Semaphore::acquire_owned] goes on when there is a permit. *)
Definition acquire (permits : nat) : option nat :=
  match permits with O => None | S n => Some n end.

Definition free_leases (tape_id : string) (p : Permits) : nat := default 1 (tape_locks p !! tape_id).
Definition acquire_tape_lease (tape_id : string) (p : Permits) : option Permits :=
  n ← acquire (free_leases tape_id p);
  Some (set_tape_locks (<[tape_id := n]> (tape_locks p)) p).
Definition release_tape_lease (tape_id : string) (p : Permits) : Permits :=
  set_tape_locks (<[tape_id := S (free_leases tape_id p)]> (tape_locks p)) p.

(** ** Agents *)

(** Between two waits. An archive agent waits for its next turn, for the lease
    of its tape, or runs its batch; a recall agent waits for its next turn,
    lists the tasks, has tasks left to take, has a permit for one, waits for
    the lease of its tape, or processes it. *)
Inductive Agent :=
| ArchiveIdle
| ArchivePass
| ArchiveLeased (tape_id : string)
| RecallIdle
| RecallListing
| RecallPass (tasks : list RecallTask.t)
| RecallSlot (task : RecallTask.t) (tasks : list RecallTask.t)
| RecallWaiting (task : RecallTask.t) (tasks : list RecallTask.t)
| RecallLeased (task : RecallTask.t) (tasks : list RecallTask.t).

(** What the calls of a pass come to: it goes on, with the tasks it was told
    where it asked for them, or it ends with an error. *)
Inductive Outcome := GoOn | Listed (tasks : list RecallTask.t) | Failed.

Section agents.
Context (clients : bool) (config : SchedulerConfig.t).

(** [spawn_background_loops] *)
Definition workers (n : Z) : nat := Z.to_nat (Z.max n 1).
Definition spawn_background_loops : list Agent :=
  let archive := config.(SchedulerConfig.archive) in
  let recall := config.(SchedulerConfig.recall) in
  (if archive.(ArchiveSchedulerConfig.enabled)
   then replicate (workers archive.(ArchiveSchedulerConfig.max_workers)) ArchiveIdle else []) ++
  (if recall.(RecallSchedulerConfig.enabled)
   then replicate (workers recall.(RecallSchedulerConfig.max_workers)) RecallIdle else []).

(** The permits [run] in [lib.rs] starts with *)
Definition new_permits : Permits :=
  let recall := config.(SchedulerConfig.recall) in
  mkPermits (workers config.(SchedulerConfig.archive).(ArchiveSchedulerConfig.max_workers))
    (workers recall.(RecallSchedulerConfig.max_workers))
    (workers recall.(RecallSchedulerConfig.max_concurrent_restores)) ∅ ∅.

(** The tasks a recall pass takes, of those it is told are pending *)
Definition recall_batch (tasks : list RecallTask.t) : list RecallTask.t :=
  let restores := config.(SchedulerConfig.recall).(RecallSchedulerConfig.max_concurrent_restores) in
  take (Z.to_nat (Z.min (Z.max restores 1) restores))
    (sort_by recall_cmp (List.filter is_pending_recall_task tasks)).

(** What is given back when a task is done: it leaves the set of active tasks,
    and its lease and its permit are dropped; and when a pass ends *)
Definition finish_task (task : RecallTask.t) (p : Permits) : Permits :=
  let p := set_active_tasks (active_tasks p ∖ {[phase1_recall_task_key task]}) p in
  let p := release_tape_lease task.(RecallTask.tape_id) p in
  set_recall_task_slots (S (recall_task_slots p)) p.
Definition finish_archive (p : Permits) : Permits := set_archive_slots (S (archive_slots p)) p.
Definition finish_recall (p : Permits) : Permits := set_recall_slots (S (recall_slots p)) p.

(** The next step of an agent, if it does not have to wait *)
Definition agent_step (outcome : Outcome) (p : Permits) (a : Agent) : option (Permits * Agent) :=
  match a, outcome with
  | ArchiveIdle, GoOn => n ← acquire (archive_slots p); Some (set_archive_slots n p, ArchivePass)
  | ArchivePass, GoOn =>
      if clients then
        let tape_id := archive_lease_tape config in
        p ← acquire_tape_lease tape_id p; Some (p, ArchiveLeased tape_id)
      else Some (finish_archive p, ArchiveIdle)
  | ArchiveLeased tape_id, GoOn =>
      Some (finish_archive (release_tape_lease tape_id p), ArchiveIdle)
  | RecallIdle, GoOn => n ← acquire (recall_slots p); Some (set_recall_slots n p, RecallListing)
  | RecallListing, Listed tasks =>
      if clients then Some (p, RecallPass (recall_batch tasks)) else None
  | RecallListing, Failed => Some (finish_recall p, RecallIdle)
  | RecallPass [], GoOn => Some (finish_recall p, RecallIdle)
  | RecallPass (task :: tasks), GoOn =>
      n ← acquire (recall_task_slots p); Some (set_recall_task_slots n p, RecallSlot task tasks)
  | RecallSlot task tasks, GoOn =>
      let task_key := phase1_recall_task_key task in
      if decide (task_key ∈ active_tasks p)
      then Some (set_recall_task_slots (S (recall_task_slots p)) p, RecallPass tasks)
      else Some (set_active_tasks ({[task_key]} ∪ active_tasks p) p, RecallWaiting task tasks)
  | RecallWaiting task tasks, GoOn =>
      p ← acquire_tape_lease task.(RecallTask.tape_id) p; Some (p, RecallLeased task tasks)
  | RecallLeased task tasks, GoOn => Some (finish_task task p, RecallPass tasks)
  | RecallLeased task tasks, Failed => Some (finish_recall (finish_task task p), RecallIdle)
  | _, _ => None
  end.

(** The agents of one scheduler *)
Record Agents := mkAgents { permits : Permits; agents : list Agent }.
Definition start_agents : Agents := mkAgents new_permits spawn_background_loops.

(** An agent that goes on, and agents that go on one after the other *)
Definition agents_step (i : nat) (outcome : Outcome) (s : Agents) : option Agents :=
  a ← agents s !! i;
  '(p, a') ← agent_step outcome (permits s) a;
  Some (mkAgents p (<[i := a']> (agents s))).
Fixpoint agents_run (turns : list (nat * Outcome)) (s : Agents) : option Agents :=
  match turns with
  | [] => Some s
  | (i, outcome) :: turns => agents_step i outcome s ≫= agents_run turns
  end.

(** Any agent that can go on may go on. *)
Inductive step : Agents → Agents → Prop :=
| step_agent i outcome p p' l a a' :
    l !! i = Some a → agent_step outcome p a = Some (p', a') →
    step (mkAgents p l) (mkAgents p' (<[i := a']> l)).
Definition reachable (s : Agents) : Prop := rtc step start_agents s.

(** The steps of agents that are in a pass: no pass begins. *)
Definition idle (a : Agent) : bool :=
  match a with ArchiveIdle | RecallIdle => true | _ => false end.
Inductive pass_step : Agents → Agents → Prop :=
| pass_step_agent i outcome p p' l a a' :
    l !! i = Some a → idle a = false → agent_step outcome p a = Some (p', a') →
    pass_step (mkAgents p l) (mkAgents p' (<[i := a']> l)).

(** The tape an agent reads or writes *)
Definition tape_used (a : Agent) : option string :=
  match a with
  | ArchiveLeased _ => Some config.(SchedulerConfig.archive).(ArchiveSchedulerConfig.tape_id)
  | RecallLeased task _ => Some task.(RecallTask.tape_id)
  | _ => None
  end.

Lemma agents_run_reaches turns s s' : agents_run turns s = Some s' → rtc step s s'.
Proof using Type.
  revert s. induction turns as [|[i outcome] turns IH]; intros s; [by intros [= ->]|]. simpl.
  intros (s1 & Hs1 & Hrun)%bind_Some. apply (rtc_l _ _ s1); [|by apply IH]. revert Hs1.
  unfold agents_step. intros (a & Ha & ([p a'] & Hstep & [= <-])%bind_Some)%bind_Some.
  destruct s. by apply (step_agent i outcome _ _ _ a).
Qed.
End agents.

(** ** What is held and what is free *)

Definition archive_held (a : Agent) : nat :=
  match a with ArchivePass | ArchiveLeased _ => 1 | _ => 0 end.
Definition recall_held (a : Agent) : nat :=
  match a with
  | RecallListing | RecallPass _ | RecallSlot _ _ | RecallWaiting _ _ | RecallLeased _ _ => 1
  | _ => 0
  end.
Definition slot_held (a : Agent) : nat :=
  match a with RecallSlot _ _ | RecallWaiting _ _ | RecallLeased _ _ => 1 | _ => 0 end.
(** The tape an agent has the lease of, and the task it has put in the set *)
Definition lease_of (a : Agent) : option string :=
  match a with
  | ArchiveLeased tape_id => Some tape_id
  | RecallLeased task _ => Some task.(RecallTask.tape_id)
  | _ => None
  end.
Definition task_of (a : Agent) : option string :=
  match a with
  | RecallWaiting task _ | RecallLeased task _ => Some (phase1_recall_task_key task)
  | _ => None
  end.
Definition held (x : option string) (k : string) : nat := if decide (x = Some k) then 1 else 0.
Definition is_active (k : string) (p : Permits) : nat :=
  if decide (k ∈ active_tasks p) then 1 else 0.

Abbreviation total f l := (sum_list_with f l).
Lemma total_lookup {A} (f : A → nat) l i a : l !! i = Some a → (f a ≤ total f l)%nat.
Proof.
  revert i. induction l as [|b l IH]; intros [|i]; simpl; [done..| |].
  - intros [= ->]. lia.
  - intros Hi. specialize (IH i Hi). lia.
Qed.
Lemma total_two {A} (f : A → nat) l i j a b :
  i ≠ j → l !! i = Some a → l !! j = Some b → (f a + f b ≤ total f l)%nat.
Proof.
  revert i j. induction l as [|c l IH]; intros [|i] [|j] Hij; simpl; try done.
  - intros [= ->] Hj. pose proof (total_lookup f l j b Hj). lia.
  - intros Hi [= ->]. pose proof (total_lookup f l i a Hi). lia.
  - intros Hi Hj. specialize (IH i j ltac:(lia) Hi Hj). lia.
Qed.
Lemma total_zero {A} (f : A → nat) l : Forall (λ a, f a = 0) l → total f l = 0.
Proof. induction 1 as [|a l Ha _ IH]; simpl; lia. Qed.

Lemma acquire_Some n m : acquire n = Some m ↔ n = S m.
Proof. destruct n; simpl; naive_solver. Qed.

Lemma free_insert t n p k :
  free_leases k (set_tape_locks (<[t := n]> (tape_locks p)) p)
  = if decide (t = k) then n else free_leases k p.
Proof. unfold free_leases. simpl. rewrite lookup_insert. by case_decide. Qed.

Lemma held_None k : held None k = 0.
Proof. done. Qed.
Lemma held_Some t k : held (Some t) k = if decide (t = k) then 1 else 0.
Proof. unfold held. do 2 case_decide; naive_solver. Qed.

Lemma lease_acquired t p p' :
  acquire_tape_lease t p = Some p' →
  (∃ m, p' = set_tape_locks m p) ∧ ∀ k, free_leases k p' + held (Some t) k = free_leases k p.
Proof.
  unfold acquire_tape_lease. intros (n & Hn%acquire_Some & [= <-])%bind_Some.
  split; [by eexists|]. intros k. rewrite free_insert, held_Some. case_decide; subst; lia.
Qed.
Lemma lease_released t p k :
  free_leases k (release_tape_lease t p) = free_leases k p + held (Some t) k.
Proof. unfold release_tape_lease. rewrite free_insert, held_Some. case_decide; subst; lia. Qed.

(** A task that is not in the set is added, one that is in it is removed. *)
Lemma task_added t p k :
  t ∉ active_tasks p →
  is_active k (set_active_tasks ({[t]} ∪ active_tasks p) p) = is_active k p + held (Some t) k.
Proof.
  intros Ht. rewrite held_Some. unfold is_active. simpl. repeat case_decide; subst; set_solver.
Qed.
Lemma task_removed t p k :
  t ∈ active_tasks p →
  is_active k (set_active_tasks (active_tasks p ∖ {[t]}) p) + held (Some t) k = is_active k p.
Proof.
  intros Ht. rewrite held_Some. unfold is_active. simpl. repeat case_decide; subst; set_solver.
Qed.

Section balance.
Context (clients : bool) (config : SchedulerConfig.t).

(** A step moves permits between the agent and the semaphores. *)
Lemma step_balance outcome p p' a a' :
  agent_step clients config outcome p a = Some (p', a') →
  archive_slots p' + archive_held a' = archive_slots p + archive_held a ∧
  recall_slots p' + recall_held a' = recall_slots p + recall_held a ∧
  recall_task_slots p' + slot_held a' = recall_task_slots p + slot_held a ∧
  (∀ t, free_leases t p' + held (lease_of a') t = free_leases t p + held (lease_of a) t) ∧
  ((∀ k, task_of a = Some k → k ∈ active_tasks p) →
   ∀ k, is_active k p' + held (task_of a) k = is_active k p + held (task_of a') k).
Proof using Type.
  intros Hs.
  destruct a as [| |tape| | |[|task tasks]|task tasks|task tasks|task tasks], outcome;
    simplify_eq/=;
    repeat (case_match || case_decide || (apply bind_Some in Hs as (? & Hs' & Hs);
      first [apply acquire_Some in Hs'|apply lease_acquired in Hs' as [[? ->] Hlease]]));
    simplify_eq/=.
  all: split_and!; try done; try lia; intros; rewrite ?held_None, ?Nat.add_0_r; try done.
  all: try (by rewrite lease_released); try (by rewrite task_added).
  all: first [apply Hlease|exact (lease_released _ _ t)|by apply task_removed; eauto].
Qed.
End balance.

(** ** The permits of a scheduler are conserved *)

Section invariant.
Context (clients : bool) (config : SchedulerConfig.t).
Abbreviation start := (start_agents config).

Record conserved (s : Agents) : Prop := {
  conserved_archive : archive_slots (permits s) + total archive_held (agents s)
    = archive_slots (new_permits config);
  conserved_recall : recall_slots (permits s) + total recall_held (agents s)
    = recall_slots (new_permits config);
  conserved_slots : recall_task_slots (permits s) + total slot_held (agents s)
    = recall_task_slots (new_permits config);
  conserved_leases t : free_leases t (permits s) + total (λ a, held (lease_of a) t) (agents s) = 1;
  conserved_tasks k : total (λ a, held (task_of a) k) (agents s) = is_active k (permits s);
}.

Lemma start_idle a : a ∈ agents start → a = ArchiveIdle ∨ a = RecallIdle.
Proof using Type.
  simpl. unfold spawn_background_loops. rewrite elem_of_app.
  intros [Hin|Hin]; case_match; try (by apply elem_of_nil in Hin);
    apply elem_of_replicate_inv in Hin; auto.
Qed.
Lemma start_total f : f ArchiveIdle = 0 → f RecallIdle = 0 → total f (agents start) = 0.
Proof using Type.
  intros Ha Hr. apply total_zero, Forall_forall. intros a Hin.
  by destruct (start_idle a Hin) as [->| ->].
Qed.
Lemma start_conserved : conserved start.
Proof using Type.
  split; intros; rewrite start_total by done; simpl; rewrite ?Nat.add_0_r; done.
Qed.

Lemma step_conserved s s' : step clients config s s' → conserved s → conserved s'.
Proof using Type.
  intros [i outcome p p' l a a' Ha Hstep] [H1 H2 H3 H4 H5]. simpl in *.
  apply step_balance in Hstep as (B1 & B2 & B3 & B4 & B5).
  assert (∀ k, task_of a = Some k → k ∈ active_tasks p) as Hact.
  { intros k Hk. pose proof (total_lookup (λ a, held (task_of a) k) l i a Ha) as Hl.
    simpl in Hl. rewrite H5, Hk, held_Some, decide_True in Hl by done.
    unfold is_active in Hl. case_decide; [done|lia]. }
  specialize (B5 Hact).
  pose proof (λ f, sum_insert f l i a a' Ha) as Htotal.
  split; simpl; [| | |intros t; specialize (B4 t); specialize (H4 t)
    |intros k; specialize (B5 k); specialize (H5 k)].
  - specialize (Htotal archive_held). lia.
  - specialize (Htotal recall_held). lia.
  - specialize (Htotal slot_held). lia.
  - specialize (Htotal (λ a, held (lease_of a) t)). simpl in *. lia.
  - specialize (Htotal (λ a, held (task_of a) k)). simpl in *. lia.
Qed.

Lemma reachable_conserved s : reachable clients config s → conserved s.
Proof using Type.
  intros Hs. pose proof start_conserved as Hc. revert Hc.
  induction Hs as [|s1 s2 s3 Hstep _ IH]; [done|]. intros Hc.
  by apply IH, (step_conserved s1).
Qed.

(** *** How much is left of the passes *)

Definition limit : nat :=
  workers config.(SchedulerConfig.recall).(RecallSchedulerConfig.max_concurrent_restores).
Definition weight (a : Agent) : nat :=
  match a with
  | ArchiveIdle | RecallIdle => 0
  | ArchivePass => 2
  | ArchiveLeased _ => 1
  | RecallListing => 4 * limit + 2
  | RecallPass tasks => 4 * length tasks + 1
  | RecallSlot _ tasks => 4 * length tasks + 4
  | RecallWaiting _ tasks => 4 * length tasks + 3
  | RecallLeased _ tasks => 4 * length tasks + 2
  end.

Lemma recall_batch_limit tasks : (length (recall_batch config tasks) ≤ limit)%nat.
Proof using Type. unfold recall_batch, limit, workers. rewrite length_take. lia. Qed.

Lemma weight_idle a : weight a = 0 ↔ idle a = true.
Proof using Type. destruct a; simpl; split; intros; try done; lia. Qed.

Lemma step_weight outcome p p' a a' :
  idle a = false → agent_step clients config outcome p a = Some (p', a') →
  (weight a' < weight a)%nat.
Proof using Type.
  intros Hidle Hs.
  destruct a as [| |tape| | |[|task tasks]|task tasks|task tasks|task tasks], outcome;
    simplify_eq/=;
    repeat (case_match || case_decide || (apply bind_Some in Hs as (? & Hs' & Hs)));
    simplify_eq/=; try lia.
  match goal with |- context [recall_batch _ ?l] => pose proof (recall_batch_limit l) end. lia.
Qed.

Lemma pass_step_weight s s' :
  pass_step clients config s s' →
  (total weight (agents s') < total weight (agents s))%nat.
Proof using Type.
  intros [i outcome p p' l a a' Ha Hidle Hs%step_weight]; [|done]. simpl.
  pose proof (sum_insert weight l i a a' Ha). lia.
Qed.
Lemma pass_step_step s s' : pass_step clients config s s' → step clients config s s'.
Proof using Type. intros []. by econstructor. Qed.

(** *** Someone can always go on *)

Lemma total_positive {A} (f : A → nat) l :
  (0 < total f l)%nat → ∃ i a, l !! i = Some a ∧ (0 < f a)%nat.
Proof using Type.
  induction l as [|a l IH]; simpl; [lia|]. intros H.
  destruct (decide (0 < f a)%nat) as [Ha|]; [by exists 0, a|].
  destruct IH as (i & b & Hi & Hb); [lia|]. by exists (S i), b.
Qed.
Lemma agent_goes_on s i a outcome :
  agents s !! i = Some a → idle a = false →
  is_Some (agent_step clients config outcome (permits s) a) →
  ∃ s', pass_step clients config s s'.
Proof using Type.
  destruct s as [p l]. intros Ha Hidle [[p' a'] Hs]. eexists. by econstructor.
Qed.

Definition lease_held (a : Agent) : nat := match lease_of a with Some _ => 1 | None => 0 end.
Lemma held_lease a t : (held (lease_of a) t ≤ lease_held a)%nat.
Proof using Type. unfold held, lease_held. case_decide as E; [by rewrite E|lia]. Qed.

Lemma passes_go_on s :
  conserved s → (0 < total weight (agents s))%nat → ∃ s', pass_step clients config s s'.
Proof using Type.
  intros [_ _ Hslots Hleases _] (i & a & Ha & Hw)%total_positive.
  (* an agent with a lease can finish *)
  destruct (decide (0 < total lease_held (agents s))%nat) as [Hl|Hl].
  { apply total_positive in Hl as (j & b & Hb & Hl). apply (agent_goes_on s j b GoOn Hb).
    all: unfold lease_held in Hl; destruct b; simpl in *; first [lia|done|by eexists]. }
  assert (∀ t, free_leases t (permits s) = 1) as Hfree.
  { intros t. specialize (Hleases t).
    assert (∀ l, total (λ a, held (lease_of a) t) l ≤ total lease_held l)%nat as Hle.
    { induction l as [|b l IH]; simpl; [done|]. pose proof (held_lease b t). lia. }
    specialize (Hle (agents s)). lia. }
  (* all leases are free: an agent with a permit for a task can go on *)
  destruct (decide (0 < total slot_held (agents s))%nat) as [Hl'|Hl'].
  { apply total_positive in Hl' as (j & b & Hb & Hl'). apply (agent_goes_on s j b GoOn Hb).
    - destruct b; simpl in *; first [lia|done].
    - destruct b; simpl in *; try lia; [case_decide; by eexists| |by eexists].
      unfold acquire_tape_lease. rewrite Hfree. by eexists. }
  (* and otherwise any agent *)
  assert (∃ n, recall_task_slots (permits s) = S n) as [n Hn].
  { exists (pred (recall_task_slots (permits s))). unfold new_permits, workers in Hslots.
    simpl in Hslots. lia. }
  destruct a as [| |tape| | |[|task tasks]|task tasks|task tasks|task tasks];
    simpl in Hw; try lia.
  - apply (agent_goes_on s i _ GoOn Ha); [done|]. simpl. destruct clients; [|by eexists].
    unfold acquire_tape_lease. rewrite Hfree. by eexists.
  - apply (agent_goes_on s i _ GoOn Ha); [done|by eexists].
  - apply (agent_goes_on s i _ Failed Ha); [done|by eexists].
  - apply (agent_goes_on s i _ GoOn Ha); [done|by eexists].
  - apply (agent_goes_on s i _ GoOn Ha); [done|]. simpl. rewrite Hn. by eexists.
  - pose proof (total_lookup slot_held _ _ _ Ha). simpl in *. lia.
  - pose proof (total_lookup slot_held _ _ _ Ha). simpl in *. lia.
  - pose proof (total_lookup slot_held _ _ _ Ha). simpl in *. lia.
Qed.

Lemma all_idle s :
  conserved s → total weight (agents s) = 0 →
  Forall (λ a, idle a = true) (agents s) ∧
  archive_slots (permits s) = archive_slots (new_permits config) ∧
  recall_slots (permits s) = recall_slots (new_permits config) ∧
  recall_task_slots (permits s) = recall_task_slots (new_permits config) ∧
  (∀ t, free_leases t (permits s) = 1) ∧ active_tasks (permits s) = ∅.
Proof using Type.
  intros [H1 H2 H3 H4 H5] Hw.
  assert (∀ a, a ∈ agents s → idle a = true) as Hidle.
  { intros a [i Ha]%list_elem_of_lookup. apply weight_idle.
    pose proof (total_lookup weight _ _ _ Ha). lia. }
  assert (∀ f, f ArchiveIdle = 0 → f RecallIdle = 0 → total f (agents s) = 0) as Hzero.
  { intros f Ha Hr. apply total_zero, Forall_forall. intros a Hin%Hidle. by destruct a. }
  split; [by apply Forall_forall|].
  rewrite Hzero in H1, H2, H3 by done. split_and!; [lia..| |].
  - intros t. specialize (H4 t). rewrite Hzero in H4 by done. lia.
  - apply elem_of_equiv_empty_L. intros k Hk. specialize (H5 k). rewrite Hzero in H5 by done.
    unfold is_active in H5. by rewrite decide_True in H5.
Qed.

Lemma pass_steps_conserved s s' :
  rtc (pass_step clients config) s s' → conserved s → conserved s'.
Proof using Type.
  induction 1 as [|s1 s2 s3 Hstep _ IH]; [done|]. intros Hc.
  by eapply IH, step_conserved, Hc; apply pass_step_step.
Qed.

(** The agents of a kind are the ones that were spawned. *)
Definition is_archive (a : Agent) : nat :=
  match a with ArchiveIdle | ArchivePass | ArchiveLeased _ => 1 | _ => 0 end.
Definition is_recall (a : Agent) : nat := 1 - is_archive a.

Lemma step_kind outcome p p' a a' :
  agent_step clients config outcome p a = Some (p', a') → is_archive a' = is_archive a.
Proof using Type.
  intros Hs.
  destruct a as [| |tape| | |[|task tasks]|task tasks|task tasks|task tasks], outcome;
    simplify_eq/=;
    repeat (case_match || case_decide || (apply bind_Some in Hs as (? & Hs' & Hs)));
    by simplify_eq/=.
Qed.
Lemma reachable_kinds s f :
  (∀ a b, is_archive a = is_archive b → f a = f b) →
  reachable clients config s → total f (agents s) = total f (agents start).
Proof using Type.
  intros Hf Hs. revert s Hs. apply rtc_ind_r; [done|]. intros s1 s2 _ Hstep <-.
  destruct Hstep as [i outcome p p' l a a' Ha Hs%step_kind%Hf]. simpl.
  pose proof (sum_insert f l i a a' Ha). lia.
Qed.

(** An archive agent has the lease of the tape of the configuration. *)
Lemma step_leased outcome p p' a a' :
  agent_step clients config outcome p a = Some (p', a') →
  match a' with ArchiveLeased tape => tape = archive_lease_tape config | _ => True end.
Proof using Type.
  intros Hs.
  destruct a as [| |tape| | |[|task tasks]|task tasks|task tasks|task tasks], outcome;
    simplify_eq/=;
    repeat (case_match || case_decide || (apply bind_Some in Hs as (? & Hs' & Hs)));
    by simplify_eq/=.
Qed.
Lemma leased_tape s a :
  reachable clients config s → a ∈ agents s →
  match a with ArchiveLeased tape => tape = archive_lease_tape config | _ => True end.
Proof using Type.
  intros Hs. revert s Hs a. apply (rtc_ind_r (λ s, ∀ a, a ∈ agents s → _)).
  { intros a Ha. by destruct (start_idle a Ha) as [->| ->]. }
  intros s1 s2 _ [i outcome p p' l a a' Ha Hs%step_leased] IH b.
  simpl in *. intros [j Hj]%list_elem_of_lookup. apply list_lookup_insert_Some in Hj
    as [(-> & -> & _)|[_ Hj]]; [done|]. by eapply IH, list_elem_of_lookup_2.
Qed.

Lemma total_app {A} (f : A → nat) l k : total f (l ++ k) = total f l + total f k.
Proof using Type. induction l as [|a l IH]; simpl; lia. Qed.
Lemma total_replicate {A} (f : A → nat) n a : total f (replicate n a) = n * f a.
Proof using Type. induction n as [|n IH]; simpl; [done|]. by rewrite IH. Qed.

Lemma start_kinds :
  (total is_archive (agents start) ≤ archive_slots (new_permits config))%nat ∧
  (total is_recall (agents start) ≤ recall_slots (new_permits config))%nat.
Proof using Type.
  simpl. unfold spawn_background_loops. rewrite !total_app.
  do 2 case_match; rewrite ?total_replicate; unfold is_recall; simpl; lia.
Qed.

(** An idle agent leaves its slot to itself. *)
Lemma idle_has_room (f g : Agent → nat) l i a :
  (∀ b, f b ≤ g b)%nat → l !! i = Some a → f a = 0 → g a = 1 → (total f l < total g l)%nat.
Proof using Type.
  intros Hfg. revert i. induction l as [|b l IH]; intros [|i]; simpl; [done..| |].
  - intros [= ->] Hf Hg. assert (total f l ≤ total g l)%nat; [|lia].
    clear -Hfg. induction l as [|c l IH]; simpl; [done|]. specialize (Hfg c). lia.
  - intros Hi Hf Hg. specialize (IH i Hi Hf Hg). specialize (Hfg b). lia.
Qed.
End invariant.

(** ** Theorems *)

(** C16: Two agents of a scheduler never use the same tape at the same time and
    never work at the same recall, in any interleaving, provided the archive
    pass leases the tape it writes. *)
Theorem agents_exclude_each_other (clients : bool) (config : SchedulerConfig.t) (s : Agents)
    (i j : nat) (a b : Agent) :
  archive_lease_tape config = config.(SchedulerConfig.archive).(ArchiveSchedulerConfig.tape_id) →
  reachable clients config s → i ≠ j → agents s !! i = Some a → agents s !! j = Some b →
  (∀ tape, tape_used config a = Some tape → tape_used config b ≠ Some tape) ∧
  (∀ key, task_of a = Some key → task_of b ≠ Some key).
Proof.
  intros Htape Hs Hij Ha Hb. pose proof (reachable_conserved _ _ _ Hs) as [_ _ _ Hl Hk].
  split.
  - intros tape Hta Htb.
    pose proof (total_two (λ a, held (lease_of a) tape) _ _ _ _ _ Hij Ha Hb) as H2. simpl in H2.
    assert (∀ c, c ∈ agents s → tape_used config c = Some tape → lease_of c = Some tape) as Hlease.
    { intros c Hc Hused. pose proof (leased_tape clients config s c Hs Hc) as Harchive.
      destruct c; try done; simpl in *. congruence. }
    rewrite (Hlease a), (Hlease b), held_Some, decide_True in H2
      by (done || by eapply list_elem_of_lookup_2).
    specialize (Hl tape). lia.
  - intros key Hka Hkb.
    pose proof (total_two (λ a, held (task_of a) key) _ _ _ _ _ Hij Ha Hb) as H2. simpl in H2.
    rewrite Hka, Hkb, held_Some, decide_True in H2 by done. specialize (Hk key).
    unfold is_active in Hk. case_decide; lia.
Qed.

(** C17: The agents never wait for each other in a circle: the passes that have
    begun come to an end, in a bounded number of steps and in whatever order
    the semaphores serve those who wait, and then every permit is back and no
    task is marked as active. *)
Theorem passes_come_to_an_end (clients : bool) (config : SchedulerConfig.t) (s : Agents) :
  reachable clients config s →
  (∀ n s', nsteps (pass_step clients config) n s s' →
     (n ≤ total (weight config) (agents s))%nat) ∧
  ∀ s', rtc (pass_step clients config) s s' → (∀ s'', ¬ pass_step clients config s' s'') →
    Forall (λ a, idle a = true) (agents s') ∧
    archive_slots (permits s') = archive_slots (new_permits config) ∧
    recall_slots (permits s') = recall_slots (new_permits config) ∧
    recall_task_slots (permits s') = recall_task_slots (new_permits config) ∧
    (∀ t, free_leases t (permits s') = 1) ∧ active_tasks (permits s') = ∅.
Proof.
  intros Hs. split.
  - intros n s' Hn. clear Hs. induction Hn as [|n s1 s2 s3 Hstep _ IH]; [lia|].
    apply pass_step_weight in Hstep. lia.
  - intros s' Hrun Hstuck. apply reachable_conserved in Hs.
    pose proof (pass_steps_conserved _ _ _ _ Hrun Hs) as Hc. apply all_idle; [done|].
    destruct (decide (0 < total (weight config) (agents s'))%nat) as [Hw|]; [|lia].
    destruct (passes_go_on clients config s' Hc Hw) as [s'' Hstep]. by apply Hstuck in Hstep.
Qed.

(** No agent ever waits for its slot: there are as many as agents. *)
Lemma slots_never_wait (clients : bool) (config : SchedulerConfig.t) (s : Agents) (i : nat) a :
  reachable clients config s → agents s !! i = Some a → idle a = true →
  is_Some (agent_step clients config GoOn (permits s) a).
Proof.
  intros Hs Ha Hidle. pose proof (reachable_conserved _ _ _ Hs) as [H1 H2 _ _ _].
  destruct (start_kinds config) as [Hka Hkr].
  assert (∀ x y, is_archive x = is_archive y → is_recall x = is_recall y) as Hr
    by (unfold is_recall; by intros ?? ->).
  rewrite <-(reachable_kinds clients config s is_archive) in Hka by done.
  rewrite <-(reachable_kinds clients config s is_recall) in Hkr by done.
  destruct a; try done; simpl.
  - assert (∀ x, archive_held x ≤ is_archive x)%nat as Hle by (intros []; simpl; lia).
    pose proof (idle_has_room _ _ _ _ _ Hle Ha eq_refl eq_refl).
    destruct (archive_slots (permits s)); [lia|by eexists].
  - assert (∀ x, recall_held x ≤ is_recall x)%nat as Hle
      by (unfold is_recall; intros []; simpl; lia).
    pose proof (idle_has_room _ _ _ _ _ Hle Ha eq_refl eq_refl).
    destruct (recall_slots (permits s)); [lia|by eexists].
Qed.

(** Three agents: one archives, two recall what is on two other tapes. *)
Module SampleAgents.
Definition config : SchedulerConfig.t :=
  let d := SchedulerConfig.default_config in
  let r := d.(SchedulerConfig.recall) in
  SchedulerConfig.mk d.(SchedulerConfig.node_id) d.(SchedulerConfig.listen)
    d.(SchedulerConfig.metadata_addrs) d.(SchedulerConfig.cache_addrs)
    d.(SchedulerConfig.tape_addrs) d.(SchedulerConfig.archive)
    (RecallSchedulerConfig.mk true r.(RecallSchedulerConfig.scan_interval_secs)
      r.(RecallSchedulerConfig.max_concurrent_restores) 2
      r.(RecallSchedulerConfig.merge_window_secs) r.(RecallSchedulerConfig.restore_timeout_secs)
      r.(RecallSchedulerConfig.read_buffer_mb) r.(RecallSchedulerConfig.drive_id)).
Definition task (id tape_id : string) : RecallTask.t :=
  RecallTask.mk id "docs" id None "b1" tape_id [] 0 5 "sum" 2 1 None 1 None 0 None None None None.
Definition listed : Outcome := Listed [task "r1" "TAPE0002"; task "r2" "TAPE0003"].
(** The second recall agent finds the first task taken. *)
Definition turns : list (nat * Outcome) :=
  [(0, GoOn); (0, GoOn); (1, GoOn); (1, listed); (1, GoOn); (1, GoOn); (1, GoOn);
   (2, GoOn); (2, listed); (2, GoOn); (2, GoOn); (2, GoOn); (2, GoOn); (2, GoOn)].
Definition busy : Agents := default (start_agents config) (agents_run true config turns (start_agents config)).
Lemma busy_reachable : reachable true config busy.
Proof. apply (agents_run_reaches true config turns). vm_compute. reflexivity. Qed.
End SampleAgents.

Lemma agents_exclude_each_other_witness :
  let s := SampleAgents.busy in
  tape_used SampleAgents.config <$> agents s !! 1 = Some (Some "TAPE0002") ∧
  tape_used SampleAgents.config <$> agents s !! 2 = Some (Some "TAPE0003") ∧
  ∀ tape, Some "TAPE0002" = Some tape → Some "TAPE0003" ≠ Some tape.
Proof.
  cbv zeta. split; [vm_compute; reflexivity|]. split; [vm_compute; reflexivity|].
  apply (agents_exclude_each_other true SampleAgents.config SampleAgents.busy 1 2
    (RecallLeased (SampleAgents.task "r1" "TAPE0002") [SampleAgents.task "r2" "TAPE0003"])
    (RecallLeased (SampleAgents.task "r2" "TAPE0003") [])).
  - reflexivity.
  - apply SampleAgents.busy_reachable.
  - discriminate.
  - vm_compute. reflexivity.
  - vm_compute. reflexivity.
Defined.

Lemma passes_come_to_an_end_witness :
  let s := SampleAgents.busy in
  total (weight SampleAgents.config) (agents s) = 9 ∧
  ∀ n s', nsteps (pass_step true SampleAgents.config) n s s' → (n ≤ 9)%nat.
Proof.
  cbv zeta. split; [vm_compute; reflexivity|].
  apply (proj1 (passes_come_to_an_end true SampleAgents.config SampleAgents.busy
    SampleAgents.busy_reachable)).
Defined.

(** Leases are of tapes: both recall agents of the sample read at the same time,
    from different tapes, but all through the one configured drive. *)
Example drive_is_not_leased :
  (λ a, tape_used SampleAgents.config a) <$> agents SampleAgents.busy
  = [Some "TAPE0001"; Some "TAPE0002"; Some "TAPE0003"].
Proof. vm_compute. reflexivity. Qed.
