(* ===== verification/Node.v ===== *)
(** * The single-node launcher

    [src/crates/node/src/main.rs]: where the configuration of a node comes
    from, and the configurations of the five services it runs in one process.
    Reading a configuration file is a parameter. *)

From Stdlib Require Import ZArith String.
From S2P Require Import Prelude Proto RustStr MetadataService Cluster Vtl TapeService F64 CacheBackend Cache.
From S2P Require Import Config Workers SchedulerProto External Gateway SchedulerClients Scheduler.

Local Open Scope string_scope.
Local Open Scope list_scope.
Local Open Scope stdpp_scope.

Definition METADATA_ADDR : string := "127.0.0.1:21001".
Definition SCHEDULER_ADDR : string := "127.0.0.1:22001".
Definition CACHE_ADDR : string := "127.0.0.1:23001".
Definition TAPE_ADDR : string := "127.0.0.1:24001".
Definition GATEWAY_ADDR : string := "127.0.0.1:9000".

(** ** The configurations of the services *)

Record SingleNodeConfigs := mkConfigs {
  node_metadata : MetadataConfig.t;
  node_cache : CacheConfig.t;
  node_tape : option TapeConfig.t;
  node_scheduler : SchedulerConfig.t;
  node_gateway : GatewayConfig.t;
}.

Definition node_archive (tape_enabled : bool) : ArchiveSchedulerConfig.t :=
  let d := SchedulerConfig.default_config.(SchedulerConfig.archive) in
  ArchiveSchedulerConfig.mk
    (if tape_enabled then d.(ArchiveSchedulerConfig.enabled) else false) 2 128
    d.(ArchiveSchedulerConfig.max_workers) d.(ArchiveSchedulerConfig.drive_id)
    d.(ArchiveSchedulerConfig.tape_id) d.(ArchiveSchedulerConfig.tape_set)
    d.(ArchiveSchedulerConfig.min_archive_size_mb) d.(ArchiveSchedulerConfig.max_archive_size_mb)
    d.(ArchiveSchedulerConfig.target_throughput_mbps)
    d.(ArchiveSchedulerConfig.aggregation_window_secs)
    d.(ArchiveSchedulerConfig.write_buffer_mb) d.(ArchiveSchedulerConfig.block_size).
Definition node_recall (tape_enabled : bool) : RecallSchedulerConfig.t :=
  let d := SchedulerConfig.default_config.(SchedulerConfig.recall) in
  RecallSchedulerConfig.mk
    (if tape_enabled then d.(RecallSchedulerConfig.enabled) else false) 2 4
    d.(RecallSchedulerConfig.max_workers) d.(RecallSchedulerConfig.merge_window_secs)
    d.(RecallSchedulerConfig.restore_timeout_secs) d.(RecallSchedulerConfig.read_buffer_mb)
    d.(RecallSchedulerConfig.drive_id).

Definition single_node_configs (data_dir : string) (tape_enabled : bool) : SingleNodeConfigs :=
  let m := MetadataConfig.default_config in
  let c := CacheConfig.default_config in
  let t := TapeConfig.default_config in
  let s := SchedulerConfig.default_config in
  mkConfigs
    (MetadataConfig.mk m.(MetadataConfig.node_id) METADATA_ADDR ("1:" +:+ METADATA_ADDR)
      (path_join data_dir "metadata") m.(MetadataConfig.consensus_mode)
      m.(MetadataConfig.raft_state_path) m.(MetadataConfig.rocksdb))
    (CacheConfig.mk CACHE_ADDR [METADATA_ADDR] (HddConfig (path_join data_dir "cache") 100)
      c.(CacheConfig.default_ttl_secs) c.(CacheConfig.eviction_policy)
      c.(CacheConfig.eviction_batch_size) c.(CacheConfig.eviction_low_watermark)
      c.(CacheConfig.staging_capacity_ratio) c.(CacheConfig.restored_capacity_ratio))
    (if tape_enabled then
       Some (TapeConfig.mk TAPE_ADDR [METADATA_ADDR] t.(TapeConfig.sdk_backend)
         t.(TapeConfig.scsi) t.(TapeConfig.simulator) t.(TapeConfig.library_device)
         t.(TapeConfig.supported_formats) t.(TapeConfig.tape_hold_secs)
         t.(TapeConfig.drive_acquire_timeout_secs))
     else None)
    (SchedulerConfig.mk s.(SchedulerConfig.node_id) SCHEDULER_ADDR [METADATA_ADDR] [CACHE_ADDR]
      (if tape_enabled then [TAPE_ADDR] else [])
      (node_archive tape_enabled) (node_recall tape_enabled))
    (GatewayConfig.mk GATEWAY_ADDR [SCHEDULER_ADDR]).

(** ** The configuration of the node *)

Module NodeRuntimeConfig.
Record t := mk { data_dir : string; tape_enabled : bool }.
End NodeRuntimeConfig.
Definition default_data_dir : string := "data/single-node".
Definition default_tape_enabled : bool := true.
Definition default_runtime : NodeRuntimeConfig.t :=
  NodeRuntimeConfig.mk default_data_dir default_tape_enabled.

Section runtime.
(** The arguments of the process, the first of which is its name, and its
    environment variables that are Unicode; the [config] crate reads a file,
    whose missing fields serde fills in. *)
Context (process_args : list string) (env_var : string → option string).
Context (read_config : string → result string NodeRuntimeConfig.t).

Fixpoint config_arg (args : list string) : result string (option string) :=
  match args with
  | [] => Ok None
  | arg :: args =>
      if arg == "--config" then
        Some <$> ok_or "--config requires a path" (head args)
      else match strip_prefix "--config=" arg with
           | Some path => Ok (Some path)
           | None => config_arg args
           end
  end.
Definition config_path : result string (option string) :=
  path ← config_arg (tail process_args);
  Ok (match path with Some path => Some path | None => env_var "COLDSTORE_CONFIG" end).

Definition no_tape_override : bool :=
  existsb (λ arg, arg == "--no-tape") process_args
  || match env_var "COLDSTORE_NO_TAPE" with
     | Some value => existsb (λ v, value == v) ["1"; "true"; "TRUE"; "yes"; "YES"; "on"; "ON"]
     | None => false
     end.

Definition load_runtime_config : result string NodeRuntimeConfig.t :=
  path ← config_path;
  runtime ← match path with
            | Some path => read_config path
            | None => Ok default_runtime
            end;
  let data_dir := default runtime.(NodeRuntimeConfig.data_dir) (env_var "COLDSTORE_DATA_DIR") in
  Ok (NodeRuntimeConfig.mk data_dir
    (if no_tape_override then false else runtime.(NodeRuntimeConfig.tape_enabled))).
End runtime.

(** ** Arguments *)

(** The first [--config] of the arguments decides, in either form; without one
    the environment does. *)
Lemma config_arg_first args path :
  config_arg args = Ok (Some path) →
  ∃ before after, config_arg before = Ok None ∧
    (args = before ++ "--config" :: path :: after ∨
     ∃ arg, strip_prefix "--config=" arg = Some path ∧ args = before ++ arg :: after).
Proof.
  induction args as [|arg args IH]; cbn [config_arg]; [done|]. case_bool_decide as Ha.
  - subst arg. destruct args as [|p args]; [done|]. intros [= ->]. exists [], args. by split; [|left].
  - destruct (strip_prefix _ arg) as [p|] eqn:Hs; [intros [= ->]|intros Hargs].
    + exists [], args. split; [done|]. right. by exists arg.
    + destruct (IH Hargs) as (before & after & Hb & Hor). exists (arg :: before), after. split.
      { cbn [config_arg]. by rewrite bool_decide_eq_false_2, Hs. }
      destruct Hor as [->|(a & ? & ->)]; [by left|]. right. by exists a.
Qed.
