(* ===== verification/SchedulerTraces.v ===== *)
(** * What the scheduler asks of the other services, and when

    The passes of the scheduler over any metadata service, cache and tape
    worker, failing ones included: the calls that matter are recorded, and
    every call that reads the tape or makes data unreachable or reachable is
    shown to come after the calls that justify it. *)

From Stdlib Require Import ZArith String.
From S2P Require Import Prelude Hoare Proto RustStr External CacheBackend Cache TapeService.
From S2P Require Import SchedulerProto Config SchedulerClients Scheduler.

Local Open Scope string_scope.
Local Open Scope list_scope.
Local Open Scope stdpp_scope.

(** ** Recorded calls *)

Inductive Call :=
| CHead (bucket key : string) (r : result Status ObjectMetadata.t)
| CPutObject (object : ObjectMetadata.t) (r : result Status unit)
| CComplete (request : CompleteArchiveObjectRequest.t) (r : result Status unit)
| CUpdateRecall (task : RecallTask.t) (r : result Status unit)
| CUpdateRestore (request : UpdateRestoreStatusRequest.t) (r : result Status unit)
| CPutStaging (messages : stream PutStagingMeta.t) (r : result Status string)
| CGetStaging (key : CacheKey.t) (r : result Status (stream StagingObjectMeta.t))
| CDeleteStaging (key : CacheKey.t) (r : result Status unit)
| CPutRestored (messages : stream PutRestoredMeta.t) (r : result Status unit)
| CAcquire (preferred : option string) (r : result Status AcquireDriveResponse.t)
| CLoadTape (tape_id drive_id : string) (r : result Status unit)
| CWriteBundle (messages : list (result Status (option WritePayload)))
    (r : result Status WriteBundleResponse.t)
| CReadBundle (drive_id : string) (location : option Location) (length_ : Z)
    (r : result Status (list (result Status (option ReadPayload)))).

Record Traced (W : Type) := mkTraced { inner : W; calls : list Call }.
Arguments mkTraced {W}.
Arguments inner {W}.
Arguments calls {W}.

Section traced.
Context {W : Type} `{MetadataClient W} `{CacheClient W} `{TapeClient W}.

Definition quiet {A} (m : action W Status A) : action (Traced W) Status A := λ t,
  let '(w, r) := m (inner t) in (mkTraced w (calls t), r).
Definition recorded {A} (f : result Status A → Call) (m : action W Status A)
    : action (Traced W) Status A := λ t,
  let '(w, r) := m (inner t) in (mkTraced w (calls t ++ [f r]), r).

#[export] Instance traced_metadata : MetadataClient (Traced W) := {|
  md_put_object object := recorded (CPutObject object) (md_put_object object);
  md_get_object bucket key := quiet (md_get_object bucket key);
  md_head_object bucket key := recorded (CHead bucket key) (md_head_object bucket key);
  md_delete_object bucket key := quiet (md_delete_object bucket key);
  md_list_objects bucket prefix marker max_keys :=
    quiet (md_list_objects bucket prefix marker max_keys);
  md_complete_archive_object request :=
    recorded (CComplete request) (md_complete_archive_object request);
  md_update_restore_status request :=
    recorded (CUpdateRestore request) (md_update_restore_status request);
  md_put_archive_task task := quiet (md_put_archive_task task);
  md_get_archive_task id := quiet (md_get_archive_task id);
  md_update_archive_task task := quiet (md_update_archive_task task);
  md_put_recall_task task := quiet (md_put_recall_task task);
  md_get_recall_task id := quiet (md_get_recall_task id);
  md_update_recall_task task := recorded (CUpdateRecall task) (md_update_recall_task task);
  md_list_pending_recall_tasks := quiet md_list_pending_recall_tasks;
  md_create_bucket bucket := quiet (md_create_bucket bucket);
  md_delete_bucket bucket := quiet (md_delete_bucket bucket);
  md_get_bucket bucket := quiet (md_get_bucket bucket);
  md_list_buckets := quiet md_list_buckets |}.

#[export] Instance traced_cache : CacheClient (Traced W) := {|
  ca_put_staging messages := recorded (CPutStaging messages) (ca_put_staging messages);
  ca_put_restored messages := recorded (CPutRestored messages) (ca_put_restored messages);
  ca_get key := quiet (ca_get key);
  ca_get_staging key := recorded (CGetStaging key) (ca_get_staging key);
  ca_delete key := quiet (ca_delete key);
  ca_delete_staging key := recorded (CDeleteStaging key) (ca_delete_staging key);
  ca_list_staging_keys limit after := quiet (ca_list_staging_keys limit after) |}.

#[export] Instance traced_tape : TapeClient (Traced W) := {|
  ta_acquire_drive preferred required :=
    recorded (CAcquire preferred) (ta_acquire_drive preferred required);
  ta_release_drive drive_id := quiet (ta_release_drive drive_id);
  ta_load_tape tape_id drive_id slot_id :=
    recorded (CLoadTape tape_id drive_id) (ta_load_tape tape_id drive_id slot_id);
  ta_write_bundle messages := recorded (CWriteBundle messages) (ta_write_bundle messages);
  ta_read_bundle drive_id location length_ :=
    recorded (CReadBundle drive_id location length_) (ta_read_bundle drive_id location length_) |}.

(** ** Justified calls *)

(** [justified pre c]: after the calls [pre], the call [c] may be made. *)
Variable justified : list Call → Call → Prop.

Definition all_justified (tr : list Call) : Prop :=
  ∀ pre c post, tr = pre ++ c :: post → justified pre c.

Lemma all_justified_nil : all_justified [].
Proof. intros pre c post E. by destruct pre. Qed.

Lemma all_justified_snoc tr c :
  all_justified tr → justified tr c → all_justified (tr ++ [c]).
Proof.
  intros Htr Hc pre d post E. destruct (decide (post = [])) as [->|Hpost].
  { apply app_inj_tail in E as [<- <-]. done. }
  destruct (exists_last Hpost) as (post' & x & ->).
  rewrite app_comm_cons, app_assoc in E. apply app_inj_tail in E as [E _].
  by eapply Htr.
Qed.

(** Every call so far was justified, and the calls of [known] were made. *)
Definition after (known : list Call) (s : Sched (Traced W)) : Prop :=
  all_justified (calls (world s)) ∧ known ⊆ calls (world s).

Lemma after_weaken known known' s : after known s → known' ⊆ known → after known' s.
Proof. intros [Hj Hk] Hsub. split; [done|]. by etrans. Qed.
Lemma after_nil known s : after known s → after [] s.
Proof. intros Hs. eapply after_weaken; [done|]. set_solver. Qed.

Abbreviation sched := (action (Sched (Traced W)) Status).

Lemma hoare_quiet {A} (m : action W Status A) known :
  hoare (after known) (on_world (quiet m) : sched A) (λ _, after known) (after []).
Proof.
  intros s Hs. unfold on_world, quiet. destruct (m (inner (world s))) as [w [a|e]]; simpl.
  - exact Hs.
  - by apply (after_nil known).
Qed.

Lemma hoare_recorded {A} (f : result Status A → Call) (m : action W Status A) known :
  (∀ r tr, known ⊆ tr → justified tr (f r)) →
  hoare (after known) (on_world (recorded f m) : sched A)
    (λ a, after (f (Ok a) :: known)) (after []).
Proof.
  intros Hf s [Hj Hk]. unfold on_world, recorded.
  destruct (m (inner (world s))) as [w [a|e]]; simpl; (split; simpl;
    [by apply all_justified_snoc; [|apply Hf]|]); set_solver.
Qed.

Lemma hoare_discard_quiet {A} (m : action W Status A) known :
  hoare (after known) (discard (on_world (quiet m)) : sched unit) (λ _, after known) (after []).
Proof.
  intros s Hs. unfold discard, on_world, quiet. by destruct (m (inner (world s))) as [w r].
Qed.

Lemma hoare_after_ret {A} (a : A) known :
  hoare (after known) (mret a : sched A) (λ _, after known) (after []).
Proof. by apply hoare_ret. Qed.

Lemma hoare_unrecorded {A} (m : sched A) known :
  (∀ s, world (m s).1 = world s) → hoare (after known) m (λ _, after known) (after []).
Proof.
  intros Hm s Hs. specialize (Hm s). destruct (m s) as [s' [a|e]]; simpl in Hm; unfold after;
    rewrite Hm; [done|]. by apply (after_nil known).
Qed.

(** The tape is in the drive: the tape worker gave the drive out, with the tape
    in it or with the tape loaded after that. *)
Definition holding (pre : list Call) (drive_id tape_id : string) : Prop :=
  ∃ preferred acquired, CAcquire (Some preferred) (Ok acquired) ∈ pre ∧
    drive_id = (if decide (acquired.(AcquireDriveResponse.drive_id) = EmptyString)
                then preferred else acquired.(AcquireDriveResponse.drive_id)) ∧
    (acquired.(AcquireDriveResponse.current_tape) = Some tape_id ∨
     CLoadTape tape_id drive_id (Ok tt) ∈ pre).
Lemma holding_mono pre pre' drive_id tape_id :
  pre ⊆ pre' → holding pre drive_id tape_id → holding pre' drive_id tape_id.
Proof using.
  intros Hsub (p & a & Ha & Hd & Ht). exists p, a. split; [by apply Hsub|]. split; [done|].
  destruct Ht as [?|Ht]; [by left|right; by apply Hsub].
Qed.

Lemma acquire_and_load_holding drive tape known :
  (∀ pre p r, justified pre (CAcquire p r)) → (∀ pre t d r, justified pre (CLoadTape t d r)) →
  hoare (after known) (acquire_and_load_tape drive tape : sched string)
    (λ d s, ∃ K, holding K d tape ∧ after (K ++ known) s) (after []).
Proof.
  intros Hacquire Hload. unfold acquire_and_load_tape.
  eapply hoare_bind; [apply hoare_recorded; auto|intros acquired; cbv beta zeta].
  set (d := if _ == _ then _ else _).
  assert (Hd : d = if decide (acquired.(AcquireDriveResponse.drive_id) = EmptyString)
                   then drive else acquired.(AcquireDriveResponse.drive_id))
    by (unfold d; case_decide; case_bool_decide; congruence).
  destruct (_ == Some tape) eqn:Htape.
  - apply bool_decide_eq_true in Htape. apply hoare_ret. intros s Hs.
    exists [CAcquire (Some drive) (Ok acquired)]. split; [|exact Hs].
    exists drive, acquired. split_and!; [by left|done|by left].
  - eapply hoare_bind; [apply hoare_recorded; auto|intros []; cbv beta]. apply hoare_ret. intros s Hs.
    exists [CLoadTape tape d (Ok tt); CAcquire (Some drive) (Ok acquired)]. split; [|exact Hs].
    exists drive, acquired. split_and!; [by right; left|done|by right; left].
Qed.
End traced.

(** ** The archive pass *)

Section archive.
Context {W : Type} `{MetadataClient W} `{CacheClient W} `{TapeClient W}.
Context `{Sha256} `{DebugFormat}.
Context (clock : nat → Timestamp.t) (has_cache has_tape : bool) (config : SchedulerConfig.t).

Abbreviation sched := (action (Sched (Traced W)) Status).
Abbreviation archive := (SchedulerConfig.archive config).

(** The data of the upload [meta] that [collect_once] assembles from the
    staging stream *)
Definition staged_as (messages : stream StagingObjectMeta.t) (data : list Z) : Prop :=
  ∃ meta, collect_once (invalid_argument "cache get_staging returned duplicate metadata")
    (internal "cache get_staging returned empty chunk") messages None [] = Ok (Some meta, data).

(** The object described by the metadata has this content: the checksum is
    empty or the one of the data. *)
Definition describes (object : ObjectMetadata.t) (data : list Z) : Prop :=
  object.(ObjectMetadata.size) = Z.of_nat (length data) ∧
  (trim object.(ObjectMetadata.checksum) = EmptyString ∨
   checksum_matches (trim object.(ObjectMetadata.checksum)) (sha256_hex data) = true).

(** An object may be reported as archived when its staged bytes were read,
    agree with its current description, and were accepted by the tape worker,
    in a drive with the tape that is reported and at the place that is
    reported. *)
Definition completion_justified (pre : list Call) (request : CompleteArchiveObjectRequest.t)
    : Prop :=
  ∃ bundle data version messages drive_id response object,
    request.(CompleteArchiveObjectRequest.bundle) = Some bundle ∧
    CGetStaging (CacheKey.new request.(CompleteArchiveObjectRequest.bucket)
      request.(CompleteArchiveObjectRequest.key) version) (Ok messages) ∈ pre ∧
    staged_as messages data ∧
    holding pre drive_id bundle.(ArchiveBundle.tape_id) ∧
    CWriteBundle
      [Ok (Some (WriteMeta (WriteBundleMeta.mk drive_id bundle.(ArchiveBundle.id)
         (Z.of_nat (length data)) 1 archive.(ArchiveSchedulerConfig.block_size))));
       Ok (Some (WriteData data))] (Ok response) ∈ pre ∧
    response.(WriteBundleResponse.success) = true ∧
    response.(WriteBundleResponse.bytes_written) = Z.of_nat (length data) ∧
    bundle.(ArchiveBundle.tape_id) = archive.(ArchiveSchedulerConfig.tape_id) ∧
    bundle.(ArchiveBundle.filemark_start) = response.(WriteBundleResponse.filemark_start) ∧
    request.(CompleteArchiveObjectRequest.tape_block_offset)
      = response.(WriteBundleResponse.filemark_start) ∧
    bundle.(ArchiveBundle.checksum) = Some (sha256_hex data) ∧
    CHead request.(CompleteArchiveObjectRequest.bucket)
      request.(CompleteArchiveObjectRequest.key) (Ok object) ∈ pre ∧
    is_cold_pending object = true ∧ describes object data ∧
    request.(CompleteArchiveObjectRequest.expected_checksum)
      = Some object.(ObjectMetadata.checksum) ∧
    request.(CompleteArchiveObjectRequest.expected_updated_at)
      = object.(ObjectMetadata.updated_at).

(** A staged object may be deleted when it was reported as archived, or when
    the metadata says that it does not wait to be archived. *)
Definition deletion_justified (pre : list Call) (key : CacheKey.t) : Prop :=
  (∃ request, CComplete request (Ok tt) ∈ pre ∧
     request.(CompleteArchiveObjectRequest.bucket) = key.(CacheKey.bucket) ∧
     request.(CompleteArchiveObjectRequest.key) = key.(CacheKey.key)) ∨
  (∃ object, CHead key.(CacheKey.bucket) key.(CacheKey.key) (Ok object) ∈ pre ∧
     is_cold_pending object = false).

Definition archive_justified (pre : list Call) (c : Call) : Prop :=
  match c with
  | CComplete request _ => completion_justified pre request
  | CDeleteStaging key _ => deletion_justified pre key
  | _ => True
  end.

Abbreviation after := (after archive_justified).

Lemma hoare_failing_with {A} (task : option ArchiveTask.t) (m : sched A) P Q X :
  hoare P m Q X → hoare P (failing_with task m) Q X.
Proof.
  intros Hm s Hs. specialize (Hm s Hs). unfold failing_with.
  by destruct (m s) as [s' []].
Qed.

Lemma hoare_ignoring c (m : sched unit) known :
  hoare (after known) m (λ _, after known) (after []) →
  hoare (after known) (ignoring c m) (λ _, after []) (after []).
Proof.
  intros Hm s Hs. specialize (Hm s Hs). unfold ignoring. unfold_action. unfold attempt.
  destruct (m s) as [s' [[]|e]]; [by eapply after_nil|]. by case_bool_decide.
Qed.

(** Runs a step that records nothing. *)
Ltac quiet_step :=
  lazymatch goal with
  | |- hoare _ (_ ← lift _; _) _ _ =>
      apply hoare_bind_lift; [intros ?; apply after_nil|intros ? ?]
  | |- hoare _ (ignoring _ _ ≫= _) _ _ =>
      eapply hoare_bind; [apply hoare_ignoring; apply hoare_quiet|intros ?; cbv beta]
  | |- hoare _ (now_timestamp _ ≫= _) _ _ =>
      eapply hoare_bind; [by apply hoare_unrecorded|intros ?; cbv beta]
  | |- hoare _ (on_world _ ≫= _) _ _ =>
      eapply hoare_bind; [apply hoare_quiet|intros ?; cbv beta]
  | |- hoare _ (mret _) _ _ => apply hoare_after_ret
  | |- hoare _ (throw _) _ _ => apply hoare_throw
  | |- hoare _ (on_world _) _ _ => apply hoare_quiet
  | |- hoare _ (match ?x with _ => _ end) _ _ => destruct x
  end.

Lemma claim_archive_quiet task :
  hoare (after []) (claim_archive_task clock task : sched _) (λ _, after []) (after []).
Proof.
  unfold claim_archive_task, get_archive_task, archive_status_of. repeat quiet_step.
Qed.

Lemma mark_archive_quiet task error :
  hoare (after []) (mark_archive_task_failed clock task error : sched _) (λ _, after [])
    (after []).
Proof.
  unfold mark_archive_task_failed, get_archive_task, archive_status_of, update_archive_task.
  repeat quiet_step.
Qed.

Lemma finalize_archive_quiet id bytes :
  hoare (after []) (finalize_archive_task_success clock id bytes : sched _) (λ _, after [])
    (after []).
Proof.
  unfold finalize_archive_task_success, get_archive_task, archive_status_of, update_archive_task.
  repeat quiet_step.
Qed.

Lemma hoare_attempt_recorded {A} (f : result Status A → Call) (m : action W Status A) known :
  (∀ r tr, known ⊆ tr → archive_justified tr (f r)) →
  hoare (after known) (attempt (on_world (recorded f m)) : sched _)
    (λ r, after (f r :: known)) (after []).
Proof.
  intros Hf s [Hj Hk]. unfold attempt, on_world, recorded.
  destruct (m (inner (world s))) as [w r]; simpl. split; simpl; [|set_solver].
  apply all_justified_snoc; auto.
Qed.

(** What a successful [write_bundle] leaves in the trace *)
Definition written (bundle_id : string) (data : list Z) (write : TapeArchiveWrite.t)
    (drive_id : string) (response : WriteBundleResponse.t) : Prop :=
  response.(WriteBundleResponse.success) = true ∧
  write = TapeArchiveWrite.mk archive.(ArchiveSchedulerConfig.tape_id) (archive_tape_set config)
    response.(WriteBundleResponse.filemark_start) response.(WriteBundleResponse.filemark_end)
    response.(WriteBundleResponse.bytes_written).

Definition write_call (bundle_id drive_id : string) (data : list Z)
    (r : result Status WriteBundleResponse.t) : Call :=
  CWriteBundle
    [Ok (Some (WriteMeta (WriteBundleMeta.mk drive_id bundle_id (Z.of_nat (length data)) 1
       archive.(ArchiveSchedulerConfig.block_size))));
     Ok (Some (WriteData data))] r.

Lemma check_write_success id drive response :
  check_write_response id drive response = Ok tt →
  response.(WriteBundleResponse.success) = true.
Proof. unfold check_write_response. by destruct (WriteBundleResponse.success response). Qed.

Abbreviation tape_writer := (TapeArchiveClient archive.(ArchiveSchedulerConfig.drive_id)
  archive.(ArchiveSchedulerConfig.tape_id) (archive_tape_set config)
  archive.(ArchiveSchedulerConfig.block_size) : TapeArchiveWriter (Sched (Traced W))).

Lemma write_bundle_written known bundle_id data :
  hoare (after known) (aw_write_bundle (TapeArchiveWriter := tape_writer) bundle_id 1 data)
    (λ write s, ∃ drive_id K response, written bundle_id data write drive_id response ∧
       holding K drive_id archive.(ArchiveSchedulerConfig.tape_id) ∧
       after (write_call bundle_id drive_id data (Ok response) :: K ++ known) s)
    (after []).
Proof.
  unfold aw_write_bundle, TapeArchiveClient, tape_write_bundle.
  eapply hoare_bind; [by apply acquire_and_load_holding|intros drive_id; cbv beta].
  apply hoare_exists. intros K. apply hoare_pure_l. intros HK.
  eapply hoare_bind; [by apply hoare_attempt_recorded|intros r; cbv beta].
  eapply (hoare_bind _ _ (λ _, after (write_call bundle_id drive_id data r :: K ++ known))).
  { apply hoare_discard_quiet. }
  intros []. apply hoare_bind_lift; [intros ?; apply after_nil|intros response ->].
  apply hoare_bind_lift; [intros ?; apply after_nil|intros [] Hc].
  apply hoare_ret. intros s Hs. exists drive_id, K, response.
  split; [|done]. split; [by eapply check_write_success|done].
Qed.

Lemma validate_describes object staged :
  validate_staged_object_matches_metadata object staged = Ok tt →
  describes object staged.(Phase1StagedObject.data).
Proof.
  unfold validate_staged_object_matches_metadata, describes.
  destruct (_ || _); [done|]. case_bool_decide; cbn [negb]; [|done].
  case_bool_decide; cbn [negb]; [|done].
  destruct (match _ with Some _ => _ | None => _ end); [done|].
  case_bool_decide as Hempty; cbn [negb andb]; [by auto|].
  destruct (checksum_matches _ _); cbn [negb]; [by auto|done].
Qed.

Lemma get_staging_known bucket key version known :
  hoare (after known) (cache_get_staging bucket key version : sched _)
    (λ staged s, ∃ messages, staged_as messages staged.(Phase1StagedObject.data) ∧
       after (CGetStaging (CacheKey.new bucket key version) (Ok messages) :: known) s)
    (after []).
Proof.
  unfold cache_get_staging.
  eapply hoare_bind; [by apply hoare_recorded|intros messages; cbv beta].
  apply hoare_bind_lift; [intros ?; apply after_nil|intros [meta data] Hc].
  apply hoare_bind_lift; [intros ?; apply after_nil|intros m Hm%ok_or_Ok].
  apply hoare_ret. intros s Hs. exists messages. split; [|done]. exists m. by rewrite Hc, Hm.
Qed.

Lemma archive_claimed_justified entry object bundle_id task :
  hoare (after []) (archive_claimed clock CacheArchiveClient tape_writer entry object bundle_id task)
    (λ _, after []) (after []).
Proof.
  unfold archive_claimed.
  set (bucket := StagingKeyEntry.bucket entry). set (key := StagingKeyEntry.key entry).
  set (version := StagingKeyEntry.version_id entry).
  eapply hoare_bind; [apply get_staging_known|intros staged; cbv beta].
  apply hoare_exists. intros messages. apply hoare_pure_l. intros Hstaged.
  set (data := Phase1StagedObject.data staged) in *.
  apply hoare_bind_lift; [intros ?; apply after_nil|intros _ _].
  eapply hoare_bind; [apply write_bundle_written|intros write; cbv beta].
  apply hoare_exists. intros drive_id. apply hoare_exists. intros K.
  apply hoare_exists. intros response.
  apply hoare_pure_l. intros [Hsuccess ->]. apply hoare_pure_l. intros HK.
  apply hoare_bind_reject; [intros ?; apply after_nil|intros Hbytes].
  eapply hoare_bind; [by apply hoare_recorded|intros current; cbv beta].
  apply hoare_bind_reject; [intros ?; apply after_nil|intros Hpending%negb_false_iff].
  apply hoare_bind_lift; [intros ?; apply after_nil|intros [] Hvalid%validate_describes].
  eapply hoare_bind; [by apply hoare_unrecorded|intros now; cbv beta].
  eapply hoare_bind; [apply hoare_recorded|intros []; cbv beta].
  { intros r tr Htr. cbn [archive_justified].
    exists (archive_bundle entry bundle_id (sha256_hex data) data
      (TapeArchiveWrite.mk (ArchiveSchedulerConfig.tape_id archive) (archive_tape_set config)
        (WriteBundleResponse.filemark_start response) (WriteBundleResponse.filemark_end response)
        (WriteBundleResponse.bytes_written response)) now), data, version, messages, drive_id,
      response, current.
    apply negb_false_iff, bool_decide_eq_true in Hbytes.
    split_and!; try done; try (apply Htr; set_solver).
    revert HK. apply holding_mono. set_solver. }
  eapply hoare_bind; [apply hoare_recorded|intros []; cbv beta].
  { intros r tr Htr. left. eexists. split; [apply Htr; by left|done]. }
  eapply hoare_bind; [|intros ?; apply hoare_after_ret].
  eapply hoare_weaken; [apply finalize_archive_quiet| |done|done]. intros ?. apply after_nil.
Qed.

Lemma archive_entry_justified entry :
  hoare (after []) (archive_entry clock has_cache config CacheArchiveClient tape_writer entry)
    (λ _, after []) (after []).
Proof.
  unfold archive_entry.
  eapply hoare_bind; [by apply hoare_failing_with, hoare_recorded|intros object; cbv beta].
  eapply hoare_bind; [apply hoare_failing_with|intros task; cbv beta].
  { by apply hoare_unrecorded. }
  destruct (is_cold_pending object) eqn:Hpending; simpl.
  - eapply (hoare_weaken (after []) _ _ (λ _, after []) _ (after []));
      [|intros ?; apply after_nil|done|done].
    eapply hoare_bind; [apply hoare_failing_with, claim_archive_quiet|].
    intros [claimed task']; cbv beta. destruct claimed; simpl; [|by apply hoare_ret].
    eapply hoare_bind; [apply hoare_failing_with, archive_claimed_justified|intros bytes].
    by apply hoare_ret.
  - eapply (hoare_bind _ _ (λ _, after [])); [|intros ?; by apply hoare_ret].
    apply hoare_failing_with. unfold delete_staging_best_effort.
    destruct has_cache; [|apply hoare_ret; intros ?; apply after_nil].
    apply hoare_discard. eapply hoare_weaken; [apply hoare_recorded|done| |done].
    + intros r tr Htr. right. exists object. split; [apply Htr; by left|done].
    + intros ? ?. apply after_nil.
Qed.

Lemma archive_round_justified entry result :
  hoare (after []) (archive_round clock has_cache config CacheArchiveClient tape_writer entry result)
    (λ _, after []) (after []).
Proof.
  unfold archive_round. eapply (hoare_bind _ _ (λ _, after [])).
  { apply hoare_unrecorded. intros s. unfold acquire_archive_item. by case_bool_decide. }
  intros acquired. destruct acquired; simpl; [|by apply hoare_ret].
  intros s Hs. pose proof (archive_entry_justified entry s Hs) as He.
  destruct (archive_entry _ _ _ _ _ entry s) as [s' [done_|[status maybe_task]]]; [exact He|].
  assert (Hm : hoare (after []) (match maybe_task with
      | Some task => discard (mark_archive_task_failed clock task (message status))
      | None => mret tt
      end : sched unit) (λ _, after []) (after [])).
  { destruct maybe_task; [apply hoare_discard, mark_archive_quiet|apply hoare_after_ret]. }
  specialize (Hm s' He). unfold_action. by destruct (match maybe_task with _ => _ end s') as [? []].
Qed.

Lemma archive_loop_justified entries result :
  hoare (after []) (archive_loop clock has_cache config CacheArchiveClient tape_writer entries result)
    (λ _, after []) (after []).
Proof.
  revert result. induction entries as [|entry entries IH]; intros result; simpl.
  - by apply hoare_ret.
  - eapply hoare_bind; [apply archive_round_justified|apply IH].
Qed.

(** C3: Whatever the metadata service, the cache and the tape worker answer,
    an archive pass reports an object as archived only after it read its staged
    bytes, found them to be what the current metadata describes, and had them
    accepted by the tape worker, in a drive given out with the tape it reports
    and at the place it reports; and it deletes a
    staged object only after that report was accepted, or when the metadata
    says that the object is not waiting to be archived. *)
Theorem archive_pass_justified (s s' : Sched (Traced W)) r :
  calls (world s) = [] →
  archive_staging_once clock has_cache has_tape config s = (s', r) →
  all_justified archive_justified (calls (world s')).
Proof.
  intros Htr Hrun.
  assert (Hh : hoare (after []) (archive_staging_once clock has_cache has_tape config : sched _)
    (λ _, after []) (after [])).
  { unfold archive_staging_once, cache_client, tape_client, archive_staging_batch.
    do 2 (apply hoare_bind_reject; [done|intros _]).
    eapply hoare_bind; [apply hoare_quiet|intros entries]. apply archive_loop_justified. }
  assert (Hs : after [] s).
  { split; [rewrite Htr; apply all_justified_nil|set_solver]. }
  specialize (Hh s Hs). rewrite Hrun in Hh. destruct r; by destruct Hh.
Qed.
End archive.

(** ** The recall pass *)

Section recall.
Context {W : Type} `{MetadataClient W} `{CacheClient W} `{TapeClient W}.
Context `{Sha256}.
Context (clock : nat → Timestamp.t) (has_cache has_tape : bool) (config : SchedulerConfig.t).

Abbreviation sched := (action (Sched (Traced W)) Status).
Abbreviation recall := (SchedulerConfig.recall config).

(** The data of the stream of a tape read *)
Definition read_as (messages : list (result Status (option ReadPayload))) (data : list Z) : Prop :=
  ∃ size, collect_once (internal "tape read returned duplicate metadata")
    (internal "tape read returned empty chunk") (tape_message <$> messages) None []
    = Ok (size, data).

(** The bytes [data] of a claimed task were read from its place on its tape, are
    as many as the task says and have its checksum, and the object is archived
    in the bundle of the task. *)
Definition recalled (pre : list Call) (task : RecallTask.t) (object : ObjectMetadata.t)
    (data : list Z) : Prop :=
  ∃ drive_id messages,
    CUpdateRecall task (Ok tt) ∈ pre ∧
    task.(RecallTask.status) = RestoreStatus.as_i32 RestoreStatus.RestoreInProgress ∧
    CHead task.(RecallTask.bucket) task.(RecallTask.key) (Ok object) ∈ pre ∧
    object.(ObjectMetadata.storage_class) = StorageClass.as_i32 StorageClass.Cold ∧
    object.(ObjectMetadata.archive_id) = Some task.(RecallTask.archive_id) ∧
    holding pre drive_id task.(RecallTask.tape_id) ∧
    CReadBundle drive_id (Some (LocFilemark task.(RecallTask.tape_block_offset)))
      task.(RecallTask.object_size) (Ok messages) ∈ pre ∧
    read_as messages data ∧
    Z.of_nat (length data) = task.(RecallTask.object_size) ∧
    sha256_hex data = task.(RecallTask.checksum).

Definition restored_messages (object : ObjectMetadata.t) (data : list Z) (expire_at : Timestamp.t)
    : stream PutRestoredMeta.t :=
  [Ok (Some (Meta (PutRestoredMeta.mk object.(ObjectMetadata.bucket)
     object.(ObjectMetadata.key) object.(ObjectMetadata.version_id) (Z.of_nat (length data))
     (Some (sha256_hex data)) object.(ObjectMetadata.content_type)
     object.(ObjectMetadata.etag) (Some expire_at))));
   Ok (Some (Data data))].

(** The restored copy of the object of a claimed task is in the cache. *)
Definition restored_copy (pre : list Call) (task : RecallTask.t) (expire_at : Timestamp.t) : Prop :=
  ∃ object data, recalled pre task object data ∧
    CPutRestored (restored_messages object data expire_at) (Ok tt) ∈ pre.

Definition COMPLETED : Z := RestoreStatus.as_i32 RestoreStatus.RestoreCompleted.

(** The tape may be read at the place of a task that was claimed, in a drive
    with its tape. *)
Definition read_justified (pre : list Call) (drive_id : string) (location : option Location)
    (length_ : Z) : Prop :=
  ∃ task, CUpdateRecall task (Ok tt) ∈ pre ∧
    task.(RecallTask.status) = RestoreStatus.as_i32 RestoreStatus.RestoreInProgress ∧
    holding pre drive_id task.(RecallTask.tape_id) ∧
    location = Some (LocFilemark task.(RecallTask.tape_block_offset)) ∧
    length_ = task.(RecallTask.object_size).

Definition recall_justified (pre : list Call) (c : Call) : Prop :=
  match c with
  | CReadBundle drive_id location length_ _ => read_justified pre drive_id location length_
  | CPutRestored messages _ =>
      ∃ task object data expire_at, recalled pre task object data ∧
        messages = restored_messages object data expire_at
  | CUpdateRecall task _ =>
      task.(RecallTask.status) = COMPLETED →
      ∃ claimed expire_at, restored_copy pre claimed expire_at ∧
        claimed.(RecallTask.id) = task.(RecallTask.id)
  | CUpdateRestore request _ =>
      request.(UpdateRestoreStatusRequest.status) = COMPLETED →
      ∃ claimed expire_at, restored_copy pre claimed expire_at ∧
        claimed.(RecallTask.bucket) = request.(UpdateRestoreStatusRequest.bucket) ∧
        claimed.(RecallTask.key) = request.(UpdateRestoreStatusRequest.key) ∧
        request.(UpdateRestoreStatusRequest.expire_at) = Some expire_at
  | _ => True
  end.

Abbreviation after := (after recall_justified).

Lemma hoare_ignoring_recorded c (f : result Status unit → Call) (m : action W Status unit) known :
  (∀ r tr, known ⊆ tr → recall_justified tr (f r)) →
  hoare (after known) (ignoring c (on_world (recorded f m)) : sched bool)
    (λ b, after (if (b : bool) then f (Ok tt) :: known else known)) (after []).
Proof.
  intros Hf s Hs. pose proof (hoare_recorded recall_justified f m known Hf s Hs) as Hm.
  unfold ignoring, attempt. unfold_action. unfold on_world, recorded in *.
  destruct Hs as [Hj Hk].
  destruct (m (inner (world s))) as [w [[]|e]]; simpl in *; [done|].
  case_bool_decide; (split; simpl; [apply Hm|]); set_solver.
Qed.

Lemma hoare_ignoring_quiet c (m : action W Status unit) known :
  hoare (after known) (ignoring c (on_world (quiet m)) : sched bool) (λ _, after known) (after []).
Proof.
  intros s Hs. unfold ignoring, attempt. unfold_action. unfold on_world, quiet.
  destruct (m (inner (world s))) as [w [[]|e]]; simpl; [done|].
  case_bool_decide; [done|]. by eapply after_nil.
Qed.

Lemma read_bundle_read drive task known :
  task.(RecallTask.status) = RestoreStatus.as_i32 RestoreStatus.RestoreInProgress →
  CUpdateRecall task (Ok tt) ∈ known →
  let location := Some (LocFilemark task.(RecallTask.tape_block_offset)) in
  let length_ := task.(RecallTask.object_size) in
  hoare (after known) (tape_read_bundle drive task.(RecallTask.tape_id)
      task.(RecallTask.tape_block_offset) length_ : sched _)
    (λ data s, ∃ drive_id K messages, (holding K drive_id task.(RecallTask.tape_id) ∧
       read_as messages data) ∧
       after (CReadBundle drive_id location length_ (Ok messages) :: K ++ known) s)
    (after []).
Proof.
  intros Hstatus Hclaimed location length_. unfold tape_read_bundle.
  eapply hoare_bind; [by apply acquire_and_load_holding|intros drive_id; cbv beta].
  apply hoare_exists. intros K. apply hoare_pure_l. intros HK. eapply hoare_bind.
  { apply (hoare_attempt _ _ (λ data s, ∃ messages, read_as messages data ∧
      after (CReadBundle drive_id location length_ (Ok messages) :: K ++ known) s) (after [])).
    unfold read_bundle_data.
    eapply hoare_bind; [apply hoare_recorded|intros messages; cbv beta].
    { intros r tr Htr. exists task. split_and!; [apply Htr; set_solver|done| |done..].
      revert HK. apply holding_mono. set_solver. }
    apply hoare_bind_lift; [intros ?; apply after_nil|intros [size data] Hc].
    eapply (hoare_bind _ _ (λ _, after (CReadBundle drive_id location length_
      (Ok messages) :: K ++ known))).
    { destruct size; [|apply hoare_after_ret].
      eapply hoare_weaken; [apply hoare_reject|done|done|intros ?; apply after_nil]. }
    intros []. apply hoare_ret. intros s Hs. exists messages. split; [by exists size|done]. }
  intros [data|e].
  - apply hoare_exists. intros messages. apply hoare_pure_l. intros Hread.
    eapply hoare_bind; [apply hoare_discard_quiet|intros []].
    apply hoare_ret. intros s Hs. by exists drive_id, K, messages.
  - eapply hoare_bind; [apply hoare_discard_quiet|intros []]. apply hoare_throw.
Qed.

Lemma process_recall_justified task :
  task.(RecallTask.status) = RestoreStatus.as_i32 RestoreStatus.RestoreInProgress →
  hoare (after [CUpdateRecall task (Ok tt)])
    (process_recall_task clock CacheRestoreClient
       (TapeRecallClient recall.(RecallSchedulerConfig.drive_id)) task)
    (λ _, after []) (after []).
Proof.
  intros Hstatus. unfold process_recall_task.
  eapply hoare_bind; [by apply hoare_recorded|intros object; cbv beta].
  apply hoare_bind_reject; [intros ?; apply after_nil|intros Hcold%negb_false_iff].
  apply hoare_bind_reject; [intros ?; apply after_nil|intros Harch%negb_false_iff].
  apply hoare_bind_reject; [intros ?; apply after_nil|intros _].
  apply bool_decide_eq_true in Hcold, Harch.
  eapply hoare_bind; [apply read_bundle_read; [done|set_solver]|intros data; cbv beta].
  apply hoare_exists. intros drive_id. apply hoare_exists. intros L.
  apply hoare_exists. intros messages. apply hoare_pure_l. intros [HL Hread].
  apply hoare_bind_reject; [intros ?; apply after_nil|intros Hlen%negb_false_iff].
  apply hoare_bind_reject; [intros ?; apply after_nil|intros Hsum%negb_false_iff].
  apply bool_decide_eq_true in Hlen, Hsum.
  set (K := CReadBundle _ _ _ _ :: _).
  assert (Hrec : ∀ tr, K ⊆ tr → recalled tr task object data).
  { intros tr Htr. exists drive_id, messages.
    split_and!; try done; try (apply Htr; subst K; set_solver).
    revert HL. apply holding_mono. subst K. set_solver. }
  eapply (hoare_bind _ _ (λ _, after K)).
  { destruct (RecallTask.expire_at task); [apply hoare_after_ret|by apply hoare_unrecorded]. }
  intros expire_at. cbv beta.
  eapply hoare_bind; [apply hoare_recorded|intros []; cbv beta].
  { intros r tr Htr. exists task, object, data, expire_at. split; [by apply Hrec|done]. }
  set (K' := _ :: K).
  assert (Hcopy : ∀ tr, K' ⊆ tr → restored_copy tr task expire_at).
  { intros tr Htr. exists object, data. split; [apply Hrec|apply Htr; subst K'; set_solver].
    etrans; [|exact Htr]. subst K'. set_solver. }
  eapply hoare_bind; [by apply hoare_unrecorded|intros now; cbv beta].
  eapply hoare_bind; [apply hoare_recorded|intros []; cbv beta].
  { intros r tr Htr _. exists task, expire_at. split; [by apply Hcopy|done]. }
  eapply hoare_bind; [apply hoare_recorded|intros []; cbv beta].
  { intros r tr Htr _. exists task, expire_at. split; [|done]. apply Hcopy.
    etrans; [|exact Htr]. set_solver. }
  apply hoare_ret. intros s. apply after_nil.
Qed.

Lemma claim_recall_claimed task :
  hoare (after []) (claim_recall_task clock task : sched _)
    (λ p s, if (p.1 : bool)
            then p.2.(RecallTask.status) = RestoreStatus.as_i32 RestoreStatus.RestoreInProgress ∧
                 after [CUpdateRecall p.2 (Ok tt)] s
            else after [] s) (after []).
Proof.
  unfold claim_recall_task, get_recall_task, restore_status_of.
  eapply hoare_bind; [apply hoare_ignoring_quiet|intros ?; cbv beta].
  eapply hoare_bind; [apply hoare_quiet|intros current; cbv beta].
  apply hoare_bind_lift; [done|intros status _].
  assert (Hno : ∀ t, hoare (after []) (mret (false, t) : sched (bool * RecallTask.t))
    (λ p s, if (p.1 : bool)
            then p.2.(RecallTask.status) = RestoreStatus.as_i32 RestoreStatus.RestoreInProgress ∧
                 after [CUpdateRecall p.2 (Ok tt)] s
            else after [] s) (after [])).
  { intros t. by apply hoare_ret. }
  destruct status; try apply Hno.
  all: eapply hoare_bind; [by apply hoare_unrecorded|intros now; cbv beta].
  all: eapply hoare_bind; [by apply hoare_ignoring_recorded|intros updated; cbv beta].
  all: destruct updated; simpl; [|apply Hno].
  all: eapply hoare_bind; [by apply hoare_recorded|intros []; cbv beta].
  all: apply hoare_ret; intros s Hs; split; [done|]; eapply after_weaken; [done|set_solver].
Qed.

Lemma update_restore_other bucket key status expire_at known :
  status ≠ RestoreStatus.RestoreCompleted →
  hoare (after known) (update_object_restore_status bucket key status expire_at : sched unit)
    (λ _, after []) (after []).
Proof.
  intros Hstatus. unfold update_object_restore_status.
  eapply hoare_weaken; [apply hoare_recorded|done|intros ? ?; apply after_nil|done].
  intros r tr _ Hc. by destruct status.
Qed.

Lemma mark_recall_justified task error :
  hoare (after []) (mark_recall_failed clock task error : sched _) (λ _, after []) (after []).
Proof.
  unfold mark_recall_failed, get_recall_task, restore_status_of, update_recall_task.
  eapply hoare_bind; [apply hoare_quiet|intros current; cbv beta].
  apply hoare_bind_lift; [done|intros status _].
  destruct status; try apply hoare_after_ret.
  all: eapply hoare_bind; [by apply hoare_unrecorded|intros now; cbv beta].
  all: eapply hoare_bind; [by apply hoare_ignoring_recorded|intros updated; cbv beta].
  all: by apply update_restore_other.
Qed.

Lemma retry_recall_justified task error :
  hoare (after []) (retry_recall_task_later task error : sched _) (λ _, after []) (after []).
Proof.
  unfold retry_recall_task_later, get_recall_task, restore_status_of, update_recall_task.
  eapply hoare_bind; [apply hoare_quiet|intros current; cbv beta].
  apply hoare_bind_lift; [done|intros status _].
  destruct (status != _); [apply hoare_after_ret|].
  eapply hoare_bind; [by apply hoare_recorded|intros []; cbv beta].
  by apply update_restore_other.
Qed.

Abbreviation tape_reader := (TapeRecallClient recall.(RecallSchedulerConfig.drive_id)).

Lemma recall_claimed_justified key task result :
  task.(RecallTask.status) = RestoreStatus.as_i32 RestoreStatus.RestoreInProgress →
  hoare (after [CUpdateRecall task (Ok tt)])
    (recall_claimed clock CacheRestoreClient tape_reader key task result : sched _)
    (λ _, after []) (after []).
Proof.
  intros Hstatus. unfold recall_claimed.
  assert (Hout : ∀ X (m : sched X), hoare (after []) m (λ _, after []) (after []) →
    hoare (after []) (release_recall_task key ≫= λ _, m) (λ _, after []) (after [])).
  { intros X m Hm. eapply hoare_bind; [by apply hoare_unrecorded|by intros []]. }
  eapply hoare_bind; [by apply hoare_attempt, process_recall_justified|].
  intros restored. apply (hoare_weaken (after []) _ _ (λ _, after []) _ (after [])); [|by destruct restored|done|done].
  apply (hoare_bind _ _ (λ _, after [])); [|intros ?; apply Hout, hoare_after_ret].
  destruct restored as [bytes|status]; [apply hoare_after_ret|].
  eapply hoare_bind; [apply (hoare_attempt _ _ (λ _, after []) (after []))|intros [[]|mark_status]].
  - destruct (is_retriable_recall_processing_error status);
      [apply retry_recall_justified|apply mark_recall_justified].
  - apply hoare_after_ret.
  - apply Hout, hoare_throw.
Qed.

Lemma recall_round_justified task result :
  hoare (after []) (recall_round clock CacheRestoreClient tape_reader task result : sched _)
    (λ _, after []) (after []).
Proof.
  unfold recall_round.
  assert (Hout : ∀ X (m : sched X), hoare (after []) m (λ _, after []) (after []) →
    hoare (after []) (release_recall_task (phase1_recall_task_key task) ≫= λ _, m) (λ _, after []) (after [])).
  { intros X m Hm. eapply hoare_bind; [by apply hoare_unrecorded|by intros []]. }
  eapply hoare_bind; [by apply hoare_unrecorded|intros [[]|?]; [|apply Hout, hoare_throw]].
  apply (hoare_bind _ _ (λ _, after [])).
  { apply hoare_unrecorded. intros s. unfold acquire_recall_task. by case_bool_decide. }
  intros acquired. destruct acquired; simpl; [|apply hoare_after_ret].
  eapply hoare_bind; [by apply hoare_unrecorded|intros [[]|?]; [|apply Hout, hoare_throw]].
  eapply hoare_bind; [apply hoare_attempt, claim_recall_claimed|].
  intros [[[] claimed]|status]; simpl.
  - apply hoare_pure_l. apply recall_claimed_justified.
  - apply Hout, hoare_after_ret.
  - apply Hout, hoare_throw.
Qed.

Lemma recall_loop_justified tasks result :
  hoare (after []) (recall_loop clock CacheRestoreClient tape_reader tasks result : sched _)
    (λ _, after []) (after []).
Proof.
  revert result. induction tasks as [|task tasks IH]; intros result; simpl.
  - apply hoare_after_ret.
  - eapply hoare_bind; [apply recall_round_justified|apply IH].
Qed.

(** C4: Whatever the other services answer, a recall pass reads the tape only
    for a task it claimed, in a drive given out with the task's tape; it puts
    into the cache only bytes that it read from the task's place and that have the
    task's length and SHA-256 checksum, for an object archived in the task's
    bundle; and it marks a task or an object as restored, with the expiry of
    the copy, only after the cache accepted that copy. *)
Theorem recall_pass_justified (max_tasks : Z) (s s' : Sched (Traced W)) r :
  calls (world s) = [] →
  recall_pending_once clock has_cache has_tape config max_tasks s = (s', r) →
  all_justified recall_justified (calls (world s')).
Proof.
  intros Htr Hrun.
  assert (Hh : hoare (after [])
    (recall_pending_once clock has_cache has_tape config max_tasks : sched _)
    (λ _, after []) (after [])).
  { unfold recall_pending_once, cache_client, tape_client, recall_pending_batch.
    do 2 (apply hoare_bind_reject; [done|intros _]).
    eapply hoare_bind; [apply hoare_quiet|intros tasks]. apply recall_loop_justified. }
  assert (Hs : after [] s).
  { split; [rewrite Htr; apply all_justified_nil|set_solver]. }
  specialize (Hh s Hs). rewrite Hrun in Hh. destruct r; by destruct Hh.
Qed.
End recall.
