(* ===== verification/SchedulerSystem.v ===== *)
(** * The scheduler over the other services

    The clients of the scheduler connected to the models of the metadata
    service, of the cache worker and of a tape worker: one system, in which a
    request of the scheduler runs the handlers of the services it calls. *)

From Stdlib Require Import ZArith String.
From S2P Require Import Prelude Hoare Proto StateMachine Snapshot Raft RustStr MetadataService.
From S2P Require Import External CacheBackend Cache TapeService Config Workers SchedulerProto SchedulerClients.

Local Open Scope string_scope.
Local Open Scope list_scope.
Local Open Scope stdpp_scope.

Section system.
Context `{Prost} `{RocksDB} `{Formats}.
Context {B : Type} `{CacheBackend B} {T : Type} `{TapeBackend T}.

(** The services, and how many calls the metadata service has served *)
Record System := mkSystem {
  sys_metadata : MetadataServiceImpl;
  sys_cache : CacheState B;
  sys_tape : T;
  sys_calls : nat;
}.

(** What the calls of the metadata service read from outside, the clock, the
    hash order and the settings of the cache, and the status a client gets
    from a tape worker that panicked *)
Context (envs : nat → CallEnv) (h : hash_order) (cache_clock : nat → Z) (svc : Settings).
Context (panicked : Status).

Definition on_metadata {A} (m : CallEnv → action MetadataServiceImpl Status A)
    : action System Status A := λ s,
  let '(md, r) := m (envs (sys_calls s)) (sys_metadata s) in
  (mkSystem md (sys_cache s) (sys_tape s) (S (sys_calls s)), r).
Definition read_metadata {A} (f : Env → MetadataState → result Status A)
    : action System Status A :=
  on_metadata (λ c, reads (λ md, f (env c) (state md))).
Definition on_cache {A} (m : action (CacheState B) Status A) : action System Status A := λ s,
  let '(c, r) := m (sys_cache s) in (mkSystem (sys_metadata s) c (sys_tape s) (sys_calls s), r).
Definition on_tape {A} (m : action T (fault Status) A) : action System Status A := λ s,
  let '(t, r) := m (sys_tape s) in
  (mkSystem (sys_metadata s) (sys_cache s) t (sys_calls s),
   match r with
   | Ok a => Ok a
   | Err (Raised status) => Err status
   | Err Panicked => Err panicked
   end).

(** A response stream as its messages arrive *)
Definition sent {M} (messages : list M) : list (result Status (option M)) :=
  (λ m, Ok (Some m)) <$> messages.

#[export] Instance system_metadata : MetadataClient System := {|
  md_put_object object := on_metadata (λ c, put_object c object);
  md_get_object bucket key := read_metadata (λ e st, get_object e st bucket key);
  md_head_object bucket key := read_metadata (λ e st, head_object e st bucket key);
  md_delete_object bucket key :=
    on_metadata (λ c, delete_object c (DeleteObjectRequest.mk bucket key));
  md_list_objects bucket prefix marker max_keys :=
    read_metadata (λ e st, response ← list_objects e st
        (ListObjectsRequest.mk bucket prefix marker max_keys);
      Ok response.(ListObjectsResponse.objects));
  md_complete_archive_object request := on_metadata (λ c, complete_archive_object c request);
  md_update_restore_status request := on_metadata (λ c, update_restore_status c request);
  md_put_archive_task task := on_metadata (λ c, put_archive_task c task);
  md_get_archive_task id := read_metadata (λ _ st, get_archive_task st id);
  md_update_archive_task task := on_metadata (λ c, update_archive_task c task);
  md_put_recall_task task := on_metadata (λ c, put_recall_task c task);
  md_get_recall_task id := read_metadata (λ _ st, get_recall_task st id);
  md_update_recall_task task := on_metadata (λ c, update_recall_task c task);
  md_list_pending_recall_tasks := read_metadata (λ e st, Ok (list_pending_recall_tasks e st));
  md_create_bucket bucket := on_metadata (λ c, create_bucket c bucket);
  md_delete_bucket name := on_metadata (λ c, delete_bucket c (DeleteBucketRequest.mk name));
  md_get_bucket name := read_metadata (λ _ st, get_bucket st name);
  md_list_buckets := read_metadata (λ e st, Ok (list_buckets e st)) |}.

#[export] Instance system_cache : CacheClient System := {|
  ca_put_staging messages := on_cache (put_staging h cache_clock svc messages);
  ca_put_restored messages := on_cache (put_restored h cache_clock svc messages);
  ca_get key := on_cache (sent <$> get h cache_clock key);
  ca_get_staging key := on_cache (sent <$> get_staging key);
  ca_delete key := on_cache (delete_ h key);
  ca_delete_staging key := on_cache (delete_staging h key);
  ca_list_staging_keys limit after := on_cache (fst <$> list_staging_keys h limit after) |}.

#[export] Instance system_tape : TapeClient System := {|
  ta_acquire_drive preferred required := on_tape (handle_acquire_drive
    (AcquireDriveRequest.mk preferred required 0 0));
  ta_release_drive drive_id := on_tape (handle_release_drive drive_id);
  ta_load_tape tape_id drive_id slot_id := on_tape (handle_load_tape
    (LoadTapeRequest.mk tape_id drive_id slot_id));
  ta_write_bundle messages := on_tape (write_bundle_from_messages messages);
  ta_read_bundle drive_id location length_ :=
    on_tape (sent <$> read_bundle_stream drive_id location length_) |}.
End system.

(** ** The live metadata after a write *)

Section writes.
Context `{Prost} `{RocksDB} `{Formats}.
Implicit Types s : MetadataServiceImpl.

Lemma persist_locked_state c s :
  MetadataService.state (persist_locked c s).1 = MetadataService.state s.
Proof. unfold persist_locked. destruct (snapshot_path s); [|done]. by destruct (run_fs _ _ _). Qed.

Lemma apply_and_persist_state c cmd s :
  MetadataService.state (apply_and_persist c cmd s).1 = MetadataService.state s ∨
  MetadataService.state (apply_and_persist c cmd s).1
    = (apply_command (env c) cmd (MetadataService.state s)).1.
Proof.
  unfold apply_and_persist. destruct (raft_backend s) as [b|]; [|by left].
  right. unfold propose_local_apply. simpl.
  destruct (apply_command (env c) cmd _) as [st [[]|err]]; simpl; [|done].
  destruct (persist_if_needed _ cmd b) as [b' [[?|]|err]]; simpl; by rewrite ?persist_locked_state.
Qed.

(** A write that is acknowledged was applied. *)
Lemma apply_and_persist_Ok c cmd s s' :
  apply_and_persist c cmd s = (s', Ok tt) →
  apply_command (env c) cmd (MetadataService.state s) = (MetadataService.state s', Ok tt).
Proof.
  unfold apply_and_persist. destruct (raft_backend s) as [b|]; [|done]. unfold propose_local_apply.
  simpl. destruct (apply_command (env c) cmd _) as [st [[]|err]]; simpl; [|done].
  destruct (persist_if_needed _ cmd b) as [b' [[st'|]|err]]; simpl; intros Hrun; try done.
  all: match type of Hrun with persist_locked ?c ?x = _ =>
         pose proof (persist_locked_state c x) as Hp end.
  all: rewrite Hrun in Hp; simpl in Hp; by rewrite Hp.
Qed.
End writes.
