(* ===== verification/Checksums.v ===== *)
(** * The checksums of the metadata

    What makes a digest a checksum that matches only itself; the bodies that
    clients asked to store, as an interface ([Uploads]); and the agreement of
    the descriptions of objects with such bodies, and of the checksums of
    objects, bundles and recall tasks, which the commands the scheduler sends
    keep. *)

From Stdlib Require Import ZArith Lia String Ascii.
From S2P Require Import Prelude Proto StateMachine MetadataInvariants ObjectTheorems LifeCycles RustStr.
From S2P Require Import External SchedulerClients SchedulerTraces.

Local Open Scope string_scope.
Local Open Scope list_scope.
Local Open Scope stdpp_scope.

(** ** Digests as checksums *)

Section digests.
Context `{Sha256Laws}.

Definition digest (checksum : string) : Prop := ∃ body, checksum = sha256_hex body.

Lemma hex_graphic c : is_hex c = true → is_graphic c = true.
Proof using.
  unfold is_hex, is_graphic, between. rewrite orb_true_iff, !andb_true_iff, !Z.leb_le. lia.
Qed.
Lemma trim_hex s : all_chars is_hex s = true → trim s = s.
Proof using. intros Hs. by eapply trim_graphic, all_chars_impl, Hs; apply hex_graphic. Qed.

Lemma lower_hex s : all_chars is_hex s = true → to_ascii_lowercase s = s.
Proof using.
  unfold all_chars. induction s as [|c s IH]; simpl; [done|].
  intros [Hc Hs]%andb_true_iff. rewrite IH by done. f_equal.
  unfold lower_char. destruct ((65 <=? _) && _)%N eqn:E; [|done].
  apply andb_true_iff in E as [?%N.leb_le ?%N.leb_le]. revert Hc. unfold is_hex, between, byte_of.
  rewrite orb_true_iff, !andb_true_iff, !Z.leb_le. lia.
Qed.

Lemma digest_hex c : digest c → all_chars is_hex c = true.
Proof. intros [body ->]. apply sha256_digits. Qed.

(** A digest as a checksum matches no other digest. *)
Lemma digest_matches c data :
  digest c → checksum_matches (trim c) (sha256_hex data) = true → c = sha256_hex data.
Proof.
  intros Hc%digest_hex. unfold checksum_matches. rewrite !trim_hex by (by rewrite ?trim_hex).
  assert (Hno : ∀ a p, is_hex a = false → strip_prefix (String a p) c = None).
  { intros a p Ha. destruct c as [|b c]; simpl; [done|]. case_bool_decide; [|done]. subst b.
    unfold all_chars in Hc. simpl in Hc. by rewrite Ha in Hc. }
  rewrite !Hno by done. unfold eq_ignore_ascii_case. simpl.
  rewrite !lower_hex by (done || apply sha256_digits). by intros ?%bool_decide_eq_true.
Qed.

Lemma digest_not_empty c : digest c → trim c ≠ EmptyString.
Proof.
  intros Hc. rewrite trim_hex by by apply digest_hex. destruct Hc as [body ->].
  pose proof (sha256_length body) as Hl. by intros Heq; rewrite Heq in Hl.
Qed.

Lemma describes_digest object data :
  digest object.(ObjectMetadata.checksum) → describes object data →
  object.(ObjectMetadata.checksum) = sha256_hex data.
Proof.
  intros Hd [_ [He|Hm]]; [by destruct (digest_not_empty _ Hd)|by apply digest_matches].
Qed.
End digests.

(** ** Checksums in the metadata *)

(** Which bodies clients uploaded, by bucket and key *)
Class Uploads := was_uploaded : string → string → list Z → Prop.

Section metadata.
Context `{Sha256} {uploads : Uploads}.
Implicit Types (st : MetadataState) (o : ObjectMetadata.t).

(** The checksum of a bundle, and the bundle of a key *)
Definition sum_of st (id : string) : option string :=
  archive_bundles st !! id ≫= ArchiveBundle.checksum.
Definition bundle_of (bucket key : string) : string := phase1_bundle_id bucket key None.

(** An object records a body that was uploaded under its key: its size, and its
    digest as checksum and as entity tag. *)
Definition uploaded o : Prop :=
  ∃ body, was_uploaded o.(ObjectMetadata.bucket) o.(ObjectMetadata.key) body ∧
    o.(ObjectMetadata.size) = Z.of_nat (length body) ∧
    o.(ObjectMetadata.checksum) = sha256_hex body ∧
    o.(ObjectMetadata.etag) = Some (sha256_hex body).
Lemma uploaded_digest o : uploaded o → digest o.(ObjectMetadata.checksum).
Proof using. intros (body & _ & _ & -> & _). by eexists. Qed.
Lemma uploaded_etag o :
  uploaded o → o.(ObjectMetadata.etag) = Some o.(ObjectMetadata.checksum).
Proof using. by intros (body & _ & _ & -> & ->). Qed.

(** An archived object is in the bundle of its key, which has its checksum. *)
Definition in_bundle st o : Prop :=
  o.(ObjectMetadata.storage_class) = StorageClass.as_i32 StorageClass.Cold →
  o.(ObjectMetadata.archive_id)
    = Some (bundle_of o.(ObjectMetadata.bucket) o.(ObjectMetadata.key)) ∧
  sum_of st (bundle_of o.(ObjectMetadata.bucket) o.(ObjectMetadata.key))
    = Some o.(ObjectMetadata.checksum).
Definition task_ok st (t : RecallTask.t) : Prop :=
  sum_of st t.(RecallTask.archive_id) = Some t.(RecallTask.checksum).

Record consistent st : Prop := {
  c_wf : wf st;
  c_objects : map_Forall (λ _ o, uploaded o ∧ in_bundle st o) (objects st);
  c_tasks : map_Forall (λ _ t, task_ok st t) (recall_tasks st);
}.

(** The bundles of [st] are in [st'], with their checksums. *)
Definition extends st st' : Prop := ∀ id sum, sum_of st id = Some sum → sum_of st' id = Some sum.

Lemma in_bundle_extends st st' o : extends st st' → in_bundle st o → in_bundle st' o.
Proof using. intros Hst Ho Hcold. destruct (Ho Hcold). auto. Qed.

Lemma consistent_default : consistent default_state.
Proof using. split; [apply wf_default|apply map_Forall_empty..]. Qed.

Lemma consistent_extends st st' :
  wf st' → extends st st' →
  map_Forall (λ _ o, uploaded o ∧ in_bundle st o) (objects st') →
  map_Forall (λ _ t, task_ok st t) (recall_tasks st') → consistent st'.
Proof using.
  intros Hwf Hst Ho Ht. split; [done| |].
  - intros k o Hk. destruct (Ho k o Hk). split; [done|]. by eapply in_bundle_extends.
  - intros k t Hk. by apply Hst, (Ht k t).
Qed.

(** An archive task that was claimed: in progress, completed or failed *)
Definition claimed_status (status : Z) : bool :=
  existsb (λ s, status == ArchiveTaskStatus.as_i32 s)
    [ArchiveTaskStatus.ArchiveTaskInProgress; ArchiveTaskStatus.ArchiveTaskCompleted;
     ArchiveTaskStatus.ArchiveTaskFailed].

(** The commands of the scheduler, with what it makes sure of *)
Definition admissible st (c : MetadataCommand) : Prop :=
  match c with
  | PutObject o =>
      uploaded o ∧
      o.(ObjectMetadata.storage_class) = StorageClass.as_i32 StorageClass.ColdPending
  | CompleteArchiveObject r =>
      ∃ b sum, r.(CompleteArchiveObjectRequest.bundle) = Some b ∧
        b.(ArchiveBundle.id) = bundle_of r.(CompleteArchiveObjectRequest.bucket)
          r.(CompleteArchiveObjectRequest.key) ∧
        b.(ArchiveBundle.checksum) = Some sum ∧
        ∀ c, r.(CompleteArchiveObjectRequest.expected_checksum) = Some c → digest c → c = sum
  | PutRecallTask t | UpdateRecallTask t => task_ok st t
  | DeleteObject _ | UpdateRestoreStatus _ | CreateBucket _ | DeleteBucket _
  | PutArchiveTask _ => True
  | UpdateArchiveTask t => claimed_status t.(ArchiveTask.status) = true
  | _ => False
  end.

Lemma complete_consistent e r st :
  consistent st → admissible st (CompleteArchiveObject r) →
  let st' := (apply_command e (CompleteArchiveObject r) st).1 in consistent st' ∧ extends st st'.
Proof using.
  intros [Hwf Ho Ht] (b & sum & Hb & Hid & Hsum & Hexp). simpl.
  pose proof (CompleteArchiveObject_wf e r st Hwf) as Hwf'.
  destruct (apply_CompleteArchiveObject e r st) as [st' res] eqn:E. simpl in *.
  apply CompleteArchiveObject_run in E
    as [(? & _ & ->)|(b' & kk & o & -> & Hb' & _ & Hm & Hv & Hold & ->)];
    [split; [by split|by intros ??]|].
  rewrite Hb in Hb'. injection Hb' as <-.
  apply find_object_mut_lookup in Hm as (Hkk & Hbu & Hke).
  apply preconditions_iff in Hv as (_ & _ & Hc & _).
  destruct (Ho _ _ Hkk) as [Hu _]. pose proof (Hexp _ Hc (uploaded_digest _ Hu)) as Heq.
  pose proof (wf_objects _ Hwf _ _ Hkk) as <-.
  set (st' := set_objects _ _) in *.
  assert (Hst : extends st st').
  { intros id s. unfold sum_of. simpl. rewrite lookup_insert.
    case_decide as Hi; [|done]. subst id. destruct Hold as [->| ->]; done. }
  split; [|done]. split; [done| |].
  - intros k o'. unfold st'. simpl. rewrite lookup_insert. case_decide as Hi.
    + intros [= <-]. simpl. split; [done|]. unfold in_bundle. simpl. intros _.
      unfold object_key in *. simpl in Hbu, Hke. rewrite Hbu, Hke, <-Hid. split; [done|].
      unfold sum_of. simpl. rewrite lookup_insert_eq. simpl. congruence.
    + intros Hk. destruct (Ho _ _ Hk). split; [done|]. by eapply in_bundle_extends.
  - intros k t Hk. by apply Hst, (Ht k t).
Qed.

(** The objects after a command that keeps the bundles are old ones, with at
    most their restore status changed, or the new one. *)
Lemma admissible_objects e c st k o :
  admissible st c → (∀ r, c ≠ CompleteArchiveObject r) →
  objects (apply_command e c st).1 !! k = Some o →
  (uploaded o ∧
   o.(ObjectMetadata.storage_class) = StorageClass.as_i32 StorageClass.ColdPending) ∨
  ∃ k' o', objects st !! k' = Some o' ∧
    o.(ObjectMetadata.bucket) = o'.(ObjectMetadata.bucket) ∧
    o.(ObjectMetadata.key) = o'.(ObjectMetadata.key) ∧
    o.(ObjectMetadata.size) = o'.(ObjectMetadata.size) ∧
    o.(ObjectMetadata.checksum) = o'.(ObjectMetadata.checksum) ∧
    o.(ObjectMetadata.etag) = o'.(ObjectMetadata.etag) ∧
    o.(ObjectMetadata.storage_class) = o'.(ObjectMetadata.storage_class) ∧
    o.(ObjectMetadata.archive_id) = o'.(ObjectMetadata.archive_id).
Proof using.
  destruct c; simpl; try done; intros Hadm Hc.
  1:{ unfold_branches. destruct (contains_key _ _); simpl; [|by eauto 12].
      rewrite refresh_bucket_stats_objects. simpl. rewrite lookup_insert. case_decide.
      - intros [= <-]. left. by destruct (_ == None).
      - by eauto 12. }
  1:{ unfold_branches. destruct (_ == None); simpl; rewrite ?refresh_bucket_stats_objects; simpl;
        rewrite lookup_delete_Some; intros [_ ?]; by eauto 12. }
  1:{ by destruct (Hc request). }
  1:{ unfold_branches. destruct (find_object_mut e st _ _ _) as [[kk o1]|] eqn:Hm; simpl;
        [|by eauto 12].
      destruct (validate_restore_transition _ _); simpl; [|by eauto 12].
      apply find_object_mut_lookup in Hm as (Hkk & _). rewrite lookup_insert. case_decide.
      - intros [= <-]. right. exists kk, o1. done.
      - by eauto 12. }
  all: unfold_branches; repeat case_match; simplify_eq/=; by eauto 12.
Qed.

Lemma admissible_tasks e c st k t :
  admissible st c → recall_tasks (apply_command e c st).1 !! k = Some t →
  recall_tasks st !! k = Some t ∨ task_ok st t.
Proof using.
  intros Hadm. destruct (touches_recall_tasks c) eqn:Hc.
  2:{ rewrite (proj2 (tasks_frame e c st) Hc). auto. }
  destruct c; simplify_eq/=; unfold_branches; repeat case_match; simplify_eq/=; auto;
    rewrite lookup_insert_Some; intros [[_ <-]|[_ ?]]; auto.
Qed.

Lemma admissible_bundles e c st :
  admissible st c → (∀ r, c ≠ CompleteArchiveObject r) →
  archive_bundles (apply_command e c st).1 = archive_bundles st.
Proof using.
  destruct c; simpl; try done; intros _ Hc; try by destruct (Hc request).
  all: unfold_branches; repeat case_match; simplify_eq/=; try done.
  all: match goal with
       | |- context [refresh_bucket_stats ?e ?n ?st] =>
           by destruct (refresh_frame e n st) as (_ & _ & ->)
       end.
Qed.

Lemma admissible_consistent e c st :
  consistent st → admissible st c →
  consistent (apply_command e c st).1 ∧ extends st (apply_command e c st).1.
Proof using.
  intros Hst Hadm.
  assert ((∃ r, c = CompleteArchiveObject r) ∨ ∀ r, c ≠ CompleteArchiveObject r)
    as [[r ->]|Hc] by (destruct c; eauto); [by apply complete_consistent|].
  assert (Hext : extends st (apply_command e c st).1).
  { intros id sum. unfold sum_of. by rewrite (admissible_bundles e c st Hadm Hc). }
  split; [|done]. destruct Hst as [Hwf Ho Ht].
  apply (consistent_extends st); [by apply apply_command_wf|done| |].
  - intros k o Hk. destruct (admissible_objects _ _ _ _ _ Hadm Hc Hk)
      as [[Hd Hp]|(k' & o' & Hk' & Hbu & Hke & Hsz & Hsum & Het & Hcl & Har)].
    + split; [done|]. intros Hcold. by rewrite Hcold in Hp.
    + destruct (Ho _ _ Hk') as [Hd Hin]. unfold uploaded, in_bundle.
      by rewrite Hbu, Hke, Hsz, Hsum, Het, Hcl, Har.
  - intros k t Hk. destruct (admissible_tasks _ _ _ _ _ Hadm Hk) as [Hk'|?]; [by eapply Ht|done].
Qed.
End metadata.
