(* ===== verification/Histories.v ===== *)
(** * Histories of a scheduler

    The requests of clients and the turns of the background loops, over any
    services, as operations that can be run one after the other. *)

From Stdlib Require Import ZArith String.
From S2P Require Import Prelude Hoare Proto StateMachine RustStr External Cache.
From S2P Require Import SchedulerProto Config SchedulerClients Scheduler.

Local Open Scope string_scope.
Local Open Scope list_scope.
Local Open Scope stdpp_scope.

Section histories.
Context {W : Type} `{MetadataClient W} `{CacheClient W} `{TapeClient W}.
Context `{Sha256} `{DebugFormat}.
Context (clock : nat → Timestamp.t) (has_cache has_tape : bool) (config : SchedulerConfig.t).

(** The requests of clients, and the turns of the background loops *)
Inductive SchedulerOp :=
| OpListBuckets
| OpCreateBucket (bucket : string)
| OpDeleteBucket (bucket : string)
| OpHeadBucket (bucket : string)
| OpHeadObject (bucket key : string)
| OpGetObject (bucket key : string)
| OpPutObject (bucket key : string) (body : list Z) (content_type : option string)
| OpDeleteObject (bucket key : string)
| OpRestoreObject (bucket key : string) (days : Z) (tier : RestoreTier.t)
| OpListObjects (bucket : string) (prefix marker delimiter : option string) (max_keys : Z)
| OpArchiveTurn
| OpRecallTurn.

Definition run_op (op : SchedulerOp) : action (Sched W) Status unit :=
  match op with
  | OpListBuckets => discard Scheduler.list_buckets
  | OpCreateBucket bucket => discard (Scheduler.create_bucket clock bucket)
  | OpDeleteBucket bucket => discard (Scheduler.delete_bucket bucket)
  | OpHeadBucket bucket => discard (head_bucket bucket)
  | OpHeadObject bucket key => discard (Scheduler.head_object bucket key)
  | OpGetObject bucket key => discard (Scheduler.get_object has_cache bucket key)
  | OpPutObject bucket key body content_type =>
      discard (Scheduler.put_object clock has_cache bucket key body content_type)
  | OpDeleteObject bucket key => discard (Scheduler.delete_object has_cache bucket key)
  | OpRestoreObject bucket key days tier => discard (restore_object clock bucket key days tier)
  | OpListObjects bucket prefix marker delimiter max_keys =>
      discard (Scheduler.list_objects bucket prefix marker delimiter max_keys)
  | OpArchiveTurn => archive_turn clock has_cache has_tape config
  | OpRecallTurn => recall_turn clock has_cache has_tape config
  end.
Definition run_ops (ops : list SchedulerOp) (s : Sched W) : Sched W :=
  foldl (λ s op, (run_op op s).1) s ops.

(** The most tasks a recall pass takes *)
Definition recall_limit (max_tasks : Z) : nat :=
  Z.to_nat (Z.min max_tasks
    config.(SchedulerConfig.recall).(RecallSchedulerConfig.max_concurrent_restores)).

(** The most objects an operation writes to the cache *)
Definition writes_of (op : SchedulerOp) : nat :=
  match op with
  | OpPutObject _ _ _ _ => 1
  | OpRecallTurn => recall_limit
      (Z.max config.(SchedulerConfig.recall).(RecallSchedulerConfig.max_concurrent_restores) 1)
  | _ => 0
  end.
End histories.
