(* ===== verification/Interference.v ===== *)
(** * Services that others call in the meantime

    The services of a store are called by several tasks at once: by the
    requests and the background agents of one scheduler, which give way to each
    other at every await, and by other schedulers. A task sees them as a world
    that others may have changed whenever it makes a call: between two of its
    calls, any number of calls of others can be served. A call itself is served
    as a whole. The calls the task makes are recorded: what a task does is
    judged by its record, and the records of several tasks are put together in
    [Composition]. *)

From Stdlib Require Import ZArith Lia String.
From S2P Require Import Prelude Hoare Proto StateMachine Snapshot Raft RustStr MetadataService.
From S2P Require Import External CacheBackend Cache CacheInvariants TapeService Config Workers.
From S2P Require Import SchedulerProto SchedulerClients SchedulerSystem Checksums.

Local Open Scope string_scope.
Local Open Scope list_scope.
Local Open Scope stdpp_scope.

Section shared.
Context `{Prost} `{RocksDB} `{Formats}.
Context {B : Type} `{CacheBackend B} {T : Type} `{TapeBackend T}.
Context (envs : nat → CallEnv) (h : hash_order) (cache_clock : nat → Z) (svc : Settings).
Context (panicked : Status).

Abbreviation system := (System (B := B) (T := T)).

(** ** The world of one task *)

(** A call: the most objects it adds to the cache, and the services it finds
    and leaves *)
Record Call := mkCall { adds : nat; before : system; after : system }.

(** The services, what others do to them before each call to come, and the
    calls made so far *)
Record Shared := mkShared {
  services : system;
  others : list (system → system);
  made : list Call;
}.

(** What a call finds when others have a plan for their turns *)
Definition turn_of (plan : list (system → system)) (s : system) : system :=
  match plan with [] => s | f :: _ => f s end.
(** A call that adds at most [n] objects, after the others had their turn *)
Definition meanwhile {A} (n : nat) (m : action system Status A) : action Shared Status A := λ w,
  let s := turn_of (others w) (services w) in
  let '(s', r) := m s in (mkShared s' (tail (others w)) (made w ++ [mkCall n s s']), r).

#[local] Instance alone_metadata : MetadataClient system := system_metadata envs.
#[local] Instance alone_cache : CacheClient system := system_cache h cache_clock svc.
#[local] Instance alone_tape : TapeClient system := system_tape panicked.

Definition shared_metadata : MetadataClient Shared := {|
  md_put_object object := meanwhile 0 (md_put_object object);
  md_get_object bucket key := meanwhile 0 (md_get_object bucket key);
  md_head_object bucket key := meanwhile 0 (md_head_object bucket key);
  md_delete_object bucket key := meanwhile 0 (md_delete_object bucket key);
  md_list_objects bucket prefix marker max_keys :=
    meanwhile 0 (md_list_objects bucket prefix marker max_keys);
  md_complete_archive_object request := meanwhile 0 (md_complete_archive_object request);
  md_update_restore_status request := meanwhile 0 (md_update_restore_status request);
  md_put_archive_task task := meanwhile 0 (md_put_archive_task task);
  md_get_archive_task id := meanwhile 0 (md_get_archive_task id);
  md_update_archive_task task := meanwhile 0 (md_update_archive_task task);
  md_put_recall_task task := meanwhile 0 (md_put_recall_task task);
  md_get_recall_task id := meanwhile 0 (md_get_recall_task id);
  md_update_recall_task task := meanwhile 0 (md_update_recall_task task);
  md_list_pending_recall_tasks := meanwhile 0 md_list_pending_recall_tasks;
  md_create_bucket bucket := meanwhile 0 (md_create_bucket bucket);
  md_delete_bucket name := meanwhile 0 (md_delete_bucket name);
  md_get_bucket name := meanwhile 0 (md_get_bucket name);
  md_list_buckets := meanwhile 0 md_list_buckets |}.

Definition shared_cache : CacheClient Shared := {|
  ca_put_staging messages := meanwhile 1 (ca_put_staging messages);
  ca_put_restored messages := meanwhile 1 (ca_put_restored messages);
  ca_get key := meanwhile 0 (ca_get key);
  ca_get_staging key := meanwhile 0 (ca_get_staging key);
  ca_delete key := meanwhile 0 (ca_delete key);
  ca_delete_staging key := meanwhile 0 (ca_delete_staging key);
  ca_list_staging_keys limit after := meanwhile 0 (ca_list_staging_keys limit after) |}.

Definition shared_tape : TapeClient Shared := {|
  ta_acquire_drive preferred required := meanwhile 0 (ta_acquire_drive preferred required);
  ta_release_drive drive_id := meanwhile 0 (ta_release_drive drive_id);
  ta_load_tape tape_id drive_id slot_id := meanwhile 0 (ta_load_tape tape_id drive_id slot_id);
  ta_write_bundle messages := meanwhile 0 (ta_write_bundle messages);
  ta_read_bundle drive_id location length_ := meanwhile 0 (ta_read_bundle drive_id location length_) |}.

(** ** The calls of a scheduler *)

Context `{Sha256} {uploads : Uploads}.

Definition metadata_in (s : system) : MetadataState := MetadataService.state (sys_metadata s).

(** What a scheduler asks of the services, with the number of objects it may
    add to the cache: commands that the uploads and the checksums of the
    metadata allow, the staging of a body that was uploaded, with its size and
    digest, the restored copy of bytes that have the checksum of their bundle,
    any read, any removal from the cache, and anything at all of the tape
    worker. *)
Inductive service_call : nat → system → system → Prop :=
| call_command cmd s :
    admissible (metadata_in s) cmd →
    service_call 0 s (on_metadata envs (λ c, apply_and_persist c cmd) s).1
| call_read {A} (f : Env → MetadataState → result Status A) s :
    service_call 0 s (read_metadata envs f s).1
| call_put_staging stream s :
    (∀ m data, collect_stream "empty put_staging chunk" stream None [] = Ok (Some m, data) →
       m.(PutStagingMeta.version_id) = None ∧
       was_uploaded m.(PutStagingMeta.bucket) m.(PutStagingMeta.key) data ∧
       m.(PutStagingMeta.size) = Z.of_nat (length data) ∧
       m.(PutStagingMeta.checksum) = Some (sha256_hex data)) →
    service_call 1 s (on_cache (put_staging h cache_clock svc stream) s).1
| call_put_restored stream s :
    (∀ m data, collect_stream "empty put_restored chunk" stream None [] = Ok (Some m, data) →
       sum_of (metadata_in s)
         (bundle_of m.(PutRestoredMeta.bucket) m.(PutRestoredMeta.key)) = Some (sha256_hex data) ∧
       m.(PutRestoredMeta.size) = Z.of_nat (length data) ∧
       m.(PutRestoredMeta.checksum) = Some (sha256_hex data)) →
    service_call 1 s (on_cache (put_restored h cache_clock svc stream) s).1
| call_get key s : service_call 0 s (on_cache (sent <$> get h cache_clock key) s).1
| call_get_staging key s : service_call 0 s (on_cache (sent <$> get_staging key) s).1
| call_delete key s : service_call 0 s (on_cache (delete_ h key) s).1
| call_delete_staging key s : service_call 0 s (on_cache (delete_staging h key) s).1
| call_list limit after s :
    service_call 0 s (on_cache (fst <$> list_staging_keys h limit after) s).1
| call_tape {A} (m : action T (fault Status) A) s : service_call 0 s (on_tape panicked m s).1.

(** Any number of such calls, which add at most [n] objects to the cache *)
Inductive service_calls : nat → system → system → Prop :=
| calls_none n s : service_calls n s s
| calls_more k n s s' s'' :
    service_call k s s' → service_calls n s' s'' → service_calls (k + n) s s''.

(** A call of a scheduler *)
Definition fair (c : Call) : Prop := service_call (adds c) (before c) (after c).

(** *** Records

    The services as the last call of a record left them, [origin] before the
    first one *)
Definition latest (origin : system) (calls : list Call) : system :=
  default origin (after <$> last calls).
(** What others did before each call, as the services they found and left *)
Fixpoint turns (origin : system) (calls : list Call) : list (system * system) :=
  match calls with
  | [] => []
  | c :: calls => (origin, before c) :: turns (after c) calls
  end.
(** Each call finds what the planned turns make of the services. *)
Fixpoint hears (origin : system) (plan : list (system → system)) (calls : list Call) : Prop :=
  match calls with
  | [] => True
  | c :: calls => before c = turn_of plan origin ∧ hears (after c) (tail plan) calls
  end.
(** A world is what its record says. *)
Definition on_record (origin : system) (plan : list (system → system)) (w : Shared) : Prop :=
  services w = latest origin (made w) ∧ others w = drop (length (made w)) plan ∧
  hears origin plan (made w).
(** The objects that a record may add to the cache *)
Definition additions (calls : list Call) : nat := sum_list (adds <$> calls).

(** Others made only calls of a scheduler, with the numbers of objects that
    each of their turns may have added, [allowed] in all. *)
Definition relied (origin : system) (allowed : nat) (ks : list nat) (calls : list Call) : Prop :=
  Forall2 (λ k t, service_calls k t.1 t.2) ks (turns origin calls) ∧ (sum_list ks ≤ allowed)%nat.
(** The task made only calls of a scheduler, and can add [n] more objects. *)
Definition guaranteed (room n : nat) (calls : list Call) : Prop :=
  Forall fair calls ∧ (additions calls + n ≤ room)%nat.
(** As long as others did, so did the task. *)
Definition reliable (origin : system) (allowed room : nat) (calls : list Call) : Prop :=
  ∀ past ks, past `prefix_of` calls → relied origin allowed ks past → guaranteed room 0 past.

Lemma latest_app origin calls c : latest origin (calls ++ [c]) = after c.
Proof using. unfold latest. by rewrite last_snoc. Qed.
Lemma latest_cons origin c calls : latest origin (c :: calls) = latest (after c) calls.
Proof using. unfold latest. rewrite last_cons. by destruct (last calls). Qed.
Lemma turns_app origin calls c :
  turns origin (calls ++ [c]) = turns origin calls ++ [(latest origin calls, before c)].
Proof using.
  revert origin. induction calls as [|d calls IH]; intros origin; [done|].
  simpl. by rewrite IH, latest_cons.
Qed.
Lemma additions_cons c calls : additions (c :: calls) = (adds c + additions calls)%nat.
Proof using. done. Qed.
Lemma additions_app calls calls' : additions (calls ++ calls') = (additions calls + additions calls')%nat.
Proof using. unfold additions. by rewrite fmap_app, sum_list_with_app. Qed.

Lemma hears_app origin plan calls calls' :
  hears origin plan (calls ++ calls') ↔
  hears origin plan calls ∧ hears (latest origin calls) (drop (length calls) plan) calls'.
Proof using.
  revert origin plan. induction calls as [|c calls IH]; intros origin plan; simpl; [tauto|].
  rewrite IH, latest_cons. destruct plan; simpl; rewrite ?drop_nil; tauto.
Qed.
(** A call keeps the world on record. *)
Lemma on_record_call origin plan w n post :
  let c := mkCall n (turn_of (others w) (services w)) post in
  on_record origin plan w →
  on_record origin plan (mkShared post (tail (others w)) (made w ++ [c])).
Proof using.
  intros c (Hs & Ho & Hh). unfold on_record. simpl. rewrite latest_app, hears_app. split; [done|]. split.
  - rewrite Ho, length_app, <-drop_drop. by destruct (drop _ plan).
  - split; [done|]. simpl. by rewrite <-Ho, <-Hs.
Qed.

Lemma relied_app origin allowed ks calls c :
  relied origin allowed ks (calls ++ [c]) →
  ∃ ks' k, ks = ks' ++ [k] ∧ relied origin allowed ks' calls ∧
    service_calls k (latest origin calls) (before c) ∧ (sum_list ks' + k ≤ allowed)%nat.
Proof using.
  unfold relied. rewrite turns_app. intros [Hks Hsum].
  apply Forall2_app_inv_r in Hks as (ks' & l & Hks' & Hl & ->).
  apply Forall2_cons_inv_r in Hl as (k & l' & Hk & Hnil & ->).
  apply Forall2_nil_inv_r in Hnil as ->. rewrite sum_list_with_app in Hsum. simpl in *.
  exists ks', k. split_and!; try done; lia.
Qed.

Lemma guaranteed_le room n n' calls :
  (n' ≤ n)%nat → guaranteed room n calls → guaranteed room n' calls.
Proof using. intros Hn [? ?]. split; [done|lia]. Qed.
(** One more call that keeps what a record promises *)
Lemma reliable_app origin allowed room calls c :
  reliable origin allowed room calls →
  (∀ ks, relied origin allowed ks (calls ++ [c]) → guaranteed room 0 (calls ++ [c])) →
  reliable origin allowed room (calls ++ [c]).
Proof using.
  intros Hcalls Hc past ks [rest Hpast] Hks. destruct rest as [|d rest _] using rev_ind.
  - rewrite app_nil_r in Hpast. subst past. by eapply Hc.
  - rewrite app_assoc in Hpast. apply app_inj_tail in Hpast as [-> _].
    eapply Hcalls; [by eexists|done].
Qed.

Lemma service_calls_le n n' s s' :
  (n ≤ n')%nat → service_calls n s s' → service_calls n' s s'.
Proof using.
  intros Hn Hs. revert n' Hn. induction Hs as [n s|k n s s1 s2 Hc _ IH]; intros n' Hn.
  - apply calls_none.
  - replace n' with (k + (n' - k))%nat by lia. eapply calls_more; [exact Hc|]. apply IH. lia.
Qed.
Lemma service_calls_app k n s s' s'' :
  service_calls k s s' → service_calls n s' s'' → service_calls (k + n) s s''.
Proof using.
  intros Hs. induction Hs as [k s|k k' s s1 s2 Hc _ IH]; intros Hn.
  - by apply service_calls_le with (n := n); [lia|].
  - rewrite <-Nat.add_assoc. eapply calls_more; [exact Hc|by apply IH].
Qed.
End shared.

(** ** What the calls keep *)

Section kept.
Context `{Prost} `{RocksDB} `{Formats}.
Context {B : Type} `{CacheBackendLaws B} {T : Type} `{TapeBackend T}.
Context `{Sha256Laws} {uploads : Uploads}.
Context (envs : nat → CallEnv) (h : hash_order) (cache_clock : nat → Z) (svc : Settings).
Context (panicked : Status).
Abbreviation system := (System (B := B) (T := T)).

(** What is filed in the cache: uploads without a version, and restored bytes
    with the checksum of the bundle of their key *)
Definition good (st : MetadataState) : bound := λ c k f,
  match c with
  | Staging => k.(CacheKey.version_id) = None
  | Restored => ∀ data, File.bytes f = Some data →
      sum_of st (bundle_of k.(CacheKey.bucket) k.(CacheKey.key)) = Some (sha256_hex data)
  end.

(** A fact about the metadata that calls cannot change *)
Definition stable (φ : MetadataState → Prop) : Prop :=
  ∀ st st', extends st st' → φ st → φ st'.
(** The services keep their invariants, a fact [φ] holds of the metadata, and
    the cache can number [n] more objects. *)
Definition sound (φ : MetadataState → Prop) (n : nat) (s : system) : Prop :=
  consistent (metadata_in s) ∧ φ (metadata_in s) ∧
  inv h no_files (good (metadata_in s)) n (sys_cache s).

Lemma good_extends st st' c k f : extends st st' → good st c k f → good st' c k f.
Proof using. intros Hst. destruct c; simpl; auto. Qed.
Lemma sound_S φ n s : sound φ (S n) s → sound φ n s.
Proof using. intros (Hc & Hφ & Hi). split_and!; try done. by apply inv_S. Qed.
Lemma sound_weaken φ φ' n s : (∀ st, φ st → φ' st) → sound φ n s → sound φ' n s.
Proof using. intros HF (Hc & Hφ & Hi). split_and!; auto. Qed.

Lemma sound_command φ n cmd s :
  stable φ → admissible (metadata_in s) cmd → sound φ n s →
  sound φ n (on_metadata envs (λ c, apply_and_persist c cmd) s).1.
Proof using.
  intros Hst Hadm (Hc & Hφ & Hi). unfold on_metadata.
  pose proof (apply_and_persist_state (envs (sys_calls s)) cmd (sys_metadata s)) as Hstate.
  destruct (apply_and_persist _ _ _) as [md r]. unfold sound, metadata_in in *. simpl in *.
  destruct Hstate as [->| ->]; [done|].
  destruct (admissible_consistent (env (envs (sys_calls s))) cmd _ Hc Hadm) as [Hc' Hext].
  split_and!; [done|by eapply Hst|]. revert Hi. apply inv_weaken; [done|].
  intros c k f. by apply good_extends.
Qed.

(** A call of the cache, of which [d] objects may be new *)
Lemma sound_cache {A} φ d n (m : action (CacheState B) Status A)
    (Q : MetadataState → A → Prop) s :
  hoare (inv h no_files (good (metadata_in s)) (d + n)) m
    (λ a c, inv h no_files (good (metadata_in s)) n c ∧ Q (metadata_in s) a)
    (inv h no_files (good (metadata_in s)) n) →
  sound φ (d + n) s →
  let '(s', r) := on_cache m s in
  sound φ n s' ∧ ∀ a, r = Ok a → Q (metadata_in s') a.
Proof using.
  intros Hm (Hc & Hφ & Hi). specialize (Hm _ Hi). unfold on_cache.
  destruct (m _) as [c [a|err]]; simpl; [|done].
  destruct Hm as [Hm Ha]. split; [done|]. by intros ? [= <-].
Qed.

Lemma sound_on_cache {A} φ d n (m : action (CacheState B) Status A) s :
  hoare (inv h no_files (good (metadata_in s)) (d + n)) m
    (λ _, inv h no_files (good (metadata_in s)) n) (inv h no_files (good (metadata_in s)) n) →
  sound φ (d + n) s → sound φ n (on_cache m s).1.
Proof using.
  intros Hm Hs. pose proof (sound_cache φ d n m (λ _ _, True) s) as Hc.
  destruct (on_cache m s) as [s' r]. apply Hc; [|done].
  eapply hoare_weaken; [apply Hm|done|done|done].
Qed.

Lemma hoare_fmap {S0 E A C} (f : A → C) (m : action S0 E A) (P X : S0 → Prop) :
  hoare P m (λ _, X) X → hoare P (f <$> m) (λ _, X) X.
Proof using.
  intros Hm s Hs. specialize (Hm s Hs). unfold fmap, action_fmap. by destruct (m s) as [? []].
Qed.

Lemma service_call_sound φ k n s s' :
  stable φ → service_call envs h cache_clock svc panicked k s s' →
  sound φ (k + n) s → sound φ n s'.
Proof using.
  intros Hst Hcall. destruct Hcall as [cmd s Hadm|A f s|stream s Hv|stream s Hsum|key s|key s|key s
    |key s|limit after s|A m s]; intros Hs; cbn [Nat.add] in *.
  - by apply sound_command.
  - unfold read_metadata, on_metadata, reads. by destruct (f _ _).
  - eapply sound_on_cache with (d := 1); [|exact Hs].
    apply put_staging_keeps. intros m d t Hm. by apply (Hv m d).
  - eapply sound_on_cache with (d := 1); [|exact Hs].
    apply put_restored_keeps. intros m d e t Hm data [= <-]. by apply (Hsum m).
  - eapply sound_on_cache with (d := 0); [apply hoare_fmap, get_keeps|exact Hs].
  - eapply sound_on_cache with (d := 0); [apply hoare_fmap, get_staging_keeps|exact Hs].
  - eapply sound_on_cache with (d := 0); [apply delete_keeps|exact Hs].
  - eapply sound_on_cache with (d := 0); [apply delete_staging_keeps|exact Hs].
  - eapply sound_on_cache with (d := 0); [apply hoare_fmap, list_keeps|exact Hs].
  - unfold on_tape. by destruct (m _) as [t [a|[e|]]].
Qed.

Lemma service_calls_sound φ k n s s' :
  stable φ → service_calls envs h cache_clock svc panicked k s s' →
  sound φ (k + n) s → sound φ n s'.
Proof using.
  intros Hst Hcalls. revert n. induction Hcalls as [k s|k k' s s' s'' Hcall _ IH]; intros n Hs.
  - induction k as [|k IHk]; [done|]. by apply IHk, sound_S.
  - apply IH. eapply service_call_sound; [done|exact Hcall|]. by rewrite Nat.add_assoc.
Qed.
(** *** Stable facts *)

Definition true_fact : MetadataState → Prop := λ _, True.
Lemma stable_true : stable true_fact.
Proof using. done. Qed.
Lemma stable_and φ ψ : stable φ → stable ψ → stable (λ st, φ st ∧ ψ st).
Proof using. intros Hφ Hψ st st' Hst [? ?]. split; [by eapply Hφ|by eapply Hψ]. Qed.
Lemma stable_in_bundle o : stable (λ st, in_bundle st o).
Proof using. intros st st' Hst. by apply in_bundle_extends. Qed.
Lemma stable_task t : stable (λ st, task_ok st t).
Proof using. intros st st' Hst. apply Hst. Qed.
Lemma stable_known (c : bool) t : stable (λ st, c = true → task_ok st t).
Proof using. intros st st' Hst Hc ?. by apply Hst, Hc. Qed.
End kept.

Create HintDb stability.
#[export] Hint Resolve stable_true stable_and stable_in_bundle stable_task stable_known : stability.
(** Shows that a fact is stable. *)
Ltac stable := solve [auto with stability].
