(* ===== verification/Claims.v ===== *)
(** * Claims are exclusive

    Several agents and several schedulers look for the same work. A task is
    claimed by a write of the metadata service that is refused unless the task
    was unclaimed, so that of all who claim it, interleaved in any way, at most
    one succeeds. *)

From Stdlib Require Import ZArith String.
From S2P Require Import Prelude Hoare Proto StateMachine MetadataInvariants LifeCycles Snapshot Raft RustStr.
From S2P Require Import MetadataService External CacheBackend Cache TapeService Config Workers.
From S2P Require Import SchedulerProto SchedulerClients Scheduler SchedulerSystem Checksums Interference.

Local Open Scope string_scope.
Local Open Scope list_scope.
Local Open Scope stdpp_scope.

(** ** Claimed tasks stay claimed *)

Definition archive_claimed_in (st : MetadataState) (id : string) : Prop :=
  ∃ t, archive_tasks st !! id = Some t ∧ claimed_status t.(ArchiveTask.status) = true.
Definition archive_unclaimed_in (st : MetadataState) (id : string) : Prop :=
  ∃ t, archive_tasks st !! id = Some t ∧ claimed_status t.(ArchiveTask.status) = false.

(** The same of a recall: in progress, completed, expired or failed *)
Definition claimed_restore (status : Z) : bool :=
  existsb (λ s, status == RestoreStatus.as_i32 s)
    [RestoreStatus.RestoreInProgress; RestoreStatus.RestoreCompleted;
     RestoreStatus.RestoreExpired; RestoreStatus.RestoreFailed].
Definition recall_claimed_in (st : MetadataState) (id : string) : Prop :=
  ∃ t, recall_tasks st !! id = Some t ∧ claimed_restore t.(RecallTask.status) = true.
Definition recall_unclaimed_in (st : MetadataState) (id : string) : Prop :=
  ∃ t, recall_tasks st !! id = Some t ∧ claimed_restore t.(RecallTask.status) = false.

Lemma archive_claimed_not st id : archive_claimed_in st id → archive_unclaimed_in st id → False.
Proof. intros (t & Ht & Hc) (t' & Ht' & Hu). congruence. Qed.
Lemma recall_claimed_not st id : recall_claimed_in st id → recall_unclaimed_in st id → False.
Proof. intros (t & Ht & Hc) (t' & Ht' & Hu). congruence. Qed.

Section steps.
Context `{Sha256} {uploads : Uploads}.

Lemma archive_claimed_step e cmd st id :
  admissible st cmd → archive_claimed_in st id →
  archive_claimed_in (apply_command e cmd st).1 id.
Proof using.
  intros Hadm (t & Ht & Hc). destruct (touches_archive_tasks cmd) eqn:Htouch.
  2:{ exists t. by rewrite (proj1 (tasks_frame e cmd st) Htouch). }
  destruct (archive_task_step e cmd st id t Ht) as (t' & Ht' & [->|Hv]); [by exists t|].
  destruct cmd; simplify_eq/=; exists t'; (split; [done|]); revert Ht'.
  - unfold apply_PutArchiveTask. run_action.
    match goal with |- context [archive_tasks st !! ?i] =>
      destruct (archive_tasks st !! i) eqn:E; simpl end.
    + destruct (is_same_archive_task _ _); simpl; intros; by simplify_eq.
    + intros [[? ?]|[? ?]]%lookup_insert_Some; congruence.
  - clear Hv. unfold apply_UpdateArchiveTask. run_action.
    destruct (archive_tasks st !! ArchiveTask.id task) as [cur|]; simpl; [|intros; by simplify_eq].
    destruct (validate_archive_task_transition _ _) as [[]|]; simpl; [|intros; by simplify_eq].
    intros [[? <-]|[? ?]]%lookup_insert_Some; [done|by simplify_eq].
Qed.

Lemma restore_try_from_Some z s : RestoreStatus.try_from z = Some s → RestoreStatus.as_i32 s = z.
Proof using. unfold RestoreStatus.try_from. by repeat case_match; intros; simplify_eq. Qed.
Lemma recall_claimed_step e cmd st id :
  recall_claimed_in st id → recall_claimed_in (apply_command e cmd st).1 id.
Proof using.
  intros (t & Ht & Hc).
  destruct (recall_task_step e cmd st id t Ht) as (t' & Ht' & [->|Hv]); [by exists t|].
  exists t'. split; [done|]. revert Hv. unfold claimed_restore in Hc. simpl in Hc.
  unfold validate_restore_transition.
  repeat (apply orb_true_iff in Hc as [Hc%bool_decide_eq_true|Hc]; [rewrite Hc; simpl|]); [..|done].
  all: destruct (RestoreStatus.try_from t'.(RecallTask.status)) as [s|] eqn:Hs; simpl; [|done].
  all: apply restore_try_from_Some in Hs; rewrite <-Hs; by destruct s.
Qed.
End steps.

(** ** Claims among other calls *)

Section claims.
Context `{Prost} `{RocksDB} `{Formats}.
Context {B : Type} `{CacheBackend B} {T : Type} `{TapeBackend T} `{Sha256} {uploads : Uploads}.
Context (envs : nat → CallEnv) (h : hash_order) (cache_clock : nat → Z) (svc : Settings).
Context (panicked : Status) (clock : nat → Timestamp.t).

Abbreviation system := (System (B := B) (T := T)).
Abbreviation call := (Call (B := B) (T := T)).
Abbreviation scheduler := (Sched (Shared (B := B) (T := T))).
Abbreviation sched := (action scheduler Status).
Abbreviation calls := (service_calls (B := B) (T := T) envs h cache_clock svc panicked).
#[local] Instance claims_metadata : MetadataClient (Shared (B := B) (T := T)) :=
  shared_metadata envs.

Lemma command_calls_keep (P : MetadataState → Prop) k (s s' : system) :
  (∀ e cmd st, admissible st cmd → P st → P (apply_command e cmd st).1) →
  service_call envs h cache_clock svc panicked k s s' → P (metadata_in s) → P (metadata_in s').
Proof using.
  intros Hstep Hcall. destruct Hcall as [cmd s Hadm|A f s|stream s Hv|stream s Hsum|key s|key s|key s
    |key s|limit after s|A m s]; intros HP;
    unfold on_cache, on_tape, read_metadata, on_metadata, reads, metadata_in in *.
  2:{ by destruct (f _ _). }
  2-9: by lazymatch goal with |- context [let '(_, _) := ?call in _] => destruct call end.
  pose proof (apply_and_persist_state (envs (sys_calls s)) cmd (sys_metadata s)) as Hs.
  destruct (apply_and_persist _ _ _) as [md r]. simpl in *. destruct Hs as [->| ->]; auto.
Qed.
Lemma calls_keep (P : MetadataState → Prop) n (s s' : system) :
  (∀ e cmd st, admissible st cmd → P st → P (apply_command e cmd st).1) →
  calls n s s' → P (metadata_in s) → P (metadata_in s').
Proof using.
  intros Hstep Hcalls. induction Hcalls as [|k n s s' s'' Hcall _ IH]; [done|]. intros HP.
  apply IH. by eapply command_calls_keep.
Qed.

(** The call that decides a claim: it finds the task unclaimed and leaves it
    claimed. *)
Definition decides (unclaimed claimed : MetadataState → string → Prop) (id : string)
    (c : call) : Prop :=
  unclaimed (metadata_in (before c)) id ∧ claimed (metadata_in (after c)) id.

(** A call that has on the metadata the effect of a claim that is accepted: an
    update that puts the task in progress *)
Definition claims_archive_task (id : string) (c : call) : Prop :=
  ∃ e task, task.(ArchiveTask.id) = id ∧
    task.(ArchiveTask.status) = ArchiveTaskStatus.as_i32 ArchiveTaskStatus.ArchiveTaskInProgress ∧
    apply_command e (UpdateArchiveTask task) (metadata_in (before c))
      = (metadata_in (after c), Ok tt).
Definition claims_recall_task (id : string) (c : call) : Prop :=
  ∃ e task, task.(RecallTask.id) = id ∧
    task.(RecallTask.status) = RestoreStatus.as_i32 RestoreStatus.RestoreInProgress ∧
    apply_command e (UpdateRecallTask task) (metadata_in (before c))
      = (metadata_in (after c), Ok tt).

(** An acknowledged command, as a call *)
Lemma command_made cmd :
  hoare (λ _ : scheduler, True)
    (on_world (meanwhile 0 (on_metadata envs (λ c, apply_and_persist c cmd))))
    (λ _ s, ∃ c e, c ∈ made (world s) ∧
       apply_command e cmd (metadata_in (before c)) = (metadata_in (after c), Ok tt)) (λ _, True).
Proof using.
  intros s _. unfold on_world, meanwhile, on_metadata.
  set (pre := turn_of (others (world s)) (services (world s))).
  pose proof (apply_and_persist_Ok (envs (sys_calls pre)) cmd (sys_metadata pre)) as Hok.
  destruct (apply_and_persist _ _ _) as [md [[]|err]]; simpl; [|done].
  eexists _, _. split; [apply elem_of_app; right; by apply list_elem_of_singleton|].
  simpl. by apply Hok.
Qed.

Lemma update_archive_decides e task st st' :
  task.(ArchiveTask.status) = ArchiveTaskStatus.as_i32 ArchiveTaskStatus.ArchiveTaskInProgress →
  apply_command e (UpdateArchiveTask task) st = (st', Ok tt) →
  archive_unclaimed_in st task.(ArchiveTask.id) ∧ archive_claimed_in st' task.(ArchiveTask.id).
Proof using.
  intros Hs. simpl. unfold apply_UpdateArchiveTask. run_action.
  destruct (archive_tasks st !! ArchiveTask.id task) as [cur|] eqn:Hcur; simpl; [|done].
  destruct (validate_archive_task_transition _ _) as [[]|] eqn:Hv; simpl; [|done].
  intros [= <-]. split.
  - exists cur. split; [done|]. rewrite Hs in Hv. unfold validate_archive_task_transition in Hv.
    simpl in Hv. destruct (ArchiveTaskStatus.try_from cur.(ArchiveTask.status)) as [a|] eqn:Ha;
      [|done]. apply archive_try_from_Some in Ha as ->. by destruct a.
  - exists task. rewrite Hs. split; [|done]. simpl. by rewrite lookup_insert_eq.
Qed.

Lemma update_recall_decides e task st st' :
  task.(RecallTask.status) = RestoreStatus.as_i32 RestoreStatus.RestoreInProgress →
  apply_command e (UpdateRecallTask task) st = (st', Ok tt) →
  recall_unclaimed_in st task.(RecallTask.id) ∧ recall_claimed_in st' task.(RecallTask.id).
Proof using.
  intros Hs. simpl. unfold apply_UpdateRecallTask. run_action.
  destruct (recall_tasks st !! RecallTask.id task) as [cur|] eqn:Hcur; simpl; [|done].
  destruct (validate_restore_transition _ _) as [[]|] eqn:Hv; simpl; [|done].
  intros [= <-]. split.
  - exists cur. split; [done|]. rewrite Hs in Hv. unfold claimed_restore.
    apply not_true_iff_false. simpl. intros Hc. revert Hv. unfold validate_restore_transition.
    repeat (apply orb_true_iff in Hc as [Hc%bool_decide_eq_true|Hc]; [by rewrite Hc|]). done.
  - exists task. rewrite Hs. split; [|done]. simpl. by rewrite lookup_insert_eq.
Qed.

Lemma archive_claim_decides id c :
  claims_archive_task id c → decides archive_unclaimed_in archive_claimed_in id c.
Proof using. intros (e & task & <- & Hs & Happ). by eapply update_archive_decides. Qed.
Lemma recall_claim_decides id c :
  claims_recall_task id c → decides recall_unclaimed_in recall_claimed_in id c.
Proof using. intros (e & task & <- & Hs & Happ). by eapply update_recall_decides. Qed.

Lemma any_call {A} (m : sched A) : hoare (λ _, True) m (λ _ _, True) (λ _, True).
Proof using. intros s _. by destruct (m s) as [? []]. Qed.

(** An update that may be refused, of which an acknowledged one decides *)
Lemma update_decides cmd (f : call → Prop) :
  (∀ e st st' c, apply_command e cmd st = (st', Ok tt) →
     metadata_in (before c) = st → metadata_in (after c) = st' → f c) →
  hoare (λ _ : scheduler, True)
    (ignoring FailedPrecondition
      (on_world (meanwhile 0 (on_metadata envs (λ c, apply_and_persist c cmd)))))
    (λ updated s, updated = true → ∃ c, c ∈ made (world s) ∧ f c) (λ _, True).
Proof using.
  intros Hf. unfold ignoring. eapply hoare_bind; [apply hoare_attempt, command_made|].
  intros [[]|err].
  - apply hoare_ret. intros s (c & e & Hc & Happ) _. exists c. split; [done|]. by eapply Hf.
  - case_bool_decide; [by apply hoare_ret|by intros s].
Qed.

Lemma archive_claim_decided task :
  hoare (λ _ : scheduler, True) (claim_archive_task clock task)
    (λ r s, r.1 = true → ∃ c, c ∈ made (world s) ∧
       decides archive_unclaimed_in archive_claimed_in r.2.(ArchiveTask.id) c) (λ _, True).
Proof using.
  unfold claim_archive_task.
  do 3 (eapply hoare_bind; [apply any_call|intros ?]).
  match goal with |- hoare _ (match ?status with _ => _ end) _ _ => destruct status end;
    try (by apply hoare_ret); [by intros s|].
  eapply hoare_bind; [apply any_call|intros now]. set (claimed := ArchiveTask.set_started_at _ _).
  eapply hoare_bind.
  { apply (update_decides (UpdateArchiveTask claimed)
      (decides archive_unclaimed_in archive_claimed_in claimed.(ArchiveTask.id))).
    intros e st st' c Happ <- <-. by eapply update_archive_decides. }
  intros updated. apply hoare_ret. intros s Hs. by destruct updated.
Qed.

Lemma recall_claim_decided task :
  hoare (λ _ : scheduler, True) (claim_recall_task clock task)
    (λ r s, r.1 = true → ∃ c, c ∈ made (world s) ∧
       decides recall_unclaimed_in recall_claimed_in r.2.(RecallTask.id) c) (λ _, True).
Proof using.
  unfold claim_recall_task.
  do 3 (eapply hoare_bind; [apply any_call|intros ?]).
  match goal with |- hoare _ (match ?status with _ => _ end) _ _ => destruct status end;
    try (by apply hoare_ret).
  all: eapply hoare_bind; [apply any_call|intros now];
    set (claimed := RecallTask.set_started_at _ _);
    set (f := decides recall_unclaimed_in recall_claimed_in claimed.(RecallTask.id)).
  all: eapply hoare_bind; [apply (update_decides (UpdateRecallTask claimed) f);
    intros e st st' c Happ <- <-; by eapply update_recall_decides|].
  all: intros [] ; simpl; [|by apply hoare_ret].
  all: apply (hoare_bind _ _ (λ _ s, ∃ c, c ∈ made (world s) ∧ f c));
    [|intros ?; by apply hoare_ret].
  all: intros s Hs; destruct (Hs eq_refl) as (c & Hc & Hf);
    unfold update_object_restore_status, on_world; simpl; unfold meanwhile.
  all: destruct (on_metadata _ _ _) as [s' []]; [|done]; exists c; split; [|done];
    simpl; set_solver.
Qed.

(** Of two calls that decide the same claim, neither follows the other. *)
Lemma one_decides (unclaimed claimed : MetadataState → string → Prop) id c1 c2 n :
  (∀ st, claimed st id → unclaimed st id → False) →
  (∀ e cmd st, admissible st cmd → claimed st id → claimed (apply_command e cmd st).1 id) →
  decides unclaimed claimed id c1 → decides unclaimed claimed id c2 →
  calls n (after c1) (before c2) → False.
Proof using.
  intros Hnot Hstep [_ Hc] [Hu _] Hn. eapply Hnot, Hu.
  by apply (calls_keep (λ st, claimed st id) n (after c1) (before c2)).
Qed.

(** C14: Of two agents or schedulers that claim the same archive task, however
    their calls and those of others interleave, at most one succeeds: each
    success has a call of its own that finds the task unclaimed and leaves it
    claimed, and when one of these calls comes after the other in a history of
    calls, the tasks are different. *)
Theorem archive_claims_exclude (task1 task2 t1 t2 : ArchiveTask.t) (s1 s1' s2 s2' : scheduler) :
  made (world s1) = [] → made (world s2) = [] →
  claim_archive_task clock task1 s1 = (s1', Ok (true, t1)) →
  claim_archive_task clock task2 s2 = (s2', Ok (true, t2)) →
  let claim id := decides archive_unclaimed_in archive_claimed_in id in
  ∃ c1 c2, c1 ∈ made (world s1') ∧ claim t1.(ArchiveTask.id) c1 ∧
    c2 ∈ made (world s2') ∧ claim t2.(ArchiveTask.id) c2 ∧
    ∀ n, calls n (after c1) (before c2) ∨ calls n (after c2) (before c1) →
    t1.(ArchiveTask.id) ≠ t2.(ArchiveTask.id).
Proof.
  intros _ _ Hrun1 Hrun2.
  pose proof (archive_claim_decided task1 s1 I) as Hd1. rewrite Hrun1 in Hd1.
  pose proof (archive_claim_decided task2 s2 I) as Hd2. rewrite Hrun2 in Hd2.
  destruct (Hd1 eq_refl) as (c1 & Hc1 & Hdec1), (Hd2 eq_refl) as (c2 & Hc2 & Hdec2).
  exists c1, c2. split_and!; [done..|]. intros n Hn Hid. simpl in *. rewrite Hid in *.
  destruct Hn as [Hn|Hn]; (eapply one_decides; [| |..|exact Hn]; [..|done|done]).
  all: intros; first [by eapply archive_claimed_not|by eapply archive_claimed_step].
Qed.

(** C15: Of two agents or schedulers that claim the same recall, however their
    calls and those of others interleave, at most one succeeds: each success
    has a call of its own that finds the task unclaimed and leaves it claimed,
    and when one of these calls comes after the other in a history of calls,
    the tasks are different. *)
Theorem recall_claims_exclude (task1 task2 t1 t2 : RecallTask.t) (s1 s1' s2 s2' : scheduler) :
  made (world s1) = [] → made (world s2) = [] →
  claim_recall_task clock task1 s1 = (s1', Ok (true, t1)) →
  claim_recall_task clock task2 s2 = (s2', Ok (true, t2)) →
  let claim id := decides recall_unclaimed_in recall_claimed_in id in
  ∃ c1 c2, c1 ∈ made (world s1') ∧ claim t1.(RecallTask.id) c1 ∧
    c2 ∈ made (world s2') ∧ claim t2.(RecallTask.id) c2 ∧
    ∀ n, calls n (after c1) (before c2) ∨ calls n (after c2) (before c1) →
    t1.(RecallTask.id) ≠ t2.(RecallTask.id).
Proof.
  intros _ _ Hrun1 Hrun2.
  pose proof (recall_claim_decided task1 s1 I) as Hd1. rewrite Hrun1 in Hd1.
  pose proof (recall_claim_decided task2 s2 I) as Hd2. rewrite Hrun2 in Hd2.
  destruct (Hd1 eq_refl) as (c1 & Hc1 & Hdec1), (Hd2 eq_refl) as (c2 & Hc2 & Hdec2).
  exists c1, c2. split_and!; [done..|]. intros n Hn Hid. simpl in *. rewrite Hid in *.
  destruct Hn as [Hn|Hn]; (eapply one_decides; [| |..|exact Hn]; [..|done|done]).
  all: intros; first [by eapply recall_claimed_not|by eapply recall_claimed_step].
Qed.
End claims.
