(* ===== verification/SchedulerIntegrity.v ===== *)
(** * The integrity of restored objects

    The scheduler over the metadata service, a cache whose backend keeps its
    laws, and any tape worker, with other tasks calling them in the meantime:
    along every history of requests and passes the checksums recorded in the
    metadata, the bundles and the recall tasks agree, every restored copy in
    the cache has the checksum of its bundle, and a download returns the bytes
    its object's metadata describes. *)

From Stdlib Require Import ZArith Lia String Ascii.
From S2P Require Import Prelude Hoare Proto StateMachine MetadataInvariants Snapshot Raft RustStr MetadataService.
From S2P Require Import External CacheBackend Cache CacheInvariants CacheTheorems TapeService.
From S2P Require Import SchedulerProto Config SchedulerClients Scheduler SchedulerTraces SchedulerSystem Checksums.
From S2P Require Import Histories Interference.

Local Open Scope string_scope.
Local Open Scope list_scope.
Local Open Scope stdpp_scope.

Section integrity.
Context `{Prost} `{RocksDB} `{Formats}.
Context {B : Type} `{CacheBackendLaws B} {T : Type} `{TapeBackend T}.
Context `{Sha256Laws} `{DebugFormat} {uploads : Uploads}.
Context (envs : nat → CallEnv) (h : hash_order) (cache_clock : nat → Z) (svc : Settings).
Context (panicked : Status) (clock : nat → Timestamp.t) (has_cache has_tape : bool).
Context (config : SchedulerConfig.t).

Abbreviation system := (System (B := B) (T := T)).
Abbreviation shared := (Shared (B := B) (T := T)).
#[local] Instance the_metadata : MetadataClient shared := shared_metadata envs.
#[local] Instance the_cache : CacheClient shared := shared_cache h cache_clock svc.
#[local] Instance the_tape : TapeClient shared := shared_tape panicked.

Abbreviation scheduler := (Sched shared).
Abbreviation sched := (action scheduler Status).
Abbreviation called := (service_call envs h cache_clock svc panicked).

Definition metadata_of (s : scheduler) : MetadataState := metadata_in (services (world s)).

(** The services when the task began, what others do in their turns, and how
    many objects others and the task may add to the cache in all *)
Context (origin : system) (plan : list (system → system)) (allowed room : nat).
Abbreviation relies := (relied envs h cache_clock svc panicked origin allowed).
Abbreviation guarantees := (guaranteed envs h cache_clock svc panicked room).

(** What the task did is reliable. If others made only calls of a scheduler so
    far, the services are sound, with room in the cache for [n] objects besides
    the ones others may still add, and the task can add [n] more. *)
Definition safe (φ : MetadataState → Prop) (n : nat) (s : scheduler) : Prop :=
  let w := world s in
  on_record origin plan w ∧
  reliable envs h cache_clock svc panicked origin allowed room (made w) ∧
  ∀ ks, relies ks (made w) →
    sound h φ (n + (allowed - sum_list ks)) (services w) ∧ guarantees n (made w).

Lemma safe_S φ n s : safe φ (S n) s → safe φ n s.
Proof using.
  intros (Hw & Hr & Hs). split_and!; [done..|]. intros ks Hks.
  destruct (Hs ks Hks) as [Hsound Hg]. split; [by apply sound_S|].
  by apply guaranteed_le with (n := S n); [lia|].
Qed.
Lemma safe_le φ n n' s : (n' ≤ n)%nat → safe φ n s → safe φ n' s.
Proof using. induction 1 as [|n Hn IH]; [done|]. intros Hs. by apply IH, safe_S. Qed.
(** What follows from what is known *)
Lemma safe_infer φ φ' n s :
  (∀ st, consistent st → φ st → φ' st) → safe φ n s → safe φ' n s.
Proof using.
  intros HF (Hw & Hr & Hs). split_and!; [done..|]. intros ks Hks.
  destruct (Hs ks Hks) as [(Hc & Hφ & Hi) Hg]. split; [|done]. split_and!; auto.
Qed.
Lemma safe_weaken φ φ' n s : (∀ st, φ st → φ' st) → safe φ n s → safe φ' n s.
Proof using. intros HF. apply safe_infer. auto. Qed.
Lemma safe_world φ n s s' : world s' = world s → safe φ n s → safe φ n s'.
Proof using. unfold safe. by intros ->. Qed.

(** *** Calls *)

Abbreviation keeps φ n m := (hoare (safe φ n) m (λ _, safe φ n) (safe φ n)).

(** A call, of which [d] objects may be new in the cache: if others did what
    they may, it finds sound services. *)
Lemma call_keeps {A} φ d n (m : action system Status A) (Q : MetadataState → A → Prop) :
  stable φ →
  (∀ s, consistent (metadata_in s) → φ (metadata_in s) → called d s (m s).1) →
  (∀ s k, sound h φ (d + k) s → let '(s', r) := m s in
     sound h φ k s' ∧ ∀ a, r = Ok a → Q (metadata_in s') a) →
  hoare (safe φ (d + n)) (on_world (meanwhile d m) : sched A)
    (λ a, safe (λ st, φ st ∧ Q st a) n) (safe φ n).
Proof.
  intros Hst Hcall Hm s (Hw & Hreliable & Hs). unfold on_world, meanwhile.
  set (found := turn_of (others (world s)) (services (world s))).
  specialize (Hm found). specialize (Hcall found). destruct (m found) as [post r].
  set (made' := made (world s) ++ [mkCall d found post]).
  assert (Hnow : ∀ ks, relies ks made' →
    (sound h φ (n + (allowed - sum_list ks)) post ∧ ∀ a, r = Ok a → Q (metadata_in post) a) ∧
    guarantees n made').
  { intros ks (ks' & k & -> & Hks' & Hturn & Hsum)%relied_app. rewrite sum_list_with_app. simpl in *.
    destruct (Hs ks' Hks') as [Hsound [Hfair Hroom]]. rewrite <-(proj1 Hw) in Hturn.
    assert (Hfound : sound h φ (d + (n + (allowed - (sum_list ks' + (k + 0))))) found).
    { eapply (service_calls_sound envs h cache_clock svc panicked φ k); [done|exact Hturn|].
      by replace (k + _)%nat with (d + n + (allowed - sum_list ks'))%nat by lia. }
    split; [by apply Hm|]. split.
    - apply Forall_app_2; [done|]. constructor; [|done]. apply Hcall; apply Hfound.
    - unfold made'. rewrite additions_app. unfold additions at 2. simpl. lia. }
  assert (Hsafe : ∀ ψ s', world s' = mkShared post (tail (others (world s))) made' →
    (∀ st, (∀ a, r = Ok a → Q st a) → φ st → ψ st) → safe ψ n s').
  { intros ψ s' Hw' Hψ. unfold safe. rewrite Hw'. simpl. unfold made'.
    split; [by apply on_record_call|]. split.
    - apply reliable_app; [done|]. intros ks Hks. apply (guaranteed_le _ _ _ _ _ _ n); [lia|].
      by apply (Hnow ks).
    - intros ks Hks. destruct (Hnow ks Hks) as [[(Hc & Hφ & Hi) HQ] Hg].
      split; [|done]. split_and!; auto. }
  destruct r as [a|err]; (eapply Hsafe; [reflexivity|]).
  - intros st HQ Hφ. split; [done|]. by apply HQ.
  - auto.
Qed.

Lemma command_keeps φ n cmd :
  stable φ → (∀ st, consistent st → φ st → admissible st cmd) →
  keeps φ n (on_world (meanwhile 0 (on_metadata envs (λ c, apply_and_persist c cmd))) : sched _).
Proof.
  intros Hst Hadm. eapply hoare_weaken; [apply (call_keeps φ 0 n _ (λ _ _, True) Hst)| | |].
  - intros s Hc Hφ. apply call_command. auto.
  - intros s k Hs. pose proof (sound_command envs h φ k cmd s Hst) as Hcmd.
    destruct (on_metadata _ _ s) as [s' r]. split; [|done]. apply Hcmd; [|done].
    destruct Hs as (? & ? & _). auto.
  - done.
  - intros ? s. apply safe_weaken. by intros st [].
  - done.
Qed.

Lemma read_keeps {A} φ n (f : Env → MetadataState → result Status A) :
  stable φ →
  hoare (safe φ n) (on_world (meanwhile 0 (read_metadata envs f)) : sched A)
    (λ a, safe (λ st, φ st ∧ ∃ e, f e st = Ok a) n) (safe φ n).
Proof.
  intros Hst. apply (call_keeps φ 0 n _ (λ st a, ∃ e, f e st = Ok a) Hst).
  - intros s _ _. apply call_read.
  - intros s k Hs. unfold read_metadata, on_metadata, reads, metadata_in in *.
    split; [done|]. intros a Ha. by eexists.
Qed.

Lemma cache_keeps {A} φ d n (m : action (CacheState B) Status A) (Q : MetadataState → A → Prop) :
  stable φ →
  (∀ s : system, φ (metadata_in s) → called d s (on_cache m s).1) →
  (∀ st k, φ st → hoare (inv h no_files (good st) (d + k)) m
     (λ a c, inv h no_files (good st) k c ∧ Q st a) (inv h no_files (good st) k)) →
  hoare (safe φ (d + n)) (on_world (meanwhile d (on_cache m)) : sched A)
    (λ a, safe (λ st, φ st ∧ Q st a) n) (safe φ n).
Proof.
  intros Hst Hcall Hm. apply (call_keeps φ d n _ Q Hst).
  - intros s _. apply Hcall.
  - intros s k Hs. apply (sound_cache h φ d k m Q s); [|done]. apply Hm, Hs.
Qed.
(** The same, when nothing is to be known of the answer *)
Lemma cache_writes {A} φ d n (m : action (CacheState B) Status A) :
  stable φ →
  (∀ s : system, φ (metadata_in s) → called d s (on_cache m s).1) →
  (∀ st k, φ st → hoare (inv h no_files (good st) (d + k)) m
     (λ _, inv h no_files (good st) k) (inv h no_files (good st) k)) →
  hoare (safe φ (d + n)) (on_world (meanwhile d (on_cache m)) : sched A)
    (λ _, safe φ n) (safe φ n).
Proof.
  intros Hst Hcall Hm.
  eapply hoare_weaken; [apply (cache_keeps φ d n m (λ _ _, True) Hst Hcall)|done| |done].
  - intros st k Hφ. eapply hoare_weaken; [by apply Hm|done|done|done].
  - intros ? s. apply safe_weaken. by intros st [].
Qed.

Lemma tape_keeps {A} φ n (m : action T (fault Status) A) :
  stable φ → keeps φ n (on_world (meanwhile 0 (on_tape panicked m)) : sched A).
Proof.
  intros Hst. eapply hoare_weaken; [apply (call_keeps φ 0 n _ (λ _ _, True) Hst)| | |].
  - intros s _ _. apply call_tape.
  - intros s k Hs. unfold on_tape. by destruct (m _) as [t [a|[e|]]].
  - done.
  - intros ? s. apply safe_weaken. by intros st [].
  - done.
Qed.

(** *** Sequences of calls that add no fact *)

Lemma kept_bind {A C} φ n (m : sched A) (k : A → sched C) :
  keeps φ n m → (∀ a, keeps φ n (k a)) → keeps φ n (m ≫= k).
Proof using. intros Hm Hk. by eapply hoare_bind. Qed.
Lemma kept_ret {A} φ n (a : A) : keeps φ n (mret a : sched A).
Proof using. by apply hoare_ret. Qed.
Lemma kept_throw {A} φ n e : keeps φ n (throw e : sched A).
Proof using. apply hoare_throw. Qed.
Lemma kept_lift {A} φ n r : keeps φ n (lift r : sched A).
Proof using. apply hoare_lift. Qed.
Lemma kept_reject φ n b e : keeps φ n (reject_if b e : sched unit).
Proof using. apply hoare_reject. Qed.
Lemma kept_attempt {A} φ n (m : sched A) : keeps φ n m → keeps φ n (attempt m).
Proof using.
  intros Hm. eapply hoare_weaken; [apply hoare_attempt, Hm|done| |done]. by intros [] s.
Qed.
Lemma kept_discard {A} φ n (m : sched A) : keeps φ n m → keeps φ n (discard m).
Proof using. intros Hm. by apply hoare_discard. Qed.
Lemma kept_ignoring φ n c (m : sched unit) : keeps φ n m → keeps φ n (ignoring c m).
Proof using.
  intros Hm. apply kept_bind; [by apply kept_attempt|]. intros [|e]; [apply kept_ret|].
  case_bool_decide; [apply kept_ret|apply kept_throw].
Qed.
Lemma kept_now φ n : keeps φ n (Scheduler.now_timestamp clock : sched _).
Proof using. intros s Hs. by eapply safe_world. Qed.
Lemma kept_read {A} φ n (f : Env → MetadataState → result Status A) :
  stable φ → keeps φ n (on_world (meanwhile 0 (read_metadata envs f)) : sched A).
Proof using.
  intros Hst. eapply hoare_weaken; [by apply read_keeps|done| |done].
  intros a s. apply safe_weaken. by intros st [].
Qed.
Lemma kept_cache {A} φ n (m : action (CacheState B) Status A) :
  stable φ → (∀ s : system, called 0 s (on_cache m s).1) →
  (∀ P k, hoare (inv h no_files P k) m (λ _, inv h no_files P k) (inv h no_files P k)) →
  keeps φ n (on_world (meanwhile 0 (on_cache m)) : sched A).
Proof using. intros Hst Hcall Hm. apply (cache_writes φ 0 n m Hst); auto. Qed.
Lemma kept_delete φ n k : stable φ → keeps φ n (on_world (ca_delete k) : sched unit).
Proof using.
  intros Hst. apply kept_cache; [done|by constructor|]. intros P m. apply delete_keeps.
Qed.
Lemma kept_delete_staging φ n k : stable φ → keeps φ n (on_world (ca_delete_staging k) : sched unit).
Proof using.
  intros Hst. apply kept_cache; [done|by constructor|]. intros P m. apply delete_staging_keeps.
Qed.

(** Commands that are always admissible *)
Lemma kept_command φ n cmd :
  stable φ → (∀ st, admissible st cmd) →
  keeps φ n (on_world (meanwhile 0 (on_metadata envs (λ c, apply_and_persist c cmd))) : sched _).
Proof using. intros Hst Hadm. by apply command_keeps. Qed.

Create HintDb keeping.
#[local] Hint Resolve kept_ret kept_throw kept_lift kept_reject kept_attempt kept_discard
  kept_ignoring kept_now kept_delete kept_delete_staging : keeping.
#[local] Hint Extern 1 (hoare _ (on_world (ta_acquire_drive _ _)) _ _) => apply tape_keeps; stable : keeping.
#[local] Hint Extern 1 (hoare _ (on_world (ta_release_drive _)) _ _) => apply tape_keeps; stable : keeping.
#[local] Hint Extern 1 (hoare _ (on_world (ta_load_tape _ _ _)) _ _) => apply tape_keeps; stable : keeping.
#[local] Hint Extern 1 (hoare _ (on_world (ta_write_bundle _)) _ _) => apply tape_keeps; stable : keeping.
#[local] Hint Extern 1 (hoare _ (on_world (ta_read_bundle _ _ _)) _ _) => apply tape_keeps; stable : keeping.
#[local] Hint Extern 2 (hoare _ (on_world _) _ _) =>
  first [apply kept_read; stable | apply kept_command; [stable|done]] : keeping.
#[local] Hint Resolve stable_true stable_and stable_in_bundle stable_task stable_known : keeping.

(** Follows the text of an operation: binds, matches, and calls by the hints *)
Ltac follow :=
  lazymatch goal with
  | |- hoare _ (_ ≫= _) _ _ => apply kept_bind; [follow|intros ?; follow]
  | |- hoare _ (let '(_, _) := ?x in _) _ _ => destruct x; follow
  | |- hoare _ (match ?x with _ => _ end) _ _ => destruct x; follow
  | |- _ => auto with keeping
  end.

Lemma claim_archive_keeps φ n task : stable φ → keeps φ n (claim_archive_task clock task).
Proof using. intros Hst. unfold claim_archive_task, get_archive_task, archive_status_of. follow. Qed.
Lemma finalize_archive_keeps φ n id bytes :
  stable φ → keeps φ n (finalize_archive_task_success clock id bytes).
Proof using.
  intros Hst. unfold finalize_archive_task_success, get_archive_task, archive_status_of,
    update_archive_task. follow.
Qed.
Lemma mark_archive_keeps φ n task error :
  stable φ → keeps φ n (mark_archive_task_failed clock task error).
Proof using.
  intros Hst. unfold mark_archive_task_failed, get_archive_task, archive_status_of,
    update_archive_task. follow.
Qed.
Lemma acquire_and_load_keeps φ n drive tape :
  stable φ → keeps φ n (acquire_and_load_tape drive tape).
Proof using. intros Hst. unfold acquire_and_load_tape. follow. Qed.
#[local] Hint Resolve acquire_and_load_keeps : keeping.
Lemma write_bundle_keeps φ n drive tape tape_set block_size id count data :
  stable φ → keeps φ n (tape_write_bundle drive tape tape_set block_size id count data).
Proof using. intros Hst. unfold tape_write_bundle, release_drive_best_effort. follow. Qed.
Lemma read_bundle_keeps φ n drive tape filemark len :
  stable φ → keeps φ n (tape_read_bundle drive tape filemark len).
Proof using.
  intros Hst.
  unfold tape_read_bundle, release_drive_best_effort.
  assert (∀ d, keeps φ n (read_bundle_data d filemark len)) by (intros; unfold read_bundle_data; follow).
  follow.
Qed.

(** *** What calls make known *)

Lemma kept_then {A} (φ ψ : MetadataState → Prop) n (m : sched A) :
  (∀ st, ψ st → φ st) → keeps ψ n m → hoare (safe ψ n) m (λ _, safe ψ n) (safe φ n).
Proof using. intros Hψ Hm. eapply hoare_weaken; [apply Hm|done..|]; intros; by eapply safe_weaken. Qed.
Lemma kept_more {A} (φ ψ : MetadataState → Prop) n (m : sched A) :
  (∀ st, ψ st → φ st) → keeps ψ n m → hoare (safe ψ n) m (λ _, safe φ n) (safe φ n).
Proof using. intros Hψ Hm. eapply hoare_weaken; [apply Hm|done|..]; intros; by eapply safe_weaken. Qed.

(** What is known of an object that was looked up *)
Definition known_object (bucket key : string) (o : ObjectMetadata.t) (st : MetadataState) : Prop :=
  in_bundle st o ∧
  (o.(ObjectMetadata.bucket) = bucket ∧ o.(ObjectMetadata.key) = key ∧ uploaded o).
Lemma stable_known_object bucket key o : stable (known_object bucket key o).
Proof using. intros st st' Hst [Hin Ho]. split; [by eapply in_bundle_extends|done]. Qed.
Lemma stable_constant (P : Prop) : stable (λ _, P).
Proof using. by intros st st' _. Qed.
#[local] Hint Resolve stable_known_object stable_constant : stability keeping.

Lemma find_known φ n bucket key :
  stable φ →
  hoare (safe φ n)
    (on_world (meanwhile 0 (read_metadata envs (λ e st, find_object e st bucket key None))) : sched _)
    (λ o, safe (λ st, φ st ∧ known_object bucket key o st) n) (safe φ n).
Proof using.
  intros Hst. eapply hoare_weaken; [by apply read_keeps|done| |done]. intros o s.
  apply safe_infer. intros st Hc [Hφ [e Hf]]. split; [done|].
  apply find_object_mut_Ok_of in Hf as [kk Hm].
  apply find_object_mut_lookup in Hm as (Hk & Hb & Hke).
  destruct (c_objects _ Hc _ _ Hk) as [Hd Hin]. pose proof (wf_objects _ (c_wf _ Hc) _ _ Hk) as <-.
  by split_and!.
Qed.

Lemma collect_sent {M} d1 d2 (m : M) (data : list Z) :
  collect_once d1 d2 (sent (Meta m :: (Data <$> chunks STREAM_CHUNK_SIZE data))) None []
    = Ok (Some m, data).
Proof using.
  simpl. assert (Hl : ∀ (l : list (list Z)) (acc0 : list Z),
    collect_once (M := M) d1 d2 (sent (Data <$> l)) (Some m) acc0 = Ok (Some m, acc0 ++ concat l)).
  { intros l. induction l as [|c l IH]; intros acc0; simpl; [by rewrite app_nil_r|].
    unfold sent in IH. by rewrite IH, app_assoc. }
  unfold sent in *. by rewrite Hl, concat_chunks.
Qed.

Lemma staged_known φ n bucket key version :
  stable φ →
  hoare (safe φ n) (cache_get_staging bucket key version : sched _)
    (λ _, safe (λ st, φ st ∧ version = None) n) (safe φ n).
Proof using.
  intros Hst. unfold cache_get_staging. eapply hoare_bind.
  { apply (cache_keeps φ 0 n _ (λ st messages, version = None) Hst);
      [intros; apply call_get_staging|]. intros st k _.
    unfold fmap, action_fmap. intros c Hc.
    pose proof (get_staging_filed h no_files (good st) k (CacheKey.new bucket key version) c Hc) as Hg.
    destruct (get_staging _ c) as [c' [messages|err]]; simpl; [|done].
    destruct Hg as (Hc' & f & Hv & _). done. }
  intros messages. apply kept_then; [by intros st []|]. follow.
Qed.

Lemma archive_claimed_keeps φ n drive tape tape_set block_size entry object task :
  stable φ →
  keeps φ n (archive_claimed clock CacheArchiveClient
    (TapeArchiveClient drive tape tape_set block_size) entry object
    (phase1_bundle_id entry.(StagingKeyEntry.bucket) entry.(StagingKeyEntry.key)
       entry.(StagingKeyEntry.version_id)) task).
Proof.
  intros Hst. unfold archive_claimed. eapply hoare_bind; [by apply staged_known|]. intros staged.
  apply kept_more; [by intros st []|].
  set (ψ := λ st, φ st ∧ entry.(StagingKeyEntry.version_id) = None).
  assert (Hψ : stable ψ) by (unfold ψ; stable).
  apply kept_bind; [follow|intros _].
  apply kept_bind; [by apply write_bundle_keeps|intros write]. apply kept_bind; [follow|intros _].
  eapply hoare_bind; [apply find_known; stable|]. intros current.
  apply kept_more; [by intros st []|].
  apply hoare_bind_reject; [done|intros _].
  apply hoare_bind_lift; [done|intros [] Hval].
  apply kept_bind; [follow|intros now]. apply kept_bind.
  { apply command_keeps; [stable|]. intros st _ [[_ ->] [_ (Hb & Hk & Hu)]].
    apply validate_describes, (describes_digest _ _ (uploaded_digest _ Hu)) in Hval. eexists _, _. simpl.
    split_and!; [reflexivity|done|reflexivity|]. by intros c [= <-] _. }
  intros _. apply kept_bind; [apply kept_delete_staging; stable|intros _].
  apply kept_bind; [apply finalize_archive_keeps; stable|intros _]. follow.
Qed.

(** *** The archive pass *)

Lemma kept_failing_with {A} φ n task (m : sched A) :
  keeps φ n m → keeps φ n (failing_with task m).
Proof using.
  intros Hm s Hs. specialize (Hm s Hs). unfold failing_with. by destruct (m s) as [s' []].
Qed.

Lemma archive_entry_keeps φ n drive tape tape_set block_size entry :
  stable φ → keeps φ n (archive_entry clock has_cache config CacheArchiveClient
    (TapeArchiveClient drive tape tape_set block_size) entry).
Proof.
  intros Hst. unfold archive_entry.
  eapply hoare_bind; [apply kept_failing_with; follow|intros object].
  { unfold head_object. follow. }
  eapply hoare_bind; [apply kept_failing_with|intros task].
  { unfold phase1_archive_task. follow. }
  destruct (negb (is_cold_pending object)).
  { eapply hoare_bind; [apply kept_failing_with|intros ?; by apply hoare_ret].
    unfold delete_staging_best_effort. follow. }
  eapply hoare_bind; [apply kept_failing_with, claim_archive_keeps; done|].
  intros [claimed task']. destruct claimed; simpl; [|by apply hoare_ret].
  eapply hoare_bind; [by apply kept_failing_with, archive_claimed_keeps|].
  intros bytes. by apply hoare_ret.
Qed.

Lemma kept_acquire_archive φ n key : keeps φ n (acquire_archive_item key : sched _).
Proof using. intros s Hs. unfold acquire_archive_item. by case_bool_decide. Qed.
Lemma kept_release_archive φ n key : keeps φ n (release_archive_item key : sched _).
Proof using. by intros s Hs. Qed.
Lemma kept_acquire_recall φ n key : keeps φ n (acquire_recall_task key : sched _).
Proof using. intros s Hs. unfold acquire_recall_task. by case_bool_decide. Qed.
Lemma kept_release_recall φ n key : keeps φ n (release_recall_task key : sched _).
Proof using. by intros s Hs. Qed.
#[local] Hint Resolve kept_acquire_archive kept_release_archive kept_acquire_recall
  kept_release_recall mark_archive_keeps : keeping.

Lemma archive_round_keeps φ n drive tape tape_set block_size entry result :
  stable φ → keeps φ n (archive_round clock has_cache config CacheArchiveClient
    (TapeArchiveClient drive tape tape_set block_size) entry result).
Proof.
  intros Hst. unfold archive_round. apply kept_bind; [follow|intros acquired].
  destruct (negb acquired); [follow|]. intros s Hs.
  pose proof (archive_entry_keeps φ n drive tape tape_set block_size entry Hst s Hs) as He.
  destruct (archive_entry _ _ _ _ _ _ _) as [s' [done_|[status maybe_task]]]; revert s' He.
  - change (keeps φ n (release_archive_item (phase1_archive_item_key
      (StagingKeyEntry.bucket entry) (StagingKeyEntry.key entry)
      (StagingKeyEntry.version_id entry)) ≫= λ _,
      mret match done_ with
           | Some bytes => count_archived bytes (phase1_bundle_id (StagingKeyEntry.bucket entry)
               (StagingKeyEntry.key entry) (StagingKeyEntry.version_id entry)) result
           | None => result
           end : sched ArchiveBatchResult.t)). follow.
  - change (keeps φ n (match maybe_task with
      | Some task => discard (mark_archive_task_failed clock task (message status))
      | None => mret tt
      end ≫= λ _, release_archive_item (phase1_archive_item_key (StagingKeyEntry.bucket entry)
        (StagingKeyEntry.key entry) (StagingKeyEntry.version_id entry)) ≫= λ _,
      throw status : sched ArchiveBatchResult.t)). follow.
Qed.

Lemma archive_pass_keeps φ n :
  stable φ → keeps φ n (archive_staging_once clock has_cache has_tape config).
Proof.
  intros Hst. unfold archive_staging_once, cache_client, tape_client, archive_staging_batch.
  apply kept_bind; [follow|intros _]. apply kept_bind; [follow|intros _]. apply kept_bind.
  { apply kept_cache; [done|intros; apply call_list|]. intros P k c Hc. exact Hc. }
  intros entries. generalize ArchiveBatchResult.default_result.
  induction entries as [|entry entries IH]; intros result; simpl; [follow|].
  apply kept_bind; [by apply archive_round_keeps|apply IH].
Qed.

(** *** The recall pass *)

Lemma get_recall_known φ n id :
  stable φ →
  hoare (safe φ n) (Scheduler.get_recall_task id : sched _)
    (λ t, safe (λ st, φ st ∧ task_ok st t) n) (safe φ n).
Proof using.
  intros Hst. eapply hoare_weaken; [by apply read_keeps|done| |done]. intros t s.
  apply safe_infer. intros st Hc [Hφ [e Hf]]. split; [done|]. simpl in Hf.
  unfold MetadataService.get_recall_task, ok_or in Hf. destruct (recall_tasks st !! id) as [t'|] eqn:Hk; [|done].
  injection Hf as <-. by apply (c_tasks _ Hc) in Hk.
Qed.

(** A task with the archive and the checksum of a known one *)
Lemma update_recall_keeps φ n t t' :
  stable φ → RecallTask.archive_id t' = RecallTask.archive_id t →
  RecallTask.checksum t' = RecallTask.checksum t → (∀ st, φ st → task_ok st t) →
  keeps φ n (on_world (md_update_recall_task t') : sched _).
Proof using.
  intros Hst Ha Hs Hok. apply command_keeps; [done|]. intros st _ Hφ.
  simpl. unfold task_ok. rewrite Ha, Hs. by apply Hok.
Qed.

Lemma claim_recall_known φ n task :
  stable φ → (∀ st, φ st → task_ok st task) →
  hoare (safe φ n) (claim_recall_task clock task : sched _)
    (λ r s, safe (λ st, φ st ∧ (r.1 = true → task_ok st r.2)) n s) (safe φ n).
Proof using.
  intros Hst Hok. unfold claim_recall_task.
  apply (hoare_bind _ _ (λ _, safe φ n)).
  { apply kept_ignoring, command_keeps; [done|]. intros st _ Hφ. by apply Hok. }
  intros _. eapply hoare_bind; [by apply get_recall_known|]. intros current.
  set (ψ := λ st, φ st ∧ task_ok st current).
  assert (Hψ : stable ψ) by (unfold ψ; stable).
  assert (Hsub : ∀ A (m : sched A), keeps ψ n m →
    hoare (safe ψ n) m (λ _, safe ψ n) (safe φ n)).
  { intros A m Hm. eapply hoare_weaken; [exact Hm|done|done|].
    intros s. by apply safe_weaken; intros st []. }
  assert (Hfalse : ∀ t, hoare (safe ψ n) (mret (false, t) : sched (bool * RecallTask.t))
    (λ r s, safe (λ st, φ st ∧ (r.1 = true → task_ok st r.2)) n s) (safe φ n)).
  { intros t. apply hoare_ret. intros s. apply safe_weaken. by intros st []. }
  apply (hoare_bind _ _ (λ _, safe ψ n)); [apply Hsub, kept_lift|].
  intros status. destruct status; try by apply Hfalse.
  all: apply (hoare_bind _ _ (λ _, safe ψ n)); [apply Hsub, kept_now|intros now].
  all: apply (hoare_bind _ _ (λ _, safe ψ n)).
  1,3: apply Hsub, kept_ignoring, (update_recall_keeps _ _ current); [done..|by intros st []].
  all: intros updated; destruct updated; simpl; [|by apply Hfalse].
  all: apply (hoare_bind _ _ (λ _, safe ψ n)); [by apply Hsub, kept_command|intros _].
  all: apply hoare_ret; intros s; apply safe_weaken; by intros st [].
Qed.

Lemma mark_recall_keeps φ n task error :
  stable φ → keeps φ n (mark_recall_failed clock task error).
Proof using.
  intros Hst. unfold mark_recall_failed. eapply hoare_bind; [by apply get_recall_known|].
  intros current. apply kept_more; [by intros st []|].
  assert (Hψ : stable (λ st, φ st ∧ task_ok st current)) by stable.
  apply kept_bind; [apply kept_lift|]. intros status.
  assert (Hrest : ∀ now, keeps (λ st, φ st ∧ task_ok st current) n
    (_ ← ignoring FailedPrecondition (Scheduler.update_recall_task
       (RecallTask.set_error (Some error) (RecallTask.set_completed_at (Some now)
         (RecallTask.set_retry_count (Z.min (current.(RecallTask.retry_count) + 1) u32_MAX)
           (RecallTask.set_status (RestoreStatus.as_i32 RestoreStatus.RestoreFailed) current)))));
     update_object_restore_status current.(RecallTask.bucket) current.(RecallTask.key)
       RestoreStatus.RestoreFailed None)).
  { intros now. apply kept_bind; [|intros ?; by apply kept_command].
    eapply kept_ignoring, (update_recall_keeps _ _ current); [done..|by intros st []]. }
  destruct status; first [apply kept_ret|apply kept_bind; [apply kept_now|apply Hrest]].
Qed.

Lemma retry_recall_keeps φ n task error :
  stable φ → keeps φ n (retry_recall_task_later task error).
Proof using.
  intros Hst. unfold retry_recall_task_later. eapply hoare_bind; [by apply get_recall_known|].
  intros current. apply kept_more; [by intros st []|].
  assert (Hψ : stable (λ st, φ st ∧ task_ok st current)) by stable.
  apply kept_bind; [apply kept_lift|]. intros status. case_bool_decide; simpl; [|apply kept_ret].
  apply kept_bind; [|intros ?; by apply kept_command].
  eapply (update_recall_keeps _ _ current); [done..|by intros st []].
Qed.

(** Numbering one more object *)
Lemma put_restored_known φ n object data expire_at :
  stable φ →
  (∀ st, φ st → sum_of st (bundle_of object.(ObjectMetadata.bucket) object.(ObjectMetadata.key))
                = Some (sha256_hex data)) →
  hoare (safe φ (S n)) (@rc_put_restored _ CacheRestoreClient object data expire_at : sched unit)
    (λ _, safe φ n) (safe φ n).
Proof using.
  intros Hst Hok.
  apply (cache_writes φ 1 n); [done|..].
  - intros s Hφ. apply call_put_restored. intros m d. simpl. intros [= <- <-].
    split_and!; [by apply Hok|done..].
  - intros st k Hφ. apply put_restored_keeps.
    intros m d e t. simpl. intros [= <- <-] bytes [= <-]. by apply Hok.
Qed.

(** Before and after the write *)
Abbreviation writes φ n m := (hoare (safe φ (S n)) m (λ _, safe φ n) (safe φ n)).

Lemma bind_before {A C} φ n (m : sched A) (k : A → sched C) :
  keeps φ (S n) m → (∀ a, writes φ n (k a)) → writes φ n (m ≫= k).
Proof using.
  intros Hm Hk. eapply hoare_bind; [|apply Hk].
  eapply hoare_weaken; [apply Hm|done|done|intros s; apply safe_S].
Qed.
Lemma bind_after {A C} φ n (m : sched A) (k : A → sched C) :
  writes φ n m → (∀ a, keeps φ n (k a)) → writes φ n (m ≫= k).
Proof using. intros Hm Hk. by eapply hoare_bind. Qed.
Lemma writes_of_keeps {A} φ n (m : sched A) : keeps φ n m → writes φ n m.
Proof using. intros Hm. eapply hoare_weaken; [apply Hm|intros s; apply safe_S|done|done]. Qed.
Lemma writes_reject {C} φ n b e (k : unit → sched C) :
  (b = false → writes φ n (k tt)) → writes φ n (reject_if b e ≫= k).
Proof using. apply hoare_bind_reject. intros s. apply safe_S. Qed.

Lemma process_recall_writes φ n drive task :
  stable φ → (∀ st, φ st → task_ok st task) →
  writes φ n (process_recall_task clock CacheRestoreClient (TapeRecallClient drive) task : sched _).
Proof using.
  intros Hst Hok. unfold process_recall_task, head_object. eapply hoare_bind.
  { eapply hoare_weaken; [by apply find_known|done|intros ?? Hq; exact Hq|intros s; apply safe_S]. }
  intros object. set (ψ := λ st, φ st ∧
    known_object task.(RecallTask.bucket) task.(RecallTask.key) object st).
  assert (Hψ : stable ψ) by (unfold ψ; stable).
  eapply hoare_weaken with (P := safe ψ (S n)) (Q := λ _, safe ψ n) (X := safe ψ n);
    [|done|intros ? s|intros s]; [|by apply safe_weaken; intros st []..].
  apply writes_reject. intros Hcold%negb_false_iff%bool_decide_eq_true.
  apply writes_reject. intros Harch%negb_false_iff%bool_decide_eq_true.
  apply writes_reject. intros _.
  apply bind_before; [by apply read_bundle_keeps|intros data].
  apply writes_reject. intros _.
  apply writes_reject. intros Hsum%negb_false_iff%bool_decide_eq_true.
  apply bind_before.
  { destruct (RecallTask.expire_at task); [apply kept_ret|]. unfold days_from_now. follow. }
  intros expire_at. apply bind_after.
  { apply put_restored_known; [done|]. intros st [Hφ [Hin _]]. destruct (Hin Hcold) as [Ha _].
    specialize (Hok st Hφ). unfold task_ok in Hok. rewrite Hsum, <-Hok. f_equal. congruence. }
  intros _. apply kept_bind; [follow|intros now]. apply kept_bind.
  { apply (update_recall_keeps _ _ task); [done..|]. intros st [Hφ _]. by apply Hok. }
  intros _. apply kept_bind; [by apply kept_command|intros _]. follow.
Qed.

Lemma attempt_after {A C} φ n (m : sched A) (k : result Status A → sched C) :
  writes φ n m → (∀ r, keeps φ n (k r)) → writes φ n (attempt m ≫= k).
Proof using.
  intros Hm Hk. apply bind_after; [|done].
  eapply hoare_weaken; [apply hoare_attempt, Hm|done| |done]. by intros [] s.
Qed.

Lemma recall_claimed_writes φ n drive key task result :
  stable φ → (∀ st, φ st → task_ok st task) →
  writes φ n (recall_claimed clock CacheRestoreClient (TapeRecallClient drive) key task result : sched _).
Proof using.
  intros Hst Hok. unfold recall_claimed. apply attempt_after; [by apply process_recall_writes|].
  intros restored. apply kept_bind; [|intros ?; follow].
  destruct restored as [bytes|status]; [apply kept_ret|]. apply kept_bind; [|intros [[]|?]; follow].
  apply kept_attempt. destruct (is_retriable_recall_processing_error status);
    [by apply retry_recall_keeps|by apply mark_recall_keeps].
Qed.

Lemma recall_round_writes φ n drive task result :
  stable φ → (∀ st, φ st → task_ok st task) →
  writes φ n (recall_round clock CacheRestoreClient (TapeRecallClient drive) task result : sched _).
Proof using.
  intros Hst Hok. unfold recall_round, await_recall_task_slot, await_tape_lease.
  apply bind_before; [follow|intros [[]|?]; [|apply writes_of_keeps; follow]].
  apply bind_before; [follow|intros acquired].
  destruct acquired; simpl; [|by apply writes_of_keeps, kept_ret].
  apply bind_before; [follow|intros [[]|?]; [|apply writes_of_keeps; follow]].
  eapply hoare_bind.
  { eapply hoare_attempt, hoare_weaken; [by apply claim_recall_known|done|intros ?? Hq; exact Hq|
      intros s; apply safe_S]. }
  intros [[claimed task']|status]; simpl;
    [|eapply hoare_weaken; [apply kept_bind; [apply kept_release_recall|intros []; apply kept_throw]|done..]].
  set (ψ := λ st, φ st ∧ (claimed = true → task_ok st task')).
  assert (Hψ : stable ψ).
  { intros st st' Hext [Hφ Ht]. split; [by eapply Hst|]. intros Hc. by apply Hext, Ht. }
  eapply hoare_weaken with (P := safe ψ (S n)) (Q := λ _, safe ψ n) (X := safe ψ n);
    [|done|intros ? s|intros s]; [|by apply safe_weaken; intros st []..].
  destruct claimed; simpl; [|apply writes_of_keeps; follow].
  apply recall_claimed_writes; [done|]. intros st [_ Ht]. by apply Ht.
Qed.

Lemma recall_loop_writes φ n drive tasks result :
  stable φ → (∀ st, φ st → Forall (task_ok st) tasks) →
  hoare (safe φ (length tasks + n))
    (recall_loop clock CacheRestoreClient (TapeRecallClient drive) tasks result : sched _)
    (λ _, safe φ n) (safe φ n).
Proof using.
  intros Hst. revert result. induction tasks as [|task tasks IH]; intros result Hok; simpl.
  { apply kept_ret. }
  eapply hoare_bind.
  { eapply hoare_weaken; [apply recall_round_writes with (φ := φ) (n := length tasks + n);
      [done|]|done|intros ?? Hq; exact Hq|intros s; apply safe_le; lia].
    intros st Hφ. by destruct (Forall_cons_1 _ _ _ (Hok st Hφ)). }
  intros result'. apply IH. intros st Hφ. by destruct (Forall_cons_1 _ _ _ (Hok st Hφ)).
Qed.

Lemma recall_pass_writes n max_tasks :
  hoare (safe true_fact (recall_limit config max_tasks + n))
    (recall_pending_once clock has_cache has_tape config max_tasks : sched _)
    (λ _, safe true_fact n) (safe true_fact n).
Proof using.
  set (l := recall_limit config max_tasks).
  assert (Hle : ∀ s, safe true_fact (l + n) s → safe true_fact n s)
    by (intros s; apply safe_le; lia).
  unfold recall_pending_once, cache_client, tape_client, recall_pending_batch.
  do 2 (apply hoare_bind_reject; [done|intros _]). eapply hoare_bind.
  { eapply hoare_weaken; [apply (read_keeps true_fact (l + n)); stable|done|intros ?? Hq; exact Hq|done]. }
  intros tasks. set (chosen := take _ _). set (φ := λ st, Forall (task_ok st) chosen).
  assert (Hφ : stable φ).
  { intros st st' Hext. unfold φ. intros Hall. eapply Forall_impl; [exact Hall|].
    intros t. apply Hext. }
  eapply hoare_weaken with (P := safe φ (length chosen + n));
    [apply recall_loop_writes; [done|by intros st]| | |].
  - intros s Hs. apply safe_le with (n := l + n).
    { unfold chosen, l, recall_limit. rewrite length_take. lia. }
    revert Hs. apply safe_infer. intros st Hc [_ [e Hf]].
    unfold φ, chosen. rewrite Forall_forall. intros t Ht. injection Hf as <-.
    apply (subseteq_take _ _ t) in Ht.
    rewrite sort_by_perm, elem_of_Lfilter in Ht. destruct Ht as [Ht _].
    unfold list_pending_recall_tasks in Ht. rewrite elem_of_Lfilter in Ht. destruct Ht as [Ht _].
    apply elem_of_hm_values in Ht as [id Ht]. by apply (c_tasks _ Hc) in Ht.
  - intros ? s. by apply safe_weaken.
  - intros s. by apply safe_weaken.
Qed.

(** *** The S3 operations *)

Lemma put_object_writes φ n bucket key body content_type :
  stable φ → was_uploaded bucket key body →
  writes φ n (Scheduler.put_object clock has_cache bucket key body content_type : sched _).
Proof using.
  intros Hst Hup. unfold Scheduler.put_object, put_staging_object.
  apply bind_after.
  { apply bind_before; [unfold cache_client; follow|intros _].
    apply (cache_writes φ 1 n); [done|..].
    - intros s _. apply call_put_staging. intros m d. simpl. by intros [= <- <-].
    - intros st k _. apply put_staging_keeps. intros m d t. simpl. by intros [= <- <-]. }
  intros _. apply kept_bind; [follow|intros now]. apply kept_bind.
  { apply kept_attempt, command_keeps; [done|]. intros st _ _. simpl. split; [|done].
    by exists body. }
  unfold delete_staging_best_effort. intros put. follow.
Qed.

Lemma restore_object_keeps φ n bucket key days tier :
  stable φ → keeps φ n (restore_object clock bucket key days tier : sched _).
Proof using.
  intros Hst. unfold restore_object. eapply hoare_bind; [apply find_known; stable|]. intros object.
  apply kept_more; [by intros st []|]. set (ψ := λ st, φ st ∧ known_object bucket key object st).
  assert (Hψ : stable ψ) by (unfold ψ; stable).
  apply hoare_bind_reject; [done|]. intros Hcold%negb_false_iff%bool_decide_eq_true.
  apply kept_bind; [follow|intros _].
  cut (keeps ψ n (start_restore clock bucket key days tier object : sched _)).
  { intros Hstart. destruct (object.(ObjectMetadata.restore_status) ≫= RestoreStatus.try_from)
      as [[]|]; auto with keeping. }
  unfold start_restore, days_from_now, update_object_restore_status.
  apply hoare_bind_lift; [done|intros archive_id Harch%ok_or_Ok].
  do 2 (apply kept_bind; [follow|intros ?]). apply kept_bind; [follow|intros expire_at].
  apply kept_bind; [by apply kept_command|intros _]. apply kept_bind; [follow|intros now].
  apply kept_bind.
  { apply kept_attempt, command_keeps; [done|]. intros st _ [_ [Hin (Hb & Hk & _)]]. simpl. unfold task_ok. simpl.
    destruct (Hin Hcold) as [Ha Hs]. congruence. }
  intros [|status]; [apply kept_ret|].
  apply kept_bind; [by apply kept_discard, kept_command|intros _]. apply kept_throw.
Qed.

Lemma cache_get_known φ n k :
  stable φ →
  hoare (safe φ n) (on_world (ca_get k) : sched _)
    (λ messages, safe (λ st, φ st ∧ ∃ m data,
       messages = sent (Meta m :: (Data <$> chunks STREAM_CHUNK_SIZE data)) ∧
       sum_of st (bundle_of k.(CacheKey.bucket) k.(CacheKey.key)) = Some (sha256_hex data)) n) (safe φ n).
Proof using.
  intros Hst. apply (cache_keeps φ 0 n _ (λ st messages, ∃ m data,
    messages = sent (Meta m :: (Data <$> chunks STREAM_CHUNK_SIZE data)) ∧
    sum_of st (bundle_of k.(CacheKey.bucket) k.(CacheKey.key)) = Some (sha256_hex data)) Hst); [intros; apply call_get|].
  intros st j _ c Hc. unfold fmap, action_fmap.
  pose proof (get_bounded h cache_clock (good st) j k c Hc) as Hg.
  destruct (get h cache_clock k c) as [c' [messages|err]]; simpl; [|done].
  destruct Hg as (Hc' & f & Hf & data & Hd & ->). split; [done|]. eexists _, data. by split; [|apply Hf].
Qed.

(** What a successful download returns: the metadata of an object that records
    an upload, and bytes of the size, checksum and entity tag recorded *)
Definition intact (bucket key : string) (object : ObjectMetadata.t) (data : list Z) : Prop :=
  uploaded object ∧
  object.(ObjectMetadata.bucket) = bucket ∧ object.(ObjectMetadata.key) = key ∧
  object.(ObjectMetadata.size) = Z.of_nat (length data) ∧
  object.(ObjectMetadata.checksum) = sha256_hex data ∧
  object.(ObjectMetadata.etag) = Some (sha256_hex data).

Lemma get_object_intact φ n bucket key :
  stable φ →
  hoare (safe φ n) (Scheduler.get_object has_cache bucket key : sched _)
    (λ r, safe (λ st, φ st ∧ intact bucket key r.1 r.2) n) (safe φ n).
Proof using.
  intros Hst. unfold Scheduler.get_object, Scheduler.head_object, read_restored_object, cache_client.
  eapply hoare_bind; [apply find_known; stable|]. intros object.
  set (ψ := λ st, φ st ∧ known_object bucket key object st).
  assert (Hsub : ∀ s, safe ψ n s → safe φ n s) by (intros s; by apply safe_weaken; intros st []).
  apply (hoare_bind _ _ (λ data, safe (λ st, φ st ∧ intact bucket key object data) n));
    [|intros data; by apply hoare_ret].
  apply hoare_bind_reject; [done|]. intros Hcold%negb_false_iff%bool_decide_eq_true.
  do 2 (apply hoare_bind_reject; [done|intros _]).
  eapply hoare_bind; [eapply hoare_attempt, (cache_get_known ψ); unfold ψ; stable|].
  intros [messages|status]; simpl.
  2:{ intros s Hs. unfold mbind, action_bind, lift. simpl. by apply Hsub. }
  apply hoare_bind_lift; [by intros s; apply safe_weaken; intros st [[] _]|]. intros ? [= <-].
  apply hoare_bind_lift; [by intros s; apply safe_weaken; intros st [[] _]|]. intros [meta acc] Hacc.
  apply hoare_bind_lift; [by intros s; apply safe_weaken; intros st [[] _]|]. intros meta' _.
  apply hoare_bind_reject; [by intros s; apply safe_weaken; intros st [[] _]|intros _].
  apply hoare_bind_reject; [by intros s; apply safe_weaken; intros st [[] _]|].
  intros Hsize%negb_false_iff%bool_decide_eq_true.
  apply hoare_ret. intros s. apply safe_weaken.
  intros st [[Hφ [Hin (Hb & Hk & Hu)]] (m & data & -> & Hd)]. split; [done|].
  pose proof (eq_trans (eq_sym Hacc) (collect_sent _ _ _ _)) as [= _ ->]. destruct (Hin Hcold) as [_ Hsum]. simpl in Hd.
  assert (Hsha : object.(ObjectMetadata.checksum) = sha256_hex data) by congruence.
  split_and!; try done. by rewrite (uploaded_etag _ Hu), Hsha.
Qed.

(** *** Histories *)

(** The upload that an operation makes, if it is one *)
Definition uploads_of (op : SchedulerOp) : Prop :=
  match op with OpPutObject bucket key body _ => was_uploaded bucket key body | _ => True end.

Lemma scheduler_op_safe n op s :
  uploads_of op →
  safe true_fact (writes_of config op + n) s →
  safe true_fact n (run_op clock has_cache has_tape config op s).1.
Proof.
  assert (Hrun : ∀ (m : sched unit), hoare (safe true_fact (writes_of config op + n)) m
    (λ _, safe true_fact n) (safe true_fact n) →
    safe true_fact (writes_of config op + n) s → safe true_fact n (m s).1).
  { intros m Hm Hs. specialize (Hm s Hs). by destruct (m s) as [s' []]. }
  intros Hup. apply Hrun. pose proof stable_true as Hst.
  destruct op; simpl; try apply hoare_discard;
    unfold Scheduler.list_buckets, Scheduler.create_bucket, Scheduler.delete_bucket, head_bucket,
      Scheduler.head_object, Scheduler.delete_object, delete_cached_object_best_effort,
      Scheduler.list_objects; try (by follow).
  - eapply hoare_weaken; [by apply get_object_intact|done| |done].
    intros r s'. by apply safe_weaken; intros st [].
  - by apply put_object_writes.
  - by apply restore_object_keeps.
  - by apply archive_pass_keeps.
  - apply recall_pass_writes.
Qed.

Lemma run_ops_safe n ops s :
  Forall uploads_of ops →
  safe true_fact (sum_list (writes_of config <$> ops) + n) s →
  safe true_fact n (run_ops clock has_cache has_tape config ops s).
Proof.
  revert s. induction ops as [|op ops IH]; intros s Hup Hs; [done|].
  apply Forall_cons in Hup as [Hop Hup]. apply IH, scheduler_op_safe; [done..|].
  eapply safe_le; [|exact Hs]. csimpl. lia.
Qed.

(** An empty metadata service, and an empty cache that can number [n] objects *)
Definition empty_store (n : nat) (s : system) : Prop :=
  metadata_in s = default_state ∧ Cache.index (sys_cache s) = default_index ∧
  writable n (backend (sys_cache s)).
Lemma empty_sound n s : empty_store n s → sound h true_fact n s.
Proof using.
  intros (Hm & Hi & Hw). unfold sound. rewrite Hm. split; [apply consistent_default|]. split; [done|].
  by apply empty_bounded.
Qed.

(** A task that has made no calls yet *)
Definition begins (s : scheduler) : Prop :=
  services (world s) = origin ∧ others (world s) = plan ∧ made (world s) = [].

Lemma begins_safe n s :
  (n ≤ room)%nat → empty_store (n + allowed) origin → begins s → safe true_fact n s.
Proof using.
  intros Hn Hempty (Hs & Hp & Hmade). unfold safe, on_record. rewrite Hs, Hp, Hmade. split; [done|]. split.
  { intros past ks ->%prefix_nil_inv _. split; [by constructor|]. unfold additions. simpl. lia. }
  intros ks [Hks _]. apply Forall2_nil_inv_r in Hks as ->. split; [|by split; [constructor|]].
  rewrite Nat.sub_0_r. by apply empty_sound.
Qed.

Lemma safe_known φ n s ks : relies ks (made (world s)) → safe φ n s → φ (metadata_of s).
Proof using. intros Hks (_ & _ & Hs). by destruct (Hs ks Hks) as [(_ & Hφ & _) _]. Qed.
Lemma safe_hears φ n s : safe φ n s → hears origin plan (made (world s)).
Proof using. by intros ((_ & _ & Hh) & _). Qed.
Lemma safe_reliable φ n s :
  safe φ n s → reliable envs h cache_clock svc panicked origin allowed room (made (world s)).
Proof using. by intros (_ & Hr & _). Qed.

(** A history, and a download *)
Definition history (ops : list SchedulerOp) (s : scheduler) : scheduler :=
  run_ops clock has_cache has_tape config ops s.
Definition download (bucket key : string) (s : scheduler)
    : scheduler * result Status (ObjectMetadata.t * list Z) :=
  Scheduler.get_object has_cache bucket key s.

Lemma history_safe ops s :
  let n := sum_list (writes_of config <$> ops) in
  Forall uploads_of ops → (n ≤ room)%nat → empty_store (n + allowed) origin → begins s →
  safe true_fact 0 (history ops s).
Proof.
  intros n Hup Hn Hs Hb. apply run_ops_safe, begins_safe; [done|by rewrite Nat.add_0_r..|done].
Qed.
Lemma download_safe bucket key s s' object data :
  safe true_fact 0 s → download bucket key s = (s', Ok (object, data)) →
  safe (λ _, intact bucket key object data) 0 s'.
Proof.
  intros Hs Hget. pose proof (get_object_intact true_fact 0 bucket key stable_true s Hs) as Hh.
  unfold download in Hget. rewrite Hget in Hh. revert Hh. apply safe_weaken. by intros st [].
Qed.
End integrity.
