(* ===== verification/Composition.v ===== *)
(** * Several schedulers over one store

    Any number of tasks, the requests and the background agents of any number
    of schedulers, over the same services: their calls are served one after the
    other, in any order, and each task finds the services as the call before,
    its own or another's, left them. What every task guarantees as long as the
    others do ([reliable]) then holds of all of them at once. *)

From Stdlib Require Import ZArith Lia String.
From S2P Require Import Prelude Hoare Proto StateMachine MetadataInvariants Snapshot Raft RustStr MetadataService.
From S2P Require Import External CacheBackend Cache CacheInvariants TapeService SchedulerProto Config.
From S2P Require Import SchedulerClients Scheduler SchedulerSystem Checksums.
From S2P Require Import Histories Interference Claims SchedulerIntegrity.

Local Open Scope string_scope.
Local Open Scope list_scope.
Local Open Scope stdpp_scope.

(** ** Interleavings of records *)

Section interleavings.
Context `{Prost} `{RocksDB} `{Formats}.
Context {B : Type} `{CacheBackend B} {T : Type} `{TapeBackend T} `{Sha256} {uploads : Uploads}.
Context (envs : nat → CallEnv) (h : hash_order) (cache_clock : nat → Z) (svc : Settings).
Context (panicked : Status).

Abbreviation system := (System (B := B) (T := T)).
Abbreviation call := (Call (B := B) (T := T)).
Abbreviation relies := (relied envs h cache_clock svc panicked).
Abbreviation honest := (fair envs h cache_clock svc panicked).
Abbreviation calls := (service_calls envs h cache_clock svc panicked).

(** The calls of the task [i], and those of the other tasks, among calls with
    the number of the task that made them *)
Definition record_of (i : nat) (events : list (nat * call)) : list call :=
  (filter (λ e, e.1 = i) events).*2.
Definition others_of (i : nat) (events : list (nat * call)) : list call :=
  (filter (λ e, e.1 ≠ i) events).*2.

(** Each call finds the services as the call before left them. *)
Fixpoint chained (origin : system) (l : list call) : Prop :=
  match l with
  | [] => True
  | c :: l => before c = origin ∧ chained (after c) l
  end.

(** [events] is an order in which the calls of the records can be served. *)
Record interleaves (origin : system) (records : list (list call)) (events : list (nat * call))
    : Prop := {
  served_in_turn : chained origin events.*2;
  served_known e : e ∈ events → e.1 < length records;
  served_whole i r : records !! i = Some r → record_of i events = r;
}.

Lemma record_of_cons i e events :
  record_of i (e :: events) = (if decide (e.1 = i) then [e.2] else []) ++ record_of i events.
Proof using. unfold record_of. rewrite filter_cons. by case_decide. Qed.
Lemma others_of_cons i e events :
  others_of i (e :: events) = (if decide (e.1 = i) then [] else [e.2]) ++ others_of i events.
Proof using. unfold others_of. rewrite filter_cons. repeat case_decide; naive_solver. Qed.
Lemma record_of_app i events events' :
  record_of i (events ++ events') = record_of i events ++ record_of i events'.
Proof using. unfold record_of. by rewrite filter_app, fmap_app. Qed.
Lemma record_of_prefix i past events :
  past `prefix_of` events → record_of i past `prefix_of` record_of i events.
Proof using. intros [rest ->]. rewrite record_of_app. by eexists. Qed.
Lemma chained_app origin l l' :
  chained origin (l ++ l') ↔ chained origin l ∧ chained (latest origin l) l'.
Proof using.
  revert origin. induction l as [|c l IH]; intros origin; simpl; [by intuition|].
  rewrite IH, latest_cons. intuition.
Qed.

(** **** A task that others leave alone, and one that runs between two calls of
    another *)

Lemma hears_alone origin n (l : list call) :
  hears origin (replicate n id) l → chained origin l.
Proof using.
  revert origin n. induction l as [|c l IH]; intros origin n; [done|]. simpl. intros [Hb Hl].
  split; [by destruct n|]. apply (IH _ (n - 1)). by destruct n; simpl in *; rewrite ?Nat.sub_0_r.
Qed.
Lemma hears_once origin f (l : list call) : hears origin [f] l → chained (f origin) l.
Proof using. destruct l as [|c l]; [done|]. intros [Hb Hl]. split; [done|by apply (hears_alone _ 0)]. Qed.

Lemma hears_split origin n f (l : list call) :
  hears origin (replicate n id ++ [f]) l →
  chained origin (take n l) ∧ chained (f (latest origin (take n l))) (drop n l).
Proof using.
  revert origin l. induction n as [|n IH]; intros origin l; simpl.
  { intros Hl. split; [done|]. by apply hears_once. }
  destruct l as [|c l]; [done|]. simpl. intros [Hb Hl]. destruct (IH _ _ Hl) as [Ht Hd].
  rewrite latest_cons. done.
Qed.

Definition nested (n : nat) (outer inner : list call) : list (nat * call) :=
  (pair 0 <$> take n outer) ++ (pair 1 <$> inner) ++ (pair 0 <$> drop n outer).
Lemma record_of_pair i j (l : list call) : record_of i (pair j <$> l) = if decide (j = i) then l else [].
Proof using.
  unfold record_of. induction l as [|c l IH]; [by case_decide|].
  rewrite fmap_cons, filter_cons. cbn [fst]. destruct (decide (j = i)); [|done].
  by rewrite fmap_cons, IH.
Qed.
Lemma interleaves_nested origin n (f : system → system) outer inner :
  let s := latest origin (take n outer) in
  hears origin (replicate n id ++ [f]) outer → chained s inner → f s = latest s inner →
  interleaves origin [outer; inner] (nested n outer inner).
Proof using.
  intros s Houter Hinner Hf. unfold nested. split.
  - assert (Hpair : ∀ (i : nat) (l : list call), (pair i <$> l).*2 = l)
      by (intros i l; rewrite <-list_fmap_compose; apply list_fmap_id).
    rewrite !fmap_app, !Hpair, !chained_app. apply hears_split in Houter as [Htake Hdrop].
    split; [done|]. split; [done|]. fold s in Hdrop |- *. by rewrite <-Hf.
  - intros e [He|[He|He]%elem_of_app]%elem_of_app;
      apply list_elem_of_fmap in He as (c & -> & _); apply Nat.ltb_lt; reflexivity.
  - intros [|[|i]] r; simpl; [intros [= <-]..|done];
      rewrite !record_of_app, !record_of_pair; simpl; rewrite ?app_nil_r; [apply take_drop|done].
Qed.

(** What others did between the calls of a task are their calls. *)
Lemma turns_of_others i events origin :
  chained origin events.*2 → Forall honest (others_of i events) →
  ∃ ks, Forall2 (λ k t, calls k t.1 t.2) ks (turns origin (record_of i events)) ∧
    (sum_list ks ≤ additions (others_of i events))%nat.
Proof using.
  revert origin. induction events as [|[j c] events IH]; intros origin; simpl.
  { intros _ _. exists []. by split; [constructor|]. }
  intros [Hb Hc]. rewrite record_of_cons, others_of_cons. simpl. case_decide as Hj; simpl.
  - intros Ho. destruct (IH _ Hc Ho) as (ks & Hks & Hsum). exists (0 :: ks). split; [|done].
    constructor; [|done]. simpl. rewrite Hb. apply calls_none.
  - intros [Hf Ho]%Forall_cons. destruct (IH _ Hc Ho) as (ks & Hks & Hsum).
    rewrite additions_cons. destruct (record_of i events) as [|d r]; simpl in *.
    { exists []. split; [constructor|]. simpl. lia. }
    apply Forall2_cons_inv_r in Hks as (k & ks' & Hk & Hks & ->). simpl in *.
    exists ((adds c + k)%nat :: ks'). simpl. split; [|lia]. constructor; [|done].
    simpl. eapply calls_more; [|exact Hk]. by rewrite <-Hb.
Qed.

(** If each task keeps to its room, the others of one task keep to theirs. *)
Lemma additions_of_others i events rooms room :
  Forall (λ e, e.1 < length rooms) events →
  (∀ j room, rooms !! j = Some room → (additions (record_of j events) ≤ room)%nat) →
  rooms !! i = Some room →
  (additions (others_of i events) + room ≤ sum_list rooms)%nat.
Proof using.
  revert rooms room. induction events as [|[j c] events IH]; intros rooms room Hin Hrooms Hi; simpl.
  { pose proof (sum_list_insert rooms i room 0 Hi) as Hsum. unfold additions. simpl. lia. }
  apply Forall_cons in Hin as [Hj Hin]. simpl in Hj.
  destruct (lookup_lt_is_Some_2 rooms j Hj) as [r Hr].
  assert (Hc : (adds c + additions (record_of j events) ≤ r)%nat).
  { specialize (Hrooms j r Hr). by rewrite record_of_cons, decide_True in Hrooms. }
  pose proof (sum_list_insert rooms j r (r - adds c) Hr) as Hsum.
  assert (Hin' : Forall (λ e : nat * call, e.1 < length (<[j := r - adds c]> rooms)) events)
    by (by rewrite length_insert).
  assert (Hrooms' : ∀ k room, <[j := r - adds c]> rooms !! k = Some room →
    (additions (record_of k events) ≤ room)%nat).
  { intros k room'. rewrite list_lookup_insert. case_decide as Hk.
    - destruct Hk as [-> _]. intros [= <-]. lia.
    - intros Hl. specialize (Hrooms k room' Hl). rewrite record_of_cons, additions_app in Hrooms. lia. }
  rewrite others_of_cons. simpl. case_decide as Hji.
  - subst j. assert (r = room) as -> by congruence.
    specialize (IH _ (room - adds c) Hin' Hrooms').
    rewrite list_lookup_insert_eq in IH by done. specialize (IH eq_refl).
    simpl. lia.
  - specialize (IH _ room Hin' Hrooms'). rewrite list_lookup_insert_ne in IH by done.
    specialize (IH Hi). rewrite additions_app. unfold additions at 1. simpl. lia.
Qed.

Lemma additions_split i events :
  additions events.*2 = (additions (record_of i events) + additions (others_of i events))%nat.
Proof using.
  induction events as [|[j c] events IH]; [done|].
  rewrite fmap_cons, record_of_cons, others_of_cons, additions_cons, !additions_app, IH. simpl.
  unfold additions. case_decide; simpl; lia.
Qed.

(** *** Reliable tasks together *)

Context (origin : system) (rooms : list nat) (records : list (list call)) (events : list (nat * call)).
Context (Hevents : interleaves origin records events).
Context (Hrecords : Forall2 (λ room,
  reliable envs h cache_clock svc panicked origin (sum_list rooms - room) room) rooms records).

(** So far all calls were those of a scheduler, and each task kept to its room. *)
Definition well_served (past : list (nat * call)) : Prop :=
  Forall honest past.*2 ∧
  ∀ i room, rooms !! i = Some room → (additions (record_of i past) ≤ room)%nat.

Lemma known_tasks past : past `prefix_of` events → Forall (λ e, e.1 < length rooms) past.
Proof using Hevents Hrecords.
  intros [rest Hp]. rewrite (Forall2_length _ _ _ Hrecords), Forall_forall.
  intros e He. apply (served_known _ _ _ Hevents). rewrite Hp. apply elem_of_app. by left.
Qed.
Lemma honest_others i past : Forall honest past.*2 → Forall honest (others_of i past).
Proof using.
  rewrite !Forall_forall. intros Hpast c Hc. apply Hpast. unfold others_of in Hc.
  apply list_elem_of_fmap in Hc as (e & -> & [_ He]%list_elem_of_filter).
  by apply list_elem_of_fmap_2.
Qed.
Lemma relied_on_others past i room :
  past `prefix_of` events → rooms !! i = Some room → Forall honest (others_of i past) →
  (additions (others_of i past) + room ≤ sum_list rooms)%nat →
  ∃ ks, relies origin (sum_list rooms - room) ks (record_of i past).
Proof using Hevents.
  intros [rest Hp] Hi Ho Hsum. pose proof (served_in_turn _ _ _ Hevents) as Hchain.
  rewrite Hp, fmap_app, chained_app in Hchain. destruct Hchain as [Hchain _].
  destruct (turns_of_others i past origin Hchain Ho) as (ks & Hks & Hk).
  exists ks. split; [done|lia].
Qed.

Lemma well_served_app past i c :
  past ++ [(i, c)] `prefix_of` events → well_served past → well_served (past ++ [(i, c)]).
Proof using Hevents Hrecords.
  intros Hp [Hfair Hadd].
  pose proof (known_tasks _ Hp) as [Hknown [Hi _]%Forall_cons]%Forall_app. simpl in Hi.
  destruct (lookup_lt_is_Some_2 rooms i Hi) as [room Hroom].
  destruct (Forall2_lookup_l _ _ _ _ _ Hrecords Hroom) as (r & Hr & Hrel).
  assert (Hothers : others_of i (past ++ [(i, c)]) = others_of i past).
  { unfold others_of. rewrite filter_app, filter_cons_False by (simpl; tauto). by rewrite app_nil_r. }
  assert (guaranteed envs h cache_clock svc panicked room 0 (record_of i (past ++ [(i, c)])))
    as [Hf Hroom'].
  { destruct (relied_on_others _ i room Hp Hroom) as [ks Hks]; rewrite ?Hothers.
    - by apply honest_others.
    - by apply additions_of_others.
    - eapply Hrel; [|exact Hks]. rewrite <-(served_whole _ _ _ Hevents i r Hr).
      by apply record_of_prefix. }
  split.
  - rewrite fmap_app. apply Forall_app_2; [done|].
    rewrite record_of_app, record_of_cons, decide_True in Hf by done. by apply Forall_app in Hf as [_ Hf].
  - intros j room' Hj. destruct (decide (i = j)) as [<-|Hij].
    + replace room' with room by congruence. lia.
    + rewrite record_of_app, record_of_cons, decide_False, app_nil_r by done. by apply Hadd.
Qed.

(** Reliable tasks, together, make only calls of a scheduler, and keep to
    their rooms. *)
Lemma reliable_together past : past `prefix_of` events → well_served past.
Proof using Hevents Hrecords.
  induction past as [|[i c] past IH] using rev_ind; intros Hp.
  - split; [constructor|]. intros i room _. unfold additions. simpl. lia.
  - apply well_served_app; [done|]. apply IH. etrans; [|exact Hp]. by eexists.
Qed.
(** So each can rely on the others. *)
Lemma relied_together i room r :
  rooms !! i = Some room → records !! i = Some r →
  ∃ ks, relies origin (sum_list rooms - room) ks r.
Proof using Hevents Hrecords.
  intros Hi Hr. destruct (reliable_together events) as [Hfair Hadd]; [done|].
  rewrite <-(served_whole _ _ _ Hevents i r Hr). apply relied_on_others; [done..| |].
  - by apply honest_others.
  - apply additions_of_others; [by apply known_tasks|done..].
Qed.
Lemma additions_together : (additions events.*2 ≤ sum_list rooms)%nat.
Proof using Hevents Hrecords.
  destruct (reliable_together events) as [_ Hadd]; [done|].
  assert (Hknown : Forall (λ e, e.1 < length rooms) events) by by apply known_tasks.
  destruct (events !! 0) as [[i c]|] eqn:He.
  - pose proof (Forall_lookup_1 _ _ _ _ Hknown He) as Hi. simpl in Hi.
    destruct (lookup_lt_is_Some_2 rooms i Hi) as [room Hroom]. rewrite (additions_split i).
    pose proof (additions_of_others i events rooms room Hknown Hadd Hroom).
    specialize (Hadd i room Hroom). lia.
  - apply lookup_ge_None in He. destruct events; [unfold additions|]; simpl in *; lia.
Qed.
End interleavings.

(** ** Several schedulers *)

Section tasks.
Context `{Prost} `{RocksDB} `{Formats}.
Context {B : Type} `{CacheBackend B} {T : Type} `{TapeBackend T}.
Context `{Sha256} `{DebugFormat}.
Context (envs : nat → CallEnv) (h : hash_order) (cache_clock : nat → Z) (svc : Settings).
Context (panicked : Status).

Abbreviation system := (System (B := B) (T := T)).
Abbreviation call := (Call (B := B) (T := T)).
Abbreviation scheduler := (Sched (Shared (B := B) (T := T))).

(** A task: a scheduler with its clock, its clients and its configuration, and
    the requests it answers and the turns it takes *)
Record Task := mkTask {
  task_clock : nat → Timestamp.t;
  task_has_cache : bool;
  task_has_tape : bool;
  task_config : SchedulerConfig.t;
  task_ops : list SchedulerOp;
  task_start : scheduler;
}.
Definition finish (t : Task) : scheduler :=
  history envs h cache_clock svc panicked t.(task_clock) t.(task_has_cache) t.(task_has_tape)
    t.(task_config) t.(task_ops) t.(task_start).
(** The most objects a task may add to the cache, and the calls it makes *)
Definition room_of (t : Task) : nat := sum_list (writes_of t.(task_config) <$> t.(task_ops)).
Definition record_made (t : Task) : list call := made (world (finish t)).

Definition start_over (origin : system) (t : Task) : Prop :=
  begins origin (others (world t.(task_start))) t.(task_start).

(** A task that then downloads an object *)
Definition finish_with_download (bucket key : string) (t : Task)
    : scheduler * result Status (ObjectMetadata.t * list Z) :=
  download envs h cache_clock svc t.(task_has_cache) bucket key (finish t).

(** The bodies that clients asked the schedulers to store, by bucket and key *)
Definition requested (tasks : list Task) : Uploads := λ bucket key body,
  ∃ t content_type, t ∈ tasks ∧ OpPutObject bucket key body content_type ∈ t.(task_ops).
(** The uploads of a task are among those of [uploads]. *)
Definition stores {uploads : Uploads} (t : Task) : Prop := Forall uploads_of t.(task_ops).

Lemma requested_stores (tasks : list Task) : Forall (stores (uploads := requested tasks)) tasks.
Proof using.
  apply Forall_forall. intros t Ht. apply Forall_forall. intros op Hop. destruct op; try done.
  by eexists t, _.
Qed.

(** Every room is part of the total. *)
Lemma room_le (rooms : list nat) i room : rooms !! i = Some room → (room ≤ sum_list rooms)%nat.
Proof using. intros Hi. pose proof (sum_list_insert rooms i room 0 Hi). lia. Qed.
Lemma rooms_fit (tasks : list Task) :
  Forall (λ t, (room_of t ≤ sum_list (room_of <$> tasks))%nat) tasks.
Proof using.
  apply Forall_forall. intros t [i Hi]%list_elem_of_lookup_1. apply (room_le _ i).
  by rewrite list_lookup_fmap, Hi.
Qed.
End tasks.

(** *** What the tasks of any uploads keep *)

Section uploads.
Context `{Prost} `{RocksDB} `{Formats}.
Context {B : Type} `{CacheBackendLaws B} {T : Type} `{TapeBackend T}.
Context `{Sha256Laws} `{DebugFormat} {uploads : Uploads}.
Context (envs : nat → CallEnv) (h : hash_order) (cache_clock : nat → Z) (svc : Settings).
Context (panicked : Status).

Abbreviation system := (System (B := B) (T := T)).
Abbreviation call := (Call (B := B) (T := T)).
Abbreviation scheduler := (Sched (Shared (B := B) (T := T))).
Abbreviation honest := (fair envs h cache_clock svc panicked).
Abbreviation Task := (Task (B := B) (T := T)).
Abbreviation finish := (finish envs h cache_clock svc panicked).
Abbreviation record_made := (record_made envs h cache_clock svc panicked).
Abbreviation finish_with_download := (finish_with_download envs h cache_clock svc panicked).

Lemma finish_safe origin total (t : Task) :
  stores t → empty_store total origin → start_over origin t → (room_of t ≤ total)%nat →
  safe envs h cache_clock svc panicked origin (others (world t.(task_start)))
    (total - room_of t) (room_of t) true_fact 0 (finish t).
Proof.
  intros Hup Hs Hb Ht.
  apply (history_safe envs h cache_clock svc panicked _ _ _ _ origin _ _ _ (task_ops t) (task_start t));
    [exact Hup|apply Nat.le_refl| |exact Hb].
  fold (room_of t). by rewrite Nat.add_comm, Nat.sub_add.
Qed.

Lemma tasks_reliable origin total (tasks : list Task) :
  Forall stores tasks → empty_store total origin → Forall (start_over origin) tasks →
  Forall (λ t, (room_of t ≤ total)%nat) tasks →
  Forall2 (λ room, reliable envs h cache_clock svc panicked origin (total - room) room)
    (room_of <$> tasks) (record_made <$> tasks).
Proof.
  intros Hup Hs Hb Ht. apply Forall2_fmap, Forall_Forall2_diag. apply Forall_forall. intros t Hin.
  eapply safe_reliable, finish_safe; [|done|..].
  - by eapply Forall_forall in Hup.
  - by eapply Forall_forall in Hb.
  - by eapply Forall_forall in Ht.
Qed.

(** The services stay consistent along the calls of schedulers. *)
Lemma honest_consistent origin n (l : list call) :
  sound h true_fact (additions l + n) origin → chained origin l → Forall honest l →
  Forall (λ c, consistent (metadata_in (after c))) l.
Proof.
  revert origin. induction l as [|c l IH]; intros origin Hsound; simpl; [done|].
  intros [Hb Hc] [Hf Hl]%Forall_cons. rewrite additions_cons, <-Nat.add_assoc in Hsound.
  subst origin.
  pose proof (service_call_sound envs h cache_clock svc panicked true_fact (adds c) _ _ _
    stable_true Hf Hsound) as Hafter.
  constructor; [by destruct Hafter|]. by eapply IH.
Qed.

(** What a task knows when it ends, among others *)
Lemma known_among origin plan room φ (s : scheduler) (tasks : list Task) events :
  let total := (room + sum_list (room_of <$> tasks))%nat in
  Forall stores tasks → empty_store total origin → Forall (start_over origin) tasks →
  safe envs h cache_clock svc panicked origin plan (total - room) room φ 0 s →
  interleaves origin (made (world s) :: (record_made <$> tasks)) events →
  φ (metadata_of s).
Proof.
  intros total Hup Hs Hb Hsafe Hevents.
  assert (Hrel : Forall2 (λ room', reliable envs h cache_clock svc panicked origin
      (sum_list (room :: (room_of <$> tasks)) - room') room') (room :: (room_of <$> tasks))
      (made (world s) :: (record_made <$> tasks))).
  { constructor; [by eapply safe_reliable|]. apply (tasks_reliable _ total); [done..|].
    eapply Forall_impl; [apply rooms_fit|]. intros t Ht. simpl in *. unfold total. lia. }
  destruct (relied_together _ _ _ _ _ _ _ _ _ Hevents Hrel 0 room (made (world s))) as [ks Hks];
    [done..|].
  by eapply safe_known.
Qed.

(** Between two honest calls there are honest calls. *)
Lemma honest_between origin (l : list call) p q c1 c2 :
  chained origin l → Forall honest l → (p < q)%nat → l !! p = Some c1 → l !! q = Some c2 →
  ∃ n, service_calls envs h cache_clock svc panicked n (after c1) (before c2).
Proof using.
  intros Hc Hf Hpq Hp Hq. rewrite <-(take_drop_middle l p c1 Hp) in Hc, Hf, Hq.
  apply chained_app in Hc as [_ [_ Hc]]. apply Forall_app in Hf as [_ [_ Hf]%Forall_cons].
  assert (Hlen : length (take p l) = p) by (apply length_take_le, Nat.lt_le_incl, lookup_lt_is_Some; eauto).
  rewrite lookup_app_r, Hlen in Hq by lia. destruct (q - p) as [|r] eqn:Hr; [lia|]. simpl in Hq.
  clear Hp Hpq Hr Hlen. revert c1 r Hc Hf Hq. induction (drop (S p) l) as [|c rest IH];
    intros c1 r Hc Hf Hq; [done|]. simpl in Hc. destruct Hc as [Hb Hc]. apply Forall_cons in Hf as [Hf Hrest].
  destruct r as [|r]; simpl in Hq.
  - exists 0. injection Hq as <-. rewrite Hb. apply calls_none.
  - destruct (IH c r Hc Hrest Hq) as [n Hn]. exists (adds c + n)%nat.
    eapply calls_more; [|exact Hn]. by rewrite <-Hb.
Qed.

(** Claims that stay made are decided once. *)
Lemma decided_once (unclaimed claimed : MetadataState → string → Prop) id origin (l : list call) p q c1 c2 :
  (∀ st, claimed st id → unclaimed st id → False) →
  (∀ e cmd st, admissible st cmd → claimed st id → claimed (apply_command e cmd st).1 id) →
  chained origin l → Forall honest l → l !! p = Some c1 → l !! q = Some c2 →
  decides unclaimed claimed id c1 → decides unclaimed claimed id c2 → p = q.
Proof using.
  intros Hnot Hstep Hc Hf Hp Hq Hd1 Hd2. destruct (lt_eq_lt_dec p q) as [[Hpq|]|Hpq]; [|done|].
  - destruct (honest_between _ _ _ _ _ _ Hc Hf Hpq Hp Hq) as [n Hn].
    by destruct (one_decides envs h cache_clock svc panicked unclaimed claimed id c1 c2 n).
  - destruct (honest_between _ _ _ _ _ _ Hc Hf Hpq Hq Hp) as [n Hn].
    by destruct (one_decides envs h cache_clock svc panicked unclaimed claimed id c2 c1 n).
Qed.

End uploads.

(** *** The theorems *)

Section theorems.
Context `{Prost} `{RocksDB} `{Formats}.
Context {B : Type} `{CacheBackendLaws B} {T : Type} `{TapeBackend T}.
Context `{Sha256Laws} `{DebugFormat}.
Context (envs : nat → CallEnv) (h : hash_order) (cache_clock : nat → Z) (svc : Settings).
Context (panicked : Status).

Abbreviation system := (System (B := B) (T := T)).
Abbreviation call := (Call (B := B) (T := T)).
Abbreviation scheduler := (Sched (Shared (B := B) (T := T))).
Abbreviation Task := (Task (B := B) (T := T)).
Abbreviation record_made := (record_made envs h cache_clock svc panicked).
Abbreviation finish_with_download := (finish_with_download envs h cache_clock svc panicked).

(** A task alone hears its plan, with a download at the end or without. *)
Lemma finish_hears origin (t : Task) :
  empty_store (room_of t) origin → start_over origin t →
  hears origin (others (world t.(task_start))) (record_made t).
Proof.
  intros Hs Hb. pose proof (requested_stores [t]) as [Hup _]%Forall_cons.
  eapply (safe_hears (uploads := requested [t])),
    (finish_safe (uploads := requested [t]) envs h cache_clock svc panicked origin (room_of t)); done.
Qed.
Lemma download_hears origin (t : Task) bucket key s object data :
  empty_store (room_of t) origin → start_over origin t →
  finish_with_download bucket key t = (s, Ok (object, data)) →
  hears origin (others (world t.(task_start))) (made (world s)).
Proof.
  intros Hs Hb Hget. pose proof (requested_stores [t]) as [Hup _]%Forall_cons.
  eapply (safe_hears (uploads := requested [t])), download_safe; [|exact Hget].
  apply (finish_safe (uploads := requested [t]) envs h cache_clock svc panicked origin (room_of t)); done.
Qed.

(** C2: Whatever requests clients made of any number of schedulers over one
    store, whatever passes their agents ran, in whatever order the calls of all
    of them were served, and whatever the tape worker did, bytes that a
    download returns have the length, the SHA-256 checksum and the entity tag
    recorded for the object, and these are the ones of a body that a client
    uploaded under the key. *)
Theorem restored_reads_are_intact (reader : Task) (tasks : list Task) (origin : system)
    (events : list (nat * call)) (s : scheduler) (bucket key : string)
    (object : ObjectMetadata.t) (data : list Z) :
  empty_store (sum_list (room_of <$> reader :: tasks)) origin →
  Forall (start_over origin) (reader :: tasks) →
  finish_with_download bucket key reader = (s, Ok (object, data)) →
  interleaves origin (made (world s) :: (record_made <$> tasks)) events →
  intact (uploads := requested (reader :: tasks)) bucket key object data.
Proof.
  intros Hs [Hr Hb]%Forall_cons Hget Hevents.
  pose proof (requested_stores (reader :: tasks)) as [Hup Hups]%Forall_cons.
  eapply (known_among (uploads := requested (reader :: tasks)) envs h cache_clock svc panicked origin _
    (room_of reader) (λ _, intact bucket key object data));
    [exact Hups|exact Hs|exact Hb| |exact Hevents].
  eapply download_safe; [|exact Hget]. apply finish_safe; [done|exact Hs|done|].
  apply Nat.le_add_r.
Qed.

(** C5: Any number of schedulers, each with a configuration, a history of
    requests and turns of its agents and a clock of its own, over one store,
    their calls served in any order. Every call that any of them makes is, in
    the state it finds, one of [service_call]: what it stages, and what it
    records as an object, is a body that a client asked to store under that key,
    with its size and SHA-256 digest; what it puts into the cache as restored
    has the checksum of the key's bundle. After every call each object records
    such an upload, an archived one lies in the bundle of its key, which has
    its checksum, and each recall has the checksum of its bundle. Together they
    add no more objects to the cache than their histories allow. *)
Theorem schedulers_interleave (tasks : list Task) (origin : system)
    (events : list (nat * call)) :
  empty_store (sum_list (room_of <$> tasks)) origin → Forall (start_over origin) tasks →
  interleaves origin (record_made <$> tasks) events →
  Forall (λ e,
    fair (uploads := requested tasks) envs h cache_clock svc panicked e.2 ∧
    consistent (uploads := requested tasks) (metadata_in (after e.2))) events ∧
  (additions events.*2 ≤ sum_list (room_of <$> tasks))%nat.
Proof.
  intros Hs Hb Hevents. pose proof (tasks_reliable (uploads := requested tasks) envs h cache_clock svc panicked
    _ _ tasks (requested_stores tasks) Hs Hb (rooms_fit tasks)) as Hrel.
  pose proof (reliable_together _ _ _ _ _ _ _ _ _ Hevents Hrel events ltac:(done)) as [Hfair _].
  pose proof (additions_together _ _ _ _ _ _ _ _ _ Hevents Hrel) as Hadd. split; [|done].
  set (total := sum_list (room_of <$> tasks)) in *.
  pose proof (honest_consistent (uploads := requested tasks) envs h cache_clock svc panicked
    origin (total - additions events.*2) events.*2) as Hc.
  rewrite Nat.add_sub_assoc, Nat.add_comm, Nat.add_sub in Hc by done.
  specialize (Hc (empty_sound h _ _ Hs) (served_in_turn _ _ _ Hevents) Hfair).
  rewrite Forall_fmap in Hfair, Hc. apply Forall_and. by split.
Qed.

(** C13: Whatever any number of schedulers over one store do, and in whatever
    order their calls are served, at most one claim of each archive task and of
    each recall is accepted: no two calls have the effect of an accepted update
    that puts the same task in progress. *)
Theorem claims_decided_once (tasks : list Task) (origin : system)
    (events : list (nat * call)) (id : string) (p q : nat) e1 e2 :
  empty_store (sum_list (room_of <$> tasks)) origin → Forall (start_over origin) tasks →
  interleaves origin (record_made <$> tasks) events →
  events !! p = Some e1 → events !! q = Some e2 →
  (claims_archive_task id e1.2 ∧ claims_archive_task id e2.2) ∨
  (claims_recall_task id e1.2 ∧ claims_recall_task id e2.2) → p = q.
Proof.
  intros Hs Hb Hevents Hp Hq. pose proof (tasks_reliable (uploads := requested tasks) envs h cache_clock
    svc panicked _ _ tasks (requested_stores tasks) Hs Hb (rooms_fit tasks)) as Hrel.
  pose proof (reliable_together _ _ _ _ _ _ _ _ _ Hevents Hrel events ltac:(done)) as [Hfair _].
  pose proof (served_in_turn _ _ _ Hevents) as Hc.
  assert (Hl : ∀ i e, events !! i = Some e → events.*2 !! i = Some e.2)
    by (intros i e Hi; by rewrite list_lookup_fmap, Hi).
  intros [[Hd1%archive_claim_decides Hd2%archive_claim_decides]
         |[Hd1%recall_claim_decides Hd2%recall_claim_decides]];
    (eapply decided_once; [| |exact Hc|exact Hfair|by apply Hl|by apply Hl|exact Hd1|exact Hd2]).
  all: intros; first [by eapply archive_claimed_not|by eapply archive_claimed_step
    |by eapply recall_claimed_not|by eapply recall_claimed_step].
Qed.
End theorems.
