(* ===== verification/Progress.v ===== *)
(** * Uploads come back

    A scheduler over a metadata service in memory, a cache on a device without
    failures and a simulated tape drive, and nothing else that waits: an upload
    that was acknowledged is archived by the next pass, can be asked for, and,
    once the cache takes the copy, is recalled and downloaded, whatever the
    bucket, the body, and the key, if it is new: nothing was archived or asked
    back under it before. *)

From Stdlib Require Import ZArith Lia String Ascii.
From S2P Require Import Prelude Hoare Proto StateMachine MetadataInvariants StatsInvariant ObjectTheorems.
From S2P Require Import Snapshot Raft RustStr MetadataService Vtl VtlTheorems TapeService TapeTheorems.
From S2P Require Import External F64 CacheBackend Cache CacheInvariants CacheTheorems CacheRefinement.
From S2P Require Import Config Workers SchedulerProto SchedulerClients Scheduler SchedulerSystem Checksums.
From S2P Require Import Histories Interference SchedulerIntegrity.

Local Open Scope string_scope.
Local Open Scope list_scope.
Local Open Scope stdpp_scope.

(** ** Steps that succeed *)

(** [m] ends without an error. *)
Abbreviation ends P m Q := (hoare P m Q (λ _, False)).

Section combinators.
Context {S E : Type}.
Lemma ends_attempt {A} P (m : action S E A) Q :
  ends P m Q → ends P (attempt m) (λ r s, ∃ a, r = Ok a ∧ Q a s).
Proof.
  intros Hm s Hs. specialize (Hm s Hs). unfold attempt. destruct (m s) as [s' [a|]]; [|done].
  by exists a.
Qed.
Lemma ends_discard {A} P (m : action S E A) Q :
  ends P m (λ _, Q) → ends P (discard m) (λ _, Q).
Proof. intros Hm s Hs. specialize (Hm s Hs). unfold discard. by destruct (m s) as [s' []]. Qed.
Lemma ends_bind_lift {A C} (r : result E A) a (k : A → action S E C) P Q :
  r = Ok a → ends P (k a) Q → ends P (lift r ≫= k) Q.
Proof. intros -> Hk s Hs. by apply Hk. Qed.
Lemma ends_bind_reject {C} b (e : E) (k : unit → action S E C) P Q :
  b = false → ends P (k tt) Q → ends P (reject_if b e ≫= k) Q.
Proof. intros -> Hk s Hs. by apply Hk. Qed.
Lemma ends_weaken {A} P (m : action S E A) Q Q' :
  ends P m Q → (∀ a s, Q a s → Q' a s) → ends P m Q'.
Proof. intros Hm HQ. by eapply hoare_weaken. Qed.
Lemma ends_any {A} P (m : action S E A) Q X : ends P m Q → hoare P m Q X.
Proof. intros Hm. by eapply hoare_weaken. Qed.
Lemma ends_run {A} P (m : action S E A) Q s :
  ends P m Q → P s → ∃ s' a, m s = (s', Ok a) ∧ Q a s'.
Proof.
  intros Hm Hs. specialize (Hm s Hs). destruct (m s) as [s' [a|]]; [|done]. by exists s', a.
Qed.
(** The value of a step is known. *)
Lemma ends_bind_eq {A C} P (m : action S E A) (a : A) R (k : A → action S E C) Q :
  ends P m (λ a' s, a' = a ∧ R s) → ends R (k a) Q → ends P (m ≫= k) Q.
Proof.
  intros Hm Hk. eapply hoare_bind; [exact Hm|]. intros a' s [-> Hs]. by apply Hk.
Qed.
End combinators.

(** ** The metadata of one key *)

Section key.
Context (bucket key : string).
Implicit Types (st : MetadataState) (o : ObjectMetadata.t) (e : Env).

Definition bundle_id : string := phase1_bundle_id bucket key None.
Definition recall_id : string := phase1_recall_task_id bucket key None.
Definition cache_key : CacheKey.t := CacheKey.new bucket key None.

(** The object is the only version of the key. *)
Definition sole o st : Prop :=
  ∀ v o', objects st !! ObjectKey.new bucket key v = Some o' ↔ v = None ∧ o' = o.
Lemma sole_version o o' st : sole o st → version_of st bucket key o' ↔ o' = o.
Proof.
  intros Ho. split; [by intros [v [_ ->]%Ho]|]. intros ->. exists None. by apply Ho.
Qed.
Lemma sole_found e o st : sole o st → find_object e st bucket key None = Ok o.
Proof.
  intros Ho. pose proof (find_object_newest e st bucket key) as Hf.
  destruct (find_object e st bucket key None) as [o'|].
  - destruct Hf as [Hv _]. by apply (sole_version o o' st Ho) in Hv as ->.
  - destruct Hf as [_ Hno]. by destruct (Hno o); apply (sole_version o o st Ho).
Qed.
Lemma sole_found_mut e o st :
  sole o st → find_object_mut e st bucket key None = Ok (ObjectKey.new bucket key None, o).
Proof.
  intros Ho. pose proof (find_object_agrees e st bucket key None) as Ha.
  rewrite (sole_found e o st Ho) in Ha.
  destruct (find_object_mut e st bucket key None) as [[k o']|] eqn:Hm; [|done].
  apply find_object_mut_lookup in Hm as Hk. simpl in Ha. injection Ha as <-.
  destruct k as [b' k' v]. destruct Hk as (Hl & Hb & Hkey). simpl in *. subst b' k'.
  apply Ho in Hl as [-> _]. done.
Qed.
Lemma sole_write o o' st st' :
  sole o st → objects st' = <[ObjectKey.new bucket key None := o']> (objects st) → sole o' st'.
Proof.
  intros Ho Hst v o1. rewrite Hst, lookup_insert. case_decide as Hv.
  - injection Hv as <-. split; [by intros [= ->]|by intros [_ ->]].
  - split; [by intros [-> _]%Ho|by intros [-> _]].
Qed.

(** What is recorded of the key: its object, the archive task, the bundle and
    the recall task. No other recall waits. *)
Record knows o (task : option ArchiveTask.t) (bundle : option ArchiveBundle.t)
    (recall : option RecallTask.t) st : Prop := {
  k_object : sole o st;
  k_task : archive_tasks st !! bundle_id = task;
  k_bundle : archive_bundles st !! bundle_id = bundle;
  k_recall : recall_tasks st !! recall_id = recall;
  k_others : ∀ id t, id ≠ recall_id → recall_tasks st !! id = Some t →
    is_pending_restore_status t.(RecallTask.status) = false;
}.

(** *** Commands *)

Definition yields (M : MetadataState → Prop) (cmd : MetadataCommand) (M' : MetadataState → Prop) : Prop :=
  ∀ e st, M st → ∃ st', apply_command e cmd st = (st', Ok tt) ∧ M' st'.

Lemma put_archive_task_yields o b r (t : ArchiveTask.t) :
  t.(ArchiveTask.id) = bundle_id → t.(ArchiveTask.created_at) ≠ None →
  yields (knows o None b r) (PutArchiveTask t) (knows o (Some t) b r).
Proof.
  intros Hid Hat e st [Ho Ht Hb Hr Hn]. simpl. unfold_branches.
  rewrite bool_decide_eq_false_2 by done. rewrite Hid, Ht. simpl. eexists. split; [done|].
  by split; simpl; rewrite ?lookup_insert_eq.
Qed.
Lemma update_archive_task_yields o b r (t t' : ArchiveTask.t) :
  t'.(ArchiveTask.id) = bundle_id →
  validate_archive_task_transition t.(ArchiveTask.status) t'.(ArchiveTask.status) = Ok tt →
  yields (knows o (Some t) b r) (UpdateArchiveTask t') (knows o (Some t') b r).
Proof.
  intros Hid Hv e st [Ho Ht Hb Hr Hn]. simpl. unfold_branches. rewrite Hid, Ht. simpl.
  rewrite Hv. eexists. split; [done|]. by split; simpl; rewrite ?lookup_insert_eq.
Qed.
Lemma put_recall_task_yields o a b (t : RecallTask.t) :
  t.(RecallTask.id) = recall_id → t.(RecallTask.created_at) ≠ None →
  yields (knows o a b None) (PutRecallTask t) (knows o a b (Some t)).
Proof.
  intros Hid Hat e st [Ho Ht Hb Hr Hn]. simpl. unfold_branches.
  rewrite bool_decide_eq_false_2 by done. rewrite Hid, Hr. simpl. eexists. split; [done|].
  split; simpl; rewrite ?lookup_insert_eq; [done..|]. intros id t' Hne.
  rewrite lookup_insert_ne by done. by apply Hn.
Qed.
Lemma update_recall_task_yields o a b (t t' : RecallTask.t) :
  t'.(RecallTask.id) = recall_id →
  validate_restore_transition (Some t.(RecallTask.status)) t'.(RecallTask.status) = Ok tt →
  yields (knows o a b (Some t)) (UpdateRecallTask t') (knows o a b (Some t')).
Proof.
  intros Hid Hv e st [Ho Ht Hb Hr Hn]. simpl. unfold_branches. rewrite Hid, Hr. simpl.
  rewrite Hv. eexists. split; [done|]. split; simpl; rewrite ?lookup_insert_eq; [done..|].
  intros id t2 Hne. rewrite lookup_insert_ne by done. by apply Hn.
Qed.
(** The restore status of the object; the time stamp is the clock's. *)
Definition with_restore (status : Z) (expire_at : option Timestamp.t) (t : Timestamp.t) o :=
  ObjectMetadata.set_updated_at (Some t) (ObjectMetadata.set_restore_expire_at expire_at
    (ObjectMetadata.set_restore_status (Some status) o)).
Lemma restore_status_yields o a b r status expire_at :
  validate_restore_transition o.(ObjectMetadata.restore_status) status = Ok tt →
  yields (knows o a b r) (UpdateRestoreStatus (UpdateRestoreStatusRequest.mk bucket key status expire_at))
    (λ st, ∃ t, knows (with_restore status expire_at t o) a b r st).
Proof.
  intros Hv e st [Ho Ht Hb Hr Hn]. simpl. unfold_branches.
  rewrite (sole_found_mut e o st Ho). simpl. rewrite Hv. eexists. split; [done|].
  exists (StateMachine.now_timestamp e). split; [by eapply sole_write|done..].
Qed.
(** The end of an archiving, for a request made of the object itself *)
Definition with_place (tape_id : string) (tape_set : list string) (offset : Z) (class : Z)
    (t : Timestamp.t) o : ObjectMetadata.t :=
  ObjectMetadata.set_updated_at (Some t) (ObjectMetadata.set_storage_class class
    (ObjectMetadata.set_tape_block_offset (Some offset) (ObjectMetadata.set_tape_set tape_set
      (ObjectMetadata.set_tape_id (Some tape_id) (ObjectMetadata.set_archive_id (Some bundle_id) o))))).
Lemma complete_yields o a r (x : ArchiveBundle.t) offset class :
  o.(ObjectMetadata.version_id) = None → o.(ObjectMetadata.updated_at) ≠ None →
  x.(ArchiveBundle.id) = bundle_id →
  yields (knows o a None r)
    (CompleteArchiveObject (CompleteArchiveObjectRequest.mk bucket key o.(ObjectMetadata.version_id)
      (Some o.(ObjectMetadata.size)) (Some o.(ObjectMetadata.checksum))
      (Some o.(ObjectMetadata.storage_class)) o.(ObjectMetadata.updated_at) (Some x) offset class))
    (λ st, ∃ t, knows (with_place x.(ArchiveBundle.tape_id) x.(ArchiveBundle.tape_set) offset class t o)
      a (Some x) r st).
Proof.
  intros Hver Hat Hid e st [Ho Ht Hb Hr Hn]. eexists. split.
  - apply completes_accepted. exists x, (ObjectKey.new bucket key None), o. simpl. rewrite Hver.
    split_and!; [done|by rewrite Hid|by apply sole_found_mut|by split_and!|rewrite Hid; by right|done].
  - exists (StateMachine.now_timestamp e). split; simpl; [|done|by rewrite Hid, lookup_insert_eq|done..].
    unfold with_place. rewrite <-Hid. by apply (sole_write o _ st).
Qed.
End key.

(** ** The drive of the simulator *)

Lemma drive_addr_kind a : kind a = DriveKind → drive_addr (Vtl.index a) = a.
Proof. destruct a. simpl. by intros ->. Qed.

Section drive.
Context (id tape_id : string) (a : ElementAddress).
Context (Hid : parse_drive_id id = Ok a) (Hname : drive_id_string (Vtl.index a) = id).

(** The tape is in the drive, with the bundles [ds], positioned at its end. *)
Definition shelved (taken : bool) (ds : list (list Z)) (s : SimulatorState) : Prop :=
  acquired s !! Z.to_nat (Vtl.index a) = Some taken ∧ holds a ds s ∧
  ∃ t, loaded a (library s) t ∧ barcode t = tape_id.

Lemma drive_addr_index : drive_addr (Vtl.index a) = a.
Proof using Hid. apply parse_drive_id_Ok in Hid as [Hk _]. by apply drive_addr_kind. Qed.
Lemma read_drive taken ds s :
  shelved taken ds s → ∃ d, on_library (reads (drive a)) s = (s, Ok d) ∧ element_barcode d = Some tape_id.
Proof using.
  intros (_ & _ & t & (d & Hd & Ht) & Hb). exists d. unfold on_library, reads. rewrite Hd. simpl.
  split; [by destruct s|]. unfold element_barcode. by rewrite Ht, <-Hb.
Qed.
Lemma drive_index_run taken ds s : shelved taken ds s → drive_index id s = (s, Ok (Vtl.index a)).
Proof using Hid.
  intros Hs. destruct (read_drive _ _ _ Hs) as (d & Hd & _).
  unfold drive_index, check. rewrite Hid. unfold_action. cbn [map_err]. cbv beta iota. by rewrite Hd.
Qed.
Lemma set_acquired_run taken taken' ds s : shelved taken ds s →
  ∃ s', set_acquired (Vtl.index a) taken' s = (s', Ok tt) ∧ shelved taken' ds s'.
Proof using.
  intros (Ha & (t & Hload & Hh) & Hb). unfold set_acquired. apply lookup_lt_Some in Ha as Hlt.
  rewrite (proj2 (Nat.ltb_lt _ _) Hlt). eexists. split; [done|].
  split; [by apply list_lookup_insert_eq|]. split; [by exists t|done].
Qed.

Lemma acquire_runs ds s : shelved false ds s →
  ∃ s', sim_acquire_drive (Some id) None s = (s', Ok (AcquireDriveResponse.mk id (Some tape_id))) ∧
    shelved true ds s'.
Proof using All.
  intros Hs. unfold sim_acquire_drive. unfold_action. rewrite (drive_index_run _ _ _ Hs).
  unfold vec_get. rewrite (proj1 Hs). cbv beta iota.
  destruct (set_acquired_run _ true _ _ Hs) as (s' & -> & Hs'). cbv beta iota.
  rewrite drive_addr_index. destruct (read_drive _ _ _ Hs') as (d & Hd & Hb). unfold reads in Hd.
  rewrite Hd, Hb. exists s'. by rewrite Hname.
Qed.
Lemma release_runs ds s : shelved true ds s →
  ∃ s', sim_release_drive id s = (s', Ok tt) ∧ shelved false ds s'.
Proof using Hid.
  intros Hs. unfold sim_release_drive. unfold_action. rewrite (drive_index_run _ _ _ Hs).
  by apply (set_acquired_run true).
Qed.
Lemma write_runs ds d s : is_u32 (Z.of_nat (S (length ds))) → shelved true ds s →
  ∃ s', sim_write_bundle id d s = (s', Ok (Z.of_nat (length ds), Z.of_nat (S (length ds)))) ∧
    shelved true (ds ++ [d]) s'.
Proof using Hid.
  intros Hlen (Ha & Hh & t & Hload & Hb). destruct (write_bundle_holds id a 0 ds d s Hid Hlen Hh) as [Hr Hh'].
  pose proof Hh as (t' & Hload' & _ & _ & Hf).
  pose proof (write_bundle_run id a s t d _ Hid Hload Hf) as Hrun. rewrite Hrun in *. simpl in *.
  eexists. split; [by rewrite <-Hr|]. split; [done|]. split; [done|].
  eexists. split; [by eapply loaded_set|done].
Qed.
Lemma read_runs ds k d s : shelved true ds s → ds !! k = Some d → is_u64 (Z.of_nat (length d)) →
  ∃ s', sim_read_bundle id (Z.of_nat k) (Z.of_nat (length d)) s = (s', Ok d).
Proof using Hid.
  intros (_ & Hh & _) Hk Hd. pose proof (read_bundle_holds id a 0 ds s k d _ Hid Hh Hk Hd Hd) as Hr.
  destruct (sim_read_bundle _ _ _ s) as [s' r]. simpl in Hr. exists s'. rewrite Hr.
  do 2 f_equal. apply take_ge. unfold read_len, is_u64, usize_MAX, u64_MAX in *.
  destruct (Z.eqb_spec (Z.of_nat (length d)) 0); lia.
Qed.
End drive.

(** ** The scheduler over these services *)

Lemma item_released (k : string) : ({[k]} ∪ ∅ : gset string) ∖ {[k]} = ∅.
Proof. set_solver. Qed.
Lemma cursor_not_empty k : str_gtb (CacheKey.as_cursor k) "" = true.
Proof. destruct k as [[|x b] k v]; done. Qed.

Section system.
Context `{Prost} `{RocksDB} `{Formats}.
Context {B : Type} `{CacheBackendLaws B} {works : CacheBackendWorks B}.
Context `{Sha256Laws} `{DebugFormat}.
Context (envs : nat → CallEnv) (h : hash_order) (cache_clock : nat → Z) (svc : Settings).
Context (panicked : Status) (clock : nat → Timestamp.t) (config : SchedulerConfig.t).

Abbreviation system := (System (B := B) (T := SimulatorState)).
#[local] Instance progress_metadata : MetadataClient system := system_metadata envs.
#[local] Instance progress_cache : CacheClient system := system_cache h cache_clock svc.
#[local] Instance progress_tape : TapeClient system := system_tape panicked.

Abbreviation scheduler := (Sched system).
Abbreviation sched := (action scheduler Status).
Implicit Types (M : MetadataState → Prop) (C : CacheState B → Prop) (T : SimulatorState → Prop).

(** Both passes use the drive, which has the tape of the archive. *)
Definition configured (drive_id tape_id : string) : Prop :=
  let archive := config.(SchedulerConfig.archive) in
  let recall := config.(SchedulerConfig.recall) in
  archive.(ArchiveSchedulerConfig.drive_id) = drive_id ∧
  archive.(ArchiveSchedulerConfig.tape_id) = tape_id ∧
  recall.(RecallSchedulerConfig.drive_id) = drive_id ∧
  (1 ≤ archive.(ArchiveSchedulerConfig.batch_size))%Z ∧
  (1 ≤ recall.(RecallSchedulerConfig.max_concurrent_restores))%Z.

(** A metadata service that keeps its state in memory *)
Definition in_memory (md : MetadataServiceImpl) : Prop :=
  snapshot_path md = None ∧ ∃ n, raft_backend md = Some (mkBackend Memory n).

Lemma memory_writes c cmd md st :
  in_memory md → apply_command (env c) cmd (MetadataService.state md) = (st, Ok tt) →
  ∃ md', apply_and_persist c cmd md = (md', Ok tt) ∧ in_memory md' ∧ MetadataService.state md' = st.
Proof using.
  intros [Hp [n Hb]] Hcmd. unfold apply_and_persist, propose_local_apply, persist_locked. rewrite Hb.
  simpl. rewrite Hcmd. simpl. rewrite Hp. eexists. split; [done|]. split; [|done]. split; [done|by eexists].
Qed.

(** The active items of the scheduler and the states of the services *)
Record standing (A R : gset string) M C T (s : scheduler) : Prop := {
  st_archive : active_archive_keys s = A;
  st_recall : active_recall_tasks s = R;
  st_memory : in_memory (sys_metadata (world s));
  st_metadata : M (MetadataService.state (sys_metadata (world s)));
  st_cache : C (sys_cache (world s));
  st_tape : T (sys_tape (world s));
}.

Section lifting.
Context (A R : gset string).

Lemma now_ends M C T : ends (standing A R M C T) (now_timestamp clock : sched _) (λ _, standing A R M C T).
Proof using. by intros s []. Qed.
Lemma read_ends {X} M C T (f : Env → MetadataState → result Status X) x :
  (∀ e st, M st → f e st = Ok x) →
  ends (standing A R M C T) (on_world (read_metadata envs f) : sched X)
    (λ x' s, x' = x ∧ standing A R M C T s).
Proof using.
  intros Hf s []. unfold on_world, read_metadata, on_metadata, reads. by rewrite Hf.
Qed.
Lemma write_ends M M' C T cmd : yields M cmd M' →
  ends (standing A R M C T) (on_world (on_metadata envs (λ c, apply_and_persist c cmd)) : sched unit)
    (λ _, standing A R M' C T).
Proof using.
  intros Hy s [HA HR Hm HM HC HT]. unfold on_world, on_metadata.
  destruct (Hy (env (envs (sys_calls (world s)))) _ HM) as (st & Hst & HM').
  destruct (memory_writes _ _ _ _ Hm Hst) as (md & -> & Hmd & Heq). split; try done. simpl. by rewrite Heq.
Qed.
Lemma cache_ends {X} M C C' T (m : action (CacheState B) Status X) x :
  (∀ c, C c → ∃ c', m c = (c', Ok x) ∧ C' c') →
  ends (standing A R M C T) (on_world (on_cache m) : sched X) (λ x' s, x' = x ∧ standing A R M C' T s).
Proof using.
  intros Hm s [HA HR Hmd HM HC HT]. unfold on_world, on_cache.
  destruct (Hm _ HC) as (c' & -> & HC'). done.
Qed.
Lemma tape_ends {X} M C T T' (m : action SimulatorState (fault Status) X) x :
  (∀ t, T t → ∃ t', m t = (t', Ok x) ∧ T' t') →
  ends (standing A R M C T) (on_world (on_tape panicked m) : sched X)
    (λ x' s, x' = x ∧ standing A R M C T' s).
Proof using.
  intros Hm s [HA HR Hmd HM HC HT]. unfold on_world, on_tape.
  destruct (Hm _ HT) as (t' & -> & HT'). done.
Qed.
Lemma ends_ex {X Y} (M : X → MetadataState → Prop) C T (m : sched Y) Q :
  (∀ x, ends (standing A R (M x) C T) m Q) → ends (standing A R (λ st, ∃ x, M x st) C T) m Q.
Proof using. intros Hm s [? ? ? [x ?] ? ?]. by apply (Hm x). Qed.
End lifting.

(** *** The tape clients *)

Section tape.
Context (drive_id tape_id : string) (a : ElementAddress).
Context (Hid : parse_drive_id drive_id = Ok a) (Hname : drive_id_string (Vtl.index a) = drive_id).
Context (Hdrive : drive_id ≠ EmptyString).
Context (A R : gset string) (M : MetadataState → Prop) (C : CacheState B → Prop).
Abbreviation shelved := (shelved tape_id a).

Lemma acquire_ends ds :
  ends (standing A R M C (shelved false ds)) (acquire_and_load_tape drive_id tape_id : sched _)
    (λ id s, id = drive_id ∧ standing A R M C (shelved true ds) s).
Proof using All.
  unfold acquire_and_load_tape. eapply ends_bind_eq.
  { apply tape_ends. intros t Ht. by apply (acquire_runs drive_id tape_id a Hid Hname). }
  simpl. rewrite bool_decide_eq_false_2, bool_decide_eq_true_2 by done.
  apply (hoare_bind _ _ (λ _, standing A R M C (shelved true ds))); [by apply hoare_ret|].
  intros ?. by apply hoare_ret.
Qed.
Lemma release_ends ds :
  ends (standing A R M C (shelved true ds)) (release_drive_best_effort drive_id : sched _)
    (λ _, standing A R M C (shelved false ds)).
Proof using Hid.
  apply ends_discard, (ends_weaken _ _ (λ x s, x = tt ∧ standing A R M C (shelved false ds) s));
    [|by intros ?? []].
  apply (tape_ends _ _ _ _ _ (shelved false ds)). intros t Ht.
  unfold handle_release_drive. unfold_action. simpl.
  destruct (release_runs drive_id tape_id a Hid ds t Ht) as (t' & -> & Ht'). by exists t'.
Qed.

Lemma write_bundle_ends ds tape_set block_size bundle_id count data :
  is_u32 (Z.of_nat (S (length ds))) →
  ends (standing A R M C (shelved false ds))
    (tape_write_bundle drive_id tape_id tape_set block_size bundle_id count data : sched _)
    (λ w s, w = TapeArchiveWrite.mk tape_id tape_set (Z.of_nat (length ds))
        (Z.of_nat (S (length ds))) (Z.of_nat (length data)) ∧
      standing A R M C (shelved false (ds ++ [data])) s).
Proof using All.
  intros Hds. unfold tape_write_bundle. eapply ends_bind_eq; [apply acquire_ends|].
  eapply hoare_bind.
  { apply ends_attempt, (tape_ends _ _ _ _ _ (shelved true (ds ++ [data]))). intros t Ht.
    destruct (write_runs drive_id tape_id a Hid ds data t Hds Ht) as (t' & Hw & Ht'). exists t'.
    unfold write_bundle_from_messages. unfold_action. simpl.
    rewrite bool_decide_eq_true_2 by done. simpl. rewrite Hw. by split. }
  intros r. apply hoare_exists. intros x. apply hoare_pure_l. intros ->. apply hoare_pure_l. intros ->.
  eapply hoare_bind; [apply release_ends|]. intros ?.
  eapply ends_bind_lift; [done|]. eapply ends_bind_lift.
  { unfold check_write_response. simpl. by rewrite !bool_decide_eq_true_2. }
  by apply hoare_ret.
Qed.

(** Whatever becomes of the drive, the bytes are there. *)
Lemma read_bundle_ends ds k data :
  ds !! k = Some data → is_u64 (Z.of_nat (length data)) →
  ends (standing A R M C (shelved false ds))
    (tape_read_bundle drive_id tape_id (Z.of_nat k) (Z.of_nat (length data)) : sched _)
    (λ out s, out = data ∧ standing A R M C (λ _, True) s).
Proof using All.
  intros Hk Hlen. unfold tape_read_bundle. eapply ends_bind_eq; [apply acquire_ends|].
  eapply hoare_bind.
  { apply ends_attempt. unfold read_bundle_data. eapply ends_bind_eq.
    - apply (tape_ends _ _ _ _ _ (λ _, True)). intros t Ht.
      destruct (read_runs drive_id tape_id a Hid ds k data t Ht Hk Hlen) as [t' Hr]. exists t'.
      unfold read_bundle_stream. unfold_action. simpl. rewrite Hr. by split.
    - eapply (ends_bind_lift _ (Some (Z.of_nat (length data)), data)).
      { by destruct data. }
      simpl. apply ends_bind_reject; [by rewrite bool_decide_eq_true_2|].
      apply (hoare_ret _ _ (λ out s, out = data ∧ standing A R M C (λ _, True) s)). by intros s. }
  intros r. apply hoare_exists. intros x. apply hoare_pure_l. intros ->. apply hoare_pure_l. intros ->.
  apply (hoare_bind _ _ (λ _, standing A R M C (λ _, True))).
  - intros s [HA HR Hm HM HC HT]. unfold release_drive_best_effort, discard, on_world. simpl.
    unfold on_tape. by destruct (handle_release_drive drive_id _).
  - intros ?. intros s Hs. by unfold lift.
Qed.
End tape.

(** *** Calls that can be refused *)

Lemma ignoring_ends P c (m : sched unit) Q :
  ends P m (λ _, Q) → ends P (ignoring c m) (λ b s, b = true ∧ Q s).
Proof using.
  intros Hm. unfold ignoring. eapply hoare_bind; [apply ends_attempt, Hm|]. intros r.
  apply hoare_exists. intros []. apply hoare_pure_l. intros ->. by apply hoare_ret.
Qed.

(** *** One upload *)

Section upload.
Context (bucket key : string) (data : list Z) (content_type : option string) (cached_at : Z).
Context (drive_id tape_id : string) (a : ElementAddress).
Context (Hid : parse_drive_id drive_id = Ok a) (Hname : drive_id_string (Vtl.index a) = drive_id).
Context (Hdrive : drive_id ≠ EmptyString) (Hlen : is_u64 (Z.of_nat (length data))).
Abbreviation len := (Z.of_nat (length data)).
Abbreviation knows := (knows bucket key).
Abbreviation bundle_id := (bundle_id bucket key).
Abbreviation recall_id := (recall_id bucket key).
Abbreviation cache_key := (cache_key bucket key).
Abbreviation shelved := (shelved tape_id a).

Record upload_of (o : ObjectMetadata.t) : Prop := {
  u_bucket : o.(ObjectMetadata.bucket) = bucket;
  u_key : o.(ObjectMetadata.key) = key;
  u_version : o.(ObjectMetadata.version_id) = None;
  u_size : o.(ObjectMetadata.size) = len;
  u_checksum : o.(ObjectMetadata.checksum) = sha256_hex data;
  u_updated : o.(ObjectMetadata.updated_at) ≠ None;
}.
Lemma with_place_upload tape_id' tape_set offset class t o :
  upload_of o → upload_of (with_place bucket key tape_id' tape_set offset class t o).
Proof using. by intros []. Qed.
Lemma with_restore_upload status expire_at t o :
  upload_of o → upload_of (with_restore status expire_at t o).
Proof using. by intros []. Qed.

(** The upload in the cache *)
Definition upload_meta : PutStagingMeta.t :=
  PutStagingMeta.mk bucket key None len (Some (sha256_hex data)) content_type (Some (sha256_hex data)).
Definition upload_file : File.t := staged_file upload_meta data cached_at.
Definition waiting (c : CacheState B) : Prop :=
  cache_wf h (index c) (backend c) ∧ writable 1 (backend c) ∧ healthy (backend c) ∧
  cached Staging c = {[cache_key := upload_file]}.
Definition emptied (c : CacheState B) : Prop :=
  cache_wf h (index c) (backend c) ∧ writable 1 (backend c).
Definition staged_upload : Phase1StagedObject.t :=
  Phase1StagedObject.mk (StagingObjectMeta.mk bucket key None len (Some (sha256_hex data)) content_type
    (Some (sha256_hex data)) (Some (timestamp_from_unix cached_at))) data.

Lemma digest_matches_itself : checksum_matches (sha256_hex data) (sha256_hex data) = true.
Proof using All.
  pose proof (sha256_digits data) as Hd. unfold checksum_matches. rewrite trim_hex by done.
  assert (Hno : ∀ x p, is_hex x = false → strip_prefix (String x p) (sha256_hex data) = None).
  { intros x p Hx. destruct (sha256_hex data) as [|y c]; simpl; [done|]. case_bool_decide; [|done]. subst y.
    unfold all_chars in Hd. simpl in Hd. by rewrite Hx in Hd. }
  rewrite !Hno by done. unfold eq_ignore_ascii_case. simpl. by rewrite lower_hex, bool_decide_eq_true_2.
Qed.
Lemma upload_matches o : upload_of o → validate_staged_object_matches_metadata o staged_upload = Ok tt.
Proof using All.
  intros [Hb Hk Hv Hs Hc _]. unfold validate_staged_object_matches_metadata, staged_upload.
  cbn [Phase1StagedObject.meta Phase1StagedObject.data StagingObjectMeta.bucket StagingObjectMeta.key
    StagingObjectMeta.version_id StagingObjectMeta.size StagingObjectMeta.checksum]. cbv zeta.
  rewrite Hb, Hk, Hv, Hs, Hc. rewrite !(bool_decide_eq_true_2 (_ = _)) by done. cbn [negb orb].
  rewrite trim_hex by apply sha256_digits. rewrite digest_matches_itself. by rewrite !andb_false_r.
Qed.

Lemma list_ends A R M T limit : (1 ≤ limit)%Z →
  ends (standing A R M waiting T) (on_world (ca_list_staging_keys limit None) : sched _)
    (λ l s, l = [key_entry (cache_key, upload_file)] ∧ standing A R M waiting T s).
Proof using.
  intros Hlimit. apply cache_ends. intros c (Hwf & Hw & Hh & Hc). exists c.
  split; [|by split_and!].
  assert (∃ e, hm_iter h (staging (index c)) = [(cache_key, e)] ∧ file_of (backend c) e = upload_file)
    as (e & He & Hf).
  { pose proof (map_to_list_cached Staging c) as Hl. rewrite Hc, map_to_list_singleton in Hl.
    pose proof (hm_iter_perm h (staging (index c))) as Hp. simpl in Hl.
    destruct (map_to_list (staging (index c))) as [|[k e] []]; [done| |done].
    apply (f_equal head), (inj Some) in Hl.
    change (filed (backend c) (k, e)) with (k, file_of (backend c) e) in Hl.
    apply pair_equal_spec in Hl as [Hk Hf]. exists e. apply Permutation_singleton_r in Hp.
    split; [by rewrite Hp, <-Hk|by symmetry]. }
  unfold_action. unfold list_staging_keys, get_index. unfold_action. rewrite He. simpl.
  rewrite cursor_not_empty, (proj2 (Z.eqb_neq limit 0)) by lia.
  unfold sort_by. simpl. rewrite (proj2 (Z.ltb_ge limit (Z.of_nat 1))) by lia. by rewrite <-Hf.
Qed.

(** The upload is read, and deleted. *)
Lemma get_staging_ends A R M T :
  ends (standing A R M waiting T) (cache_get_staging bucket key None : sched _)
    (λ x s, x = staged_upload ∧ standing A R M waiting T s).
Proof using All.
  unfold cache_get_staging. change (CacheKey.new bucket key None) with cache_key. eapply ends_bind_eq.
  { apply (cache_ends A R M waiting waiting T). intros c (Hwf & Hw & Hh & Hc).
    destruct (get_staging_works h cache_key upload_file data c Hwf Hh) as (c' & Hrun & Hh');
      [by rewrite Hc, lookup_singleton_eq|done|].
    pose proof (get_staging_filed h _ _ 1 cache_key c (inv_exactly h 1 c Hwf Hw)) as Hi.
    rewrite Hrun in Hi. destruct Hi as [Hi _]. exists c'. split; [unfold_action; by rewrite Hrun|].
    pose proof Hi as (Hwf' & Hw' & _). refine (conj Hwf' (conj Hw' (conj Hh' _))). rewrite <-Hc.
    by apply (cached_eq h _ _ _ _ _ _ Hi). }
  eapply ends_bind_lift; [apply collect_sent|]. by apply hoare_ret.
Qed.
Lemma delete_staging_ends A R M T :
  ends (standing A R M waiting T) (on_world (ca_delete_staging cache_key) : sched _)
    (λ x s, x = tt ∧ standing A R M emptied T s).
Proof using All.
  apply cache_ends. intros c (Hwf & Hw & Hh & Hc).
  destruct (delete_staging_works h cache_key upload_file c Hwf Hh) as (c' & Hrun & _);
    [by rewrite Hc, lookup_singleton_eq|].
  pose proof (delete_staging_removes h _ _ 1 cache_key c (inv_exactly h 1 c Hwf Hw)) as Hi.
  rewrite Hrun in Hi. exists c'. destruct Hi as (Hwf' & Hw' & _). by split.
Qed.

(** *** The archive pass *)

Lemma get_archive_task_ends A R C T o t b r :
  ends (standing A R (knows o (Some t) b r) C T) (get_archive_task bundle_id : sched _)
    (λ t' s, t' = t ∧ standing A R (knows o (Some t) b r) C T s).
Proof using.
  apply read_ends. intros e st [_ Ht _ _ _]. unfold MetadataService.get_archive_task. by rewrite Ht.
Qed.
Lemma claim_archive_ends A R C T o b r task :
  task.(ArchiveTask.id) = bundle_id → task.(ArchiveTask.created_at) ≠ None →
  task.(ArchiveTask.status) = ArchiveTaskStatus.as_i32 ArchiveTaskStatus.ArchiveTaskPending →
  ends (standing A R (knows o None b r) C T) (claim_archive_task clock task : sched _)
    (λ x s, x.1 = true ∧ x.2.(ArchiveTask.id) = bundle_id ∧
      x.2.(ArchiveTask.status) = ArchiveTaskStatus.as_i32 ArchiveTaskStatus.ArchiveTaskInProgress ∧
      standing A R (knows o (Some x.2) b r) C T s).
Proof using.
  intros Hid' Hat Hstatus. unfold claim_archive_task. eapply ends_bind_eq.
  { apply ignoring_ends, (write_ends A R _ (knows o (Some task) b r)).
    by apply put_archive_task_yields. }
  rewrite Hid'. eapply ends_bind_eq; [apply get_archive_task_ends|].
  eapply ends_bind_lift; [by rewrite Hstatus|]. cbv beta iota.
  eapply hoare_bind; [apply now_ends|]. intros now. eapply ends_bind_eq.
  { apply ignoring_ends. eapply write_ends, update_archive_task_yields; [done|by rewrite Hstatus]. }
  by apply hoare_ret.
Qed.
Lemma finalize_ends A R C T o b r task bytes :
  task.(ArchiveTask.id) = bundle_id →
  task.(ArchiveTask.status) = ArchiveTaskStatus.as_i32 ArchiveTaskStatus.ArchiveTaskInProgress →
  ends (standing A R (knows o (Some task) b r) C T)
    (finalize_archive_task_success clock bundle_id bytes : sched _)
    (λ _ s, ∃ task', standing A R (knows o (Some task') b r) C T s).
Proof using.
  intros Hid' Hstatus. unfold finalize_archive_task_success.
  eapply ends_bind_eq; [apply get_archive_task_ends|].
  eapply ends_bind_lift; [by rewrite Hstatus|]. cbv beta iota.
  eapply hoare_bind; [apply now_ends|]. intros now. eapply ends_bind_eq.
  { apply ignoring_ends. eapply write_ends, update_archive_task_yields; [done|by rewrite Hstatus]. }
  apply hoare_ret. intros s Hs. by eexists.
Qed.

(** The object waits on tape at the given place. *)
Definition archived_at (offset : Z) (o : ObjectMetadata.t) : Prop :=
  upload_of o ∧ o.(ObjectMetadata.storage_class) = StorageClass.as_i32 StorageClass.Cold ∧
  o.(ObjectMetadata.archive_id) = Some bundle_id ∧ o.(ObjectMetadata.tape_id) = Some tape_id ∧
  o.(ObjectMetadata.tape_block_offset) = Some offset ∧ o.(ObjectMetadata.restore_status) = None.
Definition on_tape (ds : list (list Z)) (s : scheduler) : Prop :=
  ∃ o task bundle, archived_at (Z.of_nat (length ds)) o ∧
    standing ∅ ∅ (knows o (Some task) (Some bundle) None) emptied (shelved false (ds ++ [data])) s.

Lemma head_ends A R C T o t b r :
  ends (standing A R (knows o t b r) C T) (head_object bucket key : sched _)
    (λ o' s, o' = o ∧ standing A R (knows o t b r) C T s).
Proof using. apply read_ends. intros e st [Ho _ _ _ _]. by apply sole_found. Qed.

Context (tape_set : list string) (block_size : Z) (ds : list (list Z)).
Context (Hds : is_u32 (Z.of_nat (S (length ds)))).
Abbreviation archive_client := (TapeArchiveClient drive_id tape_id tape_set block_size).

Lemma archive_claimed_ends A R o task :
  upload_of o → o.(ObjectMetadata.storage_class) = StorageClass.as_i32 StorageClass.ColdPending →
  o.(ObjectMetadata.restore_status) = None → task.(ArchiveTask.id) = bundle_id →
  task.(ArchiveTask.status) = ArchiveTaskStatus.as_i32 ArchiveTaskStatus.ArchiveTaskInProgress →
  ends (standing A R (knows o (Some task) None None) waiting (shelved false ds))
    (archive_claimed clock CacheArchiveClient archive_client (key_entry (cache_key, upload_file)) o
      bundle_id task : sched Z)
    (λ n s, n = len ∧ ∃ o' task' bundle, archived_at (Z.of_nat (length ds)) o' ∧
      standing A R (knows o' (Some task') (Some bundle) None) emptied (shelved false (ds ++ [data])) s).
Proof using All.
  intros Ho Hcold Hrestore Hid' Hstatus. unfold archive_claimed.
  eapply ends_bind_eq; [apply get_staging_ends|].
  eapply ends_bind_lift; [by apply upload_matches|]. cbv zeta.
  eapply ends_bind_eq; [by apply (write_bundle_ends drive_id tape_id a)|].
  apply ends_bind_reject; [by rewrite bool_decide_eq_true_2|].
  eapply ends_bind_eq; [apply head_ends|].
  apply ends_bind_reject; [unfold is_cold_pending; by rewrite Hcold|].
  eapply ends_bind_lift; [by apply upload_matches|].
  eapply hoare_bind; [apply now_ends|]. intros now. eapply hoare_bind.
  { eapply write_ends, complete_yields; [apply Ho|apply Ho|done]. }
  intros ?. apply ends_ex. intros t.
  eapply ends_bind_eq; [apply delete_staging_ends|].
  rewrite Hid'. eapply hoare_bind; [by apply finalize_ends|]. intros ?. apply hoare_ret.
  intros s [task' Hs]. split; [done|]. eexists _, task', _. split; [|exact Hs].
  split; [by apply with_place_upload|done].
Qed.

Lemma failing_ends {X} P (m : sched X) Q t : ends P m Q → ends P (failing_with t m) Q.
Proof using. intros Hm s Hs. specialize (Hm s Hs). unfold failing_with. by destruct (m s) as [s' []]. Qed.

Lemma archive_entry_ends A R o :
  upload_of o → o.(ObjectMetadata.storage_class) = StorageClass.as_i32 StorageClass.ColdPending →
  o.(ObjectMetadata.restore_status) = None →
  ends (standing A R (knows o None None None) waiting (shelved false ds))
    (archive_entry clock true config CacheArchiveClient archive_client (key_entry (cache_key, upload_file))
      : action scheduler (Status * option ArchiveTask.t) (option Z))
    (λ n s, n = Some len ∧ ∃ o' task' bundle, archived_at (Z.of_nat (length ds)) o' ∧
      standing A R (knows o' (Some task') (Some bundle) None) emptied (shelved false (ds ++ [data])) s).
Proof using All.
  intros Ho Hcold Hrestore. unfold archive_entry.
  eapply ends_bind_eq; [apply failing_ends, head_ends|].
  eapply hoare_bind.
  { apply failing_ends. unfold phase1_archive_task. eapply hoare_bind; [apply now_ends|].
    intros now. apply hoare_ret with (Q := λ t s, (t.(ArchiveTask.id) = bundle_id ∧
      t.(ArchiveTask.created_at) ≠ None ∧
      t.(ArchiveTask.status) = ArchiveTaskStatus.as_i32 ArchiveTaskStatus.ArchiveTaskPending) ∧
      standing A R (knows o None None None) waiting (shelved false ds) s). by intros s. }
  intros task. apply hoare_pure_l. intros (Hid' & Hat & Hstatus). unfold is_cold_pending. rewrite Hcold.
  eapply hoare_bind; [by apply failing_ends, claim_archive_ends|]. intros [claimed task']. simpl.
  do 3 (apply hoare_pure_l; intros ?). subst claimed.
  eapply hoare_bind; [by apply failing_ends, archive_claimed_ends|]. intros n.
  apply hoare_ret. by intros s [-> Hs].
Qed.

Lemma archive_round_ends o result :
  upload_of o → o.(ObjectMetadata.storage_class) = StorageClass.as_i32 StorageClass.ColdPending →
  o.(ObjectMetadata.restore_status) = None →
  ends (standing ∅ ∅ (knows o None None None) waiting (shelved false ds))
    (archive_round clock true config CacheArchiveClient archive_client
      (key_entry (cache_key, upload_file)) result : sched _)
    (λ r s, r = count_archived len bundle_id result ∧ on_tape ds s).
Proof using All.
  intros Ho Hcold Hrestore s Hs. unfold archive_round, acquire_archive_item. unfold_action.
  destruct Hs as [HA HR Hm HM HC HT]. rewrite HA. rewrite bool_decide_eq_false_2 by set_solver.
  cbv beta iota. set (item := phase1_archive_item_key _ _ _). cbn [negb].
  pose proof (archive_entry_ends ({[item]} ∪ ∅) ∅ o Ho Hcold Hrestore
    (set_active_archive ({[item]} ∪.) s)) as Hentry.
  destruct (archive_entry _ _ _ _ _ _ _) as [s' [n|e]]; simpl in Hentry;
    [|destruct Hentry; split; simpl; by rewrite ?HA].
  destruct Hentry as (-> & o' & task' & bundle & Ho' & Hs'); [split; simpl; by rewrite ?HA|].
  unfold release_archive_item. unfold_action. split; [done|]. exists o', task', bundle. split; [done|].
  destruct Hs'. split; try done. simpl. rewrite st_archive0. apply item_released.
Qed.

Lemma archive_pass_ends o :
  configured drive_id tape_id → tape_set = archive_tape_set config →
  block_size = config.(SchedulerConfig.archive).(ArchiveSchedulerConfig.block_size) →
  upload_of o → o.(ObjectMetadata.storage_class) = StorageClass.as_i32 StorageClass.ColdPending →
  o.(ObjectMetadata.restore_status) = None →
  ends (standing ∅ ∅ (knows o None None None) waiting (shelved false ds))
    (archive_staging_once clock true true config : sched _)
    (λ r s, r = ArchiveBatchResult.mk 1 len [bundle_id] ∧ on_tape ds s).
Proof using All.
  intros (Hd & Ht & _ & Hbatch & _) Hset Hblock Ho Hcold Hrestore.
  unfold archive_staging_once, cache_client, tape_client.
  do 2 (apply ends_bind_reject; [done|]). cbv zeta. rewrite Hd, Ht, <-Hset, <-Hblock.
  unfold archive_staging_batch.
  eapply ends_bind_eq; [apply list_ends; unfold u32_MAX; lia|]. unfold archive_loop.
  eapply ends_bind_eq; [by eapply archive_round_ends|]. apply hoare_ret. intros s Hs. split; [|done].
  unfold count_archived. simpl. by rewrite wrap64_small.
Qed.

(** *** The restore request *)

Definition recall_of (offset : Z) (expire_at : Timestamp.t) (status : RestoreStatus.t)
    (t : RecallTask.t) : Prop :=
  t.(RecallTask.id) = recall_id ∧ t.(RecallTask.bucket) = bucket ∧ t.(RecallTask.key) = key ∧
  t.(RecallTask.archive_id) = bundle_id ∧ t.(RecallTask.tape_id) = tape_id ∧
  t.(RecallTask.tape_block_offset) = offset ∧ t.(RecallTask.object_size) = len ∧
  t.(RecallTask.checksum) = sha256_hex data ∧ t.(RecallTask.expire_at) = Some expire_at ∧
  t.(RecallTask.status) = RestoreStatus.as_i32 status ∧ t.(RecallTask.created_at) ≠ None.
Definition restoring (status : RestoreStatus.t) (o : ObjectMetadata.t) : Prop :=
  upload_of o ∧ o.(ObjectMetadata.storage_class) = StorageClass.as_i32 StorageClass.Cold ∧
  o.(ObjectMetadata.archive_id) = Some bundle_id ∧
  o.(ObjectMetadata.restore_status) = Some (RestoreStatus.as_i32 status).
(** The time at which a copy asked for at a reading of the clock expires *)
Definition expires (days : Z) (expire_at : Timestamp.t) : Prop :=
  ∃ n, expire_at.(Timestamp.seconds) = ((clock n).(Timestamp.seconds) + 86400 * Z.max days 1)%Z.
Definition asked (days : Z) (s : scheduler) : Prop :=
  ∃ o task bundle recall expire_at, restoring RestoreStatus.RestorePending o ∧
    recall_of (Z.of_nat (length ds)) expire_at RestoreStatus.RestorePending recall ∧
    expires days expire_at ∧
    standing ∅ ∅ (knows o (Some task) (Some bundle) (Some recall)) emptied (shelved false (ds ++ [data])) s.

Lemma restore_ends days tier :
  tier ≠ RestoreTier.Expedited →
  ends (on_tape ds) (restore_object clock bucket key days tier : sched _)
    (λ code s, code = 202%Z ∧ asked days s).
Proof using.
  intros Htier. unfold on_tape. apply hoare_exists. intros o. apply hoare_exists. intros task.
  apply hoare_exists. intros bundle.
  apply hoare_pure_l. intros (Ho & Hcold & Haid & Htid & Hoff & Hrestore). unfold restore_object.
  eapply ends_bind_eq; [apply read_ends; intros e st [Hsole _ _ _ _]; by apply sole_found|].
  apply ends_bind_reject; [by rewrite Hcold|].
  apply ends_bind_reject; [by rewrite bool_decide_eq_false_2|].
  rewrite Hrestore. simpl. unfold start_restore.
  eapply ends_bind_lift; [by rewrite Haid|]. eapply ends_bind_lift; [by rewrite Htid|].
  eapply ends_bind_lift; [by rewrite Hoff|].
  apply (hoare_bind _ _ (λ e s, expires days e ∧
    standing ∅ ∅ (knows o (Some task) (Some bundle) None) emptied (shelved false (ds ++ [data])) s)).
  { intros s []. split; [by exists (sched_ticks s)|done]. }
  intros expire_at. apply hoare_pure_l. intros Hexp.
  eapply hoare_bind; [eapply write_ends, restore_status_yields; by rewrite Hrestore|].
  intros ?. apply ends_ex. intros t. eapply hoare_bind; [apply now_ends|]. intros now.
  eapply hoare_bind.
  { apply ends_attempt. eapply write_ends, put_recall_task_yields; [|done].
    simpl. by rewrite (u_version o Ho). }
  intros r. apply hoare_exists. intros []. apply hoare_pure_l. intros ->. apply hoare_ret. intros s Hs.
  split; [done|]. eexists _, task, bundle, _, expire_at. split_and!; [..|exact Hs]; [| |done].
  - split; [by apply with_restore_upload|done].
  - destruct Ho as [Hb Hk Hv Hsz Hc _]. by rewrite Hv, Hsz, Hc.
Qed.

(** *** The recall pass *)

Lemma pending_listed o a' b' t e st :
  knows o a' b' (Some t) st → is_pending_restore_status t.(RecallTask.status) = true →
  list_pending_recall_tasks e st = [t].
Proof using.
  intros [_ _ _ Ht Hn] Hp. unfold list_pending_recall_tasks. apply Permutation_singleton_r.
  rewrite (Lfilter_hm_values _ _ (λ t, is_pending_restore_status t.(RecallTask.status))).
  assert (filter (λ kv : string * RecallTask.t,
    is_pending_restore_status kv.2.(RecallTask.status) = true) (recall_tasks st) = {[recall_id := t]}) as ->;
    [|by rewrite map_to_list_singleton].
  apply map_eq. intros id. destruct (decide (id = recall_id)) as [->|Hne].
  - by rewrite lookup_singleton_eq, map_lookup_filter_Some_2 with (x := t).
  - rewrite lookup_singleton_ne by done. apply map_lookup_filter_None. right. intros t' Ht'. simpl.
    by rewrite (Hn id t' Hne Ht').
Qed.

Lemma same_recall_task (t : RecallTask.t) : is_same_recall_task t t = true.
Proof using. unfold is_same_recall_task. by rewrite !bool_decide_eq_true_2. Qed.
Lemma put_known_recall_yields o a' b' (t : RecallTask.t) :
  t.(RecallTask.id) = recall_id → t.(RecallTask.created_at) ≠ None →
  yields (knows o a' b' (Some t)) (PutRecallTask t) (knows o a' b' (Some t)).
Proof using.
  intros Hid' Hat e st Hk. pose proof Hk as [_ _ _ Ht _]. simpl. unfold_branches.
  rewrite bool_decide_eq_false_2 by done. rewrite Hid', Ht, same_recall_task. by exists st.
Qed.
Lemma restore_update_ends A R C T o t b r status expire_at :
  validate_restore_transition o.(ObjectMetadata.restore_status) (RestoreStatus.as_i32 status) = Ok tt →
  ends (standing A R (knows o t b r) C T)
    (update_object_restore_status bucket key status expire_at : sched _)
    (λ _, standing A R (λ st, ∃ now, knows (with_restore (RestoreStatus.as_i32 status) expire_at now o)
      t b r st) C T).
Proof using. intros Hv. by apply write_ends, restore_status_yields. Qed.

Lemma claim_recall_ends A R C T o t b offset expire_at task :
  restoring RestoreStatus.RestorePending o →
  recall_of offset expire_at RestoreStatus.RestorePending task →
  ends (standing A R (knows o t b (Some task)) C T) (claim_recall_task clock task : sched _)
    (λ x s, x.1 = true ∧ recall_of offset expire_at RestoreStatus.RestoreInProgress x.2 ∧
      ∃ o', restoring RestoreStatus.RestoreInProgress o' ∧
        standing A R (knows o' t b (Some x.2)) C T s).
Proof using.
  intros (Ho & Hcold & Haid & Hrestore) Htask.
  pose proof Htask as (Hid' & Hb & Hk & Ha & Ht & Hoff & Hsz & Hc & He & Hstatus & Hat).
  unfold claim_recall_task. eapply ends_bind_eq.
  { apply ignoring_ends, (write_ends A R _ (knows o t b (Some task))). by apply put_known_recall_yields. }
  rewrite Hid'. eapply ends_bind_eq.
  { apply (read_ends _ _ _ _ _ _ task). intros e st [_ _ _ Hr _]. unfold MetadataService.get_recall_task.
    by rewrite Hr. }
  eapply ends_bind_lift; [by rewrite Hstatus|]. cbv beta iota.
  eapply hoare_bind; [apply now_ends|]. intros now. eapply ends_bind_eq.
  { apply ignoring_ends. eapply write_ends, update_recall_task_yields; [done|by rewrite Hstatus]. }
  cbn [negb]. eapply hoare_bind.
  { simpl. rewrite Hb, Hk. apply restore_update_ends. by rewrite Hrestore. }
  intros ?. apply ends_ex. intros now'. apply hoare_ret. intros s Hs. split; [done|]. split; [done|].
  eexists. split; [|exact Hs]. split; [by apply with_restore_upload|done].
Qed.

(** The cache takes a copy of the upload, whatever its description. *)
Definition copy_messages (content_type etag : option string) (expire_at : Timestamp.t)
    : list (result Status (option (Payload PutRestoredMeta.t))) :=
  [Ok (Some (Meta (PutRestoredMeta.mk bucket key None len (Some (sha256_hex data)) content_type etag
     (Some expire_at)))); Ok (Some (Data data))].
Definition takes (c : CacheState B) : Prop :=
  ∀ content_type etag expire_at, ∃ c',
    put_restored h cache_clock svc (copy_messages content_type etag expire_at) c = (c', Ok tt) ∧
    healthy (backend c').
Definition has_copy (expire_at : Timestamp.t) (c : CacheState B) : Prop :=
  cache_wf h (index c) (backend c) ∧ healthy (backend c) ∧
  ∃ f, cached Restored c !! cache_key = Some f ∧ File.bytes f = Some data ∧
    (File.attrs f).(CacheXattrs.size) = len ∧
    (File.attrs f).(CacheXattrs.expire_at) = expire_at.(Timestamp.seconds).

Lemma put_restored_ends A R M T o expire_at :
  upload_of o →
  ends (standing A R M (λ c, emptied c ∧ takes c) T) (rc_put_restored (Phase1RestoreCache := CacheRestoreClient) o data expire_at : sched _)
    (λ _, standing A R M (has_copy expire_at) T).
Proof using.
  intros [Hb Hk Hv _ _ _]. simpl. rewrite Hb, Hk, Hv.
  apply (ends_weaken _ _ (λ x s, x = tt ∧ standing A R M (has_copy expire_at) T s)); [|by intros ?? []].
  apply cache_ends. intros c [[Hwf Hw] Htakes].
  destruct (Htakes o.(ObjectMetadata.content_type) o.(ObjectMetadata.etag) expire_at) as (c' & Hrun & Hh).
  pose proof (put_restored_files h cache_clock svc no_files any_files 0
    (copy_messages o.(ObjectMetadata.content_type) o.(ObjectMetadata.etag) expire_at) evictable_none c
    ltac:(by split_and!)) as Hput.
  rewrite Hrun in Hput. destruct Hput as (m & data' & at_ & t & Hm & _ & Hat & Hwf' & _ & HL & _).
  simpl in Hm. injection Hm as <- <-. simpl in Hat. injection Hat as <-.
  exists c'. split; [done|]. split; [done|]. split; [done|]. eexists.
  split; [apply HL; unfold filing; by rewrite decide_True|by split_and!].
Qed.

Lemma process_recall_ends A R o t b expire_at task :
  restoring RestoreStatus.RestoreInProgress o →
  recall_of (Z.of_nat (length ds)) expire_at RestoreStatus.RestoreInProgress task →
  ends (standing A R (knows o t b (Some task)) (λ c, emptied c ∧ takes c) (shelved false (ds ++ [data])))
    (process_recall_task clock CacheRestoreClient (TapeRecallClient drive_id) task : sched _)
    (λ n s, n = len ∧ ∃ o' task', restoring RestoreStatus.RestoreCompleted o' ∧
      standing A R (knows o' t b (Some task')) (has_copy expire_at) (λ _, True) s).
Proof using All.
  intros (Ho & Hcold & Haid & Hrestore) (Hid' & Hb & Hk & Ha & Ht & Hoff & Hsz & Hc & He & Hstatus & Hat).
  unfold process_recall_task. rewrite Hb, Hk. eapply ends_bind_eq; [apply head_ends|].
  apply ends_bind_reject; [by rewrite Hcold|].
  apply ends_bind_reject; [rewrite Haid, Ha; by rewrite bool_decide_eq_true_2|]. cbv zeta.
  apply ends_bind_reject; [rewrite Hoff; unfold is_u32 in Hds; apply Z.ltb_ge; lia|].
  rewrite Ht, Hoff, Hsz. eapply ends_bind_eq.
  { apply (read_bundle_ends drive_id tape_id a Hid Hname Hdrive); [|done].
    rewrite lookup_app_r, Nat.sub_diag by done. done. }
  apply ends_bind_reject; [by rewrite bool_decide_eq_true_2|].
  apply ends_bind_reject; [rewrite Hc; by rewrite bool_decide_eq_true_2|].
  rewrite He. eapply ends_bind_eq; [apply hoare_ret; intros s Hs; split; [done|exact Hs]|].
  eapply hoare_bind; [by apply put_restored_ends|]. intros ?.
  eapply hoare_bind; [apply now_ends|]. intros now.
  eapply hoare_bind.
  { eapply write_ends, update_recall_task_yields; [done|by rewrite Hstatus]. }
  intros ?. eapply hoare_bind.
  { simpl. rewrite Hb, Hk. apply restore_update_ends. by rewrite Hrestore. }
  intros ?. apply ends_ex. intros now'. apply hoare_ret. intros s Hs. split; [done|].
  eexists _, _. split; [|exact Hs]. split; [by apply with_restore_upload|done].
Qed.

Definition recalled (days : Z) (s : scheduler) : Prop :=
  ∃ o task bundle recall expire_at, restoring RestoreStatus.RestoreCompleted o ∧
    expires days expire_at ∧
    standing ∅ ∅ (knows o (Some task) (Some bundle) (Some recall)) (has_copy expire_at) (λ _, True) s.

Lemma recall_round_ends o t b expire_at task result :
  restoring RestoreStatus.RestorePending o →
  recall_of (Z.of_nat (length ds)) expire_at RestoreStatus.RestorePending task →
  ends (standing ∅ ∅ (knows o t b (Some task)) (λ c, emptied c ∧ takes c) (shelved false (ds ++ [data])))
    (recall_round clock CacheRestoreClient (TapeRecallClient drive_id) task result : sched _)
    (λ r s, r = count_restored len recall_id result ∧ ∃ o' task',
      restoring RestoreStatus.RestoreCompleted o' ∧
      standing ∅ ∅ (knows o' t b (Some task')) (has_copy expire_at) (λ _, True) s).
Proof using All.
  intros Ho Htask. unfold recall_round, phase1_recall_task_key. set (item := task.(RecallTask.id)).
  eapply (ends_bind_eq _ _ (Ok tt)); [by intros s|]. cbv zeta.
  eapply (ends_bind_eq _ _ true (standing ∅ ({[item]} ∪ ∅) (knows o t b (Some task))
    (λ c, emptied c ∧ takes c) (shelved false (ds ++ [data])))).
  { intros s [HA HR Hm HM HC HT]. unfold acquire_recall_task. rewrite HR.
    rewrite bool_decide_eq_false_2 by set_solver. split; [done|]. split; simpl; by rewrite ?HR. }
  cbn [negb]. eapply (ends_bind_eq _ _ (Ok tt)); [by intros s|].
  eapply hoare_bind; [by apply ends_attempt, claim_recall_ends|]. intros r.
  apply hoare_exists. intros [claimed task']. apply hoare_pure_l. intros ->. simpl.
  apply hoare_pure_l. intros ->. apply hoare_pure_l. intros Htask'.
  apply hoare_exists. intros o'. apply hoare_pure_l. intros Ho'. cbn [negb].
  unfold recall_claimed.
  eapply hoare_bind; [by apply ends_attempt, process_recall_ends|]. intros r.
  apply hoare_exists. intros n. apply hoare_pure_l. intros ->. apply hoare_pure_l. intros ->.
  eapply ends_bind_eq; [by apply hoare_ret; intros s Hs; split; [reflexivity|exact Hs]|].
  intros s (o2 & task2 & Ho2 & Hs). unfold release_recall_task. unfold_action.
  split; [by destruct Htask' as [-> _]|]. exists o2, task2. split; [done|].
  destruct Hs as [HA HR Hm HM HC HT]. split; try done. simpl. rewrite HR. apply item_released.
Qed.

Lemma recall_pass_ends days max_tasks :
  configured drive_id tape_id → (1 ≤ max_tasks)%Z →
  ends (λ s, asked days s ∧ takes (sys_cache (world s)))
    (recall_pending_once clock true true config max_tasks : sched _)
    (λ r s, r = RecallBatchResult.mk 1 len [recall_id] ∧ recalled days s).
Proof using All.
  intros (_ & _ & Hrd & _ & Hmax) Htasks s [(o & task & bundle & recall & expire_at & Ho & Htask & Hexp & Hs) Htakes].
  revert s Hs Htakes. pose proof Htask as (_ & _ & _ & _ & _ & _ & _ & _ & _ & Hstatus & _).
  cut (ends (standing ∅ ∅ (knows o (Some task) (Some bundle) (Some recall)) (λ c, emptied c ∧ takes c)
      (shelved false (ds ++ [data]))) (recall_pending_once clock true true config max_tasks : sched _)
    (λ r s, r = RecallBatchResult.mk 1 len [recall_id] ∧ recalled days s)).
  { intros Hends s Hs Htakes. apply Hends. by destruct Hs. }
  unfold recall_pending_once, cache_client, tape_client. do 2 (apply ends_bind_reject; [done|]).
  cbv zeta. rewrite Hrd. unfold recall_pending_batch. eapply ends_bind_eq.
  { apply (read_ends _ _ _ _ _ _ [recall]). intros e st Hk. f_equal.
    eapply pending_listed; [exact Hk|by rewrite Hstatus]. }
  set (n := Z.to_nat _). assert (Hn : (1 ≤ n)%nat) by (unfold n; lia).
  cbn [List.filter]. unfold is_pending_recall_task at 1. rewrite Hstatus.
  cbn [sort_by foldr insert_by]. simpl. destruct n as [|n]; [lia|]. cbn [take].
  rewrite take_nil. unfold recall_loop.
  eapply ends_bind_eq; [by eapply recall_round_ends|]. apply hoare_ret.
  intros s (o' & task' & Ho' & Hs). split; [unfold count_restored; simpl; by rewrite wrap64_small|].
  by exists o', task, bundle, task', expire_at.
Qed.

(** *** The download *)

(** The time the cache reads next is before every time a copy can expire at. *)
Definition unexpired (days : Z) (c : CacheState B) : Prop :=
  ∀ n, (cache_clock (ticks c) < (clock n).(Timestamp.seconds) + 86400 * Z.max days 1)%Z.
Lemma download_ends days :
  ends (λ s, recalled days s ∧ unexpired days (sys_cache (world s)))
    (get_object true bucket key : sched _) (λ r s, r.2 = data ∧ upload_of r.1).
Proof using All.
  intros s [(o & task & bundle & recall & expire_at & (Ho & Hcold & _ & Hrestore) & [n Hexp] & Hs) Hclock].
  revert s Hs Hclock.
  cut (ends (standing ∅ ∅ (knows o (Some task) (Some bundle) (Some recall))
      (λ c, has_copy expire_at c ∧ unexpired days c) (λ _, True))
    (get_object true bucket key : sched _) (λ r s, r.2 = data ∧ upload_of r.1)).
  { intros Hends s Hs Hclock. apply Hends. by destruct Hs. }
  unfold get_object. eapply ends_bind_eq; [apply head_ends|].
  apply (hoare_bind _ _ (λ d _, d = data)); [|intros d; apply hoare_ret; by intros s ->].
  unfold read_restored_object, cache_client. destruct Ho as [Hb Hk Hv Hsz Hc Hu].
  apply ends_bind_reject; [by rewrite Hcold|]. apply ends_bind_reject; [by rewrite Hrestore|].
  apply ends_bind_reject; [done|]. rewrite Hb, Hk, Hv.
  change (CacheKey.new bucket key None) with cache_key.
  apply (hoare_bind _ _ (λ r _, ∃ x, (r = Ok (sent (get_messages x data)) ∧
    x.(CacheXattrs.size) = len) ∧ True)).
  { intros s [_ _ _ _ [(Hwf & Hh & f & Hf & Hbytes & Hfsz & Hfexp) Hclock] _].
    destruct (get_works h cache_clock cache_key f data (sys_cache (world s)) Hwf Hh Hf Hbytes) as [c' Hget].
    { unfold is_expired_at. rewrite Hfexp, Hexp. apply andb_false_iff. right.
      apply Z.leb_gt, Hclock. }
    unfold attempt, on_world. simpl. unfold on_cache. unfold_action. rewrite Hget. by exists (File.attrs f). }
  intros r. apply hoare_exists. intros x. apply hoare_pure_l. intros [-> Hx].
  eapply ends_bind_lift; [done|]. eapply ends_bind_lift; [apply collect_sent|].
  eapply ends_bind_lift; [done|]. cbv zeta. cbn [CachedObjectMeta.size]. rewrite Hx, Hsz.
  do 2 (apply ends_bind_reject; [by rewrite bool_decide_eq_true_2|]). by apply hoare_ret.
Qed.
End upload.

(** *** The whole life *)

Section life.
Context (bucket key : string) (data : list Z) (content_type : option string).
Abbreviation len := (Z.of_nat (length data)).

(** The bucket exists, nothing is known of the key, and no recall waits. *)
Record fresh (st : MetadataState) : Prop := {
  f_bucket : is_Some (buckets st !! bucket);
  f_object : ∀ v, objects st !! ObjectKey.new bucket key v = None;
  f_task : archive_tasks st !! bundle_id bucket key = None;
  f_bundle : archive_bundles st !! bundle_id bucket key = None;
  f_recall : recall_tasks st !! recall_id bucket key = None;
  f_others : ∀ id t, recall_tasks st !! id = Some t →
    is_pending_restore_status t.(RecallTask.status) = false;
}.
(** Nothing waits in the cache, which has identifiers left. *)
Definition vacant (c : CacheState B) : Prop :=
  cache_wf h (index c) (backend c) ∧ writable 2 (backend c) ∧ cached Staging c = ∅.
Definition staged_only (c : CacheState B) : Prop :=
  ∃ t, cache_wf h (index c) (backend c) ∧ writable 1 (backend c) ∧
    cached Staging c = {[cache_key bucket key := upload_file bucket key data content_type t]}.
Definition recorded (o : ObjectMetadata.t) : Prop :=
  upload_of bucket key data o ∧
  o.(ObjectMetadata.storage_class) = StorageClass.as_i32 StorageClass.ColdPending ∧
  o.(ObjectMetadata.restore_status) = None.

Lemma put_object_yields now :
  yields fresh (PutObject (new_object bucket key data content_type now))
    (λ st, ∃ o, recorded o ∧ knows bucket key o None None None st).
Proof using.
  intros e st [Hb Ho Ht Hbu Hr Hn]. simpl. unfold_branches.
  rewrite (proj2 (contains_key_true _ _) Hb). simpl. eexists. split; [done|].
  exists (ObjectMetadata.set_updated_at (Some (StateMachine.now_timestamp e))
    (new_object bucket key data content_type now)). split; [by split; [split|]|].
  assert (Hst : ∀ st', objects (refresh_bucket_stats e bucket st') = objects st' ∧
    archive_tasks (refresh_bucket_stats e bucket st') = archive_tasks st' ∧
    archive_bundles (refresh_bucket_stats e bucket st') = archive_bundles st' ∧
    recall_tasks (refresh_bucket_stats e bucket st') = recall_tasks st').
  { intros st'. unfold refresh_bucket_stats. case_match; [|done]. by destruct (foldl _ _ _). }
  match goal with |- context [refresh_bucket_stats e bucket ?x] =>
    destruct (Hst x) as (Hobj & Hta & Hbun & Hrec) end.
  split; rewrite ?Hta, ?Hbun, ?Hrec; [|done..|by eauto].
  intros v o'. rewrite Hobj. simpl. rewrite lookup_insert. case_decide as Hv.
  - injection Hv as <-. split; [by intros [= <-]|by intros [_ ->]].
  - rewrite Ho. split; [done|]. by intros [-> _].
Qed.

Lemma put_staging_stages :
  hoare vacant (put_staging h cache_clock svc
      [Ok (Some (Meta (upload_meta bucket key data content_type))); Ok (Some (Data data))])
    (λ _, staged_only) (λ _, True).
Proof using.
  intros c (Hwf & Hw & Hc).
  pose proof (put_staging_files h cache_clock svc no_files (λ c _ _, c = Restored) 1
    [Ok (Some (Meta (upload_meta bucket key data content_type))); Ok (Some (Data data))]
    evictable_none c) as Hput.
  destruct (put_staging _ _ _ _ _) as [c' [id|e]]; [|done].
  destruct Hput as (m & data' & t & Hm & _ & Hi).
  { split_and!; [done..|by intros ??? []|]. intros [] k f Hf; [by rewrite Hc, lookup_empty in Hf|done]. }
  simpl in Hm. injection Hm as <- <-. exists t. pose proof Hi as (Hwf' & Hw' & _).
  split; [done|]. split; [done|]. apply (cached_eq h _ _ _ _ _ _ Hi).
  - intros k f [<- <-]%lookup_singleton_Some. unfold filing. by rewrite decide_True.
  - intros k f. unfold filing. case_decide as Hk; [|done]. destruct Hk as [_ ->]. intros ->.
    apply lookup_singleton_eq.
Qed.

Lemma upload_recorded T :
  hoare (standing ∅ ∅ fresh vacant T) (put_object clock true bucket key data content_type : sched _)
    (λ _ s, ∃ o, recorded o ∧ standing ∅ ∅ (knows bucket key o None None None) staged_only T s)
    (λ _, True).
Proof using.
  unfold put_object, put_staging_object, cache_client.
  apply (hoare_bind _ _ (λ _, standing ∅ ∅ fresh staged_only T)).
  { apply hoare_bind_reject; [done|]. intros _ s [HA HR Hm HM HC HT]. unfold on_world. simpl.
    unfold on_cache. pose proof (put_staging_stages _ HC) as Hput.
    destruct (put_staging _ _ _ _ _) as [c' [id|e]]; done. }
  intros ?. apply ends_any.
  eapply hoare_bind; [apply now_ends|]. intros now.
  eapply hoare_bind; [apply ends_attempt, write_ends, (put_object_yields now)|]. intros r.
  apply hoare_exists. intros []. apply hoare_pure_l. intros ->. apply ends_ex. intros o.
  apply hoare_ret. intros s [HA HR Hm [Ho HM] HC HT]. by exists o.
Qed.

End life.
End system.
