(* ===== verification/SchedulerTheorems.v ===== *)
(** * Theorems on the scheduler

    What holds of the scheduler over any metadata service, cache and tape
    worker: its sets of active work, what a download requires, the pages of a
    listing, and the retries of start-up. *)

From Stdlib Require Import ZArith Lia String Ascii.
From S2P Require Import Prelude Hoare Proto RustStr External CacheBackend Cache TapeService.
From S2P Require Import SchedulerProto Config SchedulerClients Scheduler.

Local Open Scope string_scope.
Local Open Scope list_scope.
Local Open Scope stdpp_scope.

(** ** Active work *)

Section active.
Context {W : Type} `{MetadataClient W} `{CacheClient W} `{TapeClient W}.
Context `{Sha256} `{DebugFormat}.
Context (clock : nat → Timestamp.t) (has_cache has_tape : bool) (config : SchedulerConfig.t).

Abbreviation sched := (action (Sched W) Status).

Definition active (A R : gset string) (s : Sched W) : Prop :=
  active_archive_keys s = A ∧ active_recall_tasks s = R.
Abbreviation idle A R m := (hoare (active A R) m (λ _, active A R) (active A R)).

Lemma idle_bind {E X Y} A R (m : action (Sched W) E X) (k : X → action (Sched W) E Y) :
  idle A R m → (∀ x, idle A R (k x)) → idle A R (m ≫= k).
Proof using. intros Hm Hk. by eapply hoare_bind. Qed.
Lemma idle_ret {E X} A R (x : X) : idle A R (mret x : action (Sched W) E X).
Proof using. by apply hoare_ret. Qed.
Lemma idle_throw {E X} A R e : idle A R (throw e : action (Sched W) E X).
Proof using. apply hoare_throw. Qed.
Lemma idle_lift {E X} A R r : idle A R (lift r : action (Sched W) E X).
Proof using. apply hoare_lift. Qed.
Lemma idle_reject {E} A R b e : idle A R (reject_if b e : action (Sched W) E unit).
Proof using. apply hoare_reject. Qed.
Lemma idle_attempt {X} A R (m : sched X) : idle A R m → idle A R (attempt m).
Proof using.
  intros Hm. eapply hoare_weaken; [apply hoare_attempt, Hm|done| |done]. by intros [] s.
Qed.
Lemma idle_discard {X} A R (m : sched X) : idle A R m → idle A R (discard m).
Proof using. intros Hm. by apply hoare_discard. Qed.
Lemma idle_world {X} A R (m : action W Status X) : idle A R (on_world m).
Proof using. intros s Hs. unfold on_world. by destruct (m _) as [w []]. Qed.
Lemma idle_now A R : idle A R (now_timestamp clock : sched _).
Proof using. by intros s Hs. Qed.
Lemma idle_failing {X} A R task (m : sched X) : idle A R m → idle A R (failing_with task m).
Proof using.
  intros Hm s Hs. specialize (Hm s Hs). unfold failing_with. by destruct (m s) as [s' []].
Qed.

Create HintDb idling.
#[local] Hint Resolve idle_ret idle_throw idle_lift idle_reject idle_attempt idle_discard
  idle_world idle_now idle_failing : idling.
Ltac follow :=
  lazymatch goal with
  | |- hoare _ (_ ≫= _) _ _ => apply idle_bind; [follow|intros ?; follow]
  | |- hoare _ (match ?x with _ => _ end) _ _ => destruct x; follow
  | |- hoare _ (attempt _) _ _ => apply idle_attempt; follow
  | |- hoare _ (discard _) _ _ => apply idle_discard; follow
  | |- hoare _ (failing_with _ _) _ _ => apply idle_failing; follow
  | |- hoare _ ?m _ _ =>
      first [by auto with idling
            |progress cbn [ac_get_staging ac_delete_staging ac_list_staging_keys aw_write_bundle
               rc_put_restored rr_read_bundle CacheArchiveClient CacheRestoreClient
               TapeArchiveClient TapeRecallClient]; follow
            |let f := head_of m in unfold f; follow]
  end
with head_of m := lazymatch m with ?f _ => head_of f | _ => m end.

(** An item is in its set for as long as its round runs. *)
Lemma archive_round_idle A R drive tape tape_set block_size entry result :
  idle A R (archive_round clock has_cache config CacheArchiveClient
    (TapeArchiveClient drive tape tape_set block_size) entry result : sched _).
Proof using.
  unfold archive_round. set (item := phase1_archive_item_key _ _ _).
  intros s [HA HR]. unfold_action. unfold acquire_archive_item.
  case_bool_decide as Hin; [done|]. simpl. rewrite HA in Hin.
  assert (He : idle ({[item]} ∪ A) R (archive_entry clock has_cache config CacheArchiveClient
    (TapeArchiveClient drive tape tape_set block_size) entry)) by (unfold archive_entry; follow).
  assert (Hm : ∀ task e, idle ({[item]} ∪ A) R
    (discard (mark_archive_task_failed clock task e) : sched _)) by (intros; follow).
  assert (Hout : ∀ s', active ({[item]} ∪ A) R s' → active A R (set_active_archive (.∖ {[item]}) s')).
  { intros s' [HA' HR']. split; [simpl; rewrite HA'; set_solver|done]. }
  set (s1 := set_active_archive _ s). specialize (He s1).
  assert (Hs1 : active ({[item]} ∪ A) R s1) by (by rewrite <-HA).
  specialize (He Hs1). destruct (archive_entry _ _ _ _ _ _ _) as [s2 [done_|[status task]]]; simpl.
  - by apply Hout.
  - destruct task as [task|]; simpl; [|by apply Hout].
    specialize (Hm task (message status) s2 He). unfold discard in *. by apply Hout.
Qed.

(** A path that takes the task out of the set of active tasks *)
Abbreviation leaves A R key m := (hoare (active A ({[key]} ∪ R)) m (λ _, active A R) (active A R)).
Lemma released A R key X :
  key ∉ R →
  hoare (active A ({[key]} ∪ R)) (release_recall_task key : sched unit) (λ _, active A R) X.
Proof using. intros Hkey s [HA HR]. split; [done|]. simpl. rewrite HR. set_solver. Qed.
Lemma leaves_release {X} A R key (m : sched X) :
  key ∉ R → idle A R m → leaves A R key (release_recall_task key ≫= λ _, m).
Proof using. intros Hkey Hm. eapply hoare_bind; [by apply released|by intros []]. Qed.
Lemma leaves_attempt {X Y} A R key (m : sched X) (k : result Status X → sched Y) :
  idle A ({[key]} ∪ R) m → (∀ r, leaves A R key (k r)) → leaves A R key (attempt m ≫= k).
Proof using.
  intros Hm Hk. eapply hoare_bind; [by eapply hoare_attempt|]. intros [x|e]; apply Hk.
Qed.

Lemma recall_claimed_leaves A R drive key task result :
  key ∉ R → leaves A R key
    (recall_claimed clock CacheRestoreClient (TapeRecallClient drive) key task result : sched _).
Proof using.
  intros Hkey. unfold recall_claimed. apply leaves_attempt; [follow|]. intros restored.
  apply (hoare_bind _ _ (λ _, active A ({[key]} ∪ R)));
    [|intros ?; apply leaves_release; [done|follow]].
  destruct restored as [bytes|status]; [by apply hoare_ret|].
  set (X := active A ({[key]} ∪ R)).
  eapply hoare_bind; [apply (hoare_attempt _ _ (λ _, X) X)|intros [[]|mark_status]].
  - destruct (is_retriable_recall_processing_error status); follow.
  - by apply hoare_ret.
  - eapply hoare_bind; [by apply released|intros []; apply hoare_throw].
Qed.

Lemma recall_round_idle A R drive task result :
  idle A R (recall_round clock CacheRestoreClient (TapeRecallClient drive) task result : sched _).
Proof using.
  unfold recall_round. set (key := phase1_recall_task_key task).
  apply (hoare_bind _ _ (λ slot s, slot = Ok tt ∧ active A R s)); [by intros s|].
  intros slot. apply hoare_pure_l. intros ->. cbv zeta.
  apply (hoare_bind _ _ (λ (acquired : bool) s,
    (acquired = true → key ∉ R) ∧ active A (if acquired then {[key]} ∪ R else R) s)).
  { intros s [HA HR]. unfold acquire_recall_task. rewrite HR. by case_bool_decide; repeat split; simpl; rewrite ?HR. }
  intros acquired. apply hoare_pure_l. intros Hkey. destruct acquired; simpl; [|follow].
  specialize (Hkey eq_refl). apply leaves_attempt; [follow|]. intros [lease|status];
    [|apply leaves_release; [done|follow]].
  apply leaves_attempt; [follow|]. intros [[[] claimed]|status]; simpl;
    [by apply recall_claimed_leaves|apply leaves_release; [done|follow]..].
Qed.

(** C31: However the calls of a pass end, the sets of active archive items and
    recall tasks are afterwards what they were before: no item stays marked as
    in progress, so no later pass skips it for that. *)
Theorem passes_release_their_items (s : Sched W) (max_tasks : Z) :
  let archived := (archive_staging_once clock has_cache has_tape config s).1 in
  let recalled := (recall_pending_once clock has_cache has_tape config max_tasks s).1 in
  active_archive_keys archived = active_archive_keys s ∧
  active_recall_tasks archived = active_recall_tasks s ∧
  active_archive_keys recalled = active_archive_keys s ∧
  active_recall_tasks recalled = active_recall_tasks s.
Proof using.
  cbv zeta. assert (Hrun : ∀ {X} (m : sched X), idle (active_archive_keys s) (active_recall_tasks s) m →
    active (active_archive_keys s) (active_recall_tasks s) (m s).1).
  { intros X m Hm. specialize (Hm s (conj eq_refl eq_refl)). by destruct (m s) as [s' []]. }
  cut (idle (active_archive_keys s) (active_recall_tasks s)
         (archive_staging_once clock has_cache has_tape config : sched _) ∧
       idle (active_archive_keys s) (active_recall_tasks s)
         (recall_pending_once clock has_cache has_tape config max_tasks : sched _)).
  { intros [Ha Hr]. destruct (Hrun _ _ Ha) as [-> ->]. by destruct (Hrun _ _ Hr) as [-> ->]. }
  unfold archive_staging_once, recall_pending_once, cache_client, tape_client,
    archive_staging_batch, recall_pending_batch.
  split; (do 2 (apply idle_bind; [follow|intros _])); apply idle_bind; try follow.
  - intros entries. generalize ArchiveBatchResult.default_result.
    induction entries as [|entry entries IH]; intros result; simpl; [follow|].
    apply idle_bind; [apply archive_round_idle|apply IH].
  - intros tasks. generalize (take (Z.to_nat (Z.min max_tasks
      (RecallSchedulerConfig.max_concurrent_restores (SchedulerConfig.recall config))))
      (sort_by recall_cmp (List.filter is_pending_recall_task tasks))).
    intros chosen. generalize RecallBatchResult.default_result.
    induction chosen as [|task chosen IH]; intros result; simpl; [follow|].
    apply idle_bind; [apply recall_round_idle|apply IH].
Qed.
End active.

(** ** Listing pages *)

Section pages.
Context (prefix delimiter : string).
Implicit Types (o : ObjectMetadata.t) (p : PageState).

(** The key goes on, after the prefix, with a part that the delimiter ends:
    the listing then has [c], up to the first such delimiter, instead of the
    object. *)
Definition folds_into (key c : string) : Prop :=
  delimiter ≠ EmptyString ∧
  ∃ rest part, key = prefix +:+ rest ∧ before_first delimiter rest part ∧
    c = prefix +:+ part +:+ delimiter.

Lemma rolled_up_Some key c : rolled_up prefix delimiter key = Some c ↔ folds_into key c.
Proof using.
  unfold rolled_up, folds_into. case_bool_decide as Hd; [naive_solver|].
  destruct (strip_prefix prefix key) as [rest|] eqn:Hs; simpl.
  2:{ split; [done|]. intros (_ & rest & part & Hk & _). apply strip_prefix_Some in Hk. congruence. }
  apply strip_prefix_Some in Hs. split.
  - destruct (str_find delimiter rest) as [pos|] eqn:Hf; [|done]. simpl. intros [= <-].
    apply str_find_Some in Hf as (part & Hpart & <-). split; [done|].
    exists rest, part. split_and!; try done. destruct Hpart as [[after ->] _].
    f_equal. rewrite <-append_assoc, <-length_append. apply str_take_append.
  - intros (_ & rest' & part & Hk & Hpart & ->). rewrite Hs in Hk.
    apply append_inj in Hk as [_ <-]; [|done].
    destruct (str_find delimiter rest) as [pos|] eqn:Hf; simpl.
    + apply str_find_Some in Hf as (part' & Hpart' & <-).
      rewrite (before_first_inj _ _ _ _ Hpart' Hpart). destruct Hpart as [[after ->] _].
      do 2 f_equal. rewrite <-append_assoc, <-length_append. apply str_take_append.
    + destruct Hpart as [[after Hr] _]. by apply (str_find_None _ _ part after) in Hf.
Qed.

(** A common prefix does not come after the keys it stands for. *)
Lemma folds_into_le key c : folds_into key c → cmp_le String.compare c key.
Proof using.
  intros (_ & rest & part & -> & [[after ->] _] & ->).
  replace (prefix +:+ part +:+ delimiter +:+ after)
    with ((prefix +:+ part +:+ delimiter) +:+ after) by (by rewrite !append_assoc).
  apply compare_append_le.
Qed.

Definition rolls o : option string := rolled_up prefix delimiter o.(ObjectMetadata.key).
Definition plain o : bool := match rolls o with None => true | Some _ => false end.

(** The variables of the loop after the objects [done_] *)
Record page_inv (limit : Z) (done_ : list ObjectMetadata.t) p : Prop := {
  inv_contents : pg_contents p = List.filter plain done_;
  inv_nodup : NoDup (pg_prefixes p);
  inv_prefixes c : c ∈ pg_prefixes p ↔ ∃ o, o ∈ done_ ∧ rolls o = Some c;
  inv_emitted : pg_emitted p = Z.of_nat (length (pg_contents p) + length (pg_prefixes p));
  inv_limit : (pg_emitted p ≤ Z.max limit 0)%Z;
  inv_count : (pg_emitted p ≤ Z.of_nat (length done_))%Z;
  inv_last : pg_last p = None → done_ = [];
  inv_mark m : pg_last p = Some m →
    ∃ o, o ∈ done_ ∧ cmp_le String.compare m o.(ObjectMetadata.key);
}.

Lemma page_inv_prefix limit done_ p o c :
  page_inv limit done_ p → rolls o = Some c →
  (c ∈ pg_prefixes p → page_inv limit (done_ ++ [o]) p) ∧
  (c ∉ pg_prefixes p → (pg_emitted p < limit)%Z → page_inv limit (done_ ++ [o])
     (mkPage (pg_emitted p + 1) (pg_contents p) (pg_prefixes p ++ [c]) (Some c))).
Proof using.
  intros [Hc Hn Hp He Hl Hcnt Hla Hm] Ho.
  assert (Hf : pg_contents p = List.filter plain (done_ ++ [o])).
  { rewrite List.filter_app. simpl. unfold plain at 2. by rewrite Ho, app_nil_r. }
  split.
  - intros Hin. split; try done.
    + intros c'. rewrite Hp. split.
      * intros (o' & ? & ?). exists o'. set_solver.
      * intros (o' & [Hin'| ->%list_elem_of_singleton]%elem_of_app & Ho'); [by eauto|].
        assert (c' = c) as -> by congruence. by apply Hp.
    + rewrite length_app. simpl. lia.
    + intros Hnone. rewrite (Hla Hnone) in Hp. apply Hp in Hin as (? & []%not_elem_of_nil & _).
    + intros m (o' & ? & ?)%Hm. exists o'. set_solver.
  - intros Hni Hlt. split; simpl; try done.
    + apply NoDup_app. split_and!; [done| |apply NoDup_singleton]. set_solver.
    + intros c'. rewrite elem_of_app, list_elem_of_singleton, Hp. split.
      * intros [(o' & ? & ?)| ->]; [exists o'|exists o]; set_solver.
      * intros (o' & [Hin'| ->%list_elem_of_singleton]%elem_of_app & Ho'); [by eauto|].
        right. congruence.
    + rewrite length_app. simpl. lia.
    + lia.
    + rewrite length_app. simpl. lia.
    + intros m [= <-]. exists o. split; [set_solver|]. by apply folds_into_le, rolled_up_Some.
Qed.

Lemma page_inv_plain limit done_ p o :
  page_inv limit done_ p → rolls o = None → (pg_emitted p < limit)%Z →
  page_inv limit (done_ ++ [o]) (mkPage (pg_emitted p + 1) (pg_contents p ++ [o])
    (pg_prefixes p) (Some o.(ObjectMetadata.key))).
Proof using.
  intros [Hc Hn Hp He Hl Hcnt Hla Hm] Ho Hlt. split; simpl; try done.
  - rewrite List.filter_app, <-Hc. simpl. unfold plain. by rewrite Ho.
  - intros c. rewrite Hp. split.
    + intros (o' & ? & ?). exists o'. set_solver.
    + intros (o' & [Hin'| ->%list_elem_of_singleton]%elem_of_app & Ho'); [by eauto|congruence].
  - rewrite length_app. simpl. lia.
  - lia.
  - rewrite length_app. simpl. lia.
  - intros m [= <-]. exists o. split; [set_solver|]. apply cmp_le_refl.
Qed.

Lemma page_loop_inv limit objects done_ p p' truncated :
  page_inv limit done_ p → page_loop limit prefix delimiter objects p = (p', truncated) →
  ∃ done' rest, done_ ++ objects = done' ++ rest ∧ page_inv limit done' p' ∧
    (if truncated then (limit ≤ pg_emitted p')%Z ∧ rest ≠ [] else rest = []).
Proof using.
  revert done_ p. induction objects as [|o objects IH]; intros done_ p Hinv; simpl.
  { intros [= <- <-]. exists done_, []. done. }
  destruct (limit <=? pg_emitted p)%Z eqn:Hle.
  { intros [= <- <-]. exists done_, (o :: objects). split_and!; try done.
    by apply Z.leb_le in Hle. }
  apply Z.leb_gt in Hle. replace (done_ ++ o :: objects) with ((done_ ++ [o]) ++ objects)
    by (by rewrite <-app_assoc).
  change (rolled_up prefix delimiter (ObjectMetadata.key o)) with (rolls o).
  destruct (rolls o) as [c|] eqn:Ho.
  - destruct (page_inv_prefix limit done_ p o c Hinv Ho) as [Hold Hnew].
    case_bool_decide; apply IH; auto.
  - apply IH. by apply page_inv_plain.
Qed.
End pages.

Lemma sorted_impl {A} (R S : relation A) (l : list A) :
  (∀ x y, R x y → S x y) → StronglySorted R l → StronglySorted S l.
Proof.
  intros HRS. induction 1 as [|x l _ IH Hx]; constructor; [done|].
  by eapply Forall_impl; [|apply HRS].
Qed.
Lemma sorted_Lfilter {A} (R : relation A) (p : A → bool) (l : list A) :
  StronglySorted R l → StronglySorted R (List.filter p l).
Proof.
  induction l as [|x l IH]; [done|]. intros [Hs Hx]%StronglySorted_inv. simpl.
  destruct (p x); [|by apply IH]. constructor; [by apply IH|].
  rewrite Forall_forall in *. intros y [Hy _]%elem_of_Lfilter. auto.
Qed.

Lemma Lfilter_submseteq {A} (p : A → bool) (l : list A) : List.filter p l ⊆+ l.
Proof.
  induction l as [|x l IH]; [done|]. simpl.
  destruct (p x); [by apply submseteq_skip|by apply submseteq_cons].
Qed.

(** The objects a listing is about *)
Definition listed (bucket : string) (prefix marker : option string) (o : ObjectMetadata.t) : Prop :=
  o.(ObjectMetadata.bucket) = bucket ∧
  (∃ rest, o.(ObjectMetadata.key) = default EmptyString prefix +:+ rest) ∧
  String.compare (default EmptyString marker) o.(ObjectMetadata.key) = Lt.

(** By key, and among equal keys by version, none first *)
Definition page_order (a b : ObjectMetadata.t) : Prop :=
  String.compare a.(ObjectMetadata.key) b.(ObjectMetadata.key) = Lt ∨
  (a.(ObjectMetadata.key) = b.(ObjectMetadata.key) ∧
   match a.(ObjectMetadata.version_id), b.(ObjectMetadata.version_id) with
   | None, _ => True
   | Some _, None => False
   | Some x, Some y => cmp_le String.compare x y
   end).
Lemma page_cmp_order a b : cmp_le page_cmp a b → page_order a b.
Proof.
  unfold cmp_le, page_cmp, cmp_then, cmp_on, page_order.
  destruct (String.compare _ _) eqn:E; [|by left|done].
  apply String.compare_eq_iff in E. right. split; [done|].
  by destruct (ObjectMetadata.version_id a), (ObjectMetadata.version_id b).
Qed.
Lemma page_order_key a b :
  page_order a b → cmp_le String.compare a.(ObjectMetadata.key) b.(ObjectMetadata.key).
Proof.
  unfold cmp_le. intros [->|[-> _]]; [done|]. by rewrite (cmp_refl (cmp := String.compare)).
Qed.

(** The page has the object, or the common prefix it is folded into. *)
Definition shown (prefix delimiter : option string) (page : ListObjectsPage.t)
    (o : ObjectMetadata.t) : Prop :=
  let folds := folds_into (default EmptyString prefix) (default EmptyString delimiter)
    o.(ObjectMetadata.key) in
  ((∀ c, ¬ folds c) ∧ o ∈ page.(ListObjectsPage.objects)) ∨
  (∃ c, folds c ∧ c ∈ page.(ListObjectsPage.common_prefixes)).

Definition page_entries (page : ListObjectsPage.t) : Z :=
  Z.of_nat (length page.(ListObjectsPage.objects)
            + length page.(ListObjectsPage.common_prefixes)).

Section page_spec.
Context (bucket : string) (objects : list ObjectMetadata.t).
Context (prefix marker delimiter : option string) (max_keys : Z).
Abbreviation px := (default EmptyString prefix).
Abbreviation dl := (default EmptyString delimiter).
Abbreviation limit := (if (max_keys =? 0)%Z then usize_MAX else max_keys).
Abbreviation page := (build_list_objects_page bucket objects prefix marker delimiter max_keys).

(** The loop went over the objects [done_] and left [rest]; [last_] is the
    last entry it emitted. *)
Record page_shape (done_ rest : list ObjectMetadata.t) (last_ : option string) : Prop := {
  shape_inv : page_inv px dl limit done_ (mkPage (page_entries page)
    page.(ListObjectsPage.objects) page.(ListObjectsPage.common_prefixes) last_);
  shape_listed o : o ∈ done_ ++ rest ↔ o ∈ objects ∧ listed bucket prefix marker o;
  shape_subset : done_ ++ rest ⊆+ objects;
  shape_sorted : StronglySorted page_order (done_ ++ rest);
  shape_end : if page.(ListObjectsPage.is_truncated)
    then (limit ≤ page_entries page)%Z ∧ rest ≠ [] else rest = [];
  shape_next : page.(ListObjectsPage.next_marker) =
    (if page.(ListObjectsPage.is_truncated) && negb (limit =? usize_MAX)%Z then last_ else None);
}.

Lemma page_shape_exists : ∃ done_ rest last_, page_shape done_ rest last_.
Proof using.
  set (sorted := sort_by page_cmp (List.filter (λ object,
    str_starts_with object.(ObjectMetadata.key) px
    && str_gtb object.(ObjectMetadata.key) (default EmptyString marker))
    (List.filter (λ object, object.(ObjectMetadata.bucket) == bucket) objects))).
  destruct (page_loop limit px dl sorted (mkPage 0 [] [] None)) as [p truncated] eqn:Hloop.
  assert (Hpage : page = ListObjectsPage.mk (pg_contents p) (pg_prefixes p)
    (if truncated && negb (limit =? usize_MAX)%Z then pg_last p else None) truncated).
  { unfold build_list_objects_page. fold sorted. by rewrite Hloop. }
  assert (Hinit : page_inv px dl limit [] (mkPage 0 [] [] None)).
  { split; simpl; try done; [constructor| |lia]. intros c. split; [by intros ?%not_elem_of_nil|].
    by intros (o & ?%not_elem_of_nil & _). }
  apply (page_loop_inv _ _ _ _ _ _ _ _ Hinit) in Hloop as (done_ & rest & Hall & Hinv & Hend).
  simpl in Hall. assert (Hemit : pg_emitted p = Z.of_nat (length (pg_contents p)
    + length (pg_prefixes p))) by apply Hinv.
  exists done_, rest, (pg_last p). split; unfold page_entries; rewrite ?Hpage; simpl;
    rewrite <-?Hemit, <-?Hall.
  - by destruct p.
  - intros o. unfold sorted, listed. rewrite sort_by_perm, !elem_of_Lfilter, andb_true_iff,
      bool_decide_eq_true, str_starts_with_iff, str_gtb_true. tauto.
  - unfold sorted. rewrite sort_by_perm, Lfilter_Lfilter. apply Lfilter_submseteq.
  - apply sorted_impl with (cmp_le page_cmp); [apply page_cmp_order|].
    apply sort_by_sorted. unfold page_cmp. apply _.
  - done.
  - done.
Qed.

Context (done_ rest : list ObjectMetadata.t) (last_ : option string).
Context (Hshape : page_shape done_ rest last_).

Lemma plain_folds o :
  plain px dl o = true ↔ ∀ c, ¬ folds_into px dl o.(ObjectMetadata.key) c.
Proof using.
  unfold plain, rolls. destruct (rolled_up px dl _) as [c|] eqn:E.
  - split; [done|]. intros Hno. apply rolled_up_Some in E. by destruct (Hno c).
  - split; [|done]. intros _ c Hc%rolled_up_Some. congruence.
Qed.

(** Every object the loop went over is on the page. *)
Lemma done_shown o : o ∈ done_ → shown prefix delimiter page o.
Proof using Hshape.
  destruct Hshape as [[Hc Hn Hp He Hl Hcnt Hla Hm] _ _ _ _ _]. simpl in *. intros Ho.
  destruct (plain px dl o) eqn:Hplain.
  - left. split; [by apply plain_folds|]. rewrite Hc. by apply elem_of_Lfilter.
  - right. unfold plain in Hplain. destruct (rolls px dl o) as [c|] eqn:Hr; [|done].
    exists c. split; [by apply rolled_up_Some|]. apply Hp. eauto.
Qed.

(** What comes up to the last entry was gone over, if keys are distinct. *)
Lemma before_last_done m o :
  NoDup (ObjectMetadata.key <$> objects) → last_ = Some m → o ∈ objects →
  listed bucket prefix marker o → cmp_le String.compare o.(ObjectMetadata.key) m → o ∈ done_.
Proof using Hshape.
  intros Hkeys Hlast Ho Hli Hle. destruct Hshape as [[_ _ _ _ _ _ _ Hm] Hlisted Hsub Hsorted _ _].
  simpl in Hm. destruct (Hm m Hlast) as (o' & Ho' & Hmo').
  assert (o ∈ done_ ++ rest) as [?|Hrest]%elem_of_app by (by apply Hlisted); [done|exfalso].
  assert (page_order o' o) as Hord by (by eapply StronglySorted_app_1_elem_of).
  apply page_order_key in Hord. assert (ObjectMetadata.key o = ObjectMetadata.key o') as Heq.
  { apply String.compare_eq_iff.
    pose proof (cmp_le_trans (cmp := String.compare) _ _ _ Hle Hmo') as Hoo'.
    unfold cmp_le in *.
    rewrite (cmp_sym (cmp := String.compare) (ObjectMetadata.key o)) in Hord.
    by destruct (String.compare (ObjectMetadata.key o) (ObjectMetadata.key o')). }
  assert (NoDup (ObjectMetadata.key <$> done_ ++ rest)) as Hnd.
  { apply submseteq_Permutation in Hsub as [k Hk]. rewrite Hk, fmap_app in Hkeys.
    by apply NoDup_app in Hkeys as [? _]. }
  rewrite fmap_app, NoDup_app in Hnd. destruct Hnd as (_ & Hdisj & _).
  apply (Hdisj (ObjectMetadata.key o)); [rewrite Heq|]; by apply list_elem_of_fmap_2.
Qed.

Lemma truncated_full :
  (0 < max_keys ≤ u32_MAX)%Z → page.(ListObjectsPage.is_truncated) = true →
  page_entries page = max_keys ∧ is_Some last_ ∧ page.(ListObjectsPage.next_marker) = last_.
Proof using Hshape.
  intros Hmk Ht. destruct Hshape as [[Hc Hn Hp He Hl Hcnt Hla Hm] _ _ _ Hend Hnext]. simpl in *.
  rewrite Ht in Hend, Hnext. destruct Hend as [Hend _].
  assert ((max_keys =? 0)%Z = false) as Hz by (apply Z.eqb_neq; lia).
  assert ((max_keys =? usize_MAX)%Z = false) as Hu
    by (apply Z.eqb_neq; unfold u32_MAX, usize_MAX, u64_MAX in *; lia).
  rewrite Hz in *. rewrite Hu in Hnext.
  split_and!; [lia| |done]. destruct last_ as [m|]; [by eexists|exfalso].
  rewrite (Hla eq_refl) in Hc, Hp. simpl in Hc.
  assert (ListObjectsPage.common_prefixes page = []) as Hnil.
  { destruct (ListObjectsPage.common_prefixes page) as [|c l]; [done|].
    destruct (proj1 (Hp c)) as (o & ?%not_elem_of_nil & _); [set_solver|done]. }
  unfold page_entries in Hend. rewrite Hc, Hnil in Hend. simpl in Hend. lia.
Qed.
End page_spec.

(** C30: A page of a listing, for the bucket, prefix, marker and delimiter asked
    for. It has objects of the bucket with the prefix and after the marker, by
    key, each at most as often as it is stored; a key that has the delimiter
    behind the prefix is not among them: its common prefix is, once: the prefix
    and what follows up to and with the first delimiter. Objects and common
    prefixes together are at most [max_keys], where 0 stands for no limit. A
    page that is not truncated leaves nothing out; a truncated one is full and
    has a marker, and, if keys are distinct, every object up to the marker is
    on it, so that going on from there skips nothing. *)
Theorem list_page_spec (bucket : string) (objects : list ObjectMetadata.t)
    (prefix marker delimiter : option string) (max_keys : Z) :
  let page := build_list_objects_page bucket objects prefix marker delimiter max_keys in
  let folds o := folds_into (default EmptyString prefix) (default EmptyString delimiter)
    o.(ObjectMetadata.key) in
  page.(ListObjectsPage.objects) ⊆+ objects ∧
  (∀ o, o ∈ page.(ListObjectsPage.objects) →
     listed bucket prefix marker o ∧ ∀ c, ¬ folds o c) ∧
  StronglySorted page_order page.(ListObjectsPage.objects) ∧
  NoDup page.(ListObjectsPage.common_prefixes) ∧
  (∀ c, c ∈ page.(ListObjectsPage.common_prefixes) →
     ∃ o, o ∈ objects ∧ listed bucket prefix marker o ∧ folds o c) ∧
  (max_keys = 0%Z → (Z.of_nat (length objects) ≤ usize_MAX)%Z →
     page.(ListObjectsPage.is_truncated) = false) ∧
  ((0 < max_keys ≤ u32_MAX)%Z → (page_entries page ≤ max_keys)%Z) ∧
  (page.(ListObjectsPage.is_truncated) = false →
     page.(ListObjectsPage.next_marker) = None ∧
     ∀ o, o ∈ objects → listed bucket prefix marker o → shown prefix delimiter page o) ∧
  (page.(ListObjectsPage.is_truncated) = true → (0 < max_keys ≤ u32_MAX)%Z →
     page_entries page = max_keys ∧
     ∃ m, page.(ListObjectsPage.next_marker) = Some m ∧
       (NoDup (ObjectMetadata.key <$> objects) →
        ∀ o, o ∈ objects → listed bucket prefix marker o →
          cmp_le String.compare o.(ObjectMetadata.key) m → shown prefix delimiter page o)).
Proof.
  cbv zeta. destruct (page_shape_exists bucket objects prefix marker delimiter max_keys)
    as (done_ & rest & last_ & Hshape).
  pose proof (done_shown _ _ _ _ _ _ _ _ _ Hshape) as Hshown.
  pose proof (before_last_done _ _ _ _ _ _ _ _ _ Hshape) as Hbefore.
  pose proof (truncated_full _ _ _ _ _ _ _ _ _ Hshape) as Hfull.
  destruct Hshape as [[Hc Hn Hp He Hl Hcnt Hla Hm] Hlisted Hsub Hsorted Hend Hnext]. simpl in *.
  assert (Hdone : ∀ o, o ∈ done_ → o ∈ objects ∧ listed bucket prefix marker o).
  { intros o Ho. apply Hlisted. set_solver. }
  split_and!.
  - rewrite Hc. etrans; [apply Lfilter_submseteq|]. etrans; [|exact Hsub].
    by apply submseteq_inserts_r.
  - intros o. rewrite Hc, elem_of_Lfilter. intros [Ho Hplain].
    split; [by apply Hdone|by apply plain_folds].
  - rewrite Hc. eapply sorted_Lfilter, StronglySorted_app_1_l, Hsorted.
  - done.
  - intros c (o & Ho & Hr%rolled_up_Some)%Hp. exists o. split_and!; try done; by apply Hdone.
  - intros -> Hlen. destruct (ListObjectsPage.is_truncated _); [exfalso|done].
    apply submseteq_length in Hsub. rewrite length_app in Hsub. destruct Hend as [Hend Hrest].
    destruct rest; [done|]. simpl in Hsub, Hend. lia.
  - intros Hmk. destruct (Z.eqb_spec max_keys 0); lia.
  - intros Ht. rewrite Ht in Hend, Hnext. subst rest. rewrite app_nil_r in Hlisted.
    split; [done|]. intros o Ho Hli. apply Hshown, Hlisted. done.
  - intros Ht Hmk. destruct (Hfull Hmk Ht) as (Hent & [m Hlast] & Hnm). split; [done|].
    exists m. split; [congruence|]. eauto.
Qed.


(** Two keys under [a/] and one beside them, one entry to a page: the common
    prefix is the page, and both keys are shown by it. *)
Module SamplePage.
Definition stored (key : string) : ObjectMetadata.t :=
  ObjectMetadata.mk "docs" key None 1 "sum" None None 1 None None [] None None None None None.
Definition page : ListObjectsPage.t :=
  build_list_objects_page "docs" [stored "b"; stored "a/2"; stored "a/1"] None None (Some "/") 1.
Example page_prefix :
  page = ListObjectsPage.mk [] ["a/"] (Some "a/") true.
Proof. by vm_compute. Qed.
End SamplePage.

Lemma list_page_spec_witness :
  page_entries SamplePage.page = 1%Z ∧
  ∃ c, c ∈ ["a/"] ∧ folds_into EmptyString "/" "a/1" c.
Proof.
  destruct (list_page_spec "docs" [SamplePage.stored "a/1"] None None (Some "/") 1)
    as (_ & _ & _ & _ & Hc & _).
  destruct (list_page_spec "docs" [SamplePage.stored "b"; SamplePage.stored "a/2";
    SamplePage.stored "a/1"] None None (Some "/") 1) as (_ & _ & _ & _ & _ & _ & _ & _ & Ht).
  destruct (Ht eq_refl) as [He _]; [done|]. split; [exact He|].
  destruct (Hc "a/") as (o & ->%list_elem_of_singleton & _ & Hf); [by vm_compute; left|].
  exists "a/". split; [by left|exact Hf].
Defined.

(** ** Start-up *)

Section retry.
Context {N Client : Type} (connect : action N string Client).

(** The network after [i] failed attempts *)
Definition after_attempts (i : nat) (n : N) : N := Nat.iter i (λ n, (connect n).1) n.
Definition attempt_at (i : nat) (n : N) : result string Client := (connect (after_attempts i n)).2.

#[local] Arguments after_attempts : simpl never.

Lemma after_attempts_S i n : after_attempts (S i) n = after_attempts i (connect n).1.
Proof using. unfold after_attempts. by rewrite Nat.iter_succ_r. Qed.

Lemma connect_attempts_spec not_run attempts last n :
  (∃ i client, (i < attempts)%nat ∧ (∀ j, (j < i)%nat → ∃ e, attempt_at j n = Err e) ∧
     attempt_at i n = Ok client ∧
     connect_attempts connect not_run attempts last n = (after_attempts (S i) n, Ok client)) ∨
  ((∀ j, (j < attempts)%nat → ∃ e, attempt_at j n = Err e) ∧
   ∃ e, connect_attempts connect not_run attempts last n = (after_attempts attempts n, Err e) ∧
     (∀ j, attempts = S j → attempt_at j n = Err e)).
Proof using.
  revert last n. induction attempts as [|attempts IH]; intros last n; simpl.
  { right. split; [lia|]. eexists. split; [done|]. done. }
  assert (Hshift : ∀ j n' r, connect n = (n', r) → attempt_at j n' = attempt_at (S j) n).
  { intros j n' r Hc. unfold attempt_at. by rewrite after_attempts_S, Hc. }
  destruct (connect n) as [n' [client|e]] eqn:Hc.
  { left. exists 0%nat, client. unfold attempt_at, after_attempts. simpl. rewrite Hc.
    split_and!; [lia|lia|done|done]. }
  assert (He : attempt_at 0 n = Err e) by (unfold attempt_at, after_attempts; simpl; by rewrite Hc).
  assert (Hj : ∀ i, (∀ j, (j < i)%nat → ∃ e, attempt_at j n' = Err e) →
    ∀ j, (j < S i)%nat → ∃ e, attempt_at j n = Err e).
  { intros i Hi [|j] Hlt; [by exists e|]. rewrite <-(Hshift _ _ _ eq_refl). apply Hi. lia. }
  destruct (IH (Some e) n') as [(i & client & Hi & Hbefore & Hok & Hrun)|(Hall & e' & Hrun & Hlast)].
  - left. exists (S i), client. rewrite <-(Hshift _ _ _ eq_refl).
    split_and!; [lia|by apply Hj|done|]. by rewrite Hrun, (after_attempts_S (S i)), Hc.
  - right. split; [by apply Hj|]. exists e'.
    split; [by rewrite Hrun, after_attempts_S, Hc|]. intros j [= ->].
    destruct j as [|j]; [|rewrite <-(Hshift j n' _ eq_refl); by apply Hlast].
    simpl in Hrun. by injection Hrun as <-.
Qed.
End retry.

(** C36: Connecting to a service makes at most thirty attempts and always
    ends: with the client of the first attempt that succeeds, or, when all
    thirty fail, with the error of the last. *)
Theorem connect_with_retry_ends {N Client : Type} (connect : action N string Client)
    (service : string) (n : N) :
  (∃ i client, (i < 30)%nat ∧ (∀ j, (j < i)%nat → ∃ e, attempt_at connect j n = Err e) ∧
     attempt_at connect i n = Ok client ∧
     connect_with_retry connect service n = (after_attempts connect (S i) n, Ok client)) ∨
  ((∀ j, (j < 30)%nat → ∃ e, attempt_at connect j n = Err e) ∧
   ∃ e, attempt_at connect 29 n = Err e ∧
     connect_with_retry connect service n = (after_attempts connect 30 n, Err e)).
Proof.
  destruct (connect_attempts_spec connect (service +:+ " connection retry loop did not run")
    30 None n) as [Hok|(Hall & e & Hrun & Hlast)]; [by left|].
  right. split; [done|]. exists e. split; [by apply Hlast|done].
Qed.
