(* ===== verification/SchedulerLimits.v ===== *)
(** * Where the scheduler and the metadata service do not fit together

    Three consequences of what the scheduler asks of the metadata service: a
    listing is never marked as truncated, a recall that was interrupted is not
    taken up again, and an object whose key has an archive task is not
    archived a second time. *)

From Stdlib Require Import ZArith Lia String Ascii.
From S2P Require Import Prelude Hoare Proto StateMachine MetadataInvariants Snapshot Raft RustStr MetadataService.
From S2P Require Import External CacheBackend Cache TapeService.
From S2P Require Import SchedulerProto Config SchedulerClients Scheduler SchedulerSystem SchedulerTheorems.

Local Open Scope string_scope.
Local Open Scope list_scope.
Local Open Scope stdpp_scope.

(** ** A page with room for all objects *)

Lemma page_loop_room limit prefix delimiter objects p :
  (pg_emitted p + Z.of_nat (length objects) ≤ limit)%Z →
  (page_loop limit prefix delimiter objects p).2 = false.
Proof.
  revert p. induction objects as [|o objects IH]; intros p Hroom; simpl; [done|]. simpl in Hroom.
  rewrite (proj2 (Z.leb_gt _ _)) by lia.
  repeat case_match; apply IH; simpl; lia.
Qed.

Lemma Lfilter_length_le {A} (f : A → bool) l : (length (List.filter f l) ≤ length l)%nat.
Proof. induction l as [|x l IH]; simpl; [lia|]. destruct (f x); simpl; lia. Qed.

Lemma page_with_room bucket objects prefix marker delimiter max_keys :
  (Z.of_nat (length objects) ≤ limit_of max_keys)%Z →
  let page := build_list_objects_page bucket objects prefix marker delimiter max_keys in
  page.(ListObjectsPage.is_truncated) = false ∧ page.(ListObjectsPage.next_marker) = None.
Proof.
  intros Hlen. unfold build_list_objects_page. fold (limit_of max_keys).
  set (sorted := sort_by _ _).
  assert (Hs : (length sorted ≤ length objects)%nat).
  { unfold sorted. rewrite sort_by_perm. etrans; apply Lfilter_length_le. }
  pose proof (page_loop_room (limit_of max_keys) (default EmptyString prefix)
    (default EmptyString delimiter) sorted (mkPage 0 [] [] None)) as Hroom.
  destruct (page_loop _ _ _ _ _) as [p truncated]. simpl in *. rewrite Hroom by lia. done.
Qed.

Section limits.
Context `{Prost} `{RocksDB} `{Formats}.
Context {B : Type} `{CacheBackend B} {T : Type} `{TapeBackend T}.
Context `{Sha256} `{DebugFormat}.
Context (envs : nat → CallEnv) (h : hash_order) (cache_clock : nat → Z) (svc : Settings).
Context (panicked : Status) (clock : nat → Timestamp.t) (has_cache has_tape : bool).
Context (config : SchedulerConfig.t).

#[local] Instance limits_metadata : MetadataClient (System (B := B) (T := T)) := system_metadata envs.
#[local] Instance limits_cache : CacheClient (System (B := B) (T := T)) :=
  system_cache h cache_clock svc.
#[local] Instance limits_tape : TapeClient (System (B := B) (T := T)) := system_tape panicked.

Abbreviation scheduler := (Sched (System (B := B) (T := T))).
Abbreviation sched := (action scheduler Status).
Abbreviation metadata s := (MetadataService.state (sys_metadata (world s))).

(** Over the metadata service, a listing of the scheduler is never marked
    as truncated and has no marker to go on with, however many objects the
    bucket has: the metadata service has already cut the list to [max_keys]
    objects, and its own marker is dropped. *)
Theorem listing_never_truncated (bucket : string) (prefix marker delimiter : option string)
    (max_keys : Z) (s s' : scheduler) (page : ListObjectsPage.t) :
  (0 ≤ max_keys)%Z →
  Scheduler.list_objects bucket prefix marker delimiter max_keys s = (s', Ok page) →
  page.(ListObjectsPage.is_truncated) = false ∧ page.(ListObjectsPage.next_marker) = None.
Proof using.
  intros Hmk. unfold Scheduler.list_objects, on_world. simpl.
  unfold read_metadata, on_metadata. unfold_action.
  destruct (MetadataService.list_objects _ _ _) as [response|err] eqn:Hl; simpl; [|done].
  intros [= _ <-]. apply page_with_room. unfold MetadataService.list_objects in Hl.
  destruct (negb _); [done|]. injection Hl as <-. simpl. unfold take_z. rewrite length_take.
  assert (0 ≤ limit_of max_keys)%Z by (unfold limit_of; destruct (max_keys =? 0)%Z; done). lia.
Qed.

(** ** Steps that change nothing *)

Definition unchanged (s0 s : scheduler) : Prop :=
  metadata s = metadata s0 ∧ sys_cache (world s) = sys_cache (world s0) ∧
  sys_tape (world s) = sys_tape (world s0).

Lemma command_unchanged s0 cmd :
  (∀ e, (apply_command e cmd (metadata s0)).1 = metadata s0) →
  hoare (unchanged s0) (on_world (on_metadata envs (λ c, apply_and_persist c cmd)) : sched _)
    (λ _, unchanged s0) (unchanged s0).
Proof using.
  intros Hcmd s (Hm & Hc & Ht). unfold on_world, on_metadata.
  pose proof (apply_and_persist_state (envs (sys_calls (world s))) cmd (sys_metadata (world s)))
    as Hstate.
  destruct (apply_and_persist _ _ _) as [md r]. simpl in Hstate. rewrite Hm, Hcmd in Hstate.
  destruct r; (split; [|done]); simpl; by destruct Hstate as [->| ->].
Qed.

Lemma read_unchanged {A} s0 (f : Env → MetadataState → result Status A) :
  hoare (unchanged s0) (on_world (read_metadata envs f) : sched A)
    (λ a s, unchanged s0 s ∧ ∃ e, f e (metadata s0) = Ok a) (unchanged s0).
Proof using.
  intros s Hs. unfold on_world, read_metadata, on_metadata, reads. pose proof Hs as (Hm & _).
  simpl. rewrite Hm. destruct (f _ _) as [a|err] eqn:Hf; [|done]. split; [done|by eexists].
Qed.

Lemma ignoring_unchanged s0 c (m : sched unit) :
  hoare (unchanged s0) m (λ _, unchanged s0) (unchanged s0) →
  hoare (unchanged s0) (ignoring c m) (λ _, unchanged s0) (unchanged s0).
Proof using.
  intros Hm s Hs. specialize (Hm s Hs). unfold ignoring, attempt. unfold_action.
  destruct (m s) as [s' [[]|err]]; [done|]. by destruct (_ == _).
Qed.

(** ** Interrupted recalls *)

(** When reading a recall's data fails in a way that is worth a retry, the
    scheduler asks to put its task back to waiting, which the metadata service
    refuses for a task in progress: the call fails, the task stays in progress,
    and it is no longer among the pending tasks a recall pass takes. *)
Theorem interrupted_recall_is_stuck (task t : RecallTask.t) (error : string) (s : scheduler) :
  recall_tasks (metadata s) !! task.(RecallTask.id) = Some t →
  t.(RecallTask.id) = task.(RecallTask.id) →
  t.(RecallTask.status) = RestoreStatus.as_i32 RestoreStatus.RestoreInProgress →
  let '(s', r) := retry_recall_task_later task error s in
  (∃ e, r = Err e) ∧ metadata s' = metadata s ∧
  ∀ e, t ∉ list_pending_recall_tasks e (metadata s').
Proof using.
  intros Hk Hid Hstatus.
  assert (Hh : hoare (unchanged s) (retry_recall_task_later task error : sched _)
    (λ _ _, False) (unchanged s)).
  { unfold retry_recall_task_later. eapply hoare_bind; [apply read_unchanged|]. intros current.
    apply hoare_pure. intros [e Hf]. unfold MetadataService.get_recall_task in Hf.
    rewrite Hk in Hf. injection Hf as <-.
    apply hoare_bind_lift; [done|]. rewrite Hstatus. simpl. intros status [= <-].
    rewrite bool_decide_eq_true_2 by done. simpl.
    apply (hoare_bind _ _ (λ _ _, False)); [|by intros ? ? []].
    intros s1 Hs1. pose proof Hs1 as (Hm & _). unfold Scheduler.update_recall_task, on_world. simpl.
    unfold on_metadata. set (t' := RecallTask.set_retry_count _ _).
    assert (Hrun : ∀ c, ∃ md err, apply_and_persist c (UpdateRecallTask t') (sys_metadata (world s1))
      = (md, Err err) ∧ MetadataService.state md = metadata s).
    { intros c. unfold apply_and_persist. destruct (raft_backend _) as [b|]; [|by eauto].
      unfold propose_local_apply. simpl. unfold apply_UpdateRecallTask. unfold_action. rewrite Hm.
      replace (RecallTask.id t') with (RecallTask.id task) by done. rewrite Hk. simpl.
      rewrite Hstatus. simpl. eexists _, _. split; [done|]. simpl. done. }
    destruct (Hrun (envs (sys_calls (world s1)))) as (md & err & Hap & Hst).
    unfold MetadataService.update_recall_task. rewrite Hap. destruct Hs1 as (_ & ? & ?). done. }
  specialize (Hh s ltac:(done)). destruct (retry_recall_task_later task error s) as [s' [[]|e]]; [done|].
  destruct Hh as (Hm & _). split; [by eauto|]. split; [done|].
  intros e'. rewrite Hm. unfold list_pending_recall_tasks. rewrite elem_of_Lfilter.
  unfold is_pending_restore_status. rewrite Hstatus. by intros [_ ?].
Qed.

(** ** Archive tasks of a key *)

(** A task that was claimed once: in progress, completed or failed *)
Definition claimed_before (t : ArchiveTask.t) : Prop :=
  t.(ArchiveTask.status) = ArchiveTaskStatus.as_i32 ArchiveTaskStatus.ArchiveTaskInProgress ∨
  t.(ArchiveTask.status) = ArchiveTaskStatus.as_i32 ArchiveTaskStatus.ArchiveTaskCompleted ∨
  t.(ArchiveTask.status) = ArchiveTaskStatus.as_i32 ArchiveTaskStatus.ArchiveTaskFailed.

Lemma claim_refused s0 task t :
  archive_tasks (metadata s0) !! task.(ArchiveTask.id) = Some t → claimed_before t →
  hoare (unchanged s0) (claim_archive_task clock task : sched _)
    (λ r s, unchanged s0 s ∧ r.1 = false) (unchanged s0).
Proof using.
  intros Hk Ht. unfold claim_archive_task.
  eapply hoare_bind; [apply ignoring_unchanged, command_unchanged|intros ?].
  { intros e. simpl. unfold apply_PutArchiveTask. unfold_action.
    replace (ArchiveTask.id _) with (ArchiveTask.id task) by (by destruct (_ == None)).
    rewrite Hk. by destruct (is_same_archive_task _ _). }
  eapply hoare_bind; [apply read_unchanged|]. intros current. apply hoare_pure. intros [e Hf].
  unfold MetadataService.get_archive_task in Hf. rewrite Hk in Hf. injection Hf as <-.
  unfold archive_status_of. apply hoare_bind_lift; [done|]. intros status.
  destruct Ht as [->|[->| ->]]; simpl; intros [= <-]; by apply hoare_ret.
Qed.

(** An archive pass does nothing with an object whose key has an archive
    task that was claimed before, be it completed or failed: a new upload under
    the key of an archived object, or an object whose archiving failed once,
    waits to be archived for ever. *)
Theorem claimed_task_blocks_archiving (C : Phase1ArchiveCache scheduler)
    (A : TapeArchiveWriter scheduler) (entry : StagingKeyEntry.t) (t : ArchiveTask.t)
    (object : ObjectMetadata.t) (s : scheduler) :
  let bucket := entry.(StagingKeyEntry.bucket) in
  let key := entry.(StagingKeyEntry.key) in
  archive_tasks (metadata s) !! phase1_bundle_id bucket key entry.(StagingKeyEntry.version_id)
    = Some t →
  claimed_before t →
  find_object (env (envs (sys_calls (world s)))) (metadata s) bucket key None = Ok object →
  is_cold_pending object = true →
  let '(s', r) := archive_entry clock has_cache config C A entry s in
  metadata s' = metadata s ∧ sys_cache (world s') = sys_cache (world s) ∧
  sys_tape (world s') = sys_tape (world s) ∧ ∀ bytes, r ≠ Ok (Some bytes).
Proof using.
  cbv zeta. intros Hk Ht Hfind Hcold.
  assert (Hh : hoare (λ s1, s1 = s) (archive_entry clock has_cache config C A entry)
    (λ done_ s', unchanged s s' ∧ done_ = None) (unchanged s)).
  { assert (Hfw : ∀ X P (Q : X → scheduler → Prop) task (m : sched X),
      hoare P m Q P → hoare P (failing_with task m) Q P).
    { intros X P Q task m Hm s1 Hs1. specialize (Hm s1 Hs1). unfold failing_with.
      by destruct (m s1) as [s2 []]. }
    unfold archive_entry.
    apply (hoare_bind _ _ (λ o s1, unchanged s s1 ∧ o = object)).
    { intros s1 ->. unfold failing_with, Scheduler.head_object, on_world. simpl.
      unfold read_metadata, on_metadata, reads, MetadataService.head_object. by rewrite Hfind. }
    intros object'. apply hoare_pure. intros ->.
    apply (hoare_bind _ _ (λ task s1, unchanged s s1 ∧ task.(ArchiveTask.id) = phase1_bundle_id
      entry.(StagingKeyEntry.bucket) entry.(StagingKeyEntry.key) entry.(StagingKeyEntry.version_id))).
    { apply Hfw. intros s1 Hs1. done. }
    intros task. apply hoare_pure. intros Hid. rewrite Hcold. simpl.
    eapply hoare_bind; [eapply Hfw, claim_refused; [by rewrite Hid|done]|].
    intros [claimed task']. apply hoare_pure. simpl. intros ->. simpl. by apply hoare_ret. }
  specialize (Hh s ltac:(done)).
  destruct (archive_entry _ _ _ _ _ _ _) as [s' [done_|err]].
  - destruct Hh as [(Hm & Hc & Htp) ->]. done.
  - destruct Hh as (Hm & Hc & Htp). done.
Qed.

(** ** Restored copies that are gone *)

Lemma head_at (s : scheduler) bucket key object :
  find_object (env (envs (sys_calls (world s)))) (metadata s) bucket key None = Ok object →
  (Scheduler.head_object bucket key : sched _) s
    = (mkSched (active_archive_keys s) (active_recall_tasks s) (sched_ticks s)
         (mkSystem (sys_metadata (world s)) (sys_cache (world s)) (sys_tape (world s))
            (S (sys_calls (world s)))), Ok object).
Proof using.
  intros Hf. unfold Scheduler.head_object, on_world. simpl.
  unfold read_metadata, on_metadata, reads, MetadataService.head_object. by rewrite Hf.
Qed.

(** Once the restored copy of an object is gone from the cache, expired or
    evicted, the object can neither be read nor restored again: its metadata
    still says that the restore is completed, so a download is refused, and a
    restore request is answered with success and does nothing. *)
Theorem lost_copy_is_not_restored (bucket key : string) (days : Z) (tier : RestoreTier.t)
    (object : ObjectMetadata.t) (s : scheduler) :
  find_object (env (envs (sys_calls (world s)))) (metadata s) bucket key None = Ok object →
  object.(ObjectMetadata.storage_class) = StorageClass.as_i32 StorageClass.Cold →
  object.(ObjectMetadata.restore_status)
    = Some (RestoreStatus.as_i32 RestoreStatus.RestoreCompleted) →
  restored (index (sys_cache (world s))) !! CacheKey.new object.(ObjectMetadata.bucket)
    object.(ObjectMetadata.key) object.(ObjectMetadata.version_id) = None →
  tier ≠ RestoreTier.Expedited →
  (∃ status, (Scheduler.get_object true bucket key s).2 = Err status ∧
     code status = FailedPrecondition) ∧
  let '(s', r) := restore_object clock bucket key days tier s in
  r = Ok 200%Z ∧ unchanged s s'.
Proof using.
  intros Hf Hcold Hdone Hgone Htier. split.
  - unfold Scheduler.get_object, read_restored_object, cache_client. unfold_action.
    rewrite (head_at s _ _ _ Hf). rewrite Hcold, Hdone. simpl.
    unfold on_world, attempt. simpl. unfold on_cache, fmap, action_fmap, get, read_restored.
    unfold_action. unfold find_entry, get_index. unfold_action. simpl in Hgone |- *. rewrite Hgone.
    unfold update_hit_state, modify_index. unfold_action. simpl. by eexists.
  - pose proof (head_at s _ _ _ Hf) as Hh. unfold Scheduler.head_object in Hh.
    unfold restore_object. unfold_action.
    change (on_world (md_get_object bucket key) s) with (on_world (md_head_object bucket key) s).
    rewrite Hh, Hcold, Hdone. simpl.
    rewrite (bool_decide_eq_false_2 (tier = RestoreTier.Expedited)) by done. done.
Qed.
End limits.
