(* ===== verification/SchedulerRuns.v ===== *)
(** * Runs of the whole system

    A concrete system, the scheduler over a metadata service with a memory
    log, a cache on an empty disk and a simulated library with one tape, and
    what it does with an upload from its arrival to its restored copy; and two
    schedulers over one store, the second of which works while the first does. *)

From Stdlib Require Import ZArith String.
From S2P Require Import Prelude Hoare Proto StateMachine MetadataTheorems Snapshot Raft RaftTheorems RustStr.
From S2P Require Import MetadataService ServiceTheorems External Vtl CacheBackend Cache CacheTheorems.
From S2P Require Import TapeService Workers SchedulerProto Config SchedulerClients Scheduler SchedulerSystem.
From S2P Require Import SchedulerTraces Checksums Histories Interference Claims SchedulerIntegrity Composition SchedulerTheorems SchedulerLimits.
Import Samples.

Local Open Scope string_scope.
Local Open Scope list_scope.
Local Open Scope stdpp_scope.

Module SampleSystem.
#[local] Existing Instances BitCodec.prost MemDB.rocksdb MemDB.formats.

Abbreviation system := (@System MemDB.rocksdb Hdd SimulatorState).
Abbreviation st := (Sched system).

(** A metadata service whose calls all work, and one whose calls from [n] on
    cannot write the snapshot *)
Definition working (n : nat) : CallEnv :=
  mkCallEnv (Sample.env (1000 + Z.of_nat n)) (Sample.env (1000 + Z.of_nat n))
    ("meta.tmp-" +:+ u64_to_string (Z.of_nat n)) None None.
Definition failing_from (k n : nat) : CallEnv :=
  if (n <? k)%nat then working n else
  mkCallEnv (Sample.env (1000 + Z.of_nat n)) (Sample.env (1000 + Z.of_nat n))
    ("meta.tmp-" +:+ u64_to_string (Z.of_nat n)) None (Some (0%nat, "No space left on device")).

Definition clock (n : nat) : Timestamp.t := Timestamp.mk (1000 + Z.of_nat n) 0.
Definition lost : Status := internal "transport error".

Definition metadata (envs : nat → CallEnv) : MetadataClient system :=
  system_metadata envs.
Definition cache : CacheClient system :=
  system_cache canonical_order SampleCache.clock SampleCache.settings.
Definition tape : TapeClient system := system_tape lost.

(** Eight slots, one drive, the tape of the default configuration *)
Definition library : SimulatorState :=
  (sim_insert_tape "slot-1" "TAPE0001" (new_sim 8 1)).1.
Definition metadata_service (snapshot : option string) : MetadataServiceImpl :=
  mkService MetadataConfig.default_config default_state snapshot (Some (mkBackend Memory 0)) ∅.
Definition start_with (snapshot : option string) : st :=
  mkSched ∅ ∅ 0 (mkSystem (metadata_service snapshot) SampleCache.empty library 0).
Definition start : st := start_with None.

(** The operations of a scheduler with its default configuration, also at a
    later time *)
Definition run (envs : nat → CallEnv) : list SchedulerOp → st → st :=
  @run_ops system (metadata envs) cache tape _ _ clock true true SchedulerConfig.default_config.
Definition run_later : list SchedulerOp → st → st :=
  @run_ops system (metadata working)
    (system_cache canonical_order (λ n, 1000000 + Z.of_nat n)%Z SampleCache.settings) tape _ _
    clock true true SchedulerConfig.default_config.
Definition fetch (key : string) (s : st) : result Status (ObjectMetadata.t * list Z) :=
  (@get_object system (metadata working) cache true "b" key s).2.
Definition class_of (key : string) (s : st) : option Z :=
  ObjectMetadata.storage_class <$>
    ok (find_object (Sample.env 0) (state (sys_metadata (world s))) "b" key None).

(** An upload, archived, asked for, and recalled *)
Definition upload : list SchedulerOp :=
  [OpCreateBucket "b"; OpPutObject "b" "k" [1; 2; 3]%Z None].
Definition archived : list SchedulerOp := upload ++ [OpArchiveTurn].
Definition asked : list SchedulerOp := archived ++ [OpRestoreObject "b" "k" 1 RestoreTier.Standard].
Definition recalled : list SchedulerOp := asked ++ [OpRecallTurn].

(** A system whose calls are recorded *)
Definition recording (s : st) : Sched (Traced system) :=
  mkSched (active_archive_keys s) (active_recall_tasks s) (sched_ticks s) (mkTraced (world s) []).
End SampleSystem.

(** The sample system takes an upload through its whole life: it waits to
    be archived, is moved to tape, cannot be read, is asked for, recalled, and
    then returns the bytes that were uploaded. *)
Theorem upload_comes_back :
  let s := SampleSystem.run SampleSystem.working in
  let at_ ops := s ops SampleSystem.start in
  SampleSystem.class_of "k" (at_ SampleSystem.upload)
    = Some (StorageClass.as_i32 StorageClass.ColdPending) ∧
  SampleSystem.class_of "k" (at_ SampleSystem.archived)
    = Some (StorageClass.as_i32 StorageClass.Cold) ∧
  ok (SampleSystem.fetch "k" (at_ SampleSystem.asked)) = None ∧
  snd <$> SampleSystem.fetch "k" (at_ SampleSystem.recalled) = Ok [1; 2; 3]%Z.
Proof. vm_compute. auto. Qed.

Lemma run_with {A C} (p : A * C) (c : C) : p.2 = c → p = (p.1, c).
Proof. by destruct p as [a c']; intros <-. Qed.

(** Tasks over the sample store, and their calls served in a given order *)
Module SampleTasks.
#[local] Existing Instances BitCodec.prost MemDB.rocksdb MemDB.formats.

Abbreviation system := SampleSystem.system.
Abbreviation call := (@Call MemDB.rocksdb Hdd SimulatorState).
Abbreviation st := (Sched (@Shared MemDB.rocksdb Hdd SimulatorState)).
Abbreviation task := (@Task MemDB.rocksdb Hdd SimulatorState).

Definition origin : system := world SampleSystem.start.
Definition task_of (clock : nat → Timestamp.t) (ops : list SchedulerOp)
    (plan : list (system → system)) : task :=
  mkTask clock true true SchedulerConfig.default_config ops (mkSched ∅ ∅ 0 (mkShared origin plan [])).
Definition finish : task → st :=
  finish SampleSystem.working canonical_order SampleCache.clock SampleCache.settings
    SampleSystem.lost.
Definition record_made : task → list call :=
  record_made SampleSystem.working canonical_order SampleCache.clock SampleCache.settings
    SampleSystem.lost.
Definition fetch (t : task) : st * result Status (ObjectMetadata.t * list Z) :=
  finish_with_download SampleSystem.working canonical_order SampleCache.clock SampleCache.settings
    SampleSystem.lost "b" "k" t.

(** A scheduler that uploads an object and archives what waits, from the given
    services on *)
Definition writer (s : system) : task :=
  task_of (λ n, Timestamp.mk (2000 + Z.of_nat n) 0)
    [OpPutObject "b" "l" [7; 8]%Z None; OpArchiveTurn; OpGetObject "b" "k"] [λ _, s].
Definition written (s : system) : system := latest s (record_made (writer s)).
(** A scheduler that takes an upload through its life, with the other one at
    work after its first [n] calls *)
Definition reader (n : nat) : task :=
  task_of SampleSystem.clock SampleSystem.recalled (replicate n id ++ [written]).
(** The writer at work while the reader has the drive *)
Definition outer : task := reader 11.
Definition fetched : list call := made (world (fetch outer).1).
Definition inner (calls : list call) : task := writer (latest origin (take 11 calls)).

Lemma origin_empty n : (Z.of_nat n < 2 ^ 63)%Z → empty_store n origin.
Proof. intros Hn. split; [done|]. split; [done|]. by apply SampleCache.disk_writable. Qed.
Lemma starts clock ops plan : start_over origin (task_of clock ops plan).
Proof. done. Qed.
Lemma outer_interleaved calls :
  hears origin (others (world (task_start outer))) calls →
  let written := record_made (inner calls) in
  interleaves origin [calls; written] (nested 11 calls written).
Proof.
  intros Hcalls. apply interleaves_nested with (f := written); [exact Hcalls| |reflexivity].
  apply hears_once with (f := λ _, latest origin (take 11 calls)) (origin := origin).
  apply (finish_hears _ _ _ _ _ origin (inner calls)); [|apply starts].
  apply origin_empty. reflexivity.
Qed.
Lemma fetched_interleaved : let written := record_made (inner fetched) in
  interleaves origin [fetched; written] (nested 11 fetched written).
Proof.
  apply outer_interleaved.
  assert (Hget : ∃ object, fetch outer = ((fetch outer).1, Ok (object, [1; 2; 3]%Z))).
  { eexists. apply run_with. vm_compute. reflexivity. }
  destruct Hget as [object Hget].
  apply (download_hears _ _ _ _ _ origin outer _ _ _ _ _) in Hget; [exact Hget| |apply starts].
  apply origin_empty. vm_compute. reflexivity.
Qed.
(** Without the download *)
Definition tasks : list task := [outer; inner (record_made outer)].
Definition events : list (nat * call) :=
  nested 11 (record_made outer) (record_made (inner (record_made outer))).
Lemma tasks_interleaved : interleaves origin (record_made <$> tasks) events.
Proof.
  apply outer_interleaved. apply (finish_hears _ _ _ _ _ origin outer); [|apply starts].
  apply origin_empty. vm_compute. reflexivity.
Qed.
Abbreviation honest := (@fair BitCodec.prost MemDB.rocksdb MemDB.formats Hdd
  SampleCache.disk_backend SimulatorState SampleSystem.working canonical_order SampleCache.clock
  SampleCache.settings SampleSystem.lost sample_sha256 (requested tasks)).
Definition event (i : nat) : nat * call := default (0, mkCall 0 origin origin) (events !! i).
Lemma event_at i : bool_decide (is_Some (events !! i)) = true → events !! i = Some (event i).
Proof. intros [e He]%bool_decide_eq_true. unfold event. by rewrite He. Qed.
Lemma tasks_start : Forall (start_over origin) tasks.
Proof. repeat constructor. Qed.
Lemma tasks_fit : empty_store (sum_list (room_of <$> tasks)) origin.
Proof. apply origin_empty. vm_compute. reflexivity. Qed.
End SampleTasks.

(** The bytes that come back have the recorded checksum, which is the one of
    the upload. *)
Lemma restored_reads_are_intact_witness :
  ∃ object, (SampleTasks.fetch SampleTasks.outer).2 = Ok (object, [1; 2; 3]%Z) ∧
    intact (uploads := requested [SampleTasks.outer; SampleTasks.inner SampleTasks.fetched])
      "b" "k" object [1; 2; 3]%Z.
Proof.
  eexists. split; [vm_compute; reflexivity|].
  eapply (@restored_reads_are_intact BitCodec.prost MemDB.rocksdb MemDB.formats Hdd
    SampleCache.disk_backend SampleCache.disk_laws SimulatorState simulator_backend
    sample_sha256 sample_sha256_laws sample_debug SampleSystem.working canonical_order
    SampleCache.clock SampleCache.settings SampleSystem.lost SampleTasks.outer [SampleTasks.inner SampleTasks.fetched]
    SampleTasks.origin _ _ "b" "k").
  - apply SampleTasks.origin_empty. vm_compute. reflexivity.
  - repeat constructor.
  - apply run_with. vm_compute. reflexivity.
  - apply SampleTasks.fetched_interleaved.
Defined.

(** The two sample schedulers make more than forty calls. *)
Lemma schedulers_interleave_witness :
  let events := SampleTasks.events in
  (40 <? length events)%nat = true ∧
  Forall (λ e, SampleTasks.honest e.2 ∧
    consistent (uploads := requested SampleTasks.tasks) (metadata_in (after e.2))) events ∧
  (additions events.*2 ≤ sum_list (room_of <$> SampleTasks.tasks))%nat.
Proof.
  cbv zeta. split; [vm_compute; reflexivity|].
  apply (@schedulers_interleave BitCodec.prost MemDB.rocksdb MemDB.formats Hdd
    SampleCache.disk_backend SampleCache.disk_laws SimulatorState simulator_backend
    sample_sha256 sample_sha256_laws sample_debug SampleSystem.working canonical_order
    SampleCache.clock SampleCache.settings SampleSystem.lost SampleTasks.tasks SampleTasks.origin).
  - apply SampleTasks.tasks_fit.
  - apply SampleTasks.tasks_start.
  - apply SampleTasks.tasks_interleaved.
Defined.

(** The claim of the recall in the sample is the only one. *)
Lemma claims_decided_once_witness :
  let id := phase1_recall_task_id "b" "k" None in
  let claim (c : SampleTasks.call) := claims_recall_task id c in
  ∃ e : nat * SampleTasks.call, SampleTasks.events !! 39 = Some e ∧ claim e.2 ∧
    ∀ q (e' : nat * SampleTasks.call), SampleTasks.events !! q = Some e' → claim e'.2 → 39 = q.
Proof.
  cbv zeta. set (e := SampleTasks.event 39).
  assert (He : SampleTasks.events !! 39 = Some e) by (apply SampleTasks.event_at; vm_compute; reflexivity).
  assert (Hclaim : claims_recall_task (phase1_recall_task_id "b" "k" None) e.2).
  { set (task := default (Sample.recall_task 0)
      (recall_tasks (metadata_in (after e.2)) !! phase1_recall_task_id "b" "k" None)).
    exists (Sample.env 0), task. split_and!; vm_compute; reflexivity. }
  exists e. split; [exact He|]. split; [exact Hclaim|]. intros q e' Hq Hclaim'.
  eapply (@claims_decided_once BitCodec.prost MemDB.rocksdb MemDB.formats Hdd
    SampleCache.disk_backend SampleCache.disk_laws SimulatorState simulator_backend
    sample_sha256 sample_sha256_laws sample_debug SampleSystem.working canonical_order
    SampleCache.clock SampleCache.settings SampleSystem.lost SampleTasks.tasks SampleTasks.origin);
    [apply SampleTasks.tasks_fit|apply SampleTasks.tasks_start|apply SampleTasks.tasks_interleaved
    |exact He|exact Hq|]. right. split; [exact Hclaim|exact Hclaim'].
Defined.

(** Two schedulers that claim tasks, one after the other *)
Module SampleClaims.
#[local] Existing Instances BitCodec.prost MemDB.rocksdb MemDB.formats.

(** Whatever is uploaded *)
Definition any_upload : Uploads := λ _ _ _, True.
Abbreviation st := SampleTasks.st.
Abbreviation calls := (@service_calls BitCodec.prost MemDB.rocksdb MemDB.formats Hdd
  SampleCache.disk_backend SimulatorState SampleSystem.working canonical_order SampleCache.clock
  SampleCache.settings SampleSystem.lost sample_sha256 any_upload).
Abbreviation clients := (@shared_metadata BitCodec.prost MemDB.rocksdb MemDB.formats Hdd
  SimulatorState SampleSystem.working).
Definition archive_task (id : string) : ArchiveTask.t :=
  ArchiveTask.mk id "b1" "TAPE1" None 1 5 0 1 0 None None None None.
Definition recall_task (id : string) : RecallTask.t :=
  RecallTask.mk id "docs" (if id == "r1" then "a" else "b") None "b1" "TAPE1" [] 0 5 "sum" 2 1 None 1 None 0
    None None None None.

(** A scheduler over services of which no call is recorded yet *)
Definition over (services : SampleSystem.system) : st :=
  mkSched ∅ ∅ 0 (mkShared services [] []).
Definition stored : SampleSystem.system :=
  let s := world SampleSystem.start in
  mkSystem (mkService MetadataConfig.default_config
    (apply_log Sample.log default_state) None (Some (mkBackend Memory 0)) ∅) (sys_cache s) (sys_tape s) (sys_calls s).
Definition claim_archive (id : string) (s : st) : st * result Status (bool * ArchiveTask.t) :=
  @claim_archive_task _ clients SampleSystem.clock (archive_task id) s.
Definition claim_recall (id : string) (s : st) : st * result Status (bool * RecallTask.t) :=
  @claim_recall_task _ clients SampleSystem.clock (recall_task id) s.
Definition next (s : st) : st := over (services (world s)).
Definition claimed {A} (r : result Status (bool * A)) : option bool := fst <$> ok r.
Definition task_of {A} (default_ : A) (r : result Status (bool * A)) : A :=
  match r with Ok (_, t) => t | Err _ => default_ end.
End SampleClaims.

(** The second of two schedulers finds the task of the first taken, and takes
    another one. *)
Lemma archive_claims_exclude_witness :
  let first := SampleClaims.claim_archive "t1" (SampleClaims.over SampleClaims.stored) in
  let again := SampleClaims.claim_archive "t1" (SampleClaims.next first.1) in
  let other := SampleClaims.claim_archive "t2" (SampleClaims.next first.1) in
  SampleClaims.claimed first.2 = Some true ∧ SampleClaims.claimed again.2 = Some false ∧
  SampleClaims.claimed other.2 = Some true ∧
  let claim id := decides archive_unclaimed_in archive_claimed_in id in
  ∃ c1 c2, c1 ∈ made (world first.1) ∧ claim "t1" c1 ∧ c2 ∈ made (world other.1) ∧ claim "t2" c2 ∧
    ∀ n, SampleClaims.calls n (after c1) (before c2) ∨ SampleClaims.calls n (after c2) (before c1) → "t1" ≠ "t2".
Proof.
  cbv zeta. split_and!; [vm_compute; reflexivity..|].
  set (first := SampleClaims.claim_archive "t1" (SampleClaims.over SampleClaims.stored)).
  set (other := SampleClaims.claim_archive "t2" (SampleClaims.next first.1)).
  pose proof (@archive_claims_exclude BitCodec.prost MemDB.rocksdb MemDB.formats Hdd
    SampleCache.disk_backend SimulatorState sample_sha256 SampleClaims.any_upload SampleSystem.working canonical_order
    SampleCache.clock SampleCache.settings SampleSystem.lost SampleSystem.clock
    (SampleClaims.archive_task "t1") (SampleClaims.archive_task "t2")
    (SampleClaims.task_of (SampleClaims.archive_task "") first.2)
    (SampleClaims.task_of (SampleClaims.archive_task "") other.2)
    (SampleClaims.over SampleClaims.stored) first.1 (SampleClaims.next first.1) other.1
    eq_refl eq_refl) as Hex.
  apply Hex; apply run_with; vm_compute; reflexivity.
Defined.

(** The same of two recalls *)
Lemma recall_claims_exclude_witness :
  let first := SampleClaims.claim_recall "r1" (SampleClaims.over SampleClaims.stored) in
  let again := SampleClaims.claim_recall "r1" (SampleClaims.next first.1) in
  let other := SampleClaims.claim_recall "r2" (SampleClaims.next first.1) in
  SampleClaims.claimed first.2 = Some true ∧ SampleClaims.claimed again.2 = Some false ∧
  SampleClaims.claimed other.2 = Some true ∧
  let claim id := decides recall_unclaimed_in recall_claimed_in id in
  ∃ c1 c2, c1 ∈ made (world first.1) ∧ claim "r1" c1 ∧ c2 ∈ made (world other.1) ∧ claim "r2" c2 ∧
    ∀ n, SampleClaims.calls n (after c1) (before c2) ∨ SampleClaims.calls n (after c2) (before c1) → "r1" ≠ "r2".
Proof.
  cbv zeta. split_and!; [vm_compute; reflexivity..|].
  set (first := SampleClaims.claim_recall "r1" (SampleClaims.over SampleClaims.stored)).
  set (other := SampleClaims.claim_recall "r2" (SampleClaims.next first.1)).
  pose proof (@recall_claims_exclude BitCodec.prost MemDB.rocksdb MemDB.formats Hdd
    SampleCache.disk_backend SimulatorState sample_sha256 SampleClaims.any_upload SampleSystem.working canonical_order
    SampleCache.clock SampleCache.settings SampleSystem.lost SampleSystem.clock
    (SampleClaims.recall_task "r1") (SampleClaims.recall_task "r2")
    (SampleClaims.task_of (SampleClaims.recall_task "") first.2)
    (SampleClaims.task_of (SampleClaims.recall_task "") other.2)
    (SampleClaims.over SampleClaims.stored) first.1 (SampleClaims.next first.1) other.1
    eq_refl eq_refl) as Hex.
  apply Hex; apply run_with; vm_compute; reflexivity.
Defined.

(** The calls of a pass over the sample system, recorded *)
Lemma archive_pass_justified_witness :
  let s := SampleSystem.recording (SampleSystem.run SampleSystem.working SampleSystem.upload
             SampleSystem.start) in
  let s' := (@archive_staging_once (Traced SampleSystem.system)
    (@traced_metadata _ (SampleSystem.metadata SampleSystem.working))
    (@traced_cache _ SampleSystem.cache) (@traced_tape _ SampleSystem.tape) _ _
    SampleSystem.clock true true SchedulerConfig.default_config s).1 in
  existsb (λ c, match c with CComplete _ (Ok _) => true | _ => false end) (calls (world s')) = true ∧
  all_justified (archive_justified SchedulerConfig.default_config) (calls (world s')).
Proof.
  cbv zeta. split; [vm_compute; reflexivity|].
  eapply (@archive_pass_justified SampleSystem.system (SampleSystem.metadata SampleSystem.working)
    SampleSystem.cache SampleSystem.tape _ _ SampleSystem.clock true true
    SchedulerConfig.default_config); [|apply surjective_pairing]. reflexivity.
Defined.

Lemma recall_pass_justified_witness :
  let s := SampleSystem.recording (SampleSystem.run SampleSystem.working SampleSystem.asked
             SampleSystem.start) in
  let s' := (@recall_pending_once (Traced SampleSystem.system)
    (@traced_metadata _ (SampleSystem.metadata SampleSystem.working))
    (@traced_cache _ SampleSystem.cache) (@traced_tape _ SampleSystem.tape) _
    SampleSystem.clock true true SchedulerConfig.default_config 10 s).1 in
  existsb (λ c, match c with CPutRestored _ (Ok _) => true | _ => false end) (calls (world s')) = true ∧
  all_justified recall_justified (calls (world s')).
Proof.
  cbv zeta. split; [vm_compute; reflexivity|].
  eapply (@recall_pass_justified SampleSystem.system (SampleSystem.metadata SampleSystem.working)
    SampleSystem.cache SampleSystem.tape _ SampleSystem.clock true true
    SchedulerConfig.default_config 10); [|apply surjective_pairing]. reflexivity.
Defined.

(** Two objects listed one at a time: the page has one and does not say that
    there are more. *)
Lemma listing_never_truncated_witness :
  let s := SampleSystem.run SampleSystem.working
    (SampleSystem.upload ++ [OpPutObject "b" "l" [4]%Z None]) SampleSystem.start in
  ∃ page, (@list_objects SampleSystem.system (SampleSystem.metadata SampleSystem.working)
      "b" None None None 1 s).2 = Ok page ∧
    length page.(ListObjectsPage.objects) = 1%nat ∧
    page.(ListObjectsPage.is_truncated) = false ∧ page.(ListObjectsPage.next_marker) = None.
Proof.
  cbv zeta. eexists. split; [vm_compute; reflexivity|]. split; [vm_compute; reflexivity|].
  eapply (@listing_never_truncated BitCodec.prost MemDB.rocksdb MemDB.formats Hdd SimulatorState
    SampleSystem.working "b" None None None 1 (SampleSystem.run SampleSystem.working
    (SampleSystem.upload ++ [OpPutObject "b" "l" [4]%Z None]) SampleSystem.start));
    [lia|apply run_with; vm_compute; reflexivity].
Defined.

(** A new upload under the key of an archived object *)
Lemma claimed_task_blocks_archiving_witness :
  let s := SampleSystem.run SampleSystem.working
    (SampleSystem.archived ++ [OpPutObject "b" "k" [4; 5]%Z None]) SampleSystem.start in
  let entry := StagingKeyEntry.mk "b" "k" None 2 None in
  SampleSystem.class_of "k" s = Some (StorageClass.as_i32 StorageClass.ColdPending) ∧
  let '(s', r) := @archive_entry SampleSystem.system (SampleSystem.metadata SampleSystem.working)
    SampleSystem.cache _ _ SampleSystem.clock true SchedulerConfig.default_config
    (@CacheArchiveClient _ SampleSystem.cache)
    (@TapeArchiveClient _ SampleSystem.tape "drive-0" "TAPE0001" ["TAPE0001"] 262144) entry s in
  state (sys_metadata (world s')) = state (sys_metadata (world s)) ∧
  sys_cache (world s') = sys_cache (world s) ∧ sys_tape (world s') = sys_tape (world s) ∧
  ∀ bytes, r ≠ Ok (Some bytes).
Proof.
  cbv zeta. split; [vm_compute; reflexivity|].
  eapply (@claimed_task_blocks_archiving BitCodec.prost MemDB.rocksdb MemDB.formats Hdd
    SampleCache.disk_backend SimulatorState sample_sha256 sample_debug SampleSystem.working
    canonical_order SampleCache.clock SampleCache.settings SampleSystem.clock true
    SchedulerConfig.default_config); [vm_compute; reflexivity|right; left; reflexivity|
    vm_compute; reflexivity|reflexivity].
Defined.

(** The recall of the sample object, claimed *)
Module SampleRecall.
Definition waiting : SampleSystem.st :=
  SampleSystem.run SampleSystem.working SampleSystem.asked SampleSystem.start.
Definition task_in (s : SampleSystem.st) : RecallTask.t :=
  default (Sample.recall_task 0)
    (recall_tasks (state (sys_metadata (world s))) !! phase1_recall_task_id "b" "k" None).
Definition claimed : SampleSystem.st :=
  (@claim_recall_task SampleSystem.system (SampleSystem.metadata SampleSystem.working)
     SampleSystem.clock (task_in waiting) waiting).1.
End SampleRecall.

Lemma interrupted_recall_is_stuck_witness :
  let '(s', r) := @retry_recall_task_later SampleSystem.system
    (SampleSystem.metadata SampleSystem.working) (SampleRecall.task_in SampleRecall.waiting)
    "drive is busy" SampleRecall.claimed in
  (∃ e, r = Err e) ∧
  state (sys_metadata (world s')) = state (sys_metadata (world SampleRecall.claimed)) ∧
  ∀ e, SampleRecall.task_in SampleRecall.claimed ∉
       list_pending_recall_tasks e (state (sys_metadata (world s'))).
Proof.
  apply (@interrupted_recall_is_stuck BitCodec.prost MemDB.rocksdb MemDB.formats Hdd SimulatorState
    SampleSystem.working (SampleRecall.task_in SampleRecall.waiting)
    (SampleRecall.task_in SampleRecall.claimed) "drive is busy" SampleRecall.claimed);
    vm_compute; reflexivity.
Defined.

(** The sample object after its copy has expired and was asked for *)
Lemma lost_copy_is_not_restored_witness :
  let s := SampleSystem.run_later [OpGetObject "b" "k"]
    (SampleSystem.run SampleSystem.working SampleSystem.recalled SampleSystem.start) in
  (∃ status, (@get_object SampleSystem.system (SampleSystem.metadata SampleSystem.working)
      SampleSystem.cache true "b" "k" s).2 = Err status ∧ code status = FailedPrecondition) ∧
  let '(s', r) := @restore_object SampleSystem.system (SampleSystem.metadata SampleSystem.working)
    SampleSystem.clock "b" "k" 1 RestoreTier.Standard s in
  r = Ok 200%Z ∧ unchanged s s'.
Proof.
  cbv zeta. eapply (@lost_copy_is_not_restored BitCodec.prost MemDB.rocksdb MemDB.formats Hdd
    SampleCache.disk_backend SimulatorState SampleSystem.working canonical_order
    SampleCache.clock SampleCache.settings SampleSystem.clock "b" "k" 1 RestoreTier.Standard);
    [vm_compute; reflexivity|reflexivity|reflexivity|vm_compute; reflexivity|discriminate].
Defined.

(** A failed upload can destroy an acknowledged one. The first upload of
    the sample is acknowledged; the second, under the same key, cannot be
    recorded on disk, so the client gets an error, but its staging has replaced
    the first one's and is deleted with it: after a restart the metadata
    describes the first upload, still to be archived, and no copy of it is
    left. *)
Theorem failed_overwrite_loses_upload :
  let ops := [OpCreateBucket "b"; OpPutObject "b" "k" [1; 2; 3]%Z None] in
  let again := [OpPutObject "b" "k" [4; 5]%Z None] in
  let s1 := SampleSystem.run (SampleSystem.failing_from 2) ops (SampleSystem.start_with (Some "meta")) in
  let s2 := SampleSystem.run (SampleSystem.failing_from 2) again s1 in
  let key := CacheKey.new "b" "k" None in
  StoredEntry.size <$> staging (Cache.index (sys_cache (world s1))) !! key = Some 3%Z ∧
  staging (Cache.index (sys_cache (world s2))) !! key = None ∧
  (restarted ← ok (@new_with_snapshot BitCodec.prost MemDB.rocksdb MetadataConfig.default_config
     "meta" (MetadataService.files (sys_metadata (world s2))));
   object ← ok (find_object (Sample.env 0) (state restarted) "b" "k" None);
   Some (object.(ObjectMetadata.size), object.(ObjectMetadata.storage_class)))
    = Some (3%Z, StorageClass.as_i32 StorageClass.ColdPending).
Proof. cbv zeta. split_and!; vm_compute; reflexivity. Qed.

(** What the two sample schedulers leave, and what later passes make of it *)
Module SampleBusy.
Definition left_ : SampleSystem.st :=
  mkSched ∅ ∅ 100 (services (world (SampleTasks.finish SampleTasks.outer))).
Definition later : SampleSystem.st :=
  SampleSystem.run SampleSystem.working [OpArchiveTurn; OpArchiveTurn] left_.
Definition archive_status (s : SampleSystem.st) : option Z :=
  ArchiveTask.status <$>
    archive_tasks (state (sys_metadata (world s))) !! phase1_bundle_id "b" "l" None.
Definition staged_size (s : SampleSystem.st) : option Z :=
  StoredEntry.size <$> staging (Cache.index (sys_cache (world s))) !! CacheKey.new "b" "l" None.
End SampleBusy.

(** An upload can be given up because the drive is in use. The inner one of the
    sample schedulers finds the drive taken when it archives its upload: the
    tape worker refuses, the archive task is marked as failed, and since it is
    the only task there ever is for the key, no later pass archives the object,
    although the drive is free and the bytes are still staged. *)
Example busy_drive_ends_archiving :
  acquired (sys_tape (world SampleBusy.left_)) = [false] ∧
  (SampleBusy.archive_status SampleBusy.later, SampleBusy.archive_status SampleBusy.left_)
    = (Some (ArchiveTaskStatus.as_i32 ArchiveTaskStatus.ArchiveTaskFailed),
       Some (ArchiveTaskStatus.as_i32 ArchiveTaskStatus.ArchiveTaskFailed)) ∧
  SampleSystem.class_of "l" SampleBusy.later = Some (StorageClass.as_i32 StorageClass.ColdPending) ∧
  SampleBusy.staged_size SampleBusy.later = Some 2%Z.
Proof. split; [|split; [|split]]; vm_compute; reflexivity. Qed.
