(* ===== verification/ProgressRuns.v ===== *)
(** * An upload that comes back

    The hypotheses of the theorem on the life of an upload, on the sample store
    with its tape in the drive. *)

From Stdlib Require Import ZArith Lia String.
From S2P Require Import Prelude Hoare Proto StateMachine MetadataTheorems Snapshot Raft RaftTheorems RustStr.
From S2P Require Import MetadataService ServiceTheorems External Vtl CacheBackend Cache CacheInvariants CacheTheorems CacheRefinement.
From S2P Require Import TapeService TapeTheorems Workers SchedulerProto Config SchedulerClients Scheduler SchedulerSystem.
From S2P Require Import Histories Progress SchedulerRuns.
Import Samples.

Local Open Scope string_scope.
Local Open Scope list_scope.
Local Open Scope stdpp_scope.

(** A store whose tape is in the drive, with a bucket and nothing in it *)
Module SampleLife.
#[local] Existing Instances BitCodec.prost MemDB.rocksdb MemDB.formats.

Definition loaded : SimulatorState := (sim_load_tape "TAPE0001" "drive-0" None SampleSystem.library).1.
Definition created : SampleSystem.st :=
  let s := SampleSystem.run SampleSystem.working [OpCreateBucket "b"] SampleSystem.start in
  mkSched ∅ ∅ (sched_ticks s) (mkSystem (sys_metadata (world s)) (sys_cache (world s)) loaded
    (sys_calls (world s))).

Definition put (s : SampleSystem.st) :=
  @put_object SampleSystem.system (SampleSystem.metadata SampleSystem.working) SampleSystem.cache
    sample_sha256 SampleSystem.clock true "b" "k" [1; 2; 3]%Z None s.
Definition archive (s : SampleSystem.st) :=
  @archive_staging_once SampleSystem.system (SampleSystem.metadata SampleSystem.working)
    SampleSystem.cache SampleSystem.tape _ _ SampleSystem.clock true true SchedulerConfig.default_config s.
Definition ask (s : SampleSystem.st) :=
  @restore_object SampleSystem.system (SampleSystem.metadata SampleSystem.working)
    SampleSystem.clock "b" "k" 1 RestoreTier.Standard s.
Definition recall (s : SampleSystem.st) :=
  @recall_pending_once SampleSystem.system (SampleSystem.metadata SampleSystem.working)
    SampleSystem.cache SampleSystem.tape _ SampleSystem.clock true true SchedulerConfig.default_config 1 s.
Definition asked : SampleSystem.st := (ask (archive (put created).1).1).1.

Lemma created_standing : @standing MemDB.rocksdb Hdd ∅ ∅ (fresh "b" "k")
  (@vacant Hdd SampleCache.disk_backend SampleCache.disk_laws canonical_order)
  (shelved "TAPE0001" (drive_addr 0) false []) created.
Proof.
  split; [reflexivity|reflexivity|split; [reflexivity|by eexists]|..].
  - assert (Hobj : objects (state (sys_metadata (world created))) = ∅) by (vm_compute; reflexivity).
    assert (Hrec : recall_tasks (state (sys_metadata (world created))) = ∅) by (vm_compute; reflexivity).
    split; [vm_compute; eauto|intros v; by rewrite Hobj|vm_compute; reflexivity..|].
    intros id t. by rewrite Hrec, lookup_empty.
  - change (sys_cache (world created)) with SampleCache.empty.
    split; [apply default_wf|]. split; [by apply SampleCache.disk_writable|]. apply fmap_empty.
  - split; [reflexivity|]. split.
    + exists (new_tape "TAPE0001"). split; [|done]. by eexists.
    + exists (new_tape "TAPE0001"). split; [by eexists|done].
Qed.
End SampleLife.

