(* ===== verification/EndToEnd.v ===== *)
(** * The store from the S3 request on

    The gateway connected to schedulers that share the metadata service, the
    cache and the tape worker: the entity tag of a download is the digest of
    the bytes in its body, and that of a body a client uploaded under the key. *)

From Stdlib Require Import ZArith Lia String Ascii.
From S2P Require Import Prelude Hoare Proto StateMachine Snapshot Raft RustStr MetadataService.
From S2P Require Import MetadataTheorems RaftTheorems ServiceTheorems CacheTheorems Vtl.
From S2P Require Import External CacheBackend Cache TapeService SchedulerProto Config GatewayProtocol Gateway.
From S2P Require Import SchedulerClients Scheduler SchedulerSystem Checksums.
From S2P Require Import Histories Interference SchedulerIntegrity Composition.
From S2P Require Import SchedulerRuns.
Import scheduler.

Local Open Scope string_scope.
Local Open Scope list_scope.
Local Open Scope stdpp_scope.

(** ** Downloads of any backend *)

Section downloads.
Context {W : Type} `{GatewayBackend W} `{HeaderValues} `{Chrono}.

Lemma error_status_not_ok status resource :
  resp_status (grpc_status_to_s3_response status resource) ≠ 200%Z.
Proof using.
  unfold grpc_status_to_s3_response, s3_error_of.
  destruct (code status); simpl; repeat case_match; simplify_eq; done.
Qed.

Lemma evaluate_not_ok head im inm ims ius resource response :
  evaluate_preconditions head im inm ims ius resource = Ok (Some response) →
  resp_status response ≠ 200%Z.
Proof using.
  unfold evaluate_preconditions, mbind, result_bind, ok_or. intros Hev.
  repeat (case_match; simplify_eq/=; try done).
Qed.

Lemma headers_etag head headers hs :
  apply_object_headers head headers = Ok hs → hs !! "etag" = Some head.(HeadObjectResponse.etag).
Proof using.
  unfold apply_object_headers, header_value.
  repeat (case_match; simplify_eq/=; try done); intros [= <-];
    rewrite ?lookup_insert_ne by done; by rewrite lookup_insert_eq.
Qed.

(** A download that is answered with 200 carries what the backend sent. *)
Lemma get_object_ok bucket key headers (w w' : W) response :
  Gateway.get_object bucket key headers w = (w', Ok response) → resp_status response = 200%Z →
  ∃ w1 object, (w1 = w ∨ w1 = (gb_head_object bucket key w).1) ∧
    gb_get_object bucket key w1 = (w', Ok object) ∧ resp_body response = dl_body object ∧
    resp_headers response !! "etag" = Some (dl_head object).(HeadObjectResponse.etag).
Proof using.
  unfold Gateway.get_object, call. unfold_action.
  destruct (check_read_preconditions bucket key headers _ w) as [w1 checked] eqn:Hcheck.
  assert (Hw1 : (w1 = w ∨ w1 = (gb_head_object bucket key w).1) ∧
    ∀ r, checked = Ok (Some r) → resp_status r ≠ 200%Z).
  { revert Hcheck. unfold check_read_preconditions. unfold_action.
    destruct (date_header headers "if-modified-since" _); [|intros [= <- <-]; by auto].
    destruct (date_header headers "if-unmodified-since" _); [|intros [= <- <-]; by auto].
    destruct (_ && _); [intros [= <- <-]; by auto|].
    destruct (gb_head_object bucket key w) as [w2 [head|e]]; intros [= <- <-]; [|by auto].
    split; [by right|]. intros r. apply evaluate_not_ok. }
  destruct Hw1 as [Hw1 Hsome]. destruct checked as [[r|]|status].
  - intros [= _ <-] Hst. by destruct (Hsome r eq_refl).
  - destruct (gb_get_object bucket key w1) as [w2 [object|status]] eqn:Hget;
      [|intros [= _ <-] Hst; by destruct (error_status_not_ok status (object_path bucket key))].
    destruct (headers !! "range") as [value|].
    + destruct (to_str value) as [raw|]; [|by intros [= _ <-]].
      unfold parse_range_header, range_response, range_not_satisfiable_response, mbind, result_bind.
      intros Hrun Hst. exfalso. revert Hrun.
      repeat (case_match; simplify_eq/=; try done); intros [= _ <-]; done.
    + destruct (apply_object_headers _ _) as [hs|] eqn:Hhs; [|done]. intros [= <- <-] _.
      exists w1, object. rewrite Hget. split_and!; try done. by eapply headers_etag.
  - intros [= _ <-] Hst. by destruct (error_status_not_ok status (object_path bucket key)).
Qed.
End downloads.

(** ** The gateway over the scheduler *)

Section end_to_end.
Context `{Prost} `{RocksDB} `{Formats}.
Context {B : Type} `{CacheBackendLaws B} {T : Type} `{TapeBackend T}.
Context `{Sha256Laws} `{DebugFormat} `{HeaderValues} `{Chrono} {uploads : Uploads}.
Context (envs : nat → CallEnv) (h : hash_order) (cache_clock : nat → Z) (svc : Settings).
Context (panicked : Status) (clock : nat → Timestamp.t) (has_cache : bool).
(** Which schedulers answer; they share the state. *)
Context (reachable : string → bool).
(** The services to begin with, the turns of others, and how many objects
    they and the schedulers behind the gateway may add to the cache *)
Context (origin : System (B := B) (T := T)).
Context (plan : list (System (B := B) (T := T) → System (B := B) (T := T))) (allowed room : nat).

#[local] Instance store_metadata : MetadataClient (Shared (B := B) (T := T)) := shared_metadata envs.
#[local] Instance store_cache : CacheClient (Shared (B := B) (T := T)) :=
  shared_cache h cache_clock svc.
#[local] Instance store_backend : Phase1SchedulerBackend (Sched (Shared (B := B) (T := T))) :=
  MetadataBackedSchedulerBackend clock has_cache.

#[local] Instance store_network : SchedulerNetwork (Sched (Shared (B := B) (T := T))) := {|
  SchedulerClient := unit;
  client_connect addr := if reachable addr then mret tt else throw "connection refused";
  client_api _ := SchedulerServiceImpl |}.

Abbreviation safe φ := (safe envs h cache_clock svc panicked origin plan allowed room φ 0).
Abbreviation store := (GrpcGatewayBackend (Sched (Shared (B := B) (T := T)))).

(** The state behind the gateway is safe. *)
Definition behind (φ : MetadataState → Prop) (g : store) : Prop := safe φ (network g).
Abbreviation sound := (behind true_fact).

Lemma connect_loop_sound addrs base offsets last :
  hoare sound (connect_loop addrs base offsets last : action store Status unit) (λ _, sound) sound.
Proof using.
  revert last. induction offsets as [|offset offsets IH]; intros last; simpl; [apply hoare_throw|].
  intros g Hg. unfold or_else, on_network. simpl.
  destruct (reachable _); simpl; [done|]. by apply IH.
Qed.

Lemma connect_sound : hoare sound (connect : action store Status unit) (λ _, sound) sound.
Proof using.
  intros g Hg. unfold connect. unfold_action. case_bool_decide; [done|].
  unfold fetch_add_next. by apply connect_loop_sound.
Qed.

Lemma via_sound {A} (op : SchedulerApi (Sched (Shared (B := B) (T := T))) →
    action (Sched (Shared (B := B) (T := T))) Status A) (Q : A → MetadataState → Prop) :
  hoare (safe true_fact) (op SchedulerServiceImpl) (λ a, safe (Q a)) (safe true_fact) →
  hoare sound (via op : action store Status A) (λ a, behind (Q a)) sound.
Proof using.
  intros Hop. unfold via. eapply hoare_bind; [apply connect_sound|]. intros client g Hg.
  unfold on_network. specialize (Hop (network g) Hg).
  change (client_api client) with
    (SchedulerServiceImpl : SchedulerApi (Sched (Shared (B := B) (T := T)))).
  by destruct (op _ (network g)) as [s [a|e]].
Qed.

Lemma head_sound bucket key :
  hoare sound (gb_head_object bucket key : action store Status _) (λ _, sound) sound.
Proof using.
  apply (via_sound _ (λ _, true_fact)).
  simpl. unfold handle_head_object. eapply hoare_bind.
  { apply (kept_read envs h cache_clock svc panicked origin plan allowed room true_fact 0
      (λ e st, find_object e st bucket key None)), stable_true. }
  intros object. by apply hoare_ret.
Qed.

(** The entity tag of a download is the digest of its bytes, and their length
    and digest are those of an upload under the key. *)
Definition tagged (bucket key : string) (o : DownloadedObject) : Prop :=
  (dl_head o).(HeadObjectResponse.etag) = sha256_hex (dl_body o) ∧
  ∃ body, was_uploaded bucket key body ∧ length (dl_body o) = length body ∧
    sha256_hex (dl_body o) = sha256_hex body.
Lemma get_sound bucket key :
  hoare sound (gb_get_object bucket key : action store Status _) (λ o, behind (λ _, tagged bucket key o)) sound.
Proof using.
  simpl. unfold grpc_get_object. eapply hoare_bind.
  { apply (via_sound _ (λ messages _, ∀ o, downloaded_object messages = Ok o → tagged bucket key o)).
    simpl. unfold handle_get_object. eapply hoare_bind.
    { apply (get_object_intact envs h cache_clock svc panicked has_cache origin plan allowed room true_fact 0),
        stable_true. }
    intros [object data]. apply hoare_ret. intros s. apply safe_weaken.
    intros st [_ ((body & Hup & Hsize & Hsum & _) & Hb & Hk & Hlen & Hdata & Het)] o [= <-].
    simpl in *. subst bucket key. split; [simpl; by rewrite Het|]. exists body. split; [done|]. simpl.
    split; [lia|congruence]. }
  intros messages g Hg. unfold lift. destruct (downloaded_object messages) as [o|status].
  - revert Hg. apply safe_weaken. auto.
  - by revert Hg; apply safe_weaken.
Qed.

End end_to_end.

Section theorem.
Context `{Prost} `{RocksDB} `{Formats}.
Context {B : Type} `{CacheBackendLaws B} {T : Type} `{TapeBackend T}.
Context `{Sha256Laws} `{DebugFormat} `{HeaderValues} `{Chrono}.
Context (envs : nat → CallEnv) (h : hash_order) (cache_clock : nat → Z) (svc : Settings).
Context (panicked : Status) (reachable : string → bool).

Abbreviation scheduler := (Sched (Shared (B := B) (T := T))).
Abbreviation task := (Task (B := B) (T := T)).

(** A gateway before the scheduler of a task *)
Definition network_of (t : task) : SchedulerNetwork scheduler :=
  store_network envs h cache_clock svc t.(task_clock) t.(task_has_cache) reachable.
Definition s3_get (t : task) (bucket key : string) (headers : gmap string string)
    (g : GrpcGatewayBackend scheduler) : GrpcGatewayBackend scheduler * result panic Response :=
  @Gateway.get_object _ (@grpc_backend _ (network_of t)) _ _ bucket key headers g.

(** What an answer with 200 comes from *)
Lemma s3_get_safe {uploads : Uploads} (t : task) origin allowed (g g' : GrpcGatewayBackend scheduler) bucket key headers
    (response : Response) :
  stores t → empty_store (room_of t + allowed) origin → start_over origin t →
  network g = finish envs h cache_clock svc panicked t →
  s3_get t bucket key headers g = (g', Ok response) → resp_status response = 200%Z →
  ∃ object, resp_body response = dl_body object ∧
    resp_headers response !! "etag" = Some (dl_head object).(HeadObjectResponse.etag) ∧
    safe envs h cache_clock svc panicked origin (others (world t.(task_start))) allowed (room_of t)
      (λ _, tagged bucket key object) 0 (network g').
Proof.
  intros Hup Hs Hb Hg Hget Hst. set (plan := others (world (task_start t))).
  set (sound_behind := behind envs h cache_clock svc panicked origin plan allowed (room_of t)).
  assert (sound_behind true_fact g) as Hsound.
  { unfold sound_behind, behind. rewrite Hg.
    replace allowed with (room_of t + allowed - room_of t)%nat by lia.
    apply finish_safe; [done|exact Hs|done|apply Nat.le_add_r]. }
  destruct (get_object_ok _ _ _ _ _ _ Hget Hst) as (g1 & object & Hg1 & Hobj & -> & ->).
  exists object. split; [done|]. split; [done|].
  assert (sound_behind true_fact g1) as Hsound1.
  { destruct Hg1 as [->| ->]; [done|].
    pose proof (head_sound envs h cache_clock svc panicked (task_clock t)
      (task_has_cache t) reachable origin plan allowed (room_of t) bucket key g Hsound) as Hh.
    by destruct (gb_head_object bucket key g) as [? []]. }
  pose proof (get_sound envs h cache_clock svc panicked (task_clock t)
    (task_has_cache t) reachable origin plan allowed (room_of t) bucket key g1 Hsound1) as Hh.
  unfold network_of in Hobj. by rewrite Hobj in Hh.
Qed.
Lemma s3_get_hears (t : task) origin (g g' : GrpcGatewayBackend scheduler) bucket key headers
    (response : Response) :
  empty_store (room_of t) origin → start_over origin t →
  network g = finish envs h cache_clock svc panicked t →
  s3_get t bucket key headers g = (g', Ok response) → resp_status response = 200%Z →
  hears origin (others (world t.(task_start))) (made (world (network g'))).
Proof.
  intros Hs Hb Hg Hget Hst. pose proof (requested_stores [t]) as [Hup _]%Forall_cons.
  destruct (s3_get_safe (uploads := requested [t]) t origin 0 g g' bucket key headers response)
    as (object & _ & _ & Hsafe); [done|by rewrite Nat.add_0_r|done..|]. by eapply safe_hears.
Qed.

(** C1: A client that downloads an object through the gateway and is answered
    with 200 receives bytes whose SHA-256 digest is the entity tag of the
    answer and whose length and digest are those of a body that a client
    uploaded under this bucket and key, after every history of requests and
    passes of any number of schedulers over one store, in whatever order their
    calls are served, the ones of the download among them, whatever the tape
    worker did and whichever addresses answer. *)
Theorem s3_get_is_intact (reader : task) (tasks : list task) (origin : System (B := B) (T := T))
    (events : list (nat * Call (B := B) (T := T))) (g g' : GrpcGatewayBackend scheduler)
    (bucket key : string) headers (response : Response) :
  empty_store (sum_list (room_of <$> reader :: tasks)) origin →
  Forall (start_over origin) (reader :: tasks) →
  network g = finish envs h cache_clock svc panicked reader →
  s3_get reader bucket key headers g = (g', Ok response) → resp_status response = 200%Z →
  interleaves origin
    (made (world (network g')) :: (record_made envs h cache_clock svc panicked <$> tasks)) events →
  resp_headers response !! "etag" = Some (sha256_hex (resp_body response)) ∧
  ∃ body, requested (reader :: tasks) bucket key body ∧
    length (resp_body response) = length body ∧
    sha256_hex (resp_body response) = sha256_hex body.
Proof.
  intros Hs [Hr Hb]%Forall_cons Hg Hget Hst Hevents.
  pose proof (requested_stores (reader :: tasks)) as [Hup Hups]%Forall_cons.
  destruct (s3_get_safe (uploads := requested (reader :: tasks)) reader origin
    (sum_list (room_of <$> tasks)) g g' bucket key headers response)
    as (object & -> & -> & Hsafe); [done|exact Hs|done..|].
  destruct (known_among (uploads := requested (reader :: tasks)) envs h cache_clock svc panicked origin
    (others (world (task_start reader))) (room_of reader) (λ _, tagged (uploads := requested (reader :: tasks)) bucket key object) (network g')
    tasks events Hups Hs Hb) as [Htag Hbody]; [by rewrite Nat.add_comm, Nat.add_sub|done|].
  split; [by rewrite Htag|exact Hbody].
Qed.
End theorem.

(** ** A sample store *)

Module SampleStore.
Import Samples.

(** Two addresses, of which the second answers, over the store where an upload
    was recalled while another scheduler was at work *)
Definition reachable (addr : string) : bool := bool_decide (addr = "http://b:1").
Definition gateway : GrpcGatewayBackend SampleTasks.st :=
  mkGrpcBackend ["a:1"; "b:1"] 0 (SampleTasks.finish SampleTasks.outer).
Definition get : GrpcGatewayBackend SampleTasks.st * result panic Response :=
  @s3_get BitCodec.prost MemDB.rocksdb MemDB.formats Hdd SampleCache.disk_backend
    SimulatorState sample_sha256 sample_headers sample_chrono SampleSystem.working canonical_order
    SampleCache.clock SampleCache.settings reachable SampleTasks.outer "b" "k" ∅ gateway.
Definition calls : list SampleTasks.call := made (world (network get.1)).
End SampleStore.

Import Samples.

(** The upload comes back through the gateway, tagged with its digest. *)
Lemma s3_get_is_intact_witness :
  ∃ response, SampleStore.get.2 = Ok response ∧ resp_status response = 200%Z ∧
    resp_body response = [1; 2; 3]%Z ∧
    resp_headers response !! "etag" = Some (sha256_hex (resp_body response)) ∧
    ∃ body, requested [SampleTasks.outer; SampleTasks.inner SampleStore.calls] "b" "k" body ∧
      length (resp_body response) = length body ∧
      sha256_hex (resp_body response) = sha256_hex body.
Proof.
  eexists. split; [vm_compute; reflexivity|]. split; [reflexivity|]. split; [reflexivity|].
  eapply (@s3_get_is_intact BitCodec.prost MemDB.rocksdb MemDB.formats Hdd
    SampleCache.disk_backend SampleCache.disk_laws SimulatorState simulator_backend
    sample_sha256 sample_sha256_laws sample_debug sample_headers sample_chrono
    SampleSystem.working canonical_order SampleCache.clock SampleCache.settings SampleSystem.lost
    SampleStore.reachable SampleTasks.outer [SampleTasks.inner SampleStore.calls]
    SampleTasks.origin _ SampleStore.gateway _ "b" "k" ∅).
  - apply SampleTasks.origin_empty. vm_compute. reflexivity.
  - repeat constructor.
  - reflexivity.
  - apply run_with. vm_compute. reflexivity.
  - reflexivity.
  - apply SampleTasks.outer_interleaved.
    eapply (@s3_get_hears BitCodec.prost MemDB.rocksdb MemDB.formats Hdd
      SampleCache.disk_backend SampleCache.disk_laws SimulatorState simulator_backend
      sample_sha256 sample_sha256_laws sample_debug sample_headers sample_chrono
      SampleSystem.working canonical_order SampleCache.clock SampleCache.settings SampleSystem.lost
      SampleStore.reachable SampleTasks.outer SampleTasks.origin SampleStore.gateway).
    + apply SampleTasks.origin_empty. vm_compute. reflexivity.
    + apply SampleTasks.starts.
    + reflexivity.
    + apply run_with. vm_compute. reflexivity.
    + reflexivity.
Defined.
